(** * jsrundir: the directory watcher, the notification queue and the reload engine

    A shallow embedding of [jsrundir.js] and the properties of its
    watch-and-reconcile engine and of its serialized notification queue.

    The model mirrors the source:

    - [Js]: the few pieces of JavaScript semantics the program relies on
      (property lookup on an object literal, which also sees the keys of
      [Object.prototype]; truthiness; exceptions);
    - [RunWatcher]: the class of the same name, one instance per watched
      directory, parameterized by the world its callbacks act on;
    - [RunDir]: the exported class with its private notification queue
      ([#notify] and its promise chain), its handler registry ([on]) and
      the [adder] / [remover] closures of [#run].

    Then come the vocabulary of the statements, and the facts: the native
    listener, the initial scan and the teardown, the invariant of the
    tracked maps, the invariant of the queue and what follows from it, and
    the closures of the engine.

    Names are strings of code units; [String.le] is the order used by the
    default [Array.prototype.sort].  File system calls are taken to
    succeed: their answers ([readdirSync], [statSync]) are inputs, and so
    is the real path a path resolves to, by which [require] keys its
    cache.  Console output of [log] is not modelled; that of [error]
    is. *)

From Stdlib Require Import Ascii String.
From stdpp Require Import gmap strings list fin_maps sorting.

(* ===================================================================== *)
(** ** JavaScript preliminaries *)
(* ===================================================================== *)

Module Js.

Local Open Scope string_scope.

(** Exceptions raised with [throw new Error(msg)] and by the runtime. *)
Inductive exn : Type :=
| Error (msg : string)
| TypeError (msg : string).

(** How a call ends: it returns, it throws (the mutations made so far
    stay), or the model ran out of fuel. *)
Inductive outcome (S : Type) : Type :=
| Returned (s : S)
| Thrown (e : exn) (s : S)
| Diverged.
Global Arguments Returned {S} s.
Global Arguments Thrown {S} e s.
Global Arguments Diverged {S}.

Definition bind {S} (o : outcome S) (k : S -> outcome S) : outcome S :=
  match o with
  | Returned s => k s
  | Thrown e s => Thrown e s
  | Diverged => Diverged
  end.

Definition lift {S T} (f : S -> T) (o : outcome S) : outcome T :=
  match o with
  | Returned s => Returned (f s)
  | Thrown e s => Thrown e (f s)
  | Diverged => Diverged
  end.

(** [for (const x of xs) body(x)] *)
Fixpoint for_of {A S} (xs : list A) (body : A -> S -> outcome S) (s : S)
  : outcome S :=
  match xs with
  | [] => Returned s
  | x :: xs' => bind (body x s) (for_of xs' body)
  end.

(** The own property names of [Object.prototype]: every object literal
    inherits them, so [o[k]] is defined (and truthy) for these [k] even
    when [o] has no such key of its own. *)
Definition object_prototype_keys : list string :=
  [ "constructor"; "__defineGetter__"; "__defineSetter__"; "hasOwnProperty";
    "__lookupGetter__"; "__lookupSetter__"; "isPrototypeOf";
    "propertyIsEnumerable"; "toString"; "valueOf"; "__proto__";
    "toLocaleString" ].

Definition inherited (k : string) : bool :=
  bool_decide (k ∈ object_prototype_keys).

(** The result of [o[k]] for an object literal [o] whose own properties
    are the map [m]. *)
Inductive property (A : Type) : Type :=
| Own (a : A)
| Inherited (k : string)
| Undefined.
Global Arguments Own {A} a.
Global Arguments Inherited {A} k.
Global Arguments Undefined {A}.

Definition get {A} (m : gmap string A) (k : string) : property A :=
  match m !! k with
  | Some a => Own a
  | None => if inherited k then Inherited k else Undefined
  end.

(** Stored values are objects or arrays and inherited ones are functions
    (or [Object.prototype] itself): all truthy. *)
Definition truthy {A} (p : property A) : bool :=
  match p with
  | Undefined => false
  | _ => true
  end.

(** The [name] property of an inherited value: a built-in function
    carries its own name, [constructor] is [Object], and
    [Object.prototype] has none (the key becomes ["undefined"]). *)
Definition builtin_name (k : string) : string :=
  if String.eqb k "constructor" then "Object"
  else if String.eqb k "__proto__" then "undefined"
  else k.

(** [s.endsWith(suffix)] *)
Definition endsWith (s suffix : string) : bool :=
  (String.length suffix <=? String.length s)%nat
  && String.eqb
       (String.substring (String.length s - String.length suffix)
                  (String.length suffix) s)
       suffix.

(** [s[0] != '.'] *)
Definition not_dot_first (s : string) : bool :=
  match s with
  | String "."%char _ => false
  | _ => true
  end.

(** [Object.keys(o).sort()] and [names.sort()]: ascending code-unit order. *)
Definition sort (l : list string) : list string := merge_sort String.le l.

Definition keys {A} (m : gmap string A) : list string := (map_to_list m).*1.

End Js.

Export Js.

(* ===================================================================== *)
(** ** The directory watcher: [class RunWatcher] *)
(* ===================================================================== *)

Module RunWatcher.

Local Open Scope string_scope.

(** [fs.Stats], reduced to what [isFile()] and [isDirectory()] answer. *)
Inductive Stats : Type := StFile | StDirectory | StOther.

Definition stat_isFile (s : Stats) : bool :=
  match s with StFile => true | _ => false end.
Definition stat_isDirectory (s : Stats) : bool :=
  match s with StDirectory => true | _ => false end.

(** The object built by [fileInfo]. *)
Record info : Type := Info {
  path : string;
  name : string;
  isFile : bool;
  isDirectory : bool;
}.

Global Instance info_eq_dec : EqDecision info.
Proof. solve_decision. Defined.

(** What [this.files[k]] or [this.directories[k]] can hand to a callback:
    a tracked [info], a value inherited from [Object.prototype], or
    [undefined]. *)
Inductive value : Type :=
| VInfo (i : info)
| VBuiltin (k : string)
| VUndefined.

Global Instance value_eq_dec : EqDecision value.
Proof. solve_decision. Defined.

Definition to_value (p : property info) : value :=
  match p with
  | Own i => VInfo i
  | Inherited k => VBuiltin k
  | Undefined => VUndefined
  end.

(** [v.isFile] and [v.isDirectory] read as conditions. *)
Definition value_isFile (v : value) : bool :=
  match v with VInfo i => isFile i | _ => false end.
Definition value_isDirectory (v : value) : bool :=
  match v with VInfo i => isDirectory i | _ => false end.

(** [path.join(dir, file)] for a child name [file] of [dir]; [path.sep]
    is the POSIX separator. *)
Definition sep : string := "/".
Definition path_join (dir file : string) : string := dir ++ sep ++ file.

(** The instance fields.  [C] names the closures a watcher can be handed
    in [watch(add, remove)]; [watcher] is the native handle (the path it
    was opened on) or [null]; [directories] is [undefined] unless the
    watcher was built with [subdirs = true]. *)
Record t (C : Type) : Type := Watcher {
  wpath : string;
  files : gmap string info;
  watcher : option string;
  directories : option (gmap string info);
  added : option C;
  removed : option C;
}.
Global Arguments Watcher {C}.
Global Arguments wpath {C}.
Global Arguments files {C}.
Global Arguments watcher {C}.
Global Arguments directories {C}.
Global Arguments added {C}.
Global Arguments removed {C}.

(** [constructor(target, subdirs = false)] *)
Definition new {C} (target : string) (subdirs : bool) : t C :=
  {| wpath := target;
     files := ∅;
     watcher := None;
     directories := if subdirs then Some ∅ else None;
     added := None;
     removed := None |}.

Definition set_files {C} (f : gmap string info) (w : t C) : t C :=
  {| wpath := wpath w; files := f; watcher := watcher w;
     directories := directories w; added := added w; removed := removed w |}.
Definition set_directories {C} (d : gmap string info) (w : t C) : t C :=
  {| wpath := wpath w; files := files w; watcher := watcher w;
     directories := Some d; added := added w; removed := removed w |}.
Definition set_watcher {C} (h : option string) (w : t C) : t C :=
  {| wpath := wpath w; files := files w; watcher := h;
     directories := directories w; added := added w; removed := removed w |}.
Definition set_callbacks {C} (add remove : C) (w : t C) : t C :=
  {| wpath := wpath w; files := files w; watcher := watcher w;
     directories := directories w; added := Some add; removed := Some remove |}.

(** [fileInfo(path, name, stat)] *)
Definition fileInfo (p n : string) (stat : option Stats) : info :=
  {| path := p;
     name := n;
     isFile := match stat with Some s => stat_isFile s | None => false end;
     isDirectory :=
       match stat with Some s => stat_isDirectory s | None => false end |}.

Section Methods.

(** [E] is the state the callbacks and the native layer act on; [call]
    applies a closure; [fs_watch] and [fs_close] open and close a native
    handle; [realname] is the module constant [__realname]. *)
Context {E C : Type}.
Context (call : C -> value -> E -> outcome E).
Context (fs_watch fs_close : string -> E -> E).
Context (realname : string).

Definition state : Type := t C * E.
Definition proc : Type := state -> outcome state.

Definition skip : proc := fun s => Returned s.

(** [this.added(v)] / [this.removed(v)] for the stored closure [c]. *)
Definition invoke (c : option C) (v : value) : proc :=
  fun '(w, e) =>
    match c with
    | None => Thrown (TypeError "not a function") (w, e)
    | Some f => lift (fun e' => (w, e')) (call f v e)
    end.

Definition checkFile (w : t C) (p n : string) : bool :=
  not_dot_first n
  && (endsWith n ".js" || endsWith n ".json")
  && negb (String.eqb p realname)
  && negb (truthy (get (files w) n)).

Definition checkDirectory (w : t C) (p n : string) : bool :=
  not_dot_first n
  && match directories w with
     | Some d => negb (truthy (get d n))
     | None => false
     end.

Definition fileAdded (i : info) : proc :=
  fun '(w, e) =>
    if negb (checkFile w (path i) (name i)) then Returned (w, e)
    else
      let w' := set_files (<[name i := i]> (files w)) w in
      invoke (added w') (VInfo i) (w', e).

(** [info.name] for whatever was passed as [info]. *)
Definition value_name (v : value) : option string :=
  match v with
  | VInfo i => Some (name i)
  | VBuiltin k => Some (builtin_name k)
  | VUndefined => None
  end.

Definition fileRemoved (v : value) : proc :=
  fun '(w, e) =>
    match value_name v with
    | None => Thrown (TypeError "cannot read properties of undefined") (w, e)
    | Some n =>
        let w' := set_files (delete n (files w)) w in
        invoke (removed w') v (w', e)
    end.

Definition directoryAdded (i : info) : proc :=
  fun '(w, e) =>
    if negb (checkDirectory w (path i) (name i)) then Returned (w, e)
    else
      match directories w with
      | None => Thrown (TypeError "cannot set properties of undefined") (w, e)
      | Some d =>
          let w' := set_directories (<[name i := i]> d) w in
          invoke (added w') (VInfo i) (w', e)
      end.

Definition directoryRemoved (v : value) : proc :=
  fun '(w, e) =>
    match value_name v, directories w with
    | Some n, Some d =>
        let w' := set_directories (delete n d) w in
        invoke (removed w') v (w', e)
    | _, _ => Thrown (TypeError "cannot read properties of undefined") (w, e)
    end.

(** The listener handed to [fs.watch]: one native notification
    [(event, file)], where [stat] is what [fs.statSync(target)] answers
    at that moment ([None] when there is no entry). *)
Definition listener (event file : string) (stat : option Stats) : proc :=
  fun '(w, e) =>
    let target := path_join (wpath w) file in
    let i := fileInfo target file stat in
    bind
      (if truthy (get (files w) file) then
         fileRemoved (to_value (get (files w) file)) (w, e)
       else
         match directories w with
         | Some d =>
             if truthy (get d file) && negb (isDirectory i)
             then directoryRemoved (to_value (get d file)) (w, e)
             else Returned (w, e)
         | None => Returned (w, e)
         end)
      (if isFile i then fileAdded i
       else if isDirectory i then directoryAdded i
       else skip).

(** [fs.readdirSync(this.path).sort().map(...)] for the listing
    [readdir] and the answers [stat] of [fs.statSync]. *)
Definition scan (w : t C) (readdir : list string)
    (stat : string -> option Stats) : list info :=
  (fun file => let sub := path_join (wpath w) file in
               fileInfo sub file (stat sub)) <$> sort readdir.

(** [watch(add, remove)] *)
Definition watch (add remove : C) (readdir : list string)
    (stat : string -> option Stats) : proc :=
  fun '(w, e) =>
    match watcher w with
    | Some _ =>
        Thrown (Error ("Already watching '" ++ wpath w ++ "'")) (w, e)
    | None =>
        let w1 := set_callbacks add remove w in
        let h := wpath w ++ sep ++ "." in
        let e1 := fs_watch h e in
        let w2 := set_watcher (Some h) w1 in
        let infos := scan w2 readdir stat in
        bind
          (for_of infos
             (fun i => if isFile i then fileAdded i else skip) (w2, e1))
          (for_of infos
             (fun i => if isDirectory i then directoryAdded i else skip))
    end.

(** [stop()] *)
Definition stop : proc :=
  fun '(w, e) =>
    match watcher w with
    | None => Thrown (Error ("Not watching '" ++ wpath w ++ "'")) (w, e)
    | Some h =>
        let e1 := fs_close h e in
        let w1 := set_watcher None w in
        bind
          (match directories w1 with
           | Some d =>
               for_of (reverse (sort (keys d)))
                 (fun dir '(w', e') =>
                    directoryRemoved
                      (match directories w' with
                       | Some d' => to_value (get d' dir)
                       | None => VUndefined
                       end) (w', e'))
                 (w1, e1)
           | None => Returned (w1, e1)
           end)
          (fun '(w2, e2) =>
             for_of (reverse (sort (keys (files w2))))
               (fun file '(w', e') =>
                  fileRemoved (to_value (get (files w') file)) (w', e'))
               (w2, e2))
    end.

End Methods.

(** *** The recording world

    To speak about the calls a watcher makes, the callbacks and the
    native layer are instantiated to write what they are asked into a
    log. *)

Inductive cb : Type := onAdd | onRemove.

Global Instance cb_eq_dec : EqDecision cb.
Proof. solve_decision. Defined.

Inductive event : Type :=
| NativeOpen (h : string)
| NativeClose (h : string)
| Call (c : cb) (v : value).

Global Instance event_eq_dec : EqDecision event.
Proof. solve_decision. Defined.

Definition trace : Type := list event.

Definition rec_call (c : cb) (v : value) (tr : trace) : outcome trace :=
  Returned (tr ++ [Call c v])%list.
Definition rec_watch (h : string) (tr : trace) : trace :=
  (tr ++ [NativeOpen h])%list.
Definition rec_close (h : string) (tr : trace) : trace :=
  (tr ++ [NativeClose h])%list.

End RunWatcher.

(* ===================================================================== *)
(** ** The reload engine: the exported class *)
(* ===================================================================== *)

Module RunDir.

Local Open Scope string_scope.

Import RunWatcher.

(** Functions supplied by user code (observers and lifecycle hooks) are
    opaque: they are named by a number and the environment says how each
    invocation ends. *)
Definition handler : Type := nat.

(** The shape of [exports.jsrundir] as the engine inspects it: not of
    type "object", [null], or an object whose [onLoad] / [onUnload] are
    functions or not. *)
Inductive hooks : Type :=
| HooksAbsent
| HooksNull
| HooksObject (onLoad onUnload : option handler).

(** What [require(path)] returns (the module's [exports]): [null] or
    [undefined], another falsy value, or a truthy value. *)
Inductive exports : Type :=
| ExNullish
| ExFalsy
| ExTruthy (id : nat) (jsrundir : hooks).

Inductive arg : Type :=
| APath (p : string)
| AExports (x : exports).

(** First argument of [#notify]: an event name or a function. *)
Inductive event : Type :=
| Named (k : string)
| Fn (h : handler).

(** [#handlers = { load: [], unload: [] }] *)
Record registry : Type := Registry {
  load : list handler;
  unload : list handler;
}.

(** [this.#handlers[k]] *)
Definition registry_get (r : registry) (k : string)
  : property (list handler) :=
  if String.eqb k "load" then Own (load r)
  else if String.eqb k "unload" then Own (unload r)
  else if inherited k then Inherited k
  else Undefined.

(** How one invocation of a handler ends: it returns (or its promise is
    already fulfilled), it throws (or its promise is already rejected),
    or it returns a promise that is still pending. *)
Inductive reaction : Type :=
| Returns
| Throws (e : exn)
| Pends.

(** The promise chain built by one call of [#notify]. *)
Inductive phase : Type :=
| Waiting                    (* the slot promise is pending *)
| Ready                      (* slot resolved: first [then] callback scheduled *)
| Running (pending : list nat) (* handlers invoked; these have not settled *)
| Settled                    (* first callback done: second one scheduled *)
| Failed (e : exn)           (* first callback threw: the chain is rejected *)
| Released.                  (* second callback has run *)

Record batch : Type := Batch {
  b_event : event;
  b_args : list arg;
  b_phase : phase;
}.

Definition set_phase (p : phase) (b : batch) : batch :=
  {| b_event := b_event b; b_args := b_args b; b_phase := p |}.

(** What an outside observer can see. *)
Inductive obs : Type :=
| Began (id : nat)
| Invoked (id : nat) (h : handler) (args : list arg)
| Completed (id : nat)
| Reported (e : exn)          (* [error(e)] *)
| Opened (h : string)         (* [fs.watch] *)
| Closed (h : string).        (* [watcher.close()] *)

Inductive closure : Type := adder | remover.

(** The private fields, the promises made by [#notify] (a resolver in
    [#queue] is named by the index of its promise in [batches]),
    [require.cache] and the log. *)
Record t : Type := Engine {
  targets : list string;
  watchers : gmap string (RunWatcher.t closure);
  queue : list nat;
  handlers : registry;
  batches : list batch;
  cache : gmap string exports;
  log : list obs;
}.

Definition init : t :=
  {| targets := []; watchers := ∅; queue := [];
     handlers := {| load := []; unload := [] |};
     batches := []; cache := ∅; log := [] |}.

Definition set_watchers (ws : gmap string (RunWatcher.t closure)) (s : t) : t :=
  {| targets := targets s; watchers := ws; queue := queue s;
     handlers := handlers s; batches := batches s; cache := cache s;
     log := log s |}.
Definition set_queue (q : list nat) (s : t) : t :=
  {| targets := targets s; watchers := watchers s; queue := q;
     handlers := handlers s; batches := batches s; cache := cache s;
     log := log s |}.
Definition set_handlers (r : registry) (s : t) : t :=
  {| targets := targets s; watchers := watchers s; queue := queue s;
     handlers := r; batches := batches s; cache := cache s; log := log s |}.
Definition set_batches (bs : list batch) (s : t) : t :=
  {| targets := targets s; watchers := watchers s; queue := queue s;
     handlers := handlers s; batches := bs; cache := cache s; log := log s |}.
Definition set_cache (c : gmap string exports) (s : t) : t :=
  {| targets := targets s; watchers := watchers s; queue := queue s;
     handlers := handlers s; batches := batches s; cache := c; log := log s |}.
Definition emit (os : list obs) (s : t) : t :=
  {| targets := targets s; watchers := watchers s; queue := queue s;
     handlers := handlers s; batches := batches s; cache := cache s;
     log := (log s ++ os)%list |}.
Definition set_targets (ts : list string) (s : t) : t :=
  {| targets := ts; watchers := watchers s; queue := queue s;
     handlers := handlers s; batches := batches s; cache := cache s;
     log := log s |}.

Definition phase_of (s : t) (id : nat) : option phase :=
  b_phase <$> batches s !! id.

Definition put_phase (id : nat) (p : phase) (s : t) : t :=
  set_batches (alter (set_phase p) id (batches s)) s.

(** Calling a resolver: a promise that is no longer pending ignores it. *)
Definition resolve (id : nat) (s : t) : t :=
  match phase_of s id with
  | Some Waiting => put_phase id Ready s
  | _ => s
  end.

(** [on(event, handler)] *)
Definition on (ev : string) (h : handler) (s : t) : outcome t :=
  match registry_get (handlers s) ev with
  | Undefined => Returned s
  | Inherited _ => Thrown (TypeError "this.#handlers[event].push is not a function") s
  | Own _ =>
      let r := handlers s in
      Returned
        (set_handlers
           (if String.eqb ev "load"
            then {| load := (load r ++ [h])%list; unload := unload r |}
            else {| load := load r; unload := (unload r ++ [h])%list |}) s)
  end.

(** The synchronous part of [#notify(event, ...args)]: the executor of
    the slot promise. *)
Definition notify (ev : event) (args : list arg) (s : t) : t :=
  let id := length (batches s) in
  let s1 :=
    set_batches
      (batches s ++ [{| b_event := ev; b_args := args; b_phase := Waiting |}])%list
      s in
  let s2 := set_queue (queue s1 ++ [id])%list s1 in
  if (length (queue s2) =? 1)%nat then resolve id s2 else s2.

Section Queue.

(** [behave id k h]: how handler [h], the [k]-th of batch [id], ends. *)
Context (behave : nat -> nat -> handler -> reaction).

(** The handlers of [hs], numbered from [k0], each with the way its
    invocation ends; [handlers.map] calls them in this order. *)
Fixpoint reactions (id k0 : nat) (hs : list handler)
    : list (nat * reaction) :=
  match hs with
  | [] => []
  | h :: hs' => (k0, behave id k0 h) :: reactions id (S k0) hs'
  end.

Definition pending_of (rs : list (nat * reaction)) : list nat :=
  omap (fun '(k, r) => match r with Pends => Some k | _ => None end) rs.

Definition thrown_of (rs : list (nat * reaction)) : list exn :=
  omap (fun '(_, r) => match r with Throws e => Some e | _ => None end) rs.

(** The first [then] callback of batch [id]. *)
Definition start (id : nat) (s : t) : option t :=
  match batches s !! id with
  | Some {| b_event := ev; b_args := args; b_phase := Ready |} =>
      match
        match ev with
        | Fn h => Own [h]
        | Named k => registry_get (handlers s) k
        end
      with
      | Undefined =>
          Some (emit [Began id; Completed id] (put_phase id Settled s))
      | Inherited _ =>
          Some (emit [Began id]
                  (put_phase id
                     (Failed (TypeError "handlers.map is not a function")) s))
      | Own hs =>
          let rs := reactions id 0 hs in
          let seen :=
            (Began id :: ((fun h => Invoked id h args) <$> hs)
             ++ (Reported <$> thrown_of rs))%list in
          match pending_of rs with
          | [] => Some (emit (seen ++ [Completed id])%list
                          (put_phase id Settled s))
          | ks => Some (emit seen (put_phase id (Running ks) s))
          end
      end
  | _ => None
  end.

(** The pending promise of handler [k] of batch [id] settles: fulfilled
    ([None]) or rejected with [e] (then [.catch] reports it). *)
Definition settle (id k : nat) (r : option exn) (s : t) : option t :=
  match phase_of s id with
  | Some (Running ks) =>
      if bool_decide (k ∈ ks) then
        let said := match r with Some e => [Reported e] | None => [] end in
        match filter (fun k' => k' ≠ k) ks with
        | [] => Some (emit (said ++ [Completed id])%list
                        (put_phase id Settled s))
        | ks' => Some (emit said (put_phase id (Running ks') s))
        end
      else None
  | _ => None
  end.

(** The second [then] callback of batch [id]. *)
Definition finish (id : nat) (s : t) : option t :=
  match phase_of s id with
  | Some Settled =>
      let s1 := set_queue (tail (queue s)) (put_phase id Released s) in
      Some match queue s1 with
           | next :: _ => resolve next s1
           | [] => s1
           end
  | _ => None
  end.

(** What can happen to the queue, one step at a time. *)
Inductive action : Type :=
| DoNotify (ev : event) (args : list arg)
| DoOn (ev : string) (h : handler)
| DoStart (id : nat)
| DoSettle (id k : nat) (r : option exn)
| DoFinish (id : nat).

Definition step (a : action) (s : t) : option t :=
  match a with
  | DoNotify ev args => Some (notify ev args s)
  | DoOn ev h =>
      match on ev h s with
      | Returned s' | Thrown _ s' => Some s'
      | Diverged => None
      end
  | DoStart id => start id s
  | DoSettle id k r => settle id k r s
  | DoFinish id => finish id s
  end.

Fixpoint run_actions (acts : list action) (s : t) : option t :=
  match acts with
  | [] => Some s
  | a :: acts' =>
      match step a s with
      | Some s' => run_actions acts' s'
      | None => None
      end
  end.

(** The microtask the head of the queue is waiting for, if any. *)
Definition microtask (s : t) : option t :=
  match queue s with
  | [] => None
  | id :: _ =>
      match phase_of s id with
      | Some Ready => start id s
      | Some Settled => finish id s
      | _ => None
      end
  end.

Fixpoint drain (fuel : nat) (s : t) : t :=
  match fuel with
  | 0 => s
  | S n => match microtask s with Some s' => drain n s' | None => s end
  end.

End Queue.

(** The life of the batches as the log shows it. *)
Definition is_life (o : obs) : bool :=
  match o with Began _ | Completed _ => true | _ => false end.
Definition lifecycle (l : list obs) : list obs := filter is_life l.

Definition busy (p : phase) : bool :=
  match p with
  | Ready | Running _ | Settled => true
  | _ => false
  end.

Section Closures.

(** The environment one synchronous call sees: what running the file at
    a real path yields, the real path a path resolves to (symbolic
    links followed), what [fs.readdirSync] lists and [fs.statSync]
    answers, and the module constant [__realname]. *)
Inductive loaded : Type :=
| LoadOk (x : exports)
| LoadFails (e : exn).

Context (loader : string -> loaded).
Context (realpath : string -> string).
Context (readdir : string -> list string).
Context (stat : string -> option Stats).
Context (realname : string).

(** [require(path)]: the module system resolves [path] to the real
    path of the file and keys [require.cache] by that; the result is
    the cached exports of the file, or those of a fresh load, which are
    then cached under the real path. *)
Definition require (p : string) (s : t) : loaded * t :=
  let r := realpath p in
  match cache s !! r with
  | Some x => (LoadOk x, s)
  | None =>
      match loader r with
      | LoadOk x => (LoadOk x, set_cache (<[r := x]> (cache s)) s)
      | LoadFails e => (LoadFails e, s)
      end
  end.

Definition null_read : exn :=
  TypeError "cannot read properties of null".

(** Run a method of the watcher registered at [p] and store the
    watcher back (the registry holds the object itself). *)
Definition with_watcher (p : string) (w : RunWatcher.t closure)
    (m : RunWatcher.t closure * t -> outcome (RunWatcher.t closure * t))
    (s : t) : outcome t :=
  lift (fun '(w', s') => set_watchers (<[p := w']> (watchers s')) s')
          (m (w, s)).

(** The bodies of the two closures of [#run]; [self] applies the
    closures themselves where a body hands them on. *)
Definition adder_body (self : closure -> value -> t -> outcome t)
    (add : value) (s : t) : outcome t :=
  match add with
  | VInfo i =>
      if isFile i then
        match require (path i) s with
        | (LoadFails e, s1) => Returned (emit [Reported e] s1)
        | (LoadOk x, s1) =>
            match x with
            | ExTruthy _ HooksNull => Returned (emit [Reported null_read] s1)
            | ExTruthy _ (HooksObject (Some h) _) =>
                Returned
                  (notify (Named "load") [APath (path i); AExports x]
                     (notify (Fn h) [] s1))
            | _ =>
                Returned
                  (notify (Named "load") [APath (path i); AExports x] s1)
            end
        end
      else if isDirectory i && negb (truthy (get (watchers s) (path i)))
      then
        let w := RunWatcher.new (path i) false in
        let s1 := set_watchers (<[path i := w]> (watchers s)) s in
        with_watcher (path i) w
          (watch self (fun h => emit [Opened h]) realname adder remover
             (readdir (path i)) stat)
          s1
      else Returned s
  | _ => Returned s
  end.

Definition remover_body (self : closure -> value -> t -> outcome t)
    (remove : value) (s : t) : outcome t :=
  match remove with
  | VInfo i =>
      if isFile i then
        match cache s !! path i with
        | None => Returned s
        | Some x =>
            let s1 := set_cache (delete (path i) (cache s)) s in
            let s2 := notify (Named "unload") [APath (path i); AExports x] s1 in
            match x with
            | ExNullish =>
                Thrown (TypeError "cannot read properties of undefined") s2
            | ExTruthy _ HooksNull => Thrown null_read s2
            | ExTruthy _ (HooksObject _ (Some h)) =>
                Returned (notify (Fn h) [] s2)
            | _ => Returned s2
            end
        end
      else if isDirectory i then
        match get (watchers s) (path i) with
        | Own w =>
            match
              with_watcher (path i) w
                (stop self (fun h => emit [Closed h])) s
            with
            | Returned s1 =>
                Returned
                  match directories w with
                  | None => set_watchers (delete (path i) (watchers s1)) s1
                  | Some _ => s1
                  end
            | o => o
            end
        | _ => Thrown (TypeError "watcher.stop is not a function") s
        end
      else Returned s
  | _ => Returned s
  end.

(** The closures, applied: each level of [fuel] allows one more nested
    call of a closure from inside a watcher it started or stopped. *)
Fixpoint call_closure (fuel : nat) (c : closure) (v : value) (s : t)
    : outcome t :=
  match fuel with
  | 0 => Diverged
  | S n =>
      match c with
      | adder => adder_body (call_closure n) v s
      | remover => remover_body (call_closure n) v s
      end
  end.

(** [#run(target)] *)
Definition run_target (fuel : nat) (target : string) (s : t) : outcome t :=
  match get (watchers s) target with
  | Own w =>
      match directories w with
      | None => Thrown (Error ("Unknown target: " ++ target)) s
      | Some _ =>
          with_watcher target w
            (watch (call_closure fuel) (fun h => emit [Opened h]) realname
               adder remover (readdir target) stat)
            s
      end
  | Inherited _ => Thrown (Error ("Unknown target: " ++ target)) s
  | Undefined => Thrown (Error ("Unknown target: " ++ target)) s
  end.

(** [run()] *)
Definition run (fuel : nat) (s : t) : outcome t :=
  for_of (targets s) (run_target fuel) s.

(** [#stop(target)] *)
Definition stop_target (fuel : nat) (target : string) (s : t) : outcome t :=
  match get (watchers s) target with
  | Own w =>
      match directories w with
      | None => Thrown (Error ("Unknown target: " ++ target)) s
      | Some _ =>
          with_watcher target w
            (RunWatcher.stop (call_closure fuel) (fun h => emit [Closed h]))
            s
      end
  | Inherited _ => Thrown (Error ("Unknown target: " ++ target)) s
  | Undefined => Thrown (Error ("Unknown target: " ++ target)) s
  end.

(** [stop()]: [Array.prototype.reverse] reverses [#targets] in place
    and the loop runs over the reversed array. *)
Definition stop (fuel : nat) (s : t) : outcome t :=
  let s1 := set_targets (reverse (targets s)) s in
  for_of (targets s1) (stop_target fuel) s1.

(** A native notification [(ev, file)] for the handle of the watcher
    registered at [p]: the runtime calls the listener that [watch] gave
    to [fs.watch]; [st] is what [fs.statSync] answers for the entry at
    that moment.  A closed handle delivers nothing. *)
Definition deliver (fuel : nat) (p ev file : string) (st : option Stats)
    (s : t) : outcome t :=
  match watchers s !! p with
  | Some w =>
      match watcher w with
      | Some _ =>
          with_watcher p w
            (listener (call_closure fuel) realname ev file st) s
      | None => Returned s
      end
  | None => Returned s
  end.

End Closures.

Section Targets.

(** [path.resolve] and [fs.lstatSync]; the latter throws when there is
    no entry ([None]). *)
Context (path_resolve : string -> string).
Context (lstat : string -> option Stats).

(** [add(target)] *)
Definition add (target : string) (s : t) : outcome t :=
  let target := path_resolve target in
  match lstat target with
  | None =>
      Thrown (Error ("ENOENT: no such file or directory, lstat '"
                     ++ target ++ "'")) s
  | Some st =>
      if negb (stat_isDirectory st) then
        Thrown (Error ("Not a directory: " ++ target)) s
      else if truthy (get (watchers s) target) then
        Thrown (Error ("Already watching: " ++ target)) s
      else
        Returned
          (set_watchers
             (<[target := RunWatcher.new target true]> (watchers s))
             (set_targets (targets s ++ [target])%list s))
  end.

(** The argument of the constructor: an array of targets, or one
    target. *)
Inductive targets_arg : Type :=
| OneTarget (target : string)
| ManyTargets (targets : list string).

(** [constructor(targets)] *)
Definition new (a : targets_arg) : outcome t :=
  for_of (match a with OneTarget t => [t] | ManyTargets ts => ts end)
    add init.

End Targets.

Section Main.

Context (loader : string -> loaded).
Context (realpath : string -> string).
Context (readdir : string -> list string).
Context (stat : string -> option Stats).
Context (realname : string).
Context (path_resolve : string -> string).
Context (lstat : string -> option Stats).

(** The command line: [argv] holds the arguments that follow the name
    of the script and [dirname] is [__dirname].  The signal handlers it
    installs do nothing until a signal arrives. *)
Definition main (fuel : nat) (argv : list string) (dirname : string)
    : outcome t :=
  bind
    (new path_resolve lstat
       match argv with
       | [] => OneTarget dirname
       | _ :: _ => ManyTargets argv
       end)
    (run loader realpath readdir stat realname fuel).

End Main.

End RunDir.

(* ===================================================================== *)
(** ** Vocabulary of the statements *)
(* ===================================================================== *)

Import RunWatcher.

(** The part of [checkFile] that does not depend on what is tracked. *)
Definition file_static_ok {C} (realname : string) (w : RunWatcher.t C)
    (n : string) : bool :=
  not_dot_first n
  && (endsWith n ".js" || endsWith n ".json")
  && negb (String.eqb (path_join (wpath w) n) realname).

(** The invariant of the two maps of a watcher: an entry sits under its own
    name, is what [fileInfo] builds for a child of the watched directory,
    and passed the check that admitted it; no name is in both maps. *)
Record tracked_ok {C} (realname : string) (w : RunWatcher.t C) : Prop := {
  files_ok : forall k i, files w !! k = Some i ->
    i = fileInfo (path_join (wpath w) k) k (Some StFile)
    /\ file_static_ok realname w k = true;
  dirs_ok : forall d k i, directories w = Some d -> d !! k = Some i ->
    i = fileInfo (path_join (wpath w) k) k (Some StDirectory)
    /\ not_dot_first k = true /\ inherited k = false;
  disjoint_ok : forall d k, directories w = Some d ->
    is_Some (files w !! k) -> d !! k = None;
}.

(** A watcher in the recording world whose [watch] was called with the
    closures [onAdd] and [onRemove]. *)
Definition wired (w : RunWatcher.t cb) : Prop :=
  added w = Some onAdd /\ removed w = Some onRemove.

(** The calls [onAdd(i)] and [onRemove(i)] as log entries. *)
Definition adds (l : list info) : trace := (fun i => Call onAdd (VInfo i)) <$> l.
Definition removes (l : list info) : trace :=
  (fun i => Call onRemove (VInfo i)) <$> l.

Definition is_add (e : RunWatcher.event) : bool :=
  match e with Call onAdd _ => true | _ => false end.

(** The second half of the listener in the recording world: the add the
    fresh stat asks for. *)
Definition add_step (realname : string) (i : info) : @proc trace cb :=
  if isFile i then fileAdded rec_call realname i
  else if isDirectory i then directoryAdded rec_call i
  else skip.

(** [l] lists the entries of the map [m] under the names [ks], in that
    order. *)
Definition entries_at (m : gmap string info) (ks : list string)
    (l : list info) : Prop :=
  Forall2 (fun k i => m !! k = Some i) ks l.

(** *** A small installation used in the examples

    A root [/srv] holding the script [a.js] and the directory [plugins];
    the engine's own file lives elsewhere. *)

Local Open Scope string_scope.

Definition demo_realname : string := "/opt/jsrundir/jsrundir.js".

Definition demo_readdir : list string := ["plugins"; "a.js"].

Definition demo_stat (p : string) : option Stats :=
  if String.eqb p "/srv/a.js" then Some StFile
  else if String.eqb p "/srv/plugins" then Some StDirectory
  else None.

Definition demo_file : info := fileInfo "/srv/a.js" "a.js" (Some StFile).
Definition demo_dir : info := fileInfo "/srv/plugins" "plugins" (Some StDirectory).

(** A directory [/data] listed out of order: two scripts, a hidden script,
    a file that is no script, and two directories. *)
Definition demo_mixed_readdir : list string :=
  ["zeta"; "b.js"; "README.md"; "alpha"; "a.json"; ".cache.js"].

Definition demo_mixed_stat (p : string) : option Stats :=
  if String.eqb p "/data/zeta" || String.eqb p "/data/alpha"
  then Some StDirectory
  else if String.eqb p "/data/b.js" || String.eqb p "/data/a.json"
          || String.eqb p "/data/README.md" || String.eqb p "/data/.cache.js"
  then Some StFile
  else None.

(** The root watcher once [watch(onAdd, onRemove)] has scanned [/srv]. *)
Definition demo_root : RunWatcher.t cb :=
  {| wpath := "/srv";
     files := {[ "a.js" := demo_file ]};
     watcher := Some "/srv/.";
     directories := Some {[ "plugins" := demo_dir ]};
     added := Some onAdd;
     removed := Some onRemove |}.

Local Close Scope string_scope.

(** What the initial scan adds, judged on the watcher [w] as it is when
    [watch] is called. *)
Definition eligible_file {C} (realname : string) (w : RunWatcher.t C)
    (i : info) : bool :=
  isFile i && checkFile realname w (path i) (name i).

Definition eligible_dir {C} (w : RunWatcher.t C) (i : info) : bool :=
  isDirectory i && checkDirectory w (path i) (name i).

(** [m[i.name] = i] for each [i] of [l], in order. *)
Definition insert_all (m : gmap string info) (l : list info)
    : gmap string info :=
  foldl (fun m i => <[name i := i]> m) m l.

(** [delete m[k]] for each [k] of [ks], in order. *)
Definition delete_all (m : gmap string info) (ks : list string)
    : gmap string info :=
  foldl (fun m k => delete k m) m ks.

(** The tracked directories, none for a watcher that is not recursive. *)
Definition tracked_dirs {C} (w : RunWatcher.t C) : gmap string info :=
  default ∅ (directories w).

(** A watcher that is not watching and tracks nothing: freshly built, or
    stopped. *)
Definition idle {C} (w : RunWatcher.t C) : Prop :=
  watcher w = None /\ files w = ∅ /\ tracked_dirs w = ∅.

(** *** The notification queue *)

(** The life of batches [0 .. m-1], each begun and completed in turn. *)
Definition served (m : nat) : list RunDir.obs :=
  flat_map (fun i => [RunDir.Began i; RunDir.Completed i]) (seq 0 m).

(** What the log shows of the batch at the head of the queue. *)
Definition head_life (m : nat) (p : option RunDir.phase) : list RunDir.obs :=
  match p with
  | Some (RunDir.Running _) | Some (RunDir.Failed _) => [RunDir.Began m]
  | Some RunDir.Settled => [RunDir.Began m; RunDir.Completed m]
  | _ => []
  end.

(** The invariant of the queue: [m] batches have been released; the
    resolvers of all later batches are queued in the order of their
    [#notify] calls; only the head may have left [Waiting]; the log shows
    the released batches served one after the other, then the head. *)
Record queue_inv (m : nat) (s : RunDir.t) : Prop := {
  inv_bound : m <= length (RunDir.batches s);
  inv_queue : RunDir.queue s = seq m (length (RunDir.batches s) - m);
  inv_before : forall id p, RunDir.phase_of s id = Some p -> id < m ->
    p = RunDir.Released;
  inv_after : forall id p, RunDir.phase_of s id = Some p -> m < id ->
    p = RunDir.Waiting;
  inv_head : forall p, RunDir.phase_of s m = Some p ->
    p <> RunDir.Waiting /\ p <> RunDir.Released;
  inv_log : RunDir.lifecycle (RunDir.log s)
            = served m ++ head_life m (RunDir.phase_of s m);
}.

(** The handler list an event stands for when its batch starts. *)
Definition resolved (s : RunDir.t) (ev : RunDir.event)
    : property (list RunDir.handler) :=
  match ev with
  | RunDir.Fn h => Own [h]
  | RunDir.Named k => RunDir.registry_get (RunDir.handlers s) k
  end.

(** The paths a list of promises mentions all satisfy [P]. *)
Definition paths_in (P : string -> Prop) (bs : list RunDir.batch) : Prop :=
  forall b p, b ∈ bs -> RunDir.APath p ∈ RunDir.b_args b -> P p.

(** The settlements of the pending handlers [ks] of batch [id], in order,
    each with the result [res] gives it. *)
Definition settlements (id : nat) (res : nat -> option exn) (ks : list nat)
    : list RunDir.action :=
  (fun k => RunDir.DoSettle id k (res k)) <$> ks.

(** *** A small run of the queue used in the examples

    Three observers of [load]: the first throws, the second returns a
    promise that is still pending, the third returns.  Three notifications
    are enqueued in a row; the second names an event nobody can observe. *)

Local Open Scope string_scope.

Definition demo_behave (id k : nat) (h : RunDir.handler) : RunDir.reaction :=
  match h with
  | 1 => RunDir.Throws (Error "observer failed")
  | 2 => RunDir.Pends
  | _ => RunDir.Returns
  end.

Definition demo_acts : list RunDir.action :=
  [ RunDir.DoOn "load" 1; RunDir.DoOn "load" 2; RunDir.DoOn "load" 3;
    RunDir.DoNotify (RunDir.Named "load") [RunDir.APath "/srv/a.js"];
    RunDir.DoNotify (RunDir.Named "reload") [];
    RunDir.DoNotify (RunDir.Named "unload") [RunDir.APath "/srv/a.js"] ].

(** The same run once the first batch has been served. *)
Definition demo_acts_served : list RunDir.action :=
  demo_acts ++ [ RunDir.DoStart 0; RunDir.DoSettle 0 1 None; RunDir.DoFinish 0 ].

Local Close Scope string_scope.

(** *** The demo installation seen by the engine

    [/srv/plugins] holds the script [x.js], the broken script [bad.js] and
    the directory [deep]; loading [bad.js] fails. *)

Local Open Scope string_scope.

Definition demo_syntax_error : exn := Error "Unexpected token".

Definition demo_loader (p : string) : RunDir.loaded :=
  if String.eqb p "/srv/plugins/bad.js" then RunDir.LoadFails demo_syntax_error
  else RunDir.LoadOk (RunDir.ExTruthy 0 RunDir.HooksAbsent).

(** [/srv/current] is a symbolic link to [/srv/plugins]; every other path
    of the installation is its own real path. *)
Definition demo_realpath (p : string) : string :=
  if String.eqb p "/srv/current/x.js" then "/srv/plugins/x.js" else p.

Definition demo_fs_readdir (p : string) : list string :=
  if String.eqb p "/srv/plugins" then ["x.js"; "deep"; "bad.js"]
  else if String.eqb p "/srv" then demo_readdir
  else [].

Definition demo_fs_stat (p : string) : option Stats :=
  if String.eqb p "/srv/plugins/x.js" then Some StFile
  else if String.eqb p "/srv/plugins/bad.js" then Some StFile
  else if String.eqb p "/srv/plugins/deep" then Some StDirectory
  else demo_stat p.

Definition demo_bad_file : info :=
  fileInfo "/srv/plugins/bad.js" "bad.js" (Some StFile).

(** The script [x.js] as the watcher of the linked directory sees it. *)
Definition demo_linked_file : info :=
  fileInfo "/srv/current/x.js" "x.js" (Some StFile).

Local Close Scope string_scope.

(** *** The states a watcher goes through

    In the recording world: built by the constructor, then any sequence of
    [watch] (on a listing without repetition), native notifications while
    the handle is open, and [stop]. *)
Inductive reaches (realname : string) : RunWatcher.t cb -> Prop :=
| reaches_new target subdirs : reaches realname (new target subdirs)
| reaches_watch w readdir stat tr w' tr' :
    reaches realname w -> NoDup readdir ->
    watch rec_call rec_watch realname onAdd onRemove readdir stat (w, tr)
    = Returned (w', tr') ->
    reaches realname w'
| reaches_listener w ev file stat tr w' tr' :
    reaches realname w -> watcher w <> None ->
    listener rec_call realname ev file stat (w, tr) = Returned (w', tr') ->
    reaches realname w'
| reaches_stop w tr w' tr' :
    reaches realname w ->
    stop rec_call rec_close (w, tr) = Returned (w', tr') ->
    reaches realname w'.

(** Batch [j] completes within its first callback: its event stands for
    nothing, or for handlers none of which leaves a promise pending. *)
Definition settles_at_once (behave : nat -> nat -> RunDir.handler -> RunDir.reaction)
    (s : RunDir.t) (j : nat) : Prop :=
  exists ev args p,
    RunDir.batches s !! j
    = Some {| RunDir.b_event := ev; RunDir.b_args := args; RunDir.b_phase := p |}
    /\ match resolved s ev with
       | Undefined => True
       | Own hs => RunDir.pending_of (RunDir.reactions behave j 0 hs) = []
       | Inherited _ => False
       end.

(** *** What a call leaves behind *)

(** [P] holds of the state a call ends in, whether it returns or throws. *)
Definition outcome_holds {S} (P : S -> Prop) (o : outcome S) : Prop :=
  match o with
  | Returned s | Thrown _ s => P s
  | Diverged => True
  end.

(** The call ends: it returns or throws. *)
Definition ends {S} (o : outcome S) : Prop :=
  match o with Diverged => False | _ => True end.

(** A value handed to a callback: if it is the entry of a file, its path
    satisfies [Q]. *)
Definition carries (Q : string -> Prop) (v : value) : Prop :=
  forall i, v = VInfo i -> isFile i = true -> Q (path i).

(** Every tracked entry can be handed to a callback. *)
Definition tracks_only {C} (Q : string -> Prop) (w : RunWatcher.t C) : Prop :=
  (forall k f, files w !! k = Some f -> carries Q (VInfo f))
  /\ (forall k i, tracked_dirs w !! k = Some i -> carries Q (VInfo i)).

(** The fields of a watcher that only [watch] and [stop] assign. *)
Definition same_shape {C} (w w' : RunWatcher.t C) : Prop :=
  wpath w' = wpath w /\ watcher w' = watcher w
  /\ added w' = added w /\ removed w' = removed w
  /\ (directories w' = None <-> directories w = None).

(** What a method of the watcher [w] keeps, in a world whose states
    satisfy [P]. *)
Definition kept {E C} (Q : string -> Prop) (P : E -> Prop)
    (w : RunWatcher.t C) (st : RunWatcher.t C * E) : Prop :=
  same_shape w st.1 /\ tracks_only Q st.1 /\ P st.2.

(** The closures stored by [watch], if any, satisfy [okA] and [okR]. *)
Definition wired_by {C} (okA okR : C -> Prop) (w : RunWatcher.t C) : Prop :=
  (forall c, added w = Some c -> okA c) /\ (forall c, removed w = Some c -> okR c).

(** A world in which every callback records the call and throws. *)
Definition demo_failing_call (c : cb) (v : value) (tr : trace)
    : outcome trace :=
  Thrown (Error "callback failed") (tr ++ [Call c v]).

(** A world in which [onAdd] records the call and returns, and [onRemove]
    records the call and throws. *)
Definition demo_remove_fails (c : cb) (v : value) (tr : trace)
    : outcome trace :=
  match c with
  | onAdd => Returned (tr ++ [Call c v])
  | onRemove => Thrown (Error "callback failed") (tr ++ [Call c v])
  end.

(** The demo root after a [stop] whose first callback threw: the handle
    is gone, the directory has been removed, the script is still
    tracked. *)
Definition demo_root_torn : RunWatcher.t cb :=
  {| wpath := "/srv"%string;
     files := {[ "a.js"%string := demo_file ]};
     watcher := None;
     directories := Some ∅;
     added := Some onAdd;
     removed := Some onRemove |}.

(** Every tracked entry is what [fileAdded] or [directoryAdded] stores: the
    entry of a child that passed the check, under its own name. *)
Definition entries_ok {C} (realname : string) (w : RunWatcher.t C) : Prop :=
  (forall k i, files w !! k = Some i ->
     i = fileInfo (path_join (wpath w) k) k (Some StFile)
     /\ file_static_ok realname w k = true)
  /\ (forall k i, tracked_dirs w !! k = Some i ->
       i = fileInfo (path_join (wpath w) k) k (Some StDirectory)
       /\ not_dot_first k = true /\ inherited k = false).

Section Reaching.

Context {E C : Type}.
Context (call : C -> value -> E -> outcome E).
Context (fs_watch fs_close : string -> E -> E).
Context (realname : string).

(** The call ends, by returning or by throwing, with the watcher [w']. *)
Definition ends_with (o : outcome (RunWatcher.t C * E))
    (w' : RunWatcher.t C) : Prop :=
  match o with
  | Returned st | Thrown _ st => st.1 = w'
  | Diverged => False
  end.

(** The states a watcher goes through in the world of [call]: built by
    the constructor, then any sequence of calls of [watch], of the
    listener and of [stop], each in whatever state the world is in and
    whether it returns or throws. *)
Inductive reaches_any : RunWatcher.t C -> Prop :=
| reaches_any_new target subdirs :
    reaches_any (RunWatcher.new target subdirs)
| reaches_any_watch w a r readdir stat e w' :
    reaches_any w ->
    ends_with (watch call fs_watch realname a r readdir stat (w, e)) w' ->
    reaches_any w'
| reaches_any_listener w ev file stat e w' :
    reaches_any w ->
    ends_with (listener call realname ev file stat (w, e)) w' ->
    reaches_any w'
| reaches_any_stop w e w' :
    reaches_any w ->
    ends_with (RunWatcher.stop call fs_close (w, e)) w' ->
    reaches_any w'.

End Reaching.

(** Built with [subdirs = true]. *)
Definition recursive {C} (w : RunWatcher.t C) : bool :=
  match directories w with Some _ => true | None => false end.

(** *** The engine *)

(** The targets a constructor argument stands for. *)
Definition targets_of (a : RunDir.targets_arg) : list string :=
  match a with
  | RunDir.OneTarget t => [t]
  | RunDir.ManyTargets ts => ts
  end.

(** A path [add] accepts: a directory whose name is not a key of
    [Object.prototype]. *)
Definition addable (lstat : string -> option Stats) (p : string) : Prop :=
  lstat p = Some StDirectory /\ inherited p = false.

(** An engine on which only [add] has been called: a fresh recursive
    watcher for every target and for nothing else, no target twice, and
    nothing queued, registered, cached or logged. *)
Record constructed (lstat : string -> option Stats) (s : RunDir.t) : Prop := {
  con_watchers : forall p,
    RunDir.watchers s !! p
    = if bool_decide (p ∈ RunDir.targets s)
      then Some (RunWatcher.new p true) else None;
  con_NoDup : NoDup (RunDir.targets s);
  con_addable : Forall (addable lstat) (RunDir.targets s);
  con_rest :
    RunDir.queue s = [] /\ RunDir.batches s = [] /\ RunDir.cache s = ∅
    /\ RunDir.log s = [] /\ RunDir.handlers s = RunDir.handlers RunDir.init;
}.

(** The demo installation as [add] sees it. *)
Definition demo_resolve (p : string) : string :=
  if String.eqb p "srv" then "/srv"%string else p.

Definition demo_lstat (p : string) : option Stats :=
  if String.eqb p "/srv" then Some StDirectory else demo_fs_stat p.

(** The hooks of a module as the closures see them: the adder calls
    [onLoad] and the remover [onUnload] when [exports.jsrundir] is an
    object that has one. *)
Definition load_hook (x : RunDir.exports) : option RunDir.handler :=
  match x with
  | RunDir.ExTruthy _ (RunDir.HooksObject (Some h) _) => Some h
  | _ => None
  end.

Definition unload_hook (x : RunDir.exports) : option RunDir.handler :=
  match x with
  | RunDir.ExTruthy _ (RunDir.HooksObject _ (Some h)) => Some h
  | _ => None
  end.

(** [exports.jsrundir] is [null]. *)
Definition null_hooks (x : RunDir.exports) : bool :=
  match x with RunDir.ExTruthy _ RunDir.HooksNull => true | _ => false end.

(** The remover can read [exports.jsrundir] and what it holds. *)
Definition inspectable (x : RunDir.exports) : bool :=
  match x with
  | RunDir.ExNullish | RunDir.ExTruthy _ RunDir.HooksNull => false
  | _ => true
  end.

(** A sequence of [#notify] calls. *)
Definition notification : Type := RunDir.event * list RunDir.arg.

Definition notify_all (l : list notification) (s : RunDir.t) : RunDir.t :=
  foldl (fun s n => RunDir.notify n.1 n.2 s) s l.

Definition hook_call (h : option RunDir.handler) : list notification :=
  match h with Some h => [(RunDir.Fn h, [])] | None => [] end.

(** What the adder announces for the module [x] loaded from [p], and what
    the remover announces when it evicts it. *)
Definition announce_load (p : string) (x : RunDir.exports)
    : list notification :=
  hook_call (load_hook x)
  ++ [(RunDir.Named "load", [RunDir.APath p; RunDir.AExports x])].

Definition announce_unload (p : string) (x : RunDir.exports)
    : list notification :=
  (RunDir.Named "unload", [RunDir.APath p; RunDir.AExports x])
  :: hook_call (unload_hook x).

(** *** The demo installation, running

    The engine once [run] has scanned [/srv]: the script [a.js] is loaded,
    the directory [plugins] is left aside here. *)

Local Open Scope string_scope.

Definition demo_exports : RunDir.exports := RunDir.ExTruthy 0 RunDir.HooksAbsent.

Definition demo_engine_root : RunWatcher.t RunDir.closure :=
  {| wpath := "/srv";
     files := {[ "a.js" := demo_file ]};
     watcher := Some "/srv/.";
     directories := Some ∅;
     added := Some RunDir.adder;
     removed := Some RunDir.remover |}.

Definition demo_engine : RunDir.t :=
  {| RunDir.targets := ["/srv"];
     RunDir.watchers := {[ "/srv" := demo_engine_root ]};
     RunDir.queue := [];
     RunDir.handlers := {| RunDir.load := [7]; RunDir.unload := [8] |};
     RunDir.batches := [];
     RunDir.cache := {[ "/srv/a.js" := demo_exports ]};
     RunDir.log := [RunDir.Opened "/srv/."] |}.

(** An engine that watches the linked directory [/srv/current], a first
    level subdirectory of some target: the script [x.js] is tracked under
    the path of the link and cached under its real path. *)
Definition demo_engine_link : RunWatcher.t RunDir.closure :=
  {| wpath := "/srv/current";
     files := {[ "x.js" := demo_linked_file ]};
     watcher := Some "/srv/current/.";
     directories := None;
     added := Some RunDir.adder;
     removed := Some RunDir.remover |}.

Definition demo_engine_linked : RunDir.t :=
  {| RunDir.targets := ["/srv"];
     RunDir.watchers := {[ "/srv/current" := demo_engine_link ]};
     RunDir.queue := [];
     RunDir.handlers := {| RunDir.load := [7]; RunDir.unload := [8] |};
     RunDir.batches := [];
     RunDir.cache := {[ "/srv/plugins/x.js" := demo_exports ]};
     RunDir.log := [RunDir.Opened "/srv/current/."] |}.

(** The same with a module whose [jsrundir] export is [null]. *)
Definition demo_null_exports : RunDir.exports :=
  RunDir.ExTruthy 1 RunDir.HooksNull.

Definition demo_engine_null : RunDir.t :=
  RunDir.set_cache {[ "/srv/a.js" := demo_null_exports ]} demo_engine.

Local Close Scope string_scope.

(** Every registered watcher only tracks what can be handed to a
    callback. *)
Definition engine_tracks (Q : string -> Prop) (s : RunDir.t) : Prop :=
  forall p w, RunDir.watchers s !! p = Some w -> tracks_only Q w.

(** What the engine keeps: [P0] of its state, and the above. *)
Definition engine_kept (Q : string -> Prop) (P0 : RunDir.t -> Prop)
    (s : RunDir.t) : Prop :=
  P0 s /\ engine_tracks Q s.

(** What any method of a watcher keeps, whatever state it starts in. *)
Definition safe_state {E C} (Q : string -> Prop) (P : E -> Prop)
    (st : RunWatcher.t C * E) : Prop :=
  tracks_only Q st.1 /\ P st.2.

(** The engine built for the target [/srv], before [run]. *)
Definition demo_constructed : RunDir.t :=
  RunDir.set_watchers {[ "/srv"%string := RunWatcher.new "/srv" true ]}
    (RunDir.set_targets ["/srv"%string] RunDir.init).

(** [s'] differs from [s], as far as the queue goes, by notifications
    enqueued behind those of [s]: the promises of [s] are as they were,
    each new one waits for its slot or, made on an empty queue, has just
    had it resolved, and no batch has begun or completed in between. *)
Definition enqueued (s s' : RunDir.t) : Prop :=
  exists new,
    RunDir.batches s' = RunDir.batches s ++ new
    /\ Forall (fun b => RunDir.b_phase b = RunDir.Waiting
                        \/ RunDir.b_phase b = RunDir.Ready) new
    /\ RunDir.queue s'
       = RunDir.queue s ++ seq (length (RunDir.batches s)) (length new)
    /\ RunDir.lifecycle (RunDir.log s') = RunDir.lifecycle (RunDir.log s).

(** The engine's own file stays out of [s']: no registered watcher tracks
    it, no notification mentions it, and its entry in the module cache is
    the one of [s]. *)
Definition keeps_out (realname : string) (s s' : RunDir.t) : Prop :=
  engine_tracks (fun p => p <> realname) s'
  /\ paths_in (fun p => p <> realname) (RunDir.batches s')
  /\ RunDir.cache s' !! realname = RunDir.cache s !! realname.

(** The engine started without arguments: it watches the directory of its
    own file, which holds [jsrundir.js] and the script [plugin.js]. *)
Local Open Scope string_scope.

Definition self_readdir (p : string) : list string :=
  if String.eqb p "/opt/jsrundir" then ["plugin.js"; "jsrundir.js"] else [].

Definition self_stat (p : string) : option Stats :=
  if String.eqb p "/opt/jsrundir/plugin.js" then Some StFile
  else if String.eqb p "/opt/jsrundir/jsrundir.js" then Some StFile
  else None.

Definition self_constructed : RunDir.t :=
  RunDir.set_watchers
    {[ "/opt/jsrundir" := RunWatcher.new "/opt/jsrundir" true ]}
    (RunDir.set_targets ["/opt/jsrundir"] RunDir.init).

Local Close Scope string_scope.

(** Every watcher registered in [s] is registered in [s'], unchanged. *)
Definition keeps_registered (s s' : RunDir.t) : Prop :=
  forall p w, RunDir.watchers s !! p = Some w -> RunDir.watchers s' !! p = Some w.

(** The watcher registered for a target is watching, with the closures of
    [#run]. *)
Definition started (s : RunDir.t) (t : string) : Prop :=
  exists w, RunDir.watchers s !! t = Some w
            /\ wpath w = t
            /\ watcher w = Some (t ++ "/.")%string
            /\ added w = Some RunDir.adder /\ removed w = Some RunDir.remover
            /\ recursive w = true.

(** The watcher registered for a target is recursive and not watching. *)
Definition startable (s : RunDir.t) (t : string) : Prop :=
  exists w, RunDir.watchers s !! t = Some w
            /\ wpath w = t /\ watcher w = None /\ recursive w = true.

(** *** Two more runs of the queue

    Observers [1] (which throws) and [3] of [load], then three
    notifications; and the run of the first example once its first batch
    has begun, where observer [2] has left a promise pending. *)

Local Open Scope string_scope.

Definition demo_settling_acts : list RunDir.action :=
  [ RunDir.DoOn "load" 1; RunDir.DoOn "load" 3;
    RunDir.DoNotify (RunDir.Named "load") [RunDir.APath "/srv/a.js"];
    RunDir.DoNotify (RunDir.Named "reload") [];
    RunDir.DoNotify (RunDir.Named "unload") [RunDir.APath "/srv/a.js"] ].

Definition demo_stuck_acts : list RunDir.action :=
  demo_acts ++ [ RunDir.DoStart 0 ].

Definition demo_later_acts : list RunDir.action :=
  [ RunDir.DoNotify (RunDir.Named "load") [RunDir.APath "/srv/b.js"];
    RunDir.DoOn "unload" 4 ].

Local Close Scope string_scope.

(** *** One watcher, two worlds

    The recording world logs the calls a watcher makes.  Any other world
    [(call, fs_watch, fs_close)], whose closures are named through [cl],
    can be driven by such a log. *)

Section Worlds.

Context {E C : Type}.
Context (call : C -> value -> E -> outcome E).
Context (fs_watch fs_close : string -> E -> E).
Context (cl : cb -> C).

(** The watcher of the recording world, seen in the other world. *)
Definition in_world (w : RunWatcher.t cb) : RunWatcher.t C :=
  {| wpath := wpath w; files := files w; watcher := watcher w;
     directories := directories w;
     added := cl <$> added w; removed := cl <$> removed w |}.

(** One logged call, made in the other world. *)
Definition perform (ev : RunWatcher.event) (e : E) : outcome E :=
  match ev with
  | NativeOpen h => Returned (fs_watch h e)
  | NativeClose h => Returned (fs_close h e)
  | Call c v => call (cl c) v e
  end.

(** The logged calls, made in order until one throws. *)
Definition replay (tr : trace) (e : E) : outcome E := for_of tr perform e.

(** The other world's outcome [oB] agrees with making the calls [ext]
    from [e]: if they all return, it ends like the recording world did,
    [mk] standing for "returned" or "threw [x]", with the watcher [w'];
    if one of them throws, it throws the same, in the world that call
    left. *)
Definition agrees (mk : RunWatcher.t C * E -> outcome (RunWatcher.t C * E))
    (w' : RunWatcher.t cb) (ext : trace) (e : E)
    (oB : outcome (RunWatcher.t C * E)) : Prop :=
  match replay ext e with
  | Returned e' => oB = mk (in_world w', e')
  | Thrown y e' => exists wB, oB = Thrown y (wB, e')
  | Diverged => oB = Diverged
  end.

(** [oB], started in the world [e], mirrors the outcome [oA] of the
    recording world, started with the log [tr0]. *)
Definition mirrors (tr0 : trace) (e : E)
    (oA : outcome (RunWatcher.t cb * trace))
    (oB : outcome (RunWatcher.t C * E)) : Prop :=
  match oA with
  | Returned (w', tr') =>
      exists ext, tr' = tr0 ++ ext /\ agrees Returned w' ext e oB
  | Thrown x (w', tr') =>
      exists ext, tr' = tr0 ++ ext /\ agrees (Thrown x) w' ext e oB
  | Diverged => False
  end.

End Worlds.

(** The closures of [#run], by the role they play for a watcher. *)
Definition engine_closure (c : cb) : RunDir.closure :=
  match c with onAdd => RunDir.adder | onRemove => RunDir.remover end.

(** *** Modules as the closures load and evict them *)

(** The notifications made so far, in the order of their [#notify]
    calls. *)
Definition events (s : RunDir.t) : list notification :=
  (fun b => (RunDir.b_event b, RunDir.b_args b)) <$> RunDir.batches s.

Section Modules.

Context (loader : string -> RunDir.loaded).
Context (realpath : string -> string).

(** What [require(p)] yields when the cache is [c]. *)
Definition module_at (c : gmap string RunDir.exports) (p : string)
    : RunDir.loaded :=
  match c !! realpath p with
  | Some x => RunDir.LoadOk x
  | None => loader (realpath p)
  end.

(** The cache once [require(p)] has run. *)
Definition cache_step (c : gmap string RunDir.exports) (p : string)
    : gmap string RunDir.exports :=
  match module_at c p with
  | RunDir.LoadOk x => <[realpath p := x]> c
  | RunDir.LoadFails _ => c
  end.

(** What the adder enqueues for the file at [p]. *)
Definition announced (c : gmap string RunDir.exports) (p : string)
    : list notification :=
  match module_at c p with
  | RunDir.LoadOk x => if null_hooks x then [] else announce_load p x
  | RunDir.LoadFails _ => []
  end.

(** The state the adder leaves when it is handed the file at [p]. *)
Definition load_step (p : string) (s : RunDir.t) : RunDir.t :=
  let s1 := RunDir.set_cache (cache_step (RunDir.cache s) p) s in
  match module_at (RunDir.cache s) p with
  | RunDir.LoadOk x =>
      if null_hooks x then RunDir.emit [RunDir.Reported RunDir.null_read] s1
      else notify_all (announce_load p x) s1
  | RunDir.LoadFails e => RunDir.emit [RunDir.Reported e] s1
  end.

Definition load_all (ps : list string) (s : RunDir.t) : RunDir.t :=
  foldl (fun s p => load_step p s) s ps.

(** What the remover enqueues for the file at [p]. *)
Definition retracted (c : gmap string RunDir.exports) (p : string)
    : list notification :=
  match c !! p with
  | Some x => announce_unload p x
  | None => []
  end.

(** The state the remover leaves when it is handed the file at [p] and
    can inspect its module. *)
Definition unload_step (p : string) (s : RunDir.t) : RunDir.t :=
  notify_all (retracted (RunDir.cache s) p)
    (RunDir.set_cache (delete p (RunDir.cache s)) s).

Definition unload_all (ps : list string) (s : RunDir.t) : RunDir.t :=
  foldl (fun s p => unload_step p s) s ps.

End Modules.

(** *** A subdirectory, as the closures of [#run] see it *)

Section SubdirectorySteps.

Context (loader : string -> RunDir.loaded).
Context (realpath : string -> string).
Context (readdir : string -> list string).
Context (stat : string -> option Stats).
Context (realname : string).

(** The eligible files of the directory entry [d], by ascending name. *)
Definition sub_files (d : info) : list info :=
  filter (fun x => eligible_file realname (RunWatcher.new (C := cb) (path d) false) x)
    (scan (RunWatcher.new (C := cb) (path d) false) (readdir (path d)) stat).

(** The watcher the adder registers for [d], once it has scanned. *)
Definition sub_watcher (d : info) : RunWatcher.t cb :=
  {| wpath := path d; files := insert_all ∅ (sub_files d);
     watcher := Some (path d ++ "/.")%string; directories := None;
     added := Some onAdd; removed := Some onRemove |}.

(** The state the adder leaves when it is handed [d]: the handle opened,
    the files loaded in order, the watcher registered. *)
Definition dir_load (d : info) (s : RunDir.t) : RunDir.t :=
  RunDir.set_watchers
    (<[path d := in_world engine_closure (sub_watcher d)]> (RunDir.watchers s))
    (load_all loader realpath (path <$> sub_files d)
       (RunDir.emit [RunDir.Opened (path d ++ "/.")%string] s)).

(** The state the remover leaves when it is handed [d]: the handle
    closed, the files unloaded from the last to the first, the watcher
    unregistered. *)
Definition dir_unload (d : info) (s : RunDir.t) : RunDir.t :=
  RunDir.set_watchers (delete (path d) (RunDir.watchers s))
    (unload_all (reverse (path <$> sub_files d))
       (RunDir.emit [RunDir.Closed (path d ++ "/.")%string] s)).

(** The cached modules at the paths of [U] can be inspected by the
    remover. *)
Definition inspectable_on (U : string -> Prop)
    (c : gmap string RunDir.exports) : Prop :=
  forall q x, U q -> c !! q = Some x -> inspectable x = true.

Definition sub_paths (d : info) : list string := path <$> sub_files d.

(** The adder handed the directories [dl] in turn, and the remover. *)
Definition dirs_load (dl : list info) (s : RunDir.t) : RunDir.t :=
  foldl (fun s d => dir_load d s) s dl.

Definition dirs_unload (dl : list info) (s : RunDir.t) : RunDir.t :=
  foldl (fun s d => dir_unload d s) s dl.

(** *** A target, as [#run] and [#stop] see it *)

(** The eligible files and directories of the target [t], by ascending
    name. *)
Definition root_files (t : string) : list info :=
  filter (fun x => eligible_file realname (RunWatcher.new (C := cb) t true) x)
    (scan (RunWatcher.new (C := cb) t true) (readdir t) stat).

Definition root_dirs (t : string) : list info :=
  filter (fun x => eligible_dir (RunWatcher.new (C := cb) t true) x)
    (scan (RunWatcher.new (C := cb) t true) (readdir t) stat).

(** The watcher of [t] once [#run] has scanned, and once [#stop] has
    cleared it. *)
Definition root_watching (t : string) : RunWatcher.t cb :=
  {| wpath := t; files := insert_all ∅ (root_files t);
     watcher := Some (t ++ "/.")%string;
     directories := Some (insert_all ∅ (root_dirs t));
     added := Some onAdd; removed := Some onRemove |}.

Definition root_stopped (t : string) : RunWatcher.t cb :=
  {| wpath := t; files := ∅; watcher := None; directories := Some ∅;
     added := Some onAdd; removed := Some onRemove |}.

(** The state [#run(t)] leaves: the handle of [t] opened, its files
    loaded in order, then its directories in order. *)
Definition target_load (t : string) (s : RunDir.t) : RunDir.t :=
  let e := dirs_load (root_dirs t)
             (load_all loader realpath (path <$> root_files t)
                (RunDir.emit [RunDir.Opened (t ++ "/.")%string] s)) in
  RunDir.set_watchers
    (<[t := in_world engine_closure (root_watching t)]> (RunDir.watchers e)) e.

(** The state [#stop(t)] leaves: the handle closed, the directories
    unloaded from the last to the first, then the files. *)
Definition target_unload (t : string) (s : RunDir.t) : RunDir.t :=
  let e := unload_all (reverse (path <$> root_files t))
             (dirs_unload (reverse (root_dirs t))
                (RunDir.emit [RunDir.Closed (t ++ "/.")%string] s)) in
  RunDir.set_watchers
    (<[t := in_world engine_closure (root_stopped t)]> (RunDir.watchers e)) e.

(** Every path [#run(t)] hands to [require]. *)
Definition loaded_paths (t : string) : list string :=
  (path <$> root_files t) ++ flat_map sub_paths (root_dirs t).

End SubdirectorySteps.

(* ===================================================================== *)
(** ** Facts about JavaScript lookups and sorting *)
(* ===================================================================== *)

Lemma get_Some {A} (m : gmap string A) k a : m !! k = Some a -> get m k = Own a.
Proof. unfold get. by intros ->. Qed.

Lemma get_None {A} (m : gmap string A) k :
  m !! k = None -> inherited k = false -> get m k = Undefined.
Proof. unfold get. by intros -> ->. Qed.

Lemma get_inherited {A} (m : gmap string A) k :
  m !! k = None -> inherited k = true -> get m k = Inherited k.
Proof. unfold get. by intros -> ->. Qed.

(** No inherited key has a recognised extension. *)
Lemma inherited_not_script k :
  inherited k = true -> endsWith k ".js" || endsWith k ".json" = false.
Proof.
  unfold inherited. intros Hk%bool_decide_eq_true.
  unfold object_prototype_keys in Hk.
  repeat (apply elem_of_cons in Hk as [-> | Hk]; [reflexivity|]).
  by apply elem_of_nil in Hk.
Qed.

Lemma file_static_not_inherited {C} realname (w : RunWatcher.t C) k :
  file_static_ok realname w k = true -> inherited k = false.
Proof.
  unfold file_static_ok. intros H.
  destruct (inherited k) eqn:Hi; [|done].
  apply inherited_not_script in Hi. rewrite Hi in H.
  by rewrite andb_false_r in H.
Qed.

(** The two ways a call ends, through [bind] and [lift]. *)
Lemma bind_Returned {S} (x : S) (k : S -> outcome S) :
  bind (Returned x) k = k x.
Proof. reflexivity. Qed.

Lemma bind_Thrown {S} err (x : S) (k : S -> outcome S) :
  bind (Thrown err x) k = Thrown err x.
Proof. reflexivity. Qed.

Lemma lift_Returned {S T} (f : S -> T) (x : S) :
  lift f (Returned x) = Returned (f x).
Proof. reflexivity. Qed.

Lemma lift_Thrown {S T} (f : S -> T) err (x : S) :
  lift f (Thrown err x) = Thrown err (f x).
Proof. reflexivity. Qed.

Lemma sort_perm l : sort l ≡ₚ l.
Proof. apply merge_sort_Permutation. Qed.

Lemma sort_sorted l : StronglySorted String.le (sort l).
Proof. apply (StronglySorted_merge_sort String.le). Qed.

Lemma sort_elem_of l k : k ∈ sort l <-> k ∈ l.
Proof. by rewrite sort_perm. Qed.

Lemma sort_NoDup l : NoDup l -> NoDup (sort l).
Proof. by rewrite sort_perm. Qed.

(** A sorted list without repetition is determined by its elements. *)
Lemma sort_unique l1 l2 :
  StronglySorted String.le l1 -> l1 ≡ₚ l2 -> sort l2 = l1.
Proof.
  intros H1 Hp. apply (StronglySorted_unique String.le).
  - apply sort_sorted.
  - done.
  - by rewrite sort_perm.
Qed.

Lemma keys_NoDup {A} (m : gmap string A) : NoDup (keys m).
Proof. apply NoDup_fst_map_to_list. Qed.

Lemma elem_of_keys {A} (m : gmap string A) k : k ∈ keys m <-> is_Some (m !! k).
Proof.
  unfold keys. rewrite list_elem_of_fmap. split.
  - intros [[k' a] [-> H%elem_of_map_to_list]]. eauto.
  - intros [a H]. exists (k, a). split; [done|]. by apply elem_of_map_to_list.
Qed.

(* ===================================================================== *)
(** ** The watcher in the recording world *)
(* ===================================================================== *)

Section RecordedWatcher.

Context (realname : string).

Implicit Types (w : RunWatcher.t cb) (tr : trace) (i : info).

Lemma fileInfo_name p n st : name (fileInfo p n st) = n.
Proof. reflexivity. Qed.

Lemma fileInfo_path p n st : path (fileInfo p n st) = p.
Proof. reflexivity. Qed.

Lemma fileInfo_isFile p n st :
  isFile (fileInfo p n st) = true -> fileInfo p n st = fileInfo p n (Some StFile).
Proof. destruct st as [[]|]; simpl; done. Qed.

Lemma fileInfo_isDirectory p n st :
  isDirectory (fileInfo p n st) = true ->
  fileInfo p n st = fileInfo p n (Some StDirectory).
Proof. destruct st as [[]|]; simpl; done. Qed.

Lemma fileInfo_exclusive p n st :
  isFile (fileInfo p n st) = true -> isDirectory (fileInfo p n st) = false.
Proof. destruct st as [[]|]; simpl; done. Qed.

Lemma fileAdded_rec i w tr :
  added w = Some onAdd ->
  fileAdded rec_call realname i (w, tr) =
    if checkFile realname w (path i) (name i)
    then Returned (set_files (<[name i := i]> (files w)) w,
                   tr ++ [Call onAdd (VInfo i)])
    else Returned (w, tr).
Proof.
  intros Ha. unfold fileAdded.
  destruct (checkFile realname w (path i) (name i)); simpl; [|done].
  by rewrite Ha.
Qed.

Lemma directoryAdded_rec i w tr :
  added w = Some onAdd ->
  directoryAdded rec_call i (w, tr) =
    match directories w with
    | Some d =>
        if checkDirectory w (path i) (name i)
        then Returned (set_directories (<[name i := i]> d) w,
                       tr ++ [Call onAdd (VInfo i)])
        else Returned (w, tr)
    | None => Returned (w, tr)
    end.
Proof.
  intros Ha. unfold directoryAdded, checkDirectory.
  destruct (directories w) as [d|] eqn:Hd; simpl.
  - destruct (not_dot_first (name i) && negb (truthy (get d (name i))));
      simpl; [|done].
    by rewrite Ha.
  - by rewrite andb_false_r.
Qed.

Lemma fileRemoved_rec i w tr :
  removed w = Some onRemove ->
  fileRemoved rec_call (VInfo i) (w, tr) =
    Returned (set_files (delete (name i) (files w)) w,
              tr ++ [Call onRemove (VInfo i)]).
Proof. intros Hr. unfold fileRemoved. simpl. by rewrite Hr. Qed.

Lemma directoryRemoved_rec i w d tr :
  removed w = Some onRemove -> directories w = Some d ->
  directoryRemoved rec_call (VInfo i) (w, tr) =
    Returned (set_directories (delete (name i) d) w,
              tr ++ [Call onRemove (VInfo i)]).
Proof. intros Hr Hd. unfold directoryRemoved. simpl. by rewrite Hd, Hr. Qed.

(** [checkFile] only looks at the entry of the name it is asked about. *)
Lemma checkFile_insert_ne w k i p n :
  k <> n ->
  checkFile realname (set_files (<[k := i]> (files w)) w) p n
  = checkFile realname w p n.
Proof.
  intros Hne. unfold checkFile, get. simpl. by rewrite lookup_insert_ne.
Qed.

Lemma checkDirectory_insert_ne w d k i p n :
  directories w = Some d -> k <> n ->
  checkDirectory (set_directories (<[k := i]> d) w) p n
  = checkDirectory w p n.
Proof.
  intros Hd Hne. unfold checkDirectory, get. simpl.
  by rewrite Hd, lookup_insert_ne.
Qed.

Lemma checkFile_static w n :
  checkFile realname w (path_join (wpath w) n) n
  = file_static_ok realname w n && negb (truthy (get (files w) n)).
Proof. reflexivity. Qed.

End RecordedWatcher.

(* ===================================================================== *)
(** ** The native listener *)
(* ===================================================================== *)

Section Listener.

Context (realname : string).

Implicit Types (w : RunWatcher.t cb) (tr : trace) (i : info).

Lemma set_files_id w : set_files (files w) w = w.
Proof. by destruct w. Qed.

Lemma checkFile_files w1 w2 p n :
  files w1 = files w2 -> checkFile realname w1 p n = checkFile realname w2 p n.
Proof. unfold checkFile. by intros ->. Qed.

Lemma checkDirectory_directories w1 w2 p n :
  directories w1 = directories w2 ->
  checkDirectory w1 p n = checkDirectory w2 p n.
Proof. unfold checkDirectory. by intros ->. Qed.

Lemma checkFile_inherited w p n :
  inherited n = true -> checkFile realname w p n = false.
Proof.
  intros Hi%inherited_not_script. unfold checkFile. rewrite Hi.
  by rewrite andb_false_r.
Qed.

Lemma add_step_rec i w tr :
  added w = Some onAdd ->
  exists w' ad,
    add_step realname i (w, tr) = Returned (w', tr ++ ad)
    /\ (isFile i = true ->
        ad = if checkFile realname w (path i) (name i) then adds [i] else [])
    /\ (isFile i = false -> isDirectory i = true ->
        ad = if checkDirectory w (path i) (name i) then adds [i] else [])
    /\ (isFile i = false -> isDirectory i = false -> ad = []).
Proof.
  intros Ha. unfold add_step.
  destruct (isFile i) eqn:Hf; [|destruct (isDirectory i) eqn:Hd].
  - rewrite fileAdded_rec by done.
    destruct (checkFile realname w (path i) (name i)).
    + eexists _, (adds [i]). by repeat split.
    + exists w, []. rewrite app_nil_r. by repeat split.
  - rewrite directoryAdded_rec by done.
    unfold checkDirectory.
    destruct (directories w) as [d|] eqn:Hdir.
    + destruct (not_dot_first (name i) && negb (truthy (get d (name i)))).
      * eexists _, (adds [i]). by repeat split.
      * exists w, []. rewrite app_nil_r. by repeat split.
    + exists w, []. rewrite app_nil_r, andb_false_r. by repeat split.
  - exists w, []. rewrite app_nil_r. by repeat split.
Qed.

Lemma listener_unfold ev file stat w tr :
  listener rec_call realname ev file stat (w, tr) =
    bind
      (if truthy (get (files w) file) then
         fileRemoved rec_call (to_value (get (files w) file)) (w, tr)
       else
         match directories w with
         | Some d =>
             if truthy (get d file)
                && negb (isDirectory
                           (fileInfo (path_join (wpath w) file) file stat))
             then directoryRemoved rec_call (to_value (get d file)) (w, tr)
             else Returned (w, tr)
         | None => Returned (w, tr)
         end)
      (add_step realname (fileInfo (path_join (wpath w) file) file stat)).
Proof. reflexivity. Qed.

End Listener.

Section ListenerTable.

Context (realname : string).

Implicit Types (w : RunWatcher.t cb) (tr : trace) (i : info).

Lemma listener_table w ev file stat tr :
  tracked_ok realname w -> wired w ->
  let i := fileInfo (path_join (wpath w) file) file stat in
  exists w' rm ad,
    listener rec_call realname ev file stat (w, tr)
      = Returned (w', tr ++ rm ++ ad)
    /\ (forall f, files w !! file = Some f -> rm = removes [f])
    /\ (files w !! file = None ->
        forall d dd, directories w = Some d -> d !! file = Some dd ->
                     isDirectory i = false -> rm = removes [dd])
    /\ (files w !! file = None -> inherited file = true ->
        rm = [Call onRemove (VBuiltin file)])
    /\ (files w !! file = None -> inherited file = false ->
        (forall d dd, directories w = Some d -> d !! file = Some dd ->
                      isDirectory i = true) ->
        rm = [])
    /\ (isFile i = true ->
        ad = if checkFile realname (set_files (delete file (files w)) w)
                  (path i) file
             then adds [i] else [])
    /\ (isFile i = false -> isDirectory i = true ->
        ad = if checkDirectory w (path i) file then adds [i] else [])
    /\ (isFile i = false -> isDirectory i = false -> ad = []).
Proof.
  intros Hok [Ha Hr] i. rewrite listener_unfold. fold i.
  destruct (files w !! file) as [f|] eqn:Hf.
  - (* tracked as a file *)
    destruct (files_ok _ _ Hok _ _ Hf) as [Hfi Hst].
    assert (Hname : name f = file) by by rewrite Hfi.
    rewrite (get_Some _ _ _ Hf). simpl truthy. cbv iota. simpl to_value.
    rewrite fileRemoved_rec by done. simpl bind. rewrite Hname.
    destruct (add_step_rec realname i
                (set_files (delete file (files w)) w)
                (tr ++ [Call onRemove (VInfo f)]) Ha)
      as (w' & ad & Hadd & Hc1 & Hc2 & Hc3).
    exists w', (removes [f]), ad.
    rewrite <- app_assoc in Hadd. split; [exact Hadd|].
    split_and!;
      [by intros ? [= ->] | done | done | done | exact Hc1 | | exact Hc3].
    intros Hfile Hdir. rewrite (Hc2 Hfile Hdir).
    by rewrite (checkDirectory_directories _ w).
  - destruct (inherited file) eqn:Hinh.
    + (* an inherited name: [this.files[file]] is truthy all the same *)
      rewrite (get_inherited _ _ Hf Hinh). simpl truthy. cbv iota.
      unfold fileRemoved. simpl value_name. cbv iota beta.
      unfold invoke. simpl removed. rewrite Hr. simpl lift. simpl bind.
      set (w1 := set_files (delete (builtin_name file) (files w)) w).
      destruct (add_step_rec realname i w1
                  (tr ++ [Call onRemove (VBuiltin file)]) Ha)
        as (w' & ad & Hadd & Hc1 & Hc2 & Hc3).
      exists w', [Call onRemove (VBuiltin file)], ad.
      rewrite <- app_assoc in Hadd. split; [exact Hadd|].
      split_and!; [done | | done | done | | | exact Hc3].
      * intros _ d dd Hd Hdd _.
        destruct (dirs_ok _ _ Hok _ _ _ Hd Hdd) as (_ & _ & Hni). congruence.
      * intros Hfile. rewrite (Hc1 Hfile). simpl.
        by rewrite !checkFile_inherited.
      * intros Hfile Hdir. rewrite (Hc2 Hfile Hdir).
        by rewrite (checkDirectory_directories _ w).
    + rewrite (get_None _ _ Hf Hinh). simpl truthy. cbv iota.
      assert (Hdel : set_files (delete file (files w)) w = w).
      { rewrite delete_id by done. apply set_files_id. }
      rewrite Hdel.
      destruct (directories w) as [d|] eqn:Hd.
      * destruct (d !! file) as [dd|] eqn:Hdd.
        -- rewrite (get_Some _ _ _ Hdd). simpl truthy. simpl to_value.
           destruct (dirs_ok _ _ Hok _ _ _ Hd Hdd) as (Hdi & _ & _).
           assert (Hname : name dd = file) by by rewrite Hdi.
           destruct (isDirectory i) eqn:Hisd; simpl negb; cbv iota.
           ++ simpl bind.
              destruct (add_step_rec realname i w tr Ha)
                as (w' & ad & Hadd & Hc1 & Hc2 & Hc3).
              exists w', [], ad. split; [exact Hadd|].
              split_and!;
                [done | | done | done | exact Hc1
                | intros Hfile _; exact (Hc2 Hfile Hisd) | by intros _ ?].
              intros _ d' dd' [= <-]. congruence.
           ++ rewrite (directoryRemoved_rec _ _ d) by done. simpl bind.
              rewrite Hname.
              set (w1 := set_directories (delete file d) w).
              destruct (add_step_rec realname i w1
                          (tr ++ [Call onRemove (VInfo dd)]) Ha)
                as (w' & ad & Hadd & Hc1 & Hc2 & Hc3).
              exists w', (removes [dd]), ad.
              rewrite <- app_assoc in Hadd. split; [exact Hadd|].
              split_and!;
                [done | | done | | | | intros Hfile _; exact (Hc3 Hfile Hisd)].
              ** intros _ d' dd' [= <-]. congruence.
              ** intros _ _ Hall. specialize (Hall _ _ eq_refl Hdd).
                 congruence.
              ** intros Hfile. rewrite (Hc1 Hfile).
                 by rewrite (checkFile_files _ _ w).
              ** intros _ Hdir. congruence.
        -- rewrite (get_None _ _ Hdd Hinh). simpl truthy. cbv iota.
           simpl bind.
           destruct (add_step_rec realname i w tr Ha)
             as (w' & ad & Hadd & Hc1 & Hc2 & Hc3).
           exists w', [], ad. split; [exact Hadd|].
           split_and!;
             [done | | done | done | exact Hc1 | exact Hc2 | exact Hc3].
           intros _ d' dd' [= <-]. congruence.
      * simpl bind.
        destruct (add_step_rec realname i w tr Ha)
          as (w' & ad & Hadd & Hc1 & Hc2 & Hc3).
        exists w', [], ad. split; [exact Hadd|].
        split_and!;
          [done | done | done | done | exact Hc1 | exact Hc2 | exact Hc3].
Qed.

(** The decision table of the listener, read off the fresh stat.  One
    native notification [(ev, file)] on a watcher whose maps satisfy the
    invariant makes these calls, in this order, whatever [ev] is: a
    tracked file is removed whatever it is now; a name that is not
    tracked as a file but is a key of [Object.prototype] is handed to
    [onRemove] as the inherited value; otherwise a tracked directory is
    removed when the fresh stat no longer says directory, and nothing is
    removed in any other case; then the add that the fresh stat asks for
    is attempted, gated by [checkFile] (evaluated once the name is no
    longer tracked as a file) or by [checkDirectory]. *)
Theorem listener_decision_table w ev file stat tr :
  tracked_ok realname w -> wired w ->
  let p := path_join (wpath w) file in
  exists w' rm ad,
    listener rec_call realname ev file stat (w, tr)
      = Returned (w', tr ++ rm ++ ad)
    /\ (forall f, files w !! file = Some f -> rm = removes [f])
    /\ (files w !! file = None -> inherited file = true ->
        rm = [Call onRemove (VBuiltin file)])
    /\ (files w !! file = None -> inherited file = false ->
        forall d dd, directories w = Some d -> d !! file = Some dd ->
                     stat <> Some StDirectory -> rm = removes [dd])
    /\ (files w !! file = None -> inherited file = false ->
        (forall d dd, directories w = Some d -> d !! file = Some dd ->
                      stat = Some StDirectory) ->
        rm = [])
    /\ (stat = Some StFile ->
        ad = if checkFile realname (set_files (delete file (files w)) w)
                  p file
             then adds [fileInfo p file (Some StFile)] else [])
    /\ (stat = Some StDirectory ->
        ad = if checkDirectory w p file
             then adds [fileInfo p file (Some StDirectory)] else [])
    /\ (stat <> Some StFile -> stat <> Some StDirectory -> ad = [])
    /\ (forall ev', listener rec_call realname ev' file stat (w, tr)
                    = listener rec_call realname ev file stat (w, tr)).
Proof.
  intros Hok Hw p.
  destruct (listener_table w ev file stat tr Hok Hw)
    as (w' & rm & ad & Hrun & H1 & H2 & Hi & H3 & H4 & H5 & H6).
  fold p in H2, H3, H4, H5, H6.
  exists w', rm, ad. split; [exact Hrun|]. split_and!; try done.
  - intros Hnone _ d dd Hd Hdd Hst. apply (H2 Hnone d dd Hd Hdd).
    by destruct stat as [[]|].
  - intros Hnone Hinh Hall. apply (H3 Hnone Hinh).
    intros d dd Hd Hdd. by rewrite (Hall d dd Hd Hdd).
  - intros ->. by apply H4.
  - intros ->. by apply H5.
  - intros Hf Hd. by apply H6; destruct stat as [[]|].
Qed.

End ListenerTable.

Section UnchangedKind.

Context (realname : string).

Implicit Types (w : RunWatcher.t cb) (tr : trace) (i : info).

(** C7, as the code has it.  A notification for a name tracked as a file
    whose fresh stat still says file produces [onRemove] followed by
    [onAdd] for that entry and leaves the watcher as it was; a
    notification for a name tracked as a directory whose fresh stat still
    says directory produces no call at all. *)
Theorem unchanged_kind_reconciliation w ev file stat tr :
  tracked_ok realname w -> wired w ->
  (forall f, files w !! file = Some f -> stat = Some StFile ->
     listener rec_call realname ev file stat (w, tr)
     = Returned (w, tr ++ [Call onRemove (VInfo f); Call onAdd (VInfo f)]))
  /\ (forall d dd, directories w = Some d -> d !! file = Some dd ->
        stat = Some StDirectory ->
        listener rec_call realname ev file stat (w, tr) = Returned (w, tr)).
Proof.
  intros Hok [Ha Hr]. split.
  - intros f Hf ->. rewrite listener_unfold.
    destruct (files_ok _ _ Hok _ _ Hf) as [Hfi Hst].
    assert (Hname : name f = file) by by rewrite Hfi.
    rewrite (get_Some _ _ _ Hf). simpl truthy. cbv iota. simpl to_value.
    rewrite fileRemoved_rec by done. simpl bind. rewrite Hname, <- Hfi.
    unfold add_step.
    replace (isFile f) with true by by rewrite Hfi.
    rewrite fileAdded_rec by done. rewrite Hname.
    replace (path f) with (path_join (wpath w) file) by by rewrite Hfi.
    change (wpath w) with (wpath (set_files (delete file (files w)) w)) at 1.
    rewrite checkFile_static.
    assert (Hst' : file_static_ok realname
                     (set_files (delete file (files w)) w) file = true)
      by exact Hst.
    rewrite Hst'. simpl files.
    rewrite get_None;
      [| apply lookup_delete_eq | by eapply file_static_not_inherited].
    simpl. rewrite insert_delete_eq, insert_id by done.
    rewrite <- app_assoc. by destruct w.
  - intros d dd Hd Hdd ->. rewrite listener_unfold.
    destruct (dirs_ok _ _ Hok _ _ _ Hd Hdd) as (Hdi & Hdot & Hinh).
    assert (Hf : files w !! file = None).
    { destruct (files w !! file) eqn:Hf; [|done].
      assert (Hn : d !! file = None) by (eapply disjoint_ok; eauto).
      congruence. }
    rewrite (get_None _ _ Hf Hinh). simpl truthy. cbv iota.
    rewrite Hd. simpl isDirectory. rewrite andb_false_r. simpl bind.
    unfold add_step.
    change (isFile (fileInfo (path_join (wpath w) file) file
                      (Some StDirectory))) with false.
    change (isDirectory (fileInfo (path_join (wpath w) file) file
                           (Some StDirectory))) with true.
    cbv iota.
    rewrite directoryAdded_rec by done. rewrite Hd.
    unfold checkDirectory. rewrite Hd. simpl name.
    by rewrite (get_Some _ _ _ Hdd), andb_false_r.
Qed.

End UnchangedKind.

Lemma demo_root_scanned :
  watch rec_call rec_watch demo_realname onAdd onRemove demo_readdir
    demo_stat (new "/srv" true, [])
  = Returned (demo_root,
              [NativeOpen "/srv/."; Call onAdd (VInfo demo_file);
               Call onAdd (VInfo demo_dir)]).
Proof. vm_compute. reflexivity. Qed.

Lemma demo_root_ok : tracked_ok demo_realname demo_root.
Proof.
  split.
  - intros k i H. simpl in H.
    apply lookup_singleton_Some in H as [<- <-]. by vm_compute.
  - intros d k i [= <-] H.
    apply lookup_singleton_Some in H as [<- <-]. by vm_compute.
  - intros d k [= <-] [i H]. simpl in H.
    apply lookup_singleton_Some in H as [<- <-]. by vm_compute.
Qed.

Lemma demo_root_wired : wired demo_root.
Proof. by split. Qed.

(** C7, the claim as written fails: in the demo root the directory
    [plugins] is tracked and still a directory, and the notification
    makes no call. *)
Lemma tracked_directory_makes_no_call :
  directories demo_root = Some {[ "plugins"%string := demo_dir ]}
  /\ isDirectory demo_dir = true
  /\ listener rec_call demo_realname "change" "plugins"
       (Some StDirectory) (demo_root, [])
     = Returned (demo_root, [])
  /\ ~ (exists w' tr v,
          listener rec_call demo_realname "change" "plugins"
            (Some StDirectory) (demo_root, [])
          = Returned (w', tr)
          /\ Call onRemove v ∈ tr).
Proof.
  assert (H : listener rec_call demo_realname "change" "plugins"
                (Some StDirectory) (demo_root, [])
              = Returned (demo_root, [])) by (vm_compute; reflexivity).
  split_and!; [done | done | exact H |].
  intros (w' & tr & v & Hrun & Hin). rewrite H in Hrun.
  injection Hrun as <- <-. by apply elem_of_nil in Hin.
Qed.

Lemma unchanged_kind_reconciliation_witness :
  listener rec_call demo_realname "change" "a.js" (Some StFile)
    (demo_root, [])
  = Returned (demo_root,
              [Call onRemove (VInfo demo_file); Call onAdd (VInfo demo_file)]).
Proof.
  exact (proj1 (unchanged_kind_reconciliation demo_realname demo_root "change" "a.js"
                  (Some StFile) [] demo_root_ok demo_root_wired)
           demo_file eq_refl eq_refl).
Defined.


(* ===================================================================== *)
(** ** The initial scan and the teardown *)
(* ===================================================================== *)

Lemma filter_ext_elem {A} (P Q : A -> Prop)
    `{forall x, Decision (P x)} `{forall x, Decision (Q x)} (l : list A) :
  (forall x, x ∈ l -> P x <-> Q x) -> filter P l = filter Q l.
Proof.
  induction l as [|x l IH]; intros Hext; [done|].
  rewrite !filter_cons.
  assert (Hx : P x <-> Q x) by (apply Hext; left).
  rewrite IH by (intros y Hy; apply Hext; by right).
  destruct (decide (P x)), (decide (Q x)); tauto.
Qed.

Lemma insert_all_notin m l k :
  k ∉ name <$> l -> insert_all m l !! k = m !! k.
Proof.
  revert m. induction l as [|j l IH]; intros m Hk; [done|].
  simpl in *. apply not_elem_of_cons in Hk as [Hne Hk].
  unfold insert_all in *. simpl. rewrite IH by done.
  by rewrite lookup_insert_ne.
Qed.

Lemma insert_all_in m l i :
  NoDup (name <$> l) -> i ∈ l -> insert_all m l !! name i = Some i.
Proof.
  revert m. induction l as [|j l IH]; intros m Hnd Hi.
  - by apply elem_of_nil in Hi.
  - simpl in Hnd. apply NoDup_cons in Hnd as [Hj Hnd].
    apply elem_of_cons in Hi as [-> | Hi].
    + change (insert_all (<[name j := j]> m) l !! name j = Some j).
      rewrite insert_all_notin by done. apply lookup_insert_eq.
    + change (insert_all (<[name j := j]> m) l !! name i = Some i).
      by apply IH.
Qed.

Lemma insert_all_empty_Some l k i :
  NoDup (name <$> l) ->
  insert_all ∅ l !! k = Some i <-> i ∈ l /\ name i = k.
Proof.
  intros Hnd. split.
  - intros Hk. destruct (decide (k ∈ name <$> l)) as [Hin | Hnin].
    + apply list_elem_of_fmap in Hin as (j & -> & Hj).
      rewrite (insert_all_in _ _ _ Hnd Hj) in Hk. by injection Hk as <-.
    + rewrite insert_all_notin in Hk by done. by rewrite lookup_empty in Hk.
  - intros [Hi <-]. by apply insert_all_in.
Qed.

Lemma delete_all_lookup m ks k :
  delete_all m ks !! k = if decide (k ∈ ks) then None else m !! k.
Proof.
  revert m. induction ks as [|j ks IH]; intros m.
  - by rewrite decide_False by apply not_elem_of_nil.
  - change (delete_all (delete j m) ks !! k
            = if decide (k ∈ j :: ks) then None else m !! k).
    rewrite IH. destruct (decide (k ∈ ks)) as [Hin | Hnin].
    + rewrite decide_True; [done | by right].
    + destruct (decide (k = j)) as [-> | Hne].
      * rewrite decide_True by left. apply lookup_delete_eq.
      * rewrite decide_False by (intros [?|?]%elem_of_cons; done).
        by apply lookup_delete_ne.
Qed.

Lemma delete_all_keys m : delete_all m (reverse (sort (keys m))) = ∅.
Proof.
  apply map_eq. intros k. rewrite delete_all_lookup, lookup_empty.
  case_decide as Hk; [done|].
  rewrite elem_of_reverse, sort_elem_of, elem_of_keys in Hk.
  destruct (m !! k) eqn:Hm; [|done]. destruct Hk. eauto.
Qed.

Lemma entries_at_exist (m : gmap string info) ks :
  (forall k, k ∈ ks -> is_Some (m !! k)) -> exists l, entries_at m ks l.
Proof.
  induction ks as [|k ks IH]; intros Hall.
  - exists []. constructor.
  - destruct (Hall k) as [i Hi]; [left|].
    destruct IH as [l Hl]; [intros; apply Hall; by right|].
    exists (i :: l). by constructor.
Qed.

Lemma entries_at_unique m ks l1 l2 :
  entries_at m ks l1 -> entries_at m ks l2 -> l1 = l2.
Proof.
  intros H1. revert l2. induction H1 as [|k i ks l Hk _ IH]; intros l2 H2.
  - by inversion H2.
  - inversion H2 as [|? j ? l' Hk' Hl']; subst. f_equal; [congruence | by apply IH].
Qed.

Lemma entries_at_reverse m ks l :
  entries_at m ks l -> entries_at m (reverse ks) (reverse l).
Proof. apply Forall2_reverse. Qed.

Lemma entries_at_keys m : exists l, entries_at m (sort (keys m)) l.
Proof.
  apply entries_at_exist. intros k Hk.
  by rewrite sort_elem_of, elem_of_keys in Hk.
Qed.

Section Watch.

Context (realname : string).

Implicit Types (w : RunWatcher.t cb) (tr : trace) (i : info).

Lemma set_files_set_files w m1 m2 :
  set_files m2 (set_files m1 w) = set_files m2 w.
Proof. reflexivity. Qed.

Lemma set_directories_twice w m1 m2 :
  set_directories m2 (set_directories m1 w) = set_directories m2 w.
Proof. reflexivity. Qed.

Lemma eligible_file_insert_ne w k j i :
  k <> name i ->
  eligible_file realname (set_files (<[k := j]> (files w)) w) i
  = eligible_file realname w i.
Proof.
  intros Hne. unfold eligible_file. by rewrite checkFile_insert_ne.
Qed.

Lemma eligible_dir_insert_ne w d k j i :
  directories w = Some d -> k <> name i ->
  eligible_dir (set_directories (<[k := j]> d) w) i = eligible_dir w i.
Proof.
  intros Hd Hne. unfold eligible_dir.
  by rewrite (checkDirectory_insert_ne _ _ _ _ _ _ Hd Hne).
Qed.

(** The first loop of [watch]. *)
Lemma scan_files_loop l w tr :
  added w = Some onAdd -> NoDup (name <$> l) ->
  for_of l
    (fun i => if isFile i then fileAdded rec_call realname i else skip)
    (w, tr)
  = Returned
      (set_files
         (insert_all (files w)
            (filter (fun i => eligible_file realname w i) l)) w,
       tr ++ adds (filter (fun i => eligible_file realname w i) l)).
Proof.
  revert w tr. induction l as [|i l IH]; intros w tr Ha Hnd.
  - simpl. by rewrite set_files_id, app_nil_r.
  - simpl in Hnd. apply NoDup_cons in Hnd as [Hi Hnd].
    assert (Hrest : forall w' j,
              filter (fun x => eligible_file realname
                                 (set_files (<[name i := j]> (files w')) w') x) l
              = filter (fun x => eligible_file realname w' x) l).
    { intros w' j. apply filter_ext_elem. intros x Hx.
      rewrite eligible_file_insert_ne; [done|].
      intros Heq. apply Hi. rewrite Heq. by apply list_elem_of_fmap_2. }
    simpl for_of.
    destruct (eligible_file realname w i) eqn:He.
    + rewrite !filter_cons_True by (cbv beta; by rewrite He).
      unfold eligible_file in He. apply andb_true_iff in He as [Hfile Hchk].
      rewrite Hfile, fileAdded_rec, Hchk by done. simpl bind.
      rewrite IH by done. simpl files. rewrite Hrest.
      rewrite set_files_set_files. unfold adds. simpl fmap.
      by rewrite <- app_assoc.
    + rewrite !filter_cons_False by (cbv beta; rewrite He; by intros ?).
      unfold eligible_file in He.
      destruct (isFile i); [|simpl bind; by apply IH].
      simpl in He. rewrite fileAdded_rec, He by done. simpl bind.
      by apply IH.
Qed.

Lemma eligible_dir_not_recursive w l :
  directories w = None -> filter (fun i => eligible_dir w i) l = [].
Proof.
  intros Hd. induction l as [|i l IH]; [done|].
  rewrite filter_cons_False; [done|].
  unfold eligible_dir, checkDirectory. rewrite Hd.
  rewrite !andb_false_r. by intros ?.
Qed.

(** The second loop of [watch]. *)
Lemma scan_directories_loop l w tr :
  added w = Some onAdd -> NoDup (name <$> l) ->
  for_of l
    (fun i => if isDirectory i then directoryAdded rec_call i else skip)
    (w, tr)
  = Returned
      (match directories w with
       | Some d =>
           set_directories
             (insert_all d (filter (fun i => eligible_dir w i) l)) w
       | None => w
       end,
       tr ++ adds (filter (fun i => eligible_dir w i) l)).
Proof.
  revert w tr. induction l as [|i l IH]; intros w tr Ha Hnd.
  - simpl. rewrite app_nil_r. by destruct w as [? ? ? [d|] ? ?].
  - simpl in Hnd. apply NoDup_cons in Hnd as [Hi Hnd].
    simpl for_of.
    destruct (eligible_dir w i) eqn:He.
    + rewrite !filter_cons_True by (cbv beta; by rewrite He).
      unfold eligible_dir in He. apply andb_true_iff in He as [Hdir Hchk].
      rewrite Hdir, directoryAdded_rec by done.
      destruct (directories w) as [d|] eqn:Hd.
      * rewrite Hchk. simpl bind. rewrite IH by done. simpl directories.
        assert (Hrest :
                  filter (fun x => eligible_dir
                            (set_directories (<[name i := i]> d) w) x) l
                  = filter (fun x => eligible_dir w x) l).
        { apply filter_ext_elem. intros x Hx.
          rewrite (eligible_dir_insert_ne _ d); [done | done |].
          intros Heq. apply Hi. rewrite Heq.
          by apply list_elem_of_fmap_2. }
        rewrite Hrest, set_directories_twice. unfold adds. simpl fmap.
        by rewrite <- app_assoc.
      * unfold checkDirectory in Hchk. rewrite Hd in Hchk.
        by rewrite andb_false_r in Hchk.
    + rewrite !filter_cons_False by (cbv beta; rewrite He; by intros ?).
      unfold eligible_dir in He.
      destruct (isDirectory i); [|simpl bind; by apply IH].
      simpl in He. rewrite directoryAdded_rec by done.
      destruct (directories w) as [d|] eqn:Hd.
      * rewrite He. simpl bind. rewrite IH by done. by rewrite Hd.
      * simpl bind. rewrite IH by done. by rewrite Hd.
Qed.

Lemma scan_names w readdir stat :
  name <$> scan w readdir stat = sort readdir.
Proof.
  unfold scan. rewrite <- list_fmap_compose.
  induction (sort readdir) as [|k ks IH]; [done|].
  rewrite fmap_cons. f_equal. exact IH.
Qed.

Lemma scan_NoDup w readdir stat :
  NoDup readdir -> NoDup (name <$> scan w readdir stat).
Proof. rewrite scan_names. apply sort_NoDup. Qed.

(** What [watch] does on a watcher that is not watching yet. *)
Lemma watch_rec w readdir stat tr :
  watcher w = None -> NoDup readdir ->
  let h := (wpath w ++ "/.")%string in
  let infos := scan w readdir stat in
  let fl := filter (fun i => eligible_file realname w i) infos in
  let dl := filter (fun i => eligible_dir w i) infos in
  watch rec_call rec_watch realname onAdd onRemove readdir stat (w, tr)
  = Returned
      ({| wpath := wpath w;
          files := insert_all (files w) fl;
          watcher := Some h;
          directories := (fun d => insert_all d dl) <$> directories w;
          added := Some onAdd;
          removed := Some onRemove |},
       tr ++ NativeOpen h :: adds fl ++ adds dl).
Proof.
  intros Hw Hnd h infos fl dl. unfold watch. rewrite Hw.
  set (w2 := set_watcher (Some (wpath w ++ sep ++ "."))%string
               (set_callbacks onAdd onRemove w)).
  change (scan w2 readdir stat) with infos.
  rewrite (scan_files_loop infos w2) by (done || by apply scan_NoDup).
  simpl bind.
  rewrite scan_directories_loop by (done || by apply scan_NoDup).
  unfold rec_watch. rewrite <- !app_assoc. simpl app.
  destruct w as [p f wa [d|] a r]; reflexivity.
Qed.

End Watch.

Section Stop.

Context (realname : string).

Implicit Types (w : RunWatcher.t cb) (tr : trace) (i : info).

Lemma for_of_cons {A S} (x : A) xs (body : A -> S -> outcome S) s :
  for_of (x :: xs) body s = bind (body x s) (for_of xs body).
Proof. reflexivity. Qed.

Lemma set_directories_id w d : directories w = Some d -> set_directories d w = w.
Proof. destruct w. simpl. by intros ->. Qed.

Lemma entries_at_delete (m : gmap string info) k ks l :
  k ∉ ks -> entries_at m ks l -> entries_at (delete k m) ks l.
Proof.
  intros Hk H. induction H as [|k' i ks l Hi _ IH]; [constructor|].
  apply not_elem_of_cons in Hk as [Hne Hk].
  constructor; [|by apply IH]. by rewrite lookup_delete_ne.
Qed.

Lemma entries_at_names (m : gmap string info) ks l :
  (forall k i, m !! k = Some i -> name i = k) ->
  entries_at m ks l -> name <$> l = ks.
Proof.
  intros Hn H. induction H as [|k i ks l Hi _ IH]; [done|].
  rewrite fmap_cons. f_equal; [by apply Hn | done].
Qed.

(** The loop of [stop] over the tracked directories. *)
Lemma stop_directories_loop ks : forall l w d tr,
  removed w = Some onRemove -> directories w = Some d ->
  (forall k i, d !! k = Some i -> name i = k) ->
  NoDup ks -> entries_at d ks l ->
  for_of ks
    (fun dir '(w', e') =>
       directoryRemoved rec_call
         (match directories w' with
          | Some d' => to_value (get d' dir)
          | None => VUndefined
          end) (w', e'))
    (w, tr)
  = Returned (set_directories (delete_all d ks) w, tr ++ removes l).
Proof.
  induction ks as [|k ks IH]; intros l w d tr Hr Hd Hn Hnd Hl.
  - inversion Hl; subst. simpl. by rewrite set_directories_id, app_nil_r.
  - inversion Hl as [|? i ? l' Hi Hl']; subst.
    apply NoDup_cons in Hnd as [Hk Hnd].
    rewrite for_of_cons. cbv beta iota.
    rewrite Hd, (get_Some _ _ _ Hi). simpl to_value.
    rewrite (directoryRemoved_rec _ _ d) by done. rewrite (Hn _ _ Hi).
    simpl bind.
    rewrite (IH l' _ (delete k d)); try done.
    + rewrite set_directories_twice. unfold removes. simpl fmap.
      by rewrite <- app_assoc.
    + intros k' i' [_ H]%lookup_delete_Some. by apply Hn.
    + by apply entries_at_delete.
Qed.

(** The loop of [stop] over the tracked files. *)
Lemma stop_files_loop ks : forall l w tr,
  removed w = Some onRemove ->
  (forall k i, files w !! k = Some i -> name i = k) ->
  NoDup ks -> entries_at (files w) ks l ->
  for_of ks
    (fun file '(w', e') =>
       fileRemoved rec_call (to_value (get (files w') file)) (w', e'))
    (w, tr)
  = Returned (set_files (delete_all (files w) ks) w, tr ++ removes l).
Proof.
  induction ks as [|k ks IH]; intros l w tr Hr Hn Hnd Hl.
  - inversion Hl; subst. simpl. by rewrite set_files_id, app_nil_r.
  - inversion Hl as [|? i ? l' Hi Hl']; subst.
    apply NoDup_cons in Hnd as [Hk Hnd].
    rewrite for_of_cons. cbv beta iota.
    rewrite (get_Some _ _ _ Hi). simpl to_value.
    rewrite fileRemoved_rec by done. rewrite (Hn _ _ Hi).
    simpl bind.
    rewrite (IH l'); try done.
    + simpl files. unfold removes. simpl fmap.
      by rewrite <- app_assoc.
    + simpl files. intros k' i' [_ H]%lookup_delete_Some. by apply Hn.
    + simpl files. by apply entries_at_delete.
Qed.

Lemma tracked_file_name w k i :
  tracked_ok realname w -> files w !! k = Some i -> name i = k.
Proof. intros Hok Hi. by destruct (files_ok _ _ Hok _ _ Hi) as [-> _]. Qed.

Lemma tracked_dir_name w d k i :
  tracked_ok realname w -> directories w = Some d -> d !! k = Some i ->
  name i = k.
Proof.
  intros Hok Hd Hi. by destruct (dirs_ok _ _ Hok _ _ _ Hd Hi) as (-> & _).
Qed.

Lemma reverse_sort_keys_NoDup {A} (m : gmap string A) :
  NoDup (reverse (sort (keys m))).
Proof. rewrite reverse_Permutation. apply sort_NoDup, keys_NoDup. Qed.

(** What [stop] does on a watcher that is watching: the entries [ds] of
    the tracked directories and [fs] of the tracked files, both listed by
    ascending name, are removed from the last to the first. *)
Lemma stop_rec w h ds fs tr :
  tracked_ok realname w -> removed w = Some onRemove ->
  watcher w = Some h ->
  entries_at (tracked_dirs w) (sort (keys (tracked_dirs w))) ds ->
  entries_at (files w) (sort (keys (files w))) fs ->
  stop rec_call rec_close (w, tr)
  = Returned
      ({| wpath := wpath w;
          files := ∅;
          watcher := None;
          directories := (fun _ => ∅) <$> directories w;
          added := added w;
          removed := removed w |},
       tr ++ NativeClose h :: removes (reverse ds) ++ removes (reverse fs)).
Proof.
  intros Hok Hr Hw Hds Hfs. unfold stop. rewrite Hw.
  unfold tracked_dirs in Hds.
  destruct (directories w) as [d|] eqn:Hd; simpl default in Hds.
  - simpl directories. rewrite Hd.
    rewrite (stop_directories_loop _ (reverse ds) _ d); try done.
    + simpl bind. simpl files.
      rewrite (stop_files_loop _ (reverse fs)); try done.
      * simpl files. rewrite !delete_all_keys.
        unfold rec_close. rewrite <- !app_assoc. simpl app.
        destruct w; simpl in *. subst. reflexivity.
      * intros k i Hi. simpl in Hi. by eapply tracked_file_name.
      * apply reverse_sort_keys_NoDup.
      * by apply entries_at_reverse.
    + intros k i Hi. by eapply (tracked_dir_name w d).
    + apply reverse_sort_keys_NoDup.
    + by apply entries_at_reverse.
  - simpl directories. rewrite Hd. simpl bind.
    assert (ds = []) as ->.
    { unfold keys in Hds. rewrite map_to_list_empty in Hds.
      by inversion Hds. }
    rewrite (stop_files_loop _ (reverse fs)); try done.
    + simpl files. rewrite !delete_all_keys.
      unfold rec_close. rewrite <- !app_assoc. simpl app.
      destruct w; simpl in *. subst. reflexivity.
    + intros k i Hi. simpl in Hi. by eapply tracked_file_name.
    + apply reverse_sort_keys_NoDup.
    + by apply entries_at_reverse.
Qed.

End Stop.

Section Order.

Context (realname : string).

Implicit Types (w : RunWatcher.t cb) (tr : trace) (i : info).

Lemma fmap_filter_NoDup {A B} (f : A -> B) (P : A -> Prop)
    `{forall x, Decision (P x)} (l : list A) :
  NoDup (f <$> l) -> NoDup (f <$> filter P l).
Proof.
  intros Hnd. eapply sublist_NoDup; [exact Hnd|].
  apply fmap_sublist, sublist_filter.
Qed.

Lemma NoDup_fmap_same {A B} (f : A -> B) (l : list A) x y :
  NoDup (f <$> l) -> x ∈ l -> y ∈ l -> f x = f y -> x = y.
Proof.
  induction l as [|z l IH]; intros Hnd Hx Hy Hxy.
  - by apply elem_of_nil in Hx.
  - rewrite fmap_cons in Hnd. apply NoDup_cons in Hnd as [Hz Hnd].
    apply elem_of_cons in Hx as [-> | Hx];
      apply elem_of_cons in Hy as [-> | Hy]; [done | | | by apply IH].
    + destruct Hz. rewrite Hxy. by apply list_elem_of_fmap_2.
    + destruct Hz. rewrite <- Hxy. by apply list_elem_of_fmap_2.
Qed.

Lemma fmap_filter_sorted {A B} (R : relation B) (f : A -> B) (P : A -> Prop)
    `{forall x, Decision (P x)} (l : list A) :
  StronglySorted R (f <$> l) -> StronglySorted R (f <$> filter P l).
Proof.
  induction l as [|x l IH]; [done|].
  rewrite fmap_cons. intros [Hl Hx]%StronglySorted_inv.
  rewrite filter_cons. destruct (decide (P x)); [|by apply IH].
  rewrite fmap_cons. constructor; [by apply IH|].
  rewrite Forall_forall in Hx |- *. intros y Hy. apply Hx.
  apply list_elem_of_fmap in Hy as (z & -> & Hz).
  apply list_elem_of_filter in Hz as [_ Hz]. by apply list_elem_of_fmap_2.
Qed.

Lemma scan_sorted w readdir stat :
  StronglySorted String.le (name <$> scan w readdir stat).
Proof. rewrite scan_names. apply sort_sorted. Qed.

Lemma scan_elem w readdir stat i :
  i ∈ scan w readdir stat ->
  i = fileInfo (path_join (wpath w) (name i)) (name i)
        (stat (path_join (wpath w) (name i))).
Proof.
  unfold scan. intros (n & -> & _)%list_elem_of_fmap. reflexivity.
Qed.

(** The sorted key list of a map filled from a list that is sorted by
    name is the list of names itself. *)
Lemma sort_keys_insert_all l :
  NoDup (name <$> l) -> StronglySorted String.le (name <$> l) ->
  sort (keys (insert_all ∅ l)) = name <$> l.
Proof.
  intros Hnd Hs. apply sort_unique; [done|].
  apply NoDup_Permutation; [done | apply keys_NoDup |].
  intros k. rewrite elem_of_keys, list_elem_of_fmap. split.
  - intros (i & -> & Hi). exists i. by apply insert_all_in.
  - intros [i Hi]. apply insert_all_empty_Some in Hi as [Hi <-]; [|done].
    by exists i.
Qed.

Lemma entries_at_insert_all l :
  NoDup (name <$> l) -> entries_at (insert_all ∅ l) (name <$> l) l.
Proof.
  intros Hnd. unfold entries_at. apply Forall2_fmap_l, Forall_Forall2_diag.
  apply Forall_forall. intros i Hi. by apply insert_all_in.
Qed.

Lemma checkFile_file_static w n :
  checkFile realname w (path_join (wpath w) n) n = true ->
  file_static_ok realname w n = true.
Proof. rewrite checkFile_static. by intros [? _]%andb_true_iff. Qed.

(** After [watch] on an idle watcher the maps satisfy the invariant. *)
Lemma watch_idle_tracked_ok w readdir stat h :
  idle w -> NoDup readdir ->
  let infos := scan w readdir stat in
  let fl := filter (fun i => eligible_file realname w i) infos in
  let dl := filter (fun i => eligible_dir w i) infos in
  tracked_ok realname
    {| wpath := wpath w;
       files := insert_all (files w) fl;
       watcher := Some h;
       directories := (fun d => insert_all d dl) <$> directories w;
       added := Some onAdd;
       removed := Some onRemove |}.
Proof.
  intros (Hw & Hf & Hd) Hnd infos fl dl.
  assert (Hndi : NoDup (name <$> infos)) by by apply scan_NoDup.
  assert (Hndf : NoDup (name <$> fl)) by by apply fmap_filter_NoDup.
  assert (Hndd : NoDup (name <$> dl)) by by apply fmap_filter_NoDup.
  assert (Hfl : forall i, i ∈ fl ->
            i = fileInfo (path_join (wpath w) (name i)) (name i) (Some StFile)
            /\ file_static_ok realname w (name i) = true).
  { intros i [He Hi]%list_elem_of_filter.
    apply Is_true_true, andb_true_iff in He as [Hfile Hchk].
    pose proof (scan_elem _ _ _ _ Hi) as Heq.
    rewrite Heq in Hfile. apply fileInfo_isFile in Hfile.
    rewrite <- Heq in Hfile. split; [done|].
    apply checkFile_file_static. rewrite Hfile in Hchk at 1. exact Hchk. }
  assert (Hdl : forall i, i ∈ dl ->
            i = fileInfo (path_join (wpath w) (name i)) (name i)
                  (Some StDirectory)
            /\ not_dot_first (name i) = true /\ inherited (name i) = false).
  { intros i [He Hi]%list_elem_of_filter.
    apply Is_true_true, andb_true_iff in He as [Hdir Hchk].
    pose proof (scan_elem _ _ _ _ Hi) as Heq.
    rewrite Heq in Hdir. apply fileInfo_isDirectory in Hdir.
    rewrite <- Heq in Hdir. split; [done|].
    unfold checkDirectory in Hchk. apply andb_true_iff in Hchk as [Hdot Hget].
    split; [done|].
    unfold tracked_dirs in Hd.
    destruct (directories w) as [d|]; [|done]. simpl in Hd. subst d.
    unfold get in Hget. rewrite lookup_empty in Hget.
    by destruct (inherited (name i)). }
  rewrite Hf. split; simpl.
  - intros k i Hi. apply insert_all_empty_Some in Hi as [Hi <-]; [|done].
    by apply Hfl.
  - intros d k i Hdw Hi. unfold tracked_dirs in Hd.
    destruct (directories w) as [d0|]; [|done]. simpl in Hd, Hdw. subst d0.
    injection Hdw as <-.
    apply insert_all_empty_Some in Hi as [Hi <-]; [|done]. by apply Hdl.
  - intros d k Hdw [i Hi]. unfold tracked_dirs in Hd.
    destruct (directories w) as [d0|]; [|done]. simpl in Hd, Hdw. subst d0.
    injection Hdw as <-.
    apply insert_all_empty_Some in Hi as [Hi <-]; [|done].
    destruct (insert_all ∅ dl !! name i) as [j|] eqn:Hj; [|done].
    apply insert_all_empty_Some in Hj as [Hj Hn]; [|done].
    apply list_elem_of_filter in Hi as [Hei Hi].
    apply list_elem_of_filter in Hj as [Hej Hj].
    assert (j = i) as ->.
    { by apply (NoDup_fmap_same name infos). }
    apply Is_true_true, andb_true_iff in Hei as [Hfile _].
    apply Is_true_true, andb_true_iff in Hej as [Hdir _].
    pose proof (scan_elem _ _ _ _ Hi) as Heq. rewrite Heq in Hfile, Hdir.
    apply fileInfo_exclusive in Hfile. congruence.
Qed.

End Order.

Section StartStop.

Context (realname : string).

Implicit Types (w : RunWatcher.t cb) (tr : trace) (i : info).

Lemma adds_all_add l : Forall (fun e => is_add e = true) (adds l).
Proof. unfold adds. apply Forall_fmap, Forall_forall. by intros. Qed.

(** C3, as the code has it.  [watch] opens the native handle first and
    scans afterwards: on a watcher that is not watching, the log grows by
    [NativeOpen] followed by the calls of the scan, all of them [onAdd];
    on a watcher that is watching, [watch] throws before doing
    anything. *)
Theorem native_handle_opened_before_scan w readdir stat tr :
  NoDup readdir ->
  (watcher w = None ->
   exists w' calls,
     watch rec_call rec_watch realname onAdd onRemove readdir stat (w, tr)
     = Returned (w', tr ++ NativeOpen (wpath w ++ "/.")%string :: calls)
     /\ watcher w' = Some (wpath w ++ "/.")%string
     /\ Forall (fun e => is_add e = true) calls)
  /\ (forall h, watcher w = Some h ->
      watch rec_call rec_watch realname onAdd onRemove readdir stat (w, tr)
      = Thrown (Error ("Already watching '" ++ wpath w ++ "'")%string) (w, tr)).
Proof.
  intros Hnd. split.
  - intros Hw. rewrite watch_rec by done.
    eexists _, _. split; [reflexivity|]. split; [reflexivity|].
    apply Forall_app. split; apply adds_all_add.
  - intros h Hw. unfold watch. by rewrite Hw.
Qed.

(** What the scan hands to [onAdd], read off the answers of [stat]. *)
Lemma eligible_file_scanned w readdir stat i :
  i ∈ filter (fun i => eligible_file realname w i) (scan w readdir stat)
  <-> exists n,
        n ∈ readdir
        /\ stat (path_join (wpath w) n) = Some StFile
        /\ checkFile realname w (path_join (wpath w) n) n = true
        /\ i = fileInfo (path_join (wpath w) n) n (Some StFile).
Proof.
  rewrite list_elem_of_filter. unfold scan. rewrite list_elem_of_fmap.
  split.
  - intros [He (n & -> & Hn)]. rewrite sort_elem_of in Hn.
    apply Is_true_true, andb_true_iff in He as [Hfile Hchk].
    exists n. simpl in Hchk. split_and!; try done.
    + by destruct (stat (path_join (wpath w) n)) as [[]|].
    + by apply fileInfo_isFile.
  - intros (n & Hn & Hst & Hchk & ->). split.
    + apply Is_true_true. unfold eligible_file. simpl. by rewrite Hchk.
    + exists n. rewrite Hst. split; [done | by rewrite sort_elem_of].
Qed.

Lemma eligible_dir_scanned w readdir stat i :
  i ∈ filter (fun i => eligible_dir w i) (scan w readdir stat)
  <-> exists n,
        n ∈ readdir
        /\ stat (path_join (wpath w) n) = Some StDirectory
        /\ checkDirectory w (path_join (wpath w) n) n = true
        /\ i = fileInfo (path_join (wpath w) n) n (Some StDirectory).
Proof.
  rewrite list_elem_of_filter. unfold scan. rewrite list_elem_of_fmap.
  split.
  - intros [He (n & -> & Hn)]. rewrite sort_elem_of in Hn.
    apply Is_true_true, andb_true_iff in He as [Hdir Hchk].
    exists n. simpl in Hchk. split_and!; try done.
    + by destruct (stat (path_join (wpath w) n)) as [[]|].
    + by apply fileInfo_isDirectory.
  - intros (n & Hn & Hst & Hchk & ->). split.
    + apply Is_true_true. unfold eligible_dir. simpl. by rewrite Hchk.
    + exists n. rewrite Hst. split; [done | by rewrite sort_elem_of].
Qed.

(** C5.  (a) On a watcher that is not watching, [watch] opens the handle
    and then calls [onAdd] for the files [fl] and then for the
    directories [dl].  [fl] holds, by ascending name and once each, the
    entries of the listing for which [stat] answers a file and which
    [checkFile] admits; [dl] holds, by ascending name and once each,
    those for which [stat] answers a directory and which
    [checkDirectory] admits, none when the watcher is not recursive.
    (b) On a watcher that is watching, [stop] closes the native handle
    and then calls [onRemove] for the tracked directories from the last
    name to the first, then for the tracked files from the last name to
    the first.  (c) A [stop] that follows the [watch] of an idle watcher
    removes exactly what the scan added, in the reverse order. *)
Theorem scan_and_teardown_order :
  (forall w readdir stat tr,
     watcher w = None -> NoDup readdir ->
     exists w' fl dl,
       watch rec_call rec_watch realname onAdd onRemove readdir stat (w, tr)
       = Returned
           (w', tr ++ NativeOpen (wpath w ++ "/.")%string
                   :: adds fl ++ adds dl)
       /\ (forall i, i ∈ fl <->
             exists n,
               n ∈ readdir
               /\ stat (path_join (wpath w) n) = Some StFile
               /\ checkFile realname w (path_join (wpath w) n) n = true
               /\ i = fileInfo (path_join (wpath w) n) n (Some StFile))
       /\ (forall i, i ∈ dl <->
             exists n,
               n ∈ readdir
               /\ stat (path_join (wpath w) n) = Some StDirectory
               /\ checkDirectory w (path_join (wpath w) n) n = true
               /\ i = fileInfo (path_join (wpath w) n) n (Some StDirectory))
       /\ StronglySorted String.le (name <$> fl) /\ NoDup (name <$> fl)
       /\ StronglySorted String.le (name <$> dl) /\ NoDup (name <$> dl)
       /\ (directories w = None -> dl = []))
  /\ (forall w h tr,
        tracked_ok realname w -> removed w = Some onRemove ->
        watcher w = Some h ->
        exists w' ds fs,
          stop rec_call rec_close (w, tr)
          = Returned
              (w', tr ++ NativeClose h
                      :: removes (reverse ds) ++ removes (reverse fs))
          /\ idle w'
          /\ entries_at (tracked_dirs w) (sort (keys (tracked_dirs w))) ds
          /\ name <$> ds = sort (keys (tracked_dirs w))
          /\ entries_at (files w) (sort (keys (files w))) fs
          /\ name <$> fs = sort (keys (files w)))
  /\ (forall w readdir stat tr w1 tr1 tr',
        idle w -> NoDup readdir ->
        watch rec_call rec_watch realname onAdd onRemove readdir stat (w, tr)
        = Returned (w1, tr1) ->
        exists al,
          tr1 = tr ++ NativeOpen (wpath w ++ "/.")%string :: adds al
          /\ exists w2,
               stop rec_call rec_close (w1, tr')
               = Returned
                   (w2, tr' ++ NativeClose (wpath w ++ "/.")%string
                            :: removes (reverse al))
               /\ idle w2).
Proof.
  split_and!.
  - intros w readdir stat tr Hw Hnd.
    set (infos := scan w readdir stat).
    exists (set_watcher (Some (wpath w ++ "/.")%string)
              (set_callbacks onAdd onRemove
                 (match directories w with
                  | Some d =>
                      set_directories
                        (insert_all d
                           (filter (fun i => eligible_dir w i) infos))
                        (set_files
                           (insert_all (files w)
                              (filter (fun i => eligible_file realname w i)
                                 infos)) w)
                  | None =>
                      set_files
                        (insert_all (files w)
                           (filter (fun i => eligible_file realname w i)
                              infos)) w
                  end))),
           (filter (fun i => eligible_file realname w i) infos),
           (filter (fun i => eligible_dir w i) infos).
    split_and!.
    + rewrite watch_rec by done. f_equal. f_equal.
      by destruct w as [? ? ? [d|] ? ?].
    + intros i. apply eligible_file_scanned.
    + intros i. apply eligible_dir_scanned.
    + apply fmap_filter_sorted, scan_sorted.
    + apply fmap_filter_NoDup. by apply scan_NoDup.
    + apply fmap_filter_sorted, scan_sorted.
    + apply fmap_filter_NoDup. by apply scan_NoDup.
    + intros Hd. by apply eligible_dir_not_recursive.
  - intros w h tr Hok Hr Hw.
    destruct (entries_at_keys (tracked_dirs w)) as [ds Hds].
    destruct (entries_at_keys (files w)) as [fs Hfs].
    eexists _, ds, fs. split; [by apply (stop_rec realname)|].
    split_and!; try done.
    + unfold idle, tracked_dirs. simpl. by destruct (directories w).
    + apply (entries_at_names _ _ _) in Hds; [done|].
      intros k i Hi. unfold tracked_dirs in Hi.
      destruct (directories w) as [d|] eqn:Hd; simpl in Hi;
        [by eapply (tracked_dir_name realname) | by rewrite lookup_empty in Hi].
    + apply (entries_at_names _ _ _) in Hfs; [done|].
      intros k i. by apply (tracked_file_name realname).
  - intros w readdir stat tr w1 tr1 tr' Hidle Hnd Hrun.
    set (infos := scan w readdir stat).
    set (fl := filter (fun i => eligible_file realname w i) infos).
    set (dl := filter (fun i => eligible_dir w i) infos).
    destruct Hidle as (Hw & Hf & Hd).
    rewrite watch_rec in Hrun by done. fold infos fl dl in Hrun.
    injection Hrun as <- <-. exists (fl ++ dl).
    split; [unfold adds; by rewrite fmap_app|].
    replace (removes (reverse (fl ++ dl)))
      with (removes (reverse dl) ++ removes (reverse fl))
      by (unfold removes; by rewrite reverse_app, fmap_app).
    assert (Hndi : NoDup (name <$> infos)) by by apply scan_NoDup.
    assert (Hndf : NoDup (name <$> fl)) by by apply fmap_filter_NoDup.
    assert (Hndd : NoDup (name <$> dl)) by by apply fmap_filter_NoDup.
    assert (Hsf : StronglySorted String.le (name <$> fl))
      by apply fmap_filter_sorted, scan_sorted.
    assert (Hsd : StronglySorted String.le (name <$> dl))
      by apply fmap_filter_sorted, scan_sorted.
    pose proof (watch_idle_tracked_ok realname w readdir stat
                  (wpath w ++ "/.")%string (conj Hw (conj Hf Hd)) Hnd) as Hok.
    simpl in Hok. fold infos fl dl in Hok.
    eexists. split.
    + apply (stop_rec realname); try done; rewrite ?Hf.
      * unfold tracked_dirs in *. simpl.
        destruct (directories w) as [d|] eqn:Hdw; simpl in *.
        -- subst d. rewrite sort_keys_insert_all by done.
           by apply entries_at_insert_all.
        -- rewrite (eligible_dir_not_recursive w infos Hdw : dl = []).
           unfold keys. rewrite map_to_list_empty. constructor.
      * simpl. rewrite sort_keys_insert_all by done.
        by apply entries_at_insert_all.
    + unfold idle, tracked_dirs. simpl. by destruct (directories w).
Qed.

End StartStop.

Lemma demo_readdir_NoDup : NoDup demo_readdir.
Proof. apply (bool_decide_unpack _). by vm_compute. Qed.

Lemma demo_fresh_idle : idle (new (C := cb) "/srv" true).
Proof. by repeat split. Qed.

Lemma listener_decision_table_witness :
  (exists w',
     listener rec_call demo_realname "rename" "a.js" None (demo_root, [])
     = Returned (w', [Call onRemove (VInfo demo_file)]))
  /\ (exists w',
        listener rec_call demo_realname "change" "a.js" (Some StFile)
          (demo_root, [])
        = Returned (w', [Call onRemove (VInfo demo_file);
                         Call onAdd (VInfo demo_file)]))
  /\ (exists w',
        listener rec_call demo_realname "rename" "extra" (Some StDirectory)
          (demo_root, [])
        = Returned
            (w', [Call onAdd
                    (VInfo (fileInfo "/srv/extra" "extra" (Some StDirectory)))])).
Proof.
  split_and!.
  - destruct (listener_decision_table demo_realname demo_root "rename" "a.js"
                None [] demo_root_ok demo_root_wired)
      as (w' & rm & ad & Hrun & H1 & _ & _ & _ & _ & _ & H6 & _).
    exists w'. etransitivity; [exact Hrun|].
    rewrite (H1 demo_file eq_refl), H6 by done. reflexivity.
  - destruct (listener_decision_table demo_realname demo_root "change" "a.js"
                (Some StFile) [] demo_root_ok demo_root_wired)
      as (w' & rm & ad & Hrun & H1 & _ & _ & _ & H4 & _).
    exists w'. etransitivity; [exact Hrun|].
    rewrite (H1 demo_file eq_refl), (H4 eq_refl). reflexivity.
  - destruct (listener_decision_table demo_realname demo_root "rename" "extra"
                (Some StDirectory) [] demo_root_ok demo_root_wired)
      as (w' & rm & ad & Hrun & _ & _ & _ & H3 & _ & H5 & _).
    exists w'. etransitivity; [exact Hrun|].
    rewrite (H5 eq_refl), H3; [reflexivity..|].
    intros d dd [= <-] Hdd. by vm_compute in Hdd.
Defined.

Lemma native_handle_opened_before_scan_witness :
  NoDup demo_readdir
  /\ exists w' calls,
       watch rec_call rec_watch demo_realname onAdd onRemove demo_readdir
         demo_stat (new "/srv" true, [])
       = Returned (w', [] ++ NativeOpen "/srv/." :: calls)
       /\ watcher w' = Some "/srv/."%string
       /\ Forall (fun e => is_add e = true) calls.
Proof.
  split; [exact demo_readdir_NoDup|].
  exact (proj1 (native_handle_opened_before_scan demo_realname
                  (new "/srv" true) demo_readdir demo_stat []
                  demo_readdir_NoDup) eq_refl).
Defined.

(** C3, the claim as written fails: scanning the demo root, the native
    handle is opened first and both [onAdd] calls come after it; no
    [onAdd] call precedes the opening. *)
Lemma scan_follows_native_open :
  watch rec_call rec_watch demo_realname onAdd onRemove demo_readdir
    demo_stat (new "/srv" true, [])
  = Returned (demo_root,
              [NativeOpen "/srv/."; Call onAdd (VInfo demo_file);
               Call onAdd (VInfo demo_dir)])
  /\ ~ (exists w' before after v,
          watch rec_call rec_watch demo_realname onAdd onRemove demo_readdir
            demo_stat (new "/srv" true, [])
          = Returned (w', before ++ NativeOpen "/srv/." :: after)
          /\ Call onAdd v ∈ before).
Proof.
  split; [exact demo_root_scanned|].
  intros (w' & before & after & v & Hrun & Hin).
  rewrite demo_root_scanned in Hrun. injection Hrun as _ Htr.
  destruct before as [|e1 before]; [by apply elem_of_nil in Hin|].
  injection Htr as <- Htr.
  destruct before as [|e2 before]; [discriminate|].
  injection Htr as <- Htr.
  destruct before as [|e3 before]; [discriminate|].
  injection Htr as <- Htr.
  destruct before; discriminate.
Defined.

Lemma demo_mixed_NoDup : NoDup demo_mixed_readdir.
Proof. apply (bool_decide_unpack _). by vm_compute. Qed.

Lemma scan_and_teardown_order_witness :
  exists w1 w2,
    watch rec_call rec_watch demo_realname onAdd onRemove demo_mixed_readdir
      demo_mixed_stat (new "/data" true, [])
    = Returned
        (w1, [NativeOpen "/data/.";
              Call onAdd (VInfo (fileInfo "/data/a.json" "a.json" (Some StFile)));
              Call onAdd (VInfo (fileInfo "/data/b.js" "b.js" (Some StFile)));
              Call onAdd (VInfo (fileInfo "/data/alpha" "alpha" (Some StDirectory)));
              Call onAdd (VInfo (fileInfo "/data/zeta" "zeta" (Some StDirectory)))])
    /\ stop rec_call rec_close (w1, [])
       = Returned
           (w2, [NativeClose "/data/.";
                 Call onRemove (VInfo (fileInfo "/data/zeta" "zeta" (Some StDirectory)));
                 Call onRemove (VInfo (fileInfo "/data/alpha" "alpha" (Some StDirectory)));
                 Call onRemove (VInfo (fileInfo "/data/b.js" "b.js" (Some StFile)));
                 Call onRemove (VInfo (fileInfo "/data/a.json" "a.json" (Some StFile)))])
    /\ idle w2.
Proof.
  destruct (watch rec_call rec_watch demo_realname onAdd onRemove
              demo_mixed_readdir demo_mixed_stat (new "/data" true, []))
    as [[w1 tr1]| |] eqn:Hrun; [|by vm_compute in Hrun..].
  destruct (proj2 (proj2 (scan_and_teardown_order demo_realname))
              (new "/data" true) demo_mixed_readdir demo_mixed_stat [] w1 tr1
              [] (conj eq_refl (conj eq_refl eq_refl)) demo_mixed_NoDup Hrun)
    as (al & Htr & w2 & Hstop & Hidle).
  assert (Hc : tr1
               = NativeOpen "/data/."
                   :: adds [fileInfo "/data/a.json" "a.json" (Some StFile);
                            fileInfo "/data/b.js" "b.js" (Some StFile);
                            fileInfo "/data/alpha" "alpha" (Some StDirectory);
                            fileInfo "/data/zeta" "zeta" (Some StDirectory)])
    by (vm_compute in Hrun; by injection Hrun as _ <-).
  assert (Hal : al = [fileInfo "/data/a.json" "a.json" (Some StFile);
                      fileInfo "/data/b.js" "b.js" (Some StFile);
                      fileInfo "/data/alpha" "alpha" (Some StDirectory);
                      fileInfo "/data/zeta" "zeta" (Some StDirectory)]).
  { rewrite Hc in Htr. injection Htr as Htr. revert Htr. clear.
    destruct al as [|a1 [|a2 [|a3 [|a4 [|a5 al]]]]]; intros [=].
    by subst. }
  exists w1, w2. split; [by rewrite Hc|]. split; [|exact Hidle].
  rewrite Hal in Hstop. exact Hstop.
Defined.

(* ===================================================================== *)
(** ** The invariant holds in every state a watcher reaches *)
(* ===================================================================== *)

Section WatcherInvariant.

Context (realname : string).

Implicit Types (w : RunWatcher.t cb) (tr : trace) (i : info).

Lemma tracked_ok_delete_file w k :
  tracked_ok realname w ->
  tracked_ok realname (set_files (delete k (files w)) w).
Proof.
  intros [H1 H2 H3]. split; simpl.
  - intros k' i [_ Hi]%lookup_delete_Some. by apply H1.
  - exact H2.
  - intros d k' Hd [i [_ Hi]%lookup_delete_Some]. eapply H3; eauto.
Qed.

Lemma tracked_ok_delete_dir w d k :
  tracked_ok realname w -> directories w = Some d ->
  tracked_ok realname (set_directories (delete k d) w).
Proof.
  intros [H1 H2 H3] Hd. split; simpl.
  - exact H1.
  - intros d' k' i [= <-] [_ Hi]%lookup_delete_Some. by eapply H2.
  - intros d' k' [= <-] Hk. apply lookup_delete_None. right.
    by eapply H3.
Qed.

Lemma tracked_ok_insert_file w n :
  tracked_ok realname w ->
  file_static_ok realname w n = true ->
  (forall d, directories w = Some d -> d !! n = None) ->
  tracked_ok realname
    (set_files (<[n := fileInfo (path_join (wpath w) n) n (Some StFile)]>
                  (files w)) w).
Proof.
  intros [H1 H2 H3] Hst Hnd. split; simpl.
  - intros k i [[<- <-] | [_ Hi]]%lookup_insert_Some; [done | by apply H1].
  - exact H2.
  - intros d k Hd [i [[<- <-] | [_ Hi]]%lookup_insert_Some].
    + by apply Hnd.
    + eapply H3; eauto.
Qed.

Lemma tracked_ok_insert_dir w d n :
  tracked_ok realname w -> directories w = Some d ->
  not_dot_first n = true -> inherited n = false ->
  files w !! n = None ->
  tracked_ok realname
    (set_directories
       (<[n := fileInfo (path_join (wpath w) n) n (Some StDirectory)]> d) w).
Proof.
  intros [H1 H2 H3] Hd Hdot Hinh Hf. split; simpl.
  - exact H1.
  - intros d' k i [= <-] [[<- <-] | [_ Hi]]%lookup_insert_Some;
      [done | by eapply H2].
  - intros d' k [= <-] Hk. apply lookup_insert_None. split.
    + by eapply H3.
    + intros <-. rewrite Hf in Hk. by destruct Hk.
Qed.

(** The add that ends the listener keeps the invariant, provided the
    name is not tracked on the other side. *)
Lemma add_step_tracked_ok w file stat tr w' tr' :
  tracked_ok realname w -> added w = Some onAdd ->
  (isFile (fileInfo (path_join (wpath w) file) file stat) = true ->
   forall d, directories w = Some d -> d !! file = None) ->
  (isDirectory (fileInfo (path_join (wpath w) file) file stat) = true ->
   files w !! file = None) ->
  add_step realname (fileInfo (path_join (wpath w) file) file stat) (w, tr)
  = Returned (w', tr') ->
  tracked_ok realname w' /\ wpath w' = wpath w /\ watcher w' = watcher w
  /\ added w' = added w /\ removed w' = removed w.
Proof.
  intros Hok Ha Hnd Hnf. unfold add_step.
  set (i := fileInfo (path_join (wpath w) file) file stat) in *.
  assert (Hname : name i = file) by reflexivity.
  assert (Hpath : path i = path_join (wpath w) file) by reflexivity.
  assert (Hif : isFile i = true ->
                i = fileInfo (path_join (wpath w) file) file (Some StFile))
    by apply fileInfo_isFile.
  assert (Hid : isDirectory i = true ->
                i = fileInfo (path_join (wpath w) file) file
                      (Some StDirectory))
    by apply fileInfo_isDirectory.
  clearbody i.
  destruct (isFile i) eqn:Hfile; [|destruct (isDirectory i) eqn:Hdir].
  - rewrite fileAdded_rec by done. rewrite Hname, Hpath.
    destruct (checkFile realname w (path_join (wpath w) file) file) eqn:Hchk;
      intros [= <- <-]; [|done].
    split; [|done]. rewrite (Hif eq_refl).
    apply tracked_ok_insert_file; [done | | by apply Hnd].
    by apply checkFile_file_static.
  - rewrite directoryAdded_rec by done. rewrite Hname, Hpath.
    destruct (directories w) as [d|] eqn:Hd; [|by intros [= <- <-]].
    destruct (checkDirectory w (path_join (wpath w) file) file) eqn:Hchk;
      intros [= <- <-]; [|done].
    split; [|done]. rewrite (Hid eq_refl).
    unfold checkDirectory in Hchk. rewrite Hd in Hchk.
    apply andb_true_iff in Hchk as [Hdot Hget].
    apply tracked_ok_insert_dir; [done | done | done | | by apply Hnf].
    unfold get in Hget.
    destruct (d !! file); [done|]. by destruct (inherited file).
  - by intros [= <- <-].
Qed.

Lemma listener_tracked_ok w ev file stat tr w' tr' :
  tracked_ok realname w -> wired w ->
  listener rec_call realname ev file stat (w, tr) = Returned (w', tr') ->
  tracked_ok realname w' /\ wired w' /\ wpath w' = wpath w
  /\ watcher w' = watcher w.
Proof.
  intros Hok [Ha Hr]. rewrite listener_unfold.
  set (i := fileInfo (path_join (wpath w) file) file stat).
  assert (Hfinish : forall w1 tr1,
            tracked_ok realname w1 -> wpath w1 = wpath w ->
            watcher w1 = watcher w -> added w1 = Some onAdd ->
            removed w1 = Some onRemove ->
            (isFile i = true ->
             forall d, directories w1 = Some d -> d !! file = None) ->
            (isDirectory i = true -> files w1 !! file = None) ->
            add_step realname i (w1, tr1) = Returned (w', tr') ->
            tracked_ok realname w' /\ wired w' /\ wpath w' = wpath w
            /\ watcher w' = watcher w).
  { intros w1 tr1 Hok1 Hp1 Hw1 Ha1 Hr1 Hnd Hnf Hrun.
    unfold i in Hrun, Hnd, Hnf. rewrite <- Hp1 in Hrun, Hnd, Hnf.
    destruct (add_step_tracked_ok _ _ _ _ _ _ Hok1 Ha1 Hnd Hnf Hrun)
      as (? & ? & ? & ? & ?).
    split_and!; [done | split; congruence | congruence | congruence]. }
  destruct (files w !! file) as [f|] eqn:Hf.
  - destruct (files_ok _ _ Hok _ _ Hf) as [Hfi _].
    assert (Hname : name f = file) by by rewrite Hfi.
    rewrite (get_Some _ _ _ Hf). simpl truthy. cbv iota. simpl to_value.
    rewrite fileRemoved_rec by done. rewrite bind_Returned, Hname.
    apply Hfinish; try done.
    + by apply tracked_ok_delete_file.
    + intros _ d Hd. eapply disjoint_ok; eauto.
    + intros _. apply lookup_delete_eq.
  - destruct (inherited file) eqn:Hinh.
    + rewrite (get_inherited _ _ Hf Hinh). simpl truthy. cbv iota.
      unfold fileRemoved. simpl value_name. cbv iota beta.
      unfold invoke. simpl removed. rewrite Hr. unfold rec_call.
      rewrite lift_Returned, bind_Returned.
      apply Hfinish; try done.
      * by apply tracked_ok_delete_file.
      * intros _ d Hd.
        destruct (d !! file) as [dd|] eqn:Hdd; [|done].
        destruct (dirs_ok _ _ Hok _ _ _ Hd Hdd) as (_ & _ & Hni). congruence.
      * intros _. simpl. apply lookup_delete_None. by right.
    + rewrite (get_None _ _ Hf Hinh). simpl truthy. cbv iota.
      destruct (directories w) as [d|] eqn:Hd.
      * destruct (d !! file) as [dd|] eqn:Hdd.
        -- rewrite (get_Some _ _ _ Hdd). simpl truthy. simpl to_value.
           destruct (dirs_ok _ _ Hok _ _ _ Hd Hdd) as (Hdi & _ & _).
           assert (Hname : name dd = file) by by rewrite Hdi.
           destruct (isDirectory i) eqn:Hisd; simpl negb; simpl andb;
             cbv iota.
           ++ rewrite bind_Returned. apply Hfinish; try done.
              intros Hfile. apply fileInfo_exclusive in Hfile.
              fold i in Hfile. congruence.
           ++ rewrite (directoryRemoved_rec _ _ d) by done.
              rewrite bind_Returned, Hname.
              apply Hfinish; try done.
              ** by apply tracked_ok_delete_dir.
              ** intros _ d' [= <-]. apply lookup_delete_eq.
        -- rewrite (get_None _ _ Hdd Hinh). simpl truthy. simpl andb.
           cbv iota. rewrite bind_Returned. apply Hfinish; try done.
           intros _ d' Hd'. rewrite Hd in Hd'. injection Hd' as <-.
           exact Hdd.
      * rewrite bind_Returned. apply Hfinish; try done.
        intros _ d' Hd'. congruence.
Qed.

Lemma idle_tracked_ok w :
  files w = ∅ -> tracked_dirs w = ∅ -> tracked_ok realname w.
Proof.
  intros Hf Hd. split.
  - intros k i Hi. by rewrite Hf, lookup_empty in Hi.
  - intros d k i Hdw Hi. unfold tracked_dirs in Hd. rewrite Hdw in Hd.
    simpl in Hd. by rewrite Hd, lookup_empty in Hi.
  - intros d k _ [i Hi]. by rewrite Hf, lookup_empty in Hi.
Qed.

(** Every state a watcher reaches satisfies the invariant of the maps;
    it is idle when it is not watching and wired when it is. *)
Lemma reaches_tracked_ok w :
  reaches realname w ->
  tracked_ok realname w
  /\ (watcher w = None -> idle w)
  /\ (watcher w <> None -> wired w).
Proof.
  induction 1 as [target subdirs
                 | w readdir stat tr w' tr' _ IH Hnd Hrun
                 | w ev file stat tr w' tr' _ IH Hw Hrun
                 | w tr w' tr' _ IH Hrun].
  - split_and!.
    + apply idle_tracked_ok; [done|]. unfold tracked_dirs. simpl.
      by destruct subdirs.
    + intros _. unfold idle, tracked_dirs. simpl. by destruct subdirs.
    + by intros [].
  - destruct IH as (Hok & Hidle & _).
    destruct (watcher w) as [h|] eqn:Hw.
    { unfold watch in Hrun. by rewrite Hw in Hrun. }
    specialize (Hidle eq_refl).
    rewrite watch_rec in Hrun by done. injection Hrun as <- <-.
    split_and!.
    + by apply watch_idle_tracked_ok.
    + by intros.
    + by intros _.
  - destruct IH as (Hok & _ & Hwired). specialize (Hwired Hw).
    destruct (listener_tracked_ok _ _ _ _ _ _ _ Hok Hwired Hrun)
      as (Hok' & Hwired' & _ & Hw').
    split_and!; [done | | done].
    intros Hnone. rewrite Hw' in Hnone. done.
  - destruct IH as (Hok & _ & Hwired).
    destruct (watcher w) as [h|] eqn:Hw.
    2:{ unfold stop in Hrun. by rewrite Hw in Hrun. }
    destruct (Hwired ltac:(done)) as [_ Hr].
    destruct (entries_at_keys (tracked_dirs w)) as [ds Hds].
    destruct (entries_at_keys (files w)) as [fs Hfs].
    rewrite (stop_rec realname w h ds fs) in Hrun by done.
    injection Hrun as <- <-.
    split_and!.
    + apply idle_tracked_ok; [done|]. unfold tracked_dirs. simpl.
      by destruct (directories w).
    + intros _. unfold idle, tracked_dirs. simpl. by destruct (directories w).
    + by intros [].
Qed.

End WatcherInvariant.

(* ===================================================================== *)
(** ** The notification queue *)
(* ===================================================================== *)

Import RunDir.

Section QueueFacts.

Context (behave : nat -> nat -> handler -> reaction).

Implicit Types (s : RunDir.t) (id m : nat) (p : phase).

Lemma phase_of_put_eq s id p :
  id < length (batches s) -> phase_of (put_phase id p s) id = Some p.
Proof.
  intros Hlt. unfold phase_of, put_phase. simpl.
  destruct (lookup_lt_is_Some_2 (batches s) id Hlt) as [b Hb].
  by rewrite list_lookup_alter_eq, Hb.
Qed.

Lemma phase_of_put_ne s id id' p :
  id <> id' -> phase_of (put_phase id p s) id' = phase_of s id'.
Proof.
  intros Hne. unfold phase_of, put_phase. simpl.
  by rewrite list_lookup_alter_ne.
Qed.

Lemma phase_of_lt s id p : phase_of s id = Some p -> id < length (batches s).
Proof.
  unfold phase_of. intros H. apply lookup_lt_is_Some.
  destruct (batches s !! id); [eauto | done].
Qed.

Lemma phase_of_ge s id : length (batches s) <= id -> phase_of s id = None.
Proof. intros H. unfold phase_of. by rewrite lookup_ge_None_2. Qed.

Lemma length_put_phase s id p :
  length (batches (put_phase id p s)) = length (batches s).
Proof. unfold put_phase. simpl. apply length_alter. Qed.

Lemma lifecycle_app l1 l2 : lifecycle (l1 ++ l2) = lifecycle l1 ++ lifecycle l2.
Proof. apply filter_app. Qed.

Lemma lifecycle_invoked id args (hs : list handler) :
  lifecycle ((fun h => Invoked id h args) <$> hs) = [].
Proof. induction hs as [|h hs IH]; [done|]. exact IH. Qed.

Lemma lifecycle_reported (es : list exn) : lifecycle (Reported <$> es) = [].
Proof. induction es as [|e es IH]; [done|]. exact IH. Qed.

Lemma served_S m : served (S m) = served m ++ [Began m; Completed m].
Proof.
  unfold served. rewrite seq_S, flat_map_app. reflexivity.
Qed.

Lemma init_inv : queue_inv 0 init.
Proof. split; simpl; try done; intros; lia. Qed.

End QueueFacts.

Section QueueInvariant.

Context (behave : nat -> nat -> handler -> reaction).

Implicit Types (s : RunDir.t) (id m : nat) (p : phase).

(** The invariant only reads the queue, the promises and the log. *)
Lemma queue_inv_ext m s s' :
  batches s' = batches s -> queue s' = queue s -> log s' = log s ->
  queue_inv m s -> queue_inv m s'.
Proof.
  intros Hb Hq Hl [H1 H2 H3 H4 H5 H6].
  split; unfold phase_of in *; rewrite ?Hb, ?Hq, ?Hl; done.
Qed.

(** Only the head of the queue can have left [Waiting] without being
    [Released]. *)
Lemma inv_head_only m s id p :
  queue_inv m s -> phase_of s id = Some p ->
  p <> Waiting -> p <> Released -> id = m.
Proof.
  intros Hinv Hp Hw Hr.
  destruct (lt_eq_lt_dec id m) as [[Hlt | ->] | Hgt]; [|done|].
  - destruct Hr. by eapply inv_before.
  - destruct Hw. by eapply inv_after.
Qed.

(** A step that moves the head from one phase to another and logs the
    difference keeps the invariant. *)
Lemma head_update_inv m s p' os :
  queue_inv m s -> m < length (batches s) ->
  p' <> Waiting -> p' <> Released ->
  head_life m (phase_of s m) ++ lifecycle os = head_life m (Some p') ->
  queue_inv m (emit os (put_phase m p' s)).
Proof.
  intros [H1 H2 H3 H4 H5 H6] Hlt Hw Hr Hlife.
  assert (Hlen : length (batches (emit os (put_phase m p' s)))
                 = length (batches s)) by apply length_put_phase.
  assert (Hne : forall id, id <> m ->
            phase_of (emit os (put_phase m p' s)) id = phase_of s id).
  { intros id Hid. change (phase_of (put_phase m p' s) id = phase_of s id).
    by apply phase_of_put_ne. }
  assert (Heq : phase_of (emit os (put_phase m p' s)) m = Some p').
  { change (phase_of (put_phase m p' s) m = Some p').
    by apply phase_of_put_eq. }
  split.
  - by rewrite Hlen.
  - rewrite Hlen. exact H2.
  - intros id p Hp Hid. rewrite Hne in Hp by lia. by eapply H3.
  - intros id p Hp Hid. rewrite Hne in Hp by lia. by eapply H4.
  - intros p. rewrite Heq. by intros [= <-].
  - rewrite Heq. simpl log. rewrite lifecycle_app, H6, <- app_assoc.
    by rewrite Hlife.
Qed.

Lemma notify_inv m s ev args :
  queue_inv m s -> queue_inv m (notify ev args s).
Proof.
  intros [H1 H2 H3 H4 H5 H6].
  set (n := length (batches s)) in *.
  set (b := {| b_event := ev; b_args := args; b_phase := Waiting |}).
  set (s2 := set_queue (queue s ++ [n])
               (set_batches (batches s ++ [b]) s)).
  assert (Hold : forall id, id < n -> phase_of s2 id = phase_of s id).
  { intros id Hid. unfold phase_of, s2. simpl.
    by rewrite lookup_app_l. }
  assert (Hnew : phase_of s2 n = Some Waiting).
  { unfold phase_of, s2. simpl. by rewrite list_lookup_middle. }
  assert (Hlen2 : length (batches s2) = S n).
  { unfold s2. simpl. rewrite length_app. simpl. lia. }
  assert (Hq2 : queue s2 = seq m (S n - m)).
  { unfold s2. simpl. rewrite H2.
    replace (S n - m) with ((n - m) + 1) by lia.
    rewrite seq_app. simpl. do 3 f_equal. lia. }
  change (notify ev args s)
    with (if (length (queue s2) =? 1)%nat then resolve n s2 else s2).
  rewrite Hq2, length_seq.
  destruct (Nat.eqb_spec (S n - m) 1) as [Hone | Hmany].
  - (* the queue was empty: the new batch is resolved at once *)
    assert (m = n) as -> by lia.
    unfold resolve. rewrite Hnew.
    assert (Hput : forall id, id <> n ->
              phase_of (put_phase n Ready s2) id = phase_of s id).
    { intros id Hid. rewrite phase_of_put_ne by done.
      destruct (decide (id < n)) as [Hlt | Hge]; [by apply Hold|].
      rewrite !phase_of_ge; [done | unfold n; lia | lia]. }
    split.
    + rewrite length_put_phase. lia.
    + rewrite length_put_phase, Hlen2. exact Hq2.
    + intros id p Hp Hid. rewrite Hput in Hp by lia. by eapply H3.
    + intros id p Hp Hid. apply phase_of_lt in Hp.
      rewrite length_put_phase in Hp. lia.
    + intros p. rewrite phase_of_put_eq by lia. by intros [= <-].
    + rewrite phase_of_put_eq by lia.
      change (log (put_phase n Ready s2)) with (log s). rewrite H6.
      by rewrite (phase_of_ge s n).
  - assert (Hlt : m < n) by lia.
    split.
    + lia.
    + rewrite Hlen2. exact Hq2.
    + intros id p Hp Hid. rewrite Hold in Hp by lia. by eapply H3.
    + intros id p Hp Hid.
      destruct (decide (id = n)) as [-> | Hne]; [congruence|].
      assert (Hid' : id < n).
      { apply phase_of_lt in Hp. lia. }
      rewrite Hold in Hp by done. by eapply H4.
    + intros p. rewrite Hold by done. apply H5.
    + rewrite Hold by done. exact H6.
Qed.

Lemma on_inv m s ev h o :
  queue_inv m s -> on ev h s = o ->
  match o with
  | Returned s' | Thrown _ s' => queue_inv m s'
  | Diverged => False
  end.
Proof.
  intros Hinv <-. unfold on.
  destruct (registry_get (handlers s) ev); try done.
  by apply (queue_inv_ext m s).
Qed.

End QueueInvariant.

Section QueueSteps.

Context (behave : nat -> nat -> handler -> reaction).

Implicit Types (s : RunDir.t) (id m : nat) (p : phase).

(** The batch a [then] callback belongs to, read off the promises. *)
Lemma start_ready id s s' :
  start behave id s = Some s' -> phase_of s id = Some Ready.
Proof.
  unfold start, phase_of. destruct (batches s !! id) as [[ev args []]|]; done.
Qed.

(** What [start] does, by the handler list the event stands for. *)
Lemma start_resolved id s ev args :
  batches s !! id = Some {| b_event := ev; b_args := args; b_phase := Ready |} ->
  start behave id s =
    match resolved s ev with
    | Undefined => Some (emit [Began id; Completed id] (put_phase id Settled s))
    | Inherited _ =>
        Some (emit [Began id]
                (put_phase id
                   (Failed (TypeError "handlers.map is not a function")) s))
    | Own hs =>
        let rs := reactions behave id 0 hs in
        let seen :=
          Began id :: ((fun h => Invoked id h args) <$> hs)
          ++ (Reported <$> thrown_of rs) in
        match pending_of rs with
        | [] => Some (emit (seen ++ [Completed id]) (put_phase id Settled s))
        | ks => Some (emit seen (put_phase id (Running ks) s))
        end
    end.
Proof. intros Hb. unfold start. rewrite Hb. by destruct ev. Qed.

Lemma start_inv m s id s' :
  queue_inv m s -> start behave id s = Some s' -> id = m /\ queue_inv m s'.
Proof.
  intros Hinv Hstart.
  pose proof (start_ready _ _ _ Hstart) as Hready.
  assert (id = m) as -> by (by eapply inv_head_only).
  split; [done|].
  pose proof (phase_of_lt _ _ _ Hready) as Hlt.
  unfold phase_of in Hready.
  destruct (batches s !! m) as [[ev args ph]|] eqn:Hb; [|done].
  simpl in Hready. injection Hready as ->.
  rewrite (start_resolved _ _ _ _ Hb) in Hstart.
  assert (Hph : phase_of s m = Some Ready) by (unfold phase_of; by rewrite Hb).
  destruct (resolved s ev) as [hs| |].
  - cbv zeta in Hstart.
    destruct (pending_of (reactions behave m 0 hs)) as [|k ks];
      injection Hstart as <-; apply head_update_inv; try done;
      rewrite Hph; simpl head_life; simpl app;
      change (Began m :: ?l) with ([Began m] ++ l);
      rewrite <- ?app_assoc, !lifecycle_app, lifecycle_invoked,
        lifecycle_reported; reflexivity.
  - injection Hstart as <-. apply head_update_inv; try done.
    by rewrite Hph.
  - injection Hstart as <-. apply head_update_inv; try done.
    by rewrite Hph.
Qed.

Lemma settle_running id k r s s' :
  settle id k r s = Some s' ->
  exists ks, phase_of s id = Some (Running ks) /\ k ∈ ks.
Proof.
  unfold settle. destruct (phase_of s id) as [[]|]; try done.
  case_bool_decide; [|done]. eauto.
Qed.

Lemma settle_inv m s id k r s' :
  queue_inv m s -> settle id k r s = Some s' ->
  id = m /\ queue_inv m s'.
Proof.
  intros Hinv Hsettle.
  destruct (settle_running _ _ _ _ _ Hsettle) as (ks & Hph & Hk).
  assert (id = m) as -> by (by eapply inv_head_only).
  split; [done|].
  pose proof (phase_of_lt _ _ _ Hph) as Hlt.
  unfold settle in Hsettle. rewrite Hph in Hsettle.
  rewrite bool_decide_eq_true_2 in Hsettle by done.
  destruct (filter (fun k' => k' <> k) ks) as [|k1 ks'];
    injection Hsettle as <-; apply head_update_inv; try done;
    rewrite Hph; simpl head_life; rewrite ?lifecycle_app;
    by destruct r.
Qed.

Lemma finish_settled id s s' :
  finish id s = Some s' -> phase_of s id = Some Settled.
Proof. unfold finish. destruct (phase_of s id) as [[]|]; done. Qed.

Lemma finish_inv m s id s' :
  queue_inv m s -> finish id s = Some s' ->
  id = m /\ queue_inv (S m) s'.
Proof.
  intros Hinv Hfin.
  pose proof (finish_settled _ _ _ Hfin) as Hph.
  assert (id = m) as -> by (by eapply inv_head_only).
  split; [done|].
  destruct Hinv as [H1 H2 H3 H4 H5 H6].
  pose proof (phase_of_lt _ _ _ Hph) as Hlt.
  set (n := length (batches s)) in *.
  unfold finish in Hfin. rewrite Hph in Hfin.
  set (s1 := set_queue (tail (queue s)) (put_phase m Released s)) in Hfin.
  assert (Hq1 : queue s1 = seq (S m) (n - S m)).
  { unfold s1. simpl. rewrite H2.
    replace (n - m) with (S (n - S m)) by lia. reflexivity. }
  assert (Hlen1 : length (batches s1) = n) by apply length_put_phase.
  assert (Hne1 : forall id, id <> m -> phase_of s1 id = phase_of s id).
  { intros id Hid. change (phase_of (put_phase m Released s) id = phase_of s id).
    by apply phase_of_put_ne. }
  assert (Heq1 : phase_of s1 m = Some Released).
  { change (phase_of (put_phase m Released s) m = Some Released).
    by apply phase_of_put_eq. }
  assert (Hlog1 : lifecycle (log s1) = served (S m)).
  { change (log s1) with (log s). rewrite H6, Hph, served_S. reflexivity. }
  rewrite Hq1 in Hfin.
  destruct (decide (S m < n)) as [Hnext | Hlast].
  - (* another batch is queued: its resolver is called *)
    replace (n - S m) with (S (n - S (S m))) in Hfin by lia.
    simpl seq in Hfin. injection Hfin as <-.
    assert (Hw : phase_of s1 (S m) = Some Waiting).
    { rewrite Hne1 by lia.
      destruct (phase_of s (S m)) as [p|] eqn:Hp.
      - f_equal. eapply H4; [done | lia].
      - unfold phase_of in Hp.
        destruct (lookup_lt_is_Some_2 (batches s) (S m) Hnext) as [b Hb].
        by rewrite Hb in Hp. }
    unfold resolve. rewrite Hw.
    split.
    + rewrite length_put_phase, Hlen1. lia.
    + rewrite length_put_phase, Hlen1. exact Hq1.
    + intros id p Hp Hid. rewrite phase_of_put_ne in Hp by lia.
      destruct (decide (id = m)) as [-> | Hne]; [congruence|].
      rewrite Hne1 in Hp by done. eapply H3; [done | lia].
    + intros id p Hp Hid. rewrite phase_of_put_ne in Hp by lia.
      rewrite Hne1 in Hp by lia. eapply H4; [done | lia].
    + intros p. rewrite phase_of_put_eq by (rewrite Hlen1; lia).
      by intros [= <-].
    + rewrite phase_of_put_eq by (rewrite Hlen1; lia).
      change (log (put_phase (S m) Ready s1)) with (log s1).
      rewrite Hlog1. simpl. by rewrite app_nil_r.
  - replace (n - S m) with 0 in Hfin by lia.
    simpl seq in Hfin. injection Hfin as <-.
    split.
    + rewrite Hlen1. lia.
    + rewrite Hlen1. exact Hq1.
    + intros id p Hp Hid.
      destruct (decide (id = m)) as [-> | Hne]; [congruence|].
      rewrite Hne1 in Hp by done. eapply H3; [done | lia].
    + intros id p Hp Hid. apply phase_of_lt in Hp. lia.
    + intros p Hp. apply phase_of_lt in Hp. lia.
    + rewrite Hlog1, (phase_of_ge s1 (S m)) by lia.
      simpl. by rewrite app_nil_r.
Qed.

Lemma step_inv m s a s' :
  queue_inv m s -> step behave a s = Some s' ->
  exists m', m <= m' /\ queue_inv m' s'.
Proof.
  intros Hinv Hstep. destruct a as [ev args|ev h|id|id k r|id]; simpl in Hstep.
  - injection Hstep as <-. exists m. split; [lia|]. by apply notify_inv.
  - exists m. split; [lia|].
    pose proof (on_inv m s ev h _ Hinv eq_refl) as Hon.
    destruct (on ev h s); by simplify_eq.
  - exists m. split; [lia|]. by eapply start_inv.
  - exists m. split; [lia|]. by eapply settle_inv.
  - exists (S m). split; [lia|]. by eapply finish_inv.
Qed.

Lemma run_actions_inv acts : forall m s s',
  queue_inv m s -> run_actions behave acts s = Some s' ->
  exists m', m <= m' /\ queue_inv m' s'.
Proof.
  induction acts as [|a acts IH]; intros m s s' Hinv Hrun; simpl in Hrun.
  - injection Hrun as <-. exists m. split; [lia | done].
  - destruct (step behave a s) as [s1|] eqn:Hstep; [|done].
    destruct (step_inv _ _ _ _ Hinv Hstep) as (m1 & Hle1 & Hinv1).
    destruct (IH _ _ _ Hinv1 Hrun) as (m' & Hle & Hinv').
    exists m'. split; [lia | done].
Qed.

Lemma run_actions_app acts1 acts2 s :
  run_actions behave (acts1 ++ acts2) s
  = run_actions behave acts1 s ≫= run_actions behave acts2.
Proof.
  revert s. induction acts1 as [|a acts1 IH]; intros s; simpl; [done|].
  destruct (step behave a s); [apply IH | done].
Qed.

Lemma reachable_inv acts s :
  run_actions behave acts init = Some s -> exists m, queue_inv m s.
Proof.
  intros Hrun.
  destruct (run_actions_inv _ _ _ _ init_inv Hrun) as (m & _ & Hinv).
  eauto.
Qed.

End QueueSteps.

Section Fifo.

Context (behave : nat -> nat -> handler -> reaction).

Implicit Types (s : RunDir.t) (id m : nat) (p : phase).

(** In a log of batches served in turn, whatever precedes the beginning
    of batch [j] is the full service of the batches before [j]. *)
Lemma began_position m : forall a rest before after j,
  rest = [] \/ rest = [Began (a + m)]
  \/ rest = [Began (a + m); Completed (a + m)] ->
  flat_map (fun i => [Began i; Completed i]) (seq a m) ++ rest
  = before ++ Began j :: after ->
  a <= j
  /\ before = flat_map (fun i => [Began i; Completed i]) (seq a (j - a)).
Proof.
  induction m as [|m IH]; intros a rest before after j Hrest Heq.
  - simpl in Heq. rewrite Nat.add_0_r in Hrest.
    destruct Hrest as [-> | [-> | ->]].
    + by destruct before.
    + destruct before as [|x [|y before]]; simplify_eq/=.
      by rewrite Nat.sub_diag.
    + destruct before as [|x [|y [|z before]]]; simplify_eq/=.
      by rewrite Nat.sub_diag.
  - simpl in Heq.
    destruct before as [|x [|y before]]; simplify_eq/=.
    + by rewrite Nat.sub_diag.
    + destruct (IH (S a) rest before after j) as [Hle ->].
      * by replace (S a + m) with (a + S m) by lia.
      * done.
      * split; [lia|].
        replace (j - a) with (S (j - S a)) by lia. reflexivity.
Qed.

Lemma served_has m i : i < m -> Began i ∈ served m /\ Completed i ∈ served m.
Proof.
  intros Hi. unfold served.
  split; apply list_elem_of_In, in_flat_map; exists i;
    (split; [apply in_seq; lia | simpl; auto]).
Qed.

Lemma elem_of_lifecycle o l : o ∈ lifecycle l -> o ∈ l.
Proof. unfold lifecycle. by intros [_ ?]%list_elem_of_filter. Qed.

Lemma head_life_shape m po :
  head_life m po = [] \/ head_life m po = [Began (0 + m)]
  \/ head_life m po = [Began (0 + m); Completed (0 + m)].
Proof. destruct po as [[]|]; simpl; auto. Qed.


End Fifo.

Lemma filter_all {A} (P : A -> Prop) `{forall x, Decision (P x)} (l : list A) :
  Forall P l -> filter P l = l.
Proof.
  induction 1 as [|x l Hx _ IH]; [done|].
  by rewrite filter_cons_True, IH.
Qed.

Section Isolation.

Context (behave : nat -> nat -> handler -> reaction).

Implicit Types (s : RunDir.t) (id m : nat) (p : phase).

Lemma phase_of_lookup s id p :
  phase_of s id = Some p ->
  exists ev args,
    batches s !! id = Some {| b_event := ev; b_args := args; b_phase := p |}.
Proof.
  unfold phase_of. destruct (batches s !! id) as [[ev args ph]|]; [|done].
  intros [= <-]. eauto.
Qed.

(** A batch whose slot promise is resolved does begin. *)
Lemma start_begins s id :
  phase_of s id = Some Ready ->
  exists s', start behave id s = Some s' /\ Began id ∈ log s'.
Proof.
  intros (ev & args & Hb)%phase_of_lookup.
  rewrite (start_resolved _ _ _ _ _ Hb).
  destruct (resolved s ev) as [hs| |].
  - cbv zeta. destruct (pending_of (reactions behave id 0 hs));
      eexists; (split; [reflexivity|]); simpl;
      apply elem_of_app; right; left.
  - eexists. split; [reflexivity|]. simpl. apply elem_of_app. right. left.
  - eexists. split; [reflexivity|]. simpl. apply elem_of_app. right. left.
Qed.

(** The indices of the pending handlers are pairwise distinct. *)
Lemma pending_of_bound id hs : forall k0 k,
  k ∈ pending_of (reactions behave id k0 hs) -> k0 <= k.
Proof.
  induction hs as [|h hs IH]; intros k0 k Hk; simpl in Hk.
  - by apply elem_of_nil in Hk.
  - unfold pending_of in Hk. simpl in Hk.
    destruct (behave id k0 h); simpl in Hk;
      try (apply IH in Hk; lia).
    apply elem_of_cons in Hk as [-> | Hk]; [lia|].
    apply IH in Hk. lia.
Qed.

Lemma pending_of_NoDup id hs : forall k0,
  NoDup (pending_of (reactions behave id k0 hs)).
Proof.
  induction hs as [|h hs IH]; intros k0; simpl.
  - constructor.
  - unfold pending_of. simpl.
    destruct (behave id k0 h); simpl; try apply IH.
    constructor; [|apply IH].
    intros Hk%pending_of_bound. lia.
Qed.

Lemma thrown_of_elem id hs e : forall k0 k h,
  hs !! k = Some h -> behave id (k0 + k) h = Throws e ->
  e ∈ thrown_of (reactions behave id k0 hs).
Proof.
  induction hs as [|h' hs IH]; intros k0 k h Hk Hb; [done|].
  unfold thrown_of. simpl. destruct k as [|k]; simpl in Hk.
  - injection Hk as ->. rewrite Nat.add_0_r in Hb. rewrite Hb. simpl. left.
  - assert (Hin : e ∈ thrown_of (reactions behave id (S k0) hs)).
    { apply (IH (S k0) k h); [done|].
      by replace (S k0 + k) with (k0 + S k) by lia. }
    unfold thrown_of in Hin.
    destruct (behave id k0 h'); simpl; [done | by right | done].
Qed.

(** Once each pending handler has settled, whatever the result, the
    batch is complete. *)
Lemma settle_all id res : forall ks s,
  phase_of s id = Some (Running ks) -> ks <> [] -> NoDup ks ->
  exists s',
    run_actions behave (settlements id res ks) s = Some s'
    /\ phase_of s' id = Some Settled
    /\ queue s' = queue s /\ handlers s' = handlers s
    /\ Completed id ∈ log s'
    /\ (forall o, o ∈ log s -> o ∈ log s').
Proof.
  induction ks as [|k ks IH]; intros s Hph Hne Hnd; [done|].
  apply NoDup_cons in Hnd as [Hk Hnd].
  pose proof (phase_of_lt _ _ _ Hph) as Hlt.
  assert (Hfilter : filter (fun k' => k' <> k) (k :: ks) = ks).
  { rewrite filter_cons_False by (by intros ?).
    apply filter_all. apply Forall_forall. intros x Hx ->. done. }
  unfold settlements. rewrite fmap_cons.
  change (run_actions behave (?a :: ?l) s)
    with (match step behave a s with
          | Some s1 => run_actions behave l s1
          | None => None
          end).
  simpl step. unfold settle. rewrite Hph.
  rewrite bool_decide_eq_true_2 by left. rewrite Hfilter.
  destruct ks as [|k1 ks'].
  - eexists. split; [reflexivity|]. split_and!.
    + change (phase_of (put_phase id Settled s) id = Some Settled).
      by apply phase_of_put_eq.
    + reflexivity.
    + reflexivity.
    + simpl. rewrite !elem_of_app. right. right. left.
    + intros o Ho. simpl. apply elem_of_app. by left.
  - set (s1 := emit match res k with Some e => [Reported e] | None => [] end
                 (put_phase id (Running (k1 :: ks')) s)).
    destruct (IH s1) as (s' & Hrun & Hs & Hq & Hh & Hc & Hmono);
      [| done | done |].
    + change (phase_of (put_phase id (Running (k1 :: ks')) s) id
              = Some (Running (k1 :: ks'))).
      by apply phase_of_put_eq.
    + exists s'. split_and!; try done.
      intros o Ho. apply Hmono. simpl. apply elem_of_app. by left.
Qed.

(** The second callback of the head batch releases the slot and calls
    the resolver of the batch behind it. *)
Lemma finish_releases m s id rest :
  queue_inv m s -> queue s = id :: rest ->
  phase_of s id = Some Settled ->
  exists s',
    finish id s = Some s'
    /\ queue s' = rest /\ log s' = log s /\ handlers s' = handlers s
    /\ phase_of s' id = Some Released
    /\ (forall next rest', rest = next :: rest' ->
          phase_of s' next = Some Ready)
    /\ (forall j, j ∉ id :: rest -> phase_of s' j = phase_of s j).
Proof.
  intros Hinv Hq Hph.
  assert (id = m) as -> by (eapply inv_head_only; done).
  pose proof (phase_of_lt _ _ _ Hph) as Hlt.
  pose proof (inv_queue _ _ Hinv) as Hseq. rewrite Hq in Hseq.
  set (n := length (batches s)) in *.
  replace (n - m) with (S (n - S m)) in Hseq by lia.
  simpl in Hseq. injection Hseq as Hrest.
  unfold finish. rewrite Hph, Hq. simpl tail.
  set (s1 := set_queue rest (put_phase m Released s)).
  assert (Hrel : phase_of s1 m = Some Released).
  { change (phase_of (put_phase m Released s) m = Some Released).
    by apply phase_of_put_eq. }
  change (queue s1) with rest.
  destruct rest as [|next rest'].
  - eexists. split; [reflexivity|]. split_and!; try done.
    intros j Hj%not_elem_of_cons. destruct Hj as [Hj _].
    change (phase_of (put_phase m Released s) j = phase_of s j).
    by apply phase_of_put_ne.
  - assert (Hnext : next = S m /\ S m < n).
    { destruct (n - S m) eqn:Hn; simpl in Hrest; [done|].
      injection Hrest as -> _. split; [done | lia]. }
    destruct Hnext as [-> Hnlt].
    assert (Hw : phase_of s1 (S m) = Some Waiting).
    { change (phase_of (put_phase m Released s) (S m) = Some Waiting).
      rewrite phase_of_put_ne by lia.
      destruct (lookup_lt_is_Some_2 (batches s) (S m) Hnlt) as [b Hb].
      assert (Hp : phase_of s (S m) = Some (b_phase b))
        by (unfold phase_of; by rewrite Hb).
      rewrite Hp. f_equal. eapply inv_after; [done | done | lia]. }
    unfold resolve. rewrite Hw.
    eexists. split; [reflexivity|]. split_and!; try reflexivity.
    + rewrite phase_of_put_ne by lia. exact Hrel.
    + intros ? ? [= <- _]. apply phase_of_put_eq.
      unfold s1. simpl. rewrite length_alter. exact Hnlt.
    + intros j Hj. apply not_elem_of_cons in Hj as [Hj1 Hj2].
      apply not_elem_of_cons in Hj2 as [Hj2 _].
      rewrite phase_of_put_ne by done.
      change (phase_of (put_phase m Released s) j = phase_of s j).
      by apply phase_of_put_ne.
Qed.

End Isolation.

Section IsolationTheorems.

Context (behave : nat -> nat -> handler -> reaction).

Implicit Types (s : RunDir.t) (id m : nat) (p : phase).

(** C4.  Take a reachable state in which batch [id] is at the head of the
    queue with its slot resolved, its event stands for the handler list
    [hs], and the handler [h] at index [k] throws [e].  Then the first
    callback invokes every handler of [hs], in order, with the arguments
    of the batch, and reports [e]; the promise chain is not rejected;
    once the pending handlers have settled, whatever their results
    [res], the batch is complete; the second callback then runs, the
    promise returned by [#notify] is fulfilled, the slot is released, and
    the batch behind, if any, is resolved and begins. *)
Theorem handler_errors_are_isolated acts s id ev args hs rest k h e res :
  run_actions behave acts init = Some s ->
  queue s = id :: rest ->
  batches s !! id
    = Some {| b_event := ev; b_args := args; b_phase := Ready |} ->
  resolved s ev = Own hs ->
  hs !! k = Some h -> behave id k h = Throws e ->
  let rs := reactions behave id 0 hs in
  exists s1 s2 s3,
    start behave id s = Some s1
    /\ log s1 = log s ++ Began id :: ((fun h' => Invoked id h' args) <$> hs)
                 ++ (Reported <$> thrown_of rs)
                 ++ match pending_of rs with
                    | [] => [Completed id]
                    | _ => []
                    end
    /\ e ∈ thrown_of rs
    /\ phase_of s1 id
       = Some match pending_of rs with
              | [] => Settled
              | ks => Running ks
              end
    /\ run_actions behave (settlements id res (pending_of rs)) s1 = Some s2
    /\ phase_of s2 id = Some Settled
    /\ Completed id ∈ log s2
    /\ finish id s2 = Some s3
    /\ queue s3 = rest
    /\ phase_of s3 id = Some Released
    /\ (forall next rest', rest = next :: rest' ->
          phase_of s3 next = Some Ready
          /\ exists s4, start behave next s3 = Some s4
                        /\ Began next ∈ log s4).
Proof.
  intros Hrun Hq Hb Hres Hk Hthrow rs.
  destruct (reachable_inv behave _ _ Hrun) as [m Hinv].
  assert (Hlt : id < length (batches s))
    by (apply lookup_lt_is_Some; eauto).
  assert (Hstart := start_resolved behave id s ev args Hb).
  rewrite Hres in Hstart. cbv zeta in Hstart. fold rs in Hstart.
  assert (He : e ∈ thrown_of rs) by (by apply (thrown_of_elem _ _ _ _ 0 k h)).
  assert (Hnd : NoDup (pending_of rs)) by apply pending_of_NoDup.
  (* the state after the first callback *)
  assert (exists s1,
            start behave id s = Some s1
            /\ log s1 = log s ++ Began id
                 :: ((fun h' => Invoked id h' args) <$> hs)
                 ++ (Reported <$> thrown_of rs)
                 ++ match pending_of rs with
                    | [] => [Completed id]
                    | _ => []
                    end
            /\ phase_of s1 id
               = Some match pending_of rs with
                      | [] => Settled
                      | ks => Running ks
                      end
            /\ queue s1 = queue s)
    as (s1 & Hs1 & Hlog1 & Hph1 & Hq1).
  { destruct (pending_of rs) as [|k1 ks]; eexists; (split; [exact Hstart|]);
      split_and!; try reflexivity.
    - simpl. by rewrite <- !app_assoc.
    - change (phase_of (put_phase id Settled s) id = Some Settled).
      by apply phase_of_put_eq.
    - simpl. by rewrite app_nil_r.
    - change (phase_of (put_phase id (Running (k1 :: ks)) s) id
              = Some (Running (k1 :: ks))).
      by apply phase_of_put_eq. }
  (* the state once every pending handler has settled *)
  assert (exists s2,
            run_actions behave (settlements id res (pending_of rs)) s1 = Some s2
            /\ phase_of s2 id = Some Settled
            /\ queue s2 = queue s1
            /\ Completed id ∈ log s2)
    as (s2 & Hs2 & Hph2 & Hq2 & Hc2).
  { destruct (pending_of rs) as [|k1 ks] eqn:Hpend.
    - exists s1. split_and!; try done.
      rewrite Hlog1. rewrite !elem_of_app. right.
      apply elem_of_cons. right. rewrite !elem_of_app. right. right. left.
    - destruct (settle_all behave id res (k1 :: ks) s1 Hph1)
        as (s2 & ? & ? & ? & _ & ? & _); [done | done |].
      exists s2. by split_and!. }
  (* it is reachable, so the queue invariant holds there *)
  assert (Hrun2 : run_actions behave
                    (acts ++ DoStart id :: settlements id res (pending_of rs))
                    init = Some s2).
  { rewrite run_actions_app, Hrun. simpl. by rewrite Hs1. }
  destruct (reachable_inv behave _ _ Hrun2) as [m2 Hinv2].
  destruct (finish_releases m2 s2 id rest Hinv2) as
    (s3 & Hs3 & Hq3 & _ & _ & Hph3 & Hnext & _); [congruence | done |].
  exists s1, s2, s3. split_and!; try done.
  intros next rest' Hr. split; [by eapply Hnext|].
  apply start_begins. by eapply Hnext.
Qed.

End IsolationTheorems.

Section Drain.

Context (behave : nat -> nat -> handler -> reaction).

Implicit Types (s : RunDir.t) (id m : nat) (p : phase).

Lemma put_phase_event s id p j ev args q :
  batches s !! j = Some {| b_event := ev; b_args := args; b_phase := q |} ->
  exists q', batches (put_phase id p s) !! j
             = Some {| b_event := ev; b_args := args; b_phase := q' |}.
Proof.
  intros Hj. unfold put_phase. simpl.
  destruct (decide (id = j)) as [-> | Hne].
  - rewrite list_lookup_alter_eq, Hj. simpl. eauto.
  - rewrite list_lookup_alter_ne by done. eauto.
Qed.

Lemma resolve_event s id j ev args q :
  batches s !! j = Some {| b_event := ev; b_args := args; b_phase := q |} ->
  exists q', batches (resolve id s) !! j
             = Some {| b_event := ev; b_args := args; b_phase := q' |}.
Proof.
  intros Hj. unfold resolve.
  destruct (phase_of s id) as [[]|]; eauto using put_phase_event.
Qed.

Lemma finish_event s id s' j ev args q :
  finish id s = Some s' ->
  batches s !! j = Some {| b_event := ev; b_args := args; b_phase := q |} ->
  exists q', batches s' !! j
             = Some {| b_event := ev; b_args := args; b_phase := q' |}.
Proof.
  unfold finish. destruct (phase_of s id) as [[]|]; try done.
  intros [= <-] Hj.
  destruct (put_phase_event s id Released j ev args q Hj) as [q1 Hj1].
  simpl queue. destruct (tail (queue s)) as [|next ?]; [by exists q1|].
  by eapply resolve_event.
Qed.

Lemma settles_at_once_ext s s' j :
  handlers s' = handlers s ->
  (forall ev args q,
     batches s !! j = Some {| b_event := ev; b_args := args; b_phase := q |} ->
     exists q', batches s' !! j
                = Some {| b_event := ev; b_args := args; b_phase := q' |}) ->
  settles_at_once behave s j -> settles_at_once behave s' j.
Proof.
  intros Hh Hb (ev & args & p & Hj & Hres).
  destruct (Hb _ _ _ Hj) as [q' Hj'].
  exists ev, args, q'. split; [done|].
  unfold resolved in *. by rewrite Hh.
Qed.

(** The first callback of a batch that settles at once completes it. *)
Lemma start_settles_at_once m s id :
  queue_inv m s -> phase_of s id = Some Ready ->
  settles_at_once behave s id ->
  exists os,
    start behave id s = Some (emit os (put_phase id Settled s))
    /\ Began id ∈ os /\ Completed id ∈ os.
Proof.
  intros Hinv Hph (ev & args & p & Hj & Hres).
  assert (p = Ready) as ->
    by (unfold phase_of in Hph; rewrite Hj in Hph; by injection Hph).
  rewrite (start_resolved _ _ _ _ _ Hj).
  destruct (resolved s ev) as [hs| |]; [|done|].
  - cbv zeta. rewrite Hres. eexists. split; [reflexivity|].
    split; apply elem_of_app; [left; left | right; left].
  - eexists. split; [reflexivity|]. split; [left | right; left].
Qed.

(** Microtasks alone serve a queue whose batches all settle at once:
    every batch begins, completes and is released, in turn, and the
    queue ends empty. *)
Lemma drain_serves q : forall m s,
  queue_inv m s -> queue s = q ->
  (forall id rest, q = id :: rest -> phase_of s id = Some Ready) ->
  (forall j, j ∈ q -> settles_at_once behave s j) ->
  queue (drain behave (2 * length q) s) = []
  /\ (forall j, j ∈ q ->
        Began j ∈ log (drain behave (2 * length q) s)
        /\ Completed j ∈ log (drain behave (2 * length q) s)
        /\ phase_of (drain behave (2 * length q) s) j = Some Released)
  /\ (forall o, o ∈ log s -> o ∈ log (drain behave (2 * length q) s))
  /\ (forall j p, j ∉ q -> phase_of s j = Some p ->
        phase_of (drain behave (2 * length q) s) j = Some p).
Proof.
  induction q as [|id rest IH]; intros m s Hinv Hq Hready Hall.
  - simpl. split_and!; try done. intros j Hj. by apply elem_of_nil in Hj.
  - replace (2 * length (id :: rest)) with (S (S (2 * length rest)))
      by (simpl; lia).
    pose proof (Hready id rest eq_refl) as Hph.
    destruct (start_settles_at_once m s id Hinv Hph) as (os & Hstart & Hb & Hc);
      [apply Hall; left|].
    set (s1 := emit os (put_phase id Settled s)) in *.
    assert (Hlt : id < length (batches s)) by (by eapply phase_of_lt).
    assert (Hph1 : phase_of s1 id = Some Settled).
    { change (phase_of (put_phase id Settled s) id = Some Settled).
      by apply phase_of_put_eq. }
    destruct (start_inv behave m s id s1 Hinv Hstart) as [-> Hinv1].
    destruct (finish_releases m s1 m rest Hinv1 Hq Hph1)
      as (s2 & Hfin & Hq2 & Hlog2 & Hh2 & Hrel & Hnext & Hother).
    destruct (finish_inv m s1 m s2 Hinv1 Hfin) as [_ Hinv2].
    assert (Hstep : drain behave (S (S (2 * length rest))) s
                    = drain behave (2 * length rest) s2).
    { change (drain behave (S (S (2 * length rest))) s)
        with (match microtask behave s with
              | Some s' =>
                  match microtask behave s' with
                  | Some s'' => drain behave (2 * length rest) s''
                  | None => s'
                  end
              | None => s
              end).
      unfold microtask at 1. rewrite Hq, Hph, Hstart.
      unfold microtask. change (queue s1) with (queue s).
      by rewrite Hq, Hph1, Hfin. }
    rewrite Hstep.
    assert (Hnd : NoDup (m :: rest)).
    { rewrite <- Hq, (inv_queue _ _ Hinv). apply NoDup_seq. }
    apply NoDup_cons in Hnd as [Hm Hnd].
    assert (Hevents : forall j ev args q0,
              batches s !! j
              = Some {| b_event := ev; b_args := args; b_phase := q0 |} ->
              exists q', batches s2 !! j
                         = Some {| b_event := ev; b_args := args;
                                   b_phase := q' |}).
    { intros j ev args q0 Hj.
      destruct (put_phase_event s m Settled j ev args q0 Hj) as [q1 Hj1].
      change (batches (put_phase m Settled s)) with (batches s1) in Hj1.
      by eapply finish_event. }
    destruct (IH (S m) s2 Hinv2 Hq2) as (IH1 & IH2 & IH3 & IH4).
    { intros next rest' ->. by eapply Hnext. }
    { intros j Hj. apply (settles_at_once_ext s); [| |apply Hall; by right].
      - by rewrite Hh2.
      - intros ev args q0. apply Hevents. }
    assert (Hlog12 : forall o, o ∈ log s -> o ∈ log s2).
    { intros o Ho. rewrite Hlog2. simpl. apply elem_of_app. by left. }
    split_and!.
    + exact IH1.
    + intros j [-> | Hj]%elem_of_cons; [|by apply IH2].
      split_and!.
      * apply IH3. rewrite Hlog2. simpl. apply elem_of_app. by right.
      * apply IH3. rewrite Hlog2. simpl. apply elem_of_app. by right.
      * by apply IH4.
    + intros o Ho. by apply IH3, Hlog12.
    + intros j p Hj Hp. pose proof Hj as Hj'.
      apply not_elem_of_cons in Hj as [Hne Hj].
      apply IH4; [done|]. rewrite (Hother j Hj').
      change (phase_of (put_phase m Settled s) j = Some p).
      by rewrite phase_of_put_ne.
Qed.

End Drain.

Section UnresolvableEvent.

Context (behave : nat -> nat -> handler -> reaction).

Implicit Types (s : RunDir.t) (id m : nat) (p : phase).

(** An event name for which the lookup in the registry is undefined
    releases its slot.  Take a reachable state in which batch [id] is at
    the head of the queue with its slot resolved and names an event [k]
    that is neither registered nor inherited from [Object.prototype].
    Then its first callback invokes no handler: the log only shows the
    batch begun and completed; its second callback runs, releases the
    slot and fulfils the promise; these are the two microtasks the engine
    runs next; and the batch behind, if any, is resolved and begins. *)
Theorem unresolvable_event_releases_slot acts s id k args rest :
  run_actions behave acts init = Some s ->
  queue s = id :: rest ->
  batches s !! id
    = Some {| b_event := Named k; b_args := args; b_phase := Ready |} ->
  registry_get (handlers s) k = Undefined ->
  exists s1 s2,
    start behave id s = Some s1
    /\ log s1 = log s ++ [Began id; Completed id]
    /\ finish id s1 = Some s2
    /\ drain behave 2 s = s2
    /\ log s2 = log s1
    /\ queue s2 = rest
    /\ phase_of s2 id = Some Released
    /\ (forall next rest', rest = next :: rest' ->
          phase_of s2 next = Some Ready
          /\ exists s3, start behave next s2 = Some s3
                        /\ Began next ∈ log s3)
    /\ ((forall j, j ∈ rest -> settles_at_once behave s j) ->
        queue (drain behave (2 * length (id :: rest)) s) = []
        /\ forall j, j ∈ id :: rest ->
             Began j ∈ log (drain behave (2 * length (id :: rest)) s)
             /\ Completed j ∈ log (drain behave (2 * length (id :: rest)) s)).
Proof.
  intros Hrun Hq Hb Hreg.
  assert (Hlt : id < length (batches s))
    by (apply lookup_lt_is_Some; eauto).
  assert (Hstart := start_resolved behave id s (Named k) args Hb).
  simpl resolved in Hstart. rewrite Hreg in Hstart.
  set (s1 := emit [Began id; Completed id] (put_phase id Settled s)) in *.
  assert (Hph1 : phase_of s1 id = Some Settled).
  { change (phase_of (put_phase id Settled s) id = Some Settled).
    by apply phase_of_put_eq. }
  assert (Hrun1 : run_actions behave (acts ++ [DoStart id]) init = Some s1).
  { rewrite run_actions_app, Hrun. simpl. by rewrite Hstart. }
  destruct (reachable_inv behave _ _ Hrun1) as [m1 Hinv1].
  destruct (finish_releases m1 s1 id rest Hinv1)
    as (s2 & Hs2 & Hq2 & Hlog2 & _ & Hph2 & Hnext & _); [done | done |].
  exists s1, s2. split_and!; try done.
  - simpl. unfold microtask. rewrite Hq.
    assert (Hph : phase_of s id = Some Ready)
      by (unfold phase_of; by rewrite Hb).
    rewrite Hph, Hstart.
    change (queue s1) with (queue s). rewrite Hq, Hph1. by rewrite Hs2.
  - intros next rest' Hr. split; [by eapply Hnext|].
    apply start_begins. by eapply Hnext.
  - intros Hrest.
    destruct (reachable_inv behave _ _ Hrun) as [m Hinv].
    destruct (drain_serves behave (id :: rest) m s Hinv Hq)
      as (Hempty & Hserved & _).
    + intros id' rest' [= <- <-]. unfold phase_of. by rewrite Hb.
    + intros j [-> | Hj]%elem_of_cons; [|by apply Hrest].
      exists (Named k), args, Ready. split; [done|].
      simpl resolved. by rewrite Hreg.
    + split; [exact Hempty|]. intros j Hj.
      destruct (Hserved j Hj) as (? & ? & _). by split.
Qed.

End UnresolvableEvent.


Lemma handler_errors_are_isolated_witness :
  exists s s3,
    run_actions demo_behave demo_acts init = Some s
    /\ run_actions demo_behave
         [DoStart 0; DoSettle 0 1 (Some (Error "late failure")); DoFinish 0] s
       = Some s3
    /\ queue s3 = [1; 2]
    /\ phase_of s3 0 = Some Released
    /\ phase_of s3 1 = Some Ready.
Proof.
  eexists. 
  assert (Hrun : run_actions demo_behave demo_acts init = Some
            (default init (run_actions demo_behave demo_acts init)))
    by (vm_compute; reflexivity).
  destruct (handler_errors_are_isolated demo_behave demo_acts _ 0
              (Named "load") [APath "/srv/a.js"] [1; 2; 3] [1; 2] 0 1
              (Error "observer failed")
              (fun _ => Some (Error "late failure")) Hrun)
    as (s1 & s2 & s3 & Hs1 & _ & _ & _ & Hs2 & _ & _ & Hs3 & Hq & Hrel & Hnext);
    try (vm_compute; reflexivity).
  exists s3. split; [exact Hrun|]. split_and!.
  - change (run_actions demo_behave (DoStart 0 :: ?l) ?s)
      with (match start demo_behave 0 s with
            | Some s' => run_actions demo_behave l s'
            | None => None
            end).
    rewrite Hs1.
    change (settlements 0 (fun _ => Some (Error "late failure")) _)
      with [DoSettle 0 1 (Some (Error "late failure"))] in Hs2.
    simpl in Hs2 |- *.
    destruct (settle 0 1 (Some (Error "late failure")) s1) as [s2'|]; [|done].
    injection Hs2 as ->. by rewrite Hs3.
  - exact Hq.
  - exact Hrel.
  - exact (proj1 (Hnext 1 [2] eq_refl)).
Defined.

Lemma unresolvable_event_releases_slot_witness :
  exists s s2,
    run_actions demo_behave demo_acts_served init = Some s
    /\ drain demo_behave 2 s = s2
    /\ queue s2 = [2]
    /\ phase_of s2 1 = Some Released
    /\ phase_of s2 2 = Some Ready.
Proof.
  assert (Hrun : run_actions demo_behave demo_acts_served init = Some
            (default init (run_actions demo_behave demo_acts_served init)))
    by (vm_compute; reflexivity).
  destruct (unresolvable_event_releases_slot demo_behave demo_acts_served _ 1
              "reload" [] [2] Hrun)
    as (s1 & s2 & _ & _ & _ & Hdrain & _ & Hq & Hrel & Hnext & _);
    try (vm_compute; reflexivity).
  eexists _, s2. split; [exact Hrun|]. split_and!.
  - exact Hdrain.
  - exact Hq.
  - exact Hrel.
  - exact (proj1 (Hnext 2 [] eq_refl)).
Defined.

(** C2, where the code departs from the claim.  The demo root tracks
    nothing under the name [toString], neither as a file nor as a
    directory, and the fresh stat says the child is a file that is no
    script: the decision table asks for no call at all.  The listener
    finds [this.files["toString"]] truthy all the same, for it is the
    method every object literal inherits, and calls [onRemove] with it. *)
Theorem listener_removes_inherited_name :
  files demo_root !! "toString"%string = None
  /\ tracked_dirs demo_root !! "toString"%string = None
  /\ checkFile demo_realname demo_root "/srv/toString" "toString" = false
  /\ listener rec_call demo_realname "rename" "toString" (Some StFile)
       (demo_root, [])
     = Returned (demo_root, [Call onRemove (VBuiltin "toString")]).
Proof. by vm_compute. Qed.

(** A directory named like a key of [Object.prototype] is never tracked:
    [this.files["constructor"]] is truthy, so the listener calls
    [onRemove] with the inherited value, and [checkDirectory] then turns
    the directory down. *)
Lemma inherited_name_is_never_tracked :
  listener rec_call demo_realname "rename" "constructor" (Some StDirectory)
    (demo_root, [])
  = Returned (demo_root, [Call onRemove (VBuiltin "constructor")]).
Proof. vm_compute. reflexivity. Qed.


(* ===================================================================== *)
(** ** The reload engine *)
(* ===================================================================== *)

Section Registry.

Implicit Types (s : RunDir.t) (h : handler).

Lemma on_load h s :
  on "load" h s
  = Returned (set_handlers {| load := load (handlers s) ++ [h];
                              unload := unload (handlers s) |} s).
Proof. reflexivity. Qed.

Lemma on_unload h s :
  on "unload" h s
  = Returned (set_handlers {| load := load (handlers s);
                              unload := unload (handlers s) ++ [h] |} s).
Proof. reflexivity. Qed.

Lemma registry_get_other r ev :
  ev <> "load"%string -> ev <> "unload"%string ->
  registry_get r ev = if inherited ev then Inherited ev else Undefined.
Proof.
  intros H1 H2. unfold registry_get.
  apply String.eqb_neq in H1, H2. by rewrite H1, H2.
Qed.

(** An event name that is neither registered nor inherited is ignored. *)
Lemma on_unknown ev h s :
  ev <> "load"%string -> ev <> "unload"%string -> inherited ev = false ->
  on ev h s = Returned s.
Proof.
  intros H1 H2 Hi. unfold on. rewrite registry_get_other by done.
  by rewrite Hi.
Qed.

(** An event name inherited from [Object.prototype] makes [on] throw. *)
Lemma on_inherited ev h s :
  inherited ev = true ->
  on ev h s
  = Thrown (TypeError "this.#handlers[event].push is not a function") s.
Proof.
  intros Hi. unfold on.
  assert (H1 : ev <> "load"%string) by (by intros ->).
  assert (H2 : ev <> "unload"%string) by (by intros ->).
  rewrite registry_get_other by done. by rewrite Hi.
Qed.

(** C9, where the code departs from the claim: [on("toString", h)] is
    not a silent no-op, it throws a [TypeError], whatever the handler and
    the state of the engine. *)
Theorem on_toString_throws h s :
  on "toString" h s
  = Thrown (TypeError "this.#handlers[event].push is not a function") s.
Proof. by apply on_inherited. Qed.

End Registry.

Section Adder.

Context (loader : string -> loaded).
Context (realpath : string -> string).
Context (readdir : string -> list string).
Context (stat : string -> option Stats).
Context (realname : string).

Implicit Types (s : RunDir.t) (i : info) (w : RunWatcher.t closure).

Local Abbreviation call := (call_closure loader realpath readdir stat realname).

(** C8.  When the cache has no module for the file entry [i] and loading
    it fails with [e], the adder returns normally; it has reported [e],
    which is the one line the log has grown by, and done nothing else: no
    notification is enqueued, no promise made, no watcher or cached
    module changed.  The watcher method that called it returns as well,
    so its loop goes on. *)
Theorem loader_failure_is_contained n i s e :
  isFile i = true -> cache s !! realpath (path i) = None ->
  loader (realpath (path i)) = LoadFails e ->
  call (S n) adder (VInfo i) s = Returned (emit [Reported e] s)
  /\ log (emit [Reported e] s) = log s ++ [Reported e]
  /\ queue (emit [Reported e] s) = queue s
  /\ batches (emit [Reported e] s) = batches s
  /\ watchers (emit [Reported e] s) = watchers s
  /\ cache (emit [Reported e] s) = cache s
  /\ forall w,
       added w = Some adder -> checkFile realname w (path i) (name i) = true ->
       fileAdded (call (S n)) realname i (w, s)
       = Returned (set_files (<[name i := i]> (files w)) w,
                   emit [Reported e] s).
Proof.
  intros Hfile Hcache Hload.
  assert (Hrun : call (S n) adder (VInfo i) s = Returned (emit [Reported e] s)).
  { simpl. unfold adder_body, require. cbv zeta.
    by rewrite Hfile, Hcache, Hload. }
  split_and!; try done.
  intros w Ha Hchk. unfold fileAdded. rewrite Hchk. simpl negb. cbv iota.
  unfold invoke. simpl added. rewrite Ha, Hrun. reflexivity.
Qed.

End Adder.

Lemma loader_failure_is_contained_witness :
  isFile demo_bad_file = true
  /\ exists s',
       call_closure demo_loader demo_realpath demo_fs_readdir demo_fs_stat
         demo_realname 1 adder (VInfo demo_bad_file) init
       = Returned s'
       /\ log s' = [Reported demo_syntax_error]
       /\ batches s' = [] /\ queue s' = [] /\ cache s' = ∅.
Proof.
  split; [reflexivity|].
  destruct (loader_failure_is_contained demo_loader demo_realpath
              demo_fs_readdir demo_fs_stat demo_realname 0 demo_bad_file init
              demo_syntax_error eq_refl eq_refl eq_refl)
    as (Hrun & Hlog & Hq & Hb & _ & Hc & _).
  eexists. split; [exact Hrun|]. by split_and!.
Defined.

Lemma for_of_returns {A S} (I : S -> Prop) (body : A -> S -> outcome S)
    (l : list A) : forall s,
  I s ->
  (forall x s, x ∈ l -> I s -> exists s', body x s = Returned s' /\ I s') ->
  exists s', for_of l body s = Returned s' /\ I s'.
Proof.
  induction l as [|x l IH]; intros s Hs Hbody.
  - exists s. by split.
  - destruct (Hbody x s) as (s1 & Hx & Hs1); [left | done |].
    rewrite for_of_cons, Hx. simpl bind.
    apply IH; [done|]. intros y s2 Hy. apply Hbody. by right.
Qed.

Section Notify.

Implicit Types (s : RunDir.t).

(** A call of [#notify] makes one promise, for the event and arguments
    it was given, and touches neither the watchers nor the cache. *)
Lemma notify_effect ev args s :
  watchers (notify ev args s) = watchers s
  /\ cache (notify ev args s) = cache s
  /\ exists p, batches (notify ev args s)
               = batches s ++ [{| b_event := ev; b_args := args;
                                  b_phase := p |}].
Proof.
  unfold notify. simpl.
  destruct (length (queue s ++ [length (batches s)]) =? 1)%nat.
  - unfold resolve, phase_of. simpl.
    rewrite list_lookup_middle by done. simpl.
    split_and!; try reflexivity.
    exists Ready. unfold put_phase. simpl.
    replace (length (batches s)) with (length (batches s) + 0) at 1 by lia.
    rewrite alter_app_r. reflexivity.
  - split_and!; try reflexivity. by exists Waiting.
Qed.

Lemma paths_in_nil P : paths_in P [].
Proof. intros b p Hb. by apply elem_of_nil in Hb. Qed.

Lemma paths_in_app P bs1 bs2 :
  paths_in P bs1 -> paths_in P bs2 -> paths_in P (bs1 ++ bs2).
Proof.
  intros H1 H2 b p [Hb | Hb]%elem_of_app; [by apply H1 | by apply H2].
Qed.

Lemma paths_in_singleton (P : string -> Prop) b :
  (forall p, APath p ∈ b_args b -> P p) -> paths_in P [b].
Proof. intros H b' p ->%list_elem_of_singleton. apply H. Qed.

End Notify.

Section DepthCap.

Context (loader : string -> loaded).
Context (realpath : string -> string).
Context (readdir : string -> list string).
Context (stat : string -> option Stats).
Context (realname : string).

Implicit Types (s : RunDir.t) (i : info) (w : RunWatcher.t closure).

Local Abbreviation call := (call_closure loader realpath readdir stat realname).

Lemma require_effect p s r s1 :
  require loader realpath p s = (r, s1) ->
  watchers s1 = watchers s /\ batches s1 = batches s.
Proof.
  unfold require. cbv zeta.
  destruct (cache s !! realpath p); [by intros [= <- <-]|].
  destruct (loader (realpath p)); by intros [= <- <-].
Qed.

Lemma notify_paths ev args s (P : string -> Prop) :
  (forall p, APath p ∈ args -> P p) ->
  watchers (notify ev args s) = watchers s
  /\ exists extra, batches (notify ev args s) = batches s ++ extra
                   /\ paths_in P extra.
Proof.
  intros HP. destruct (notify_effect ev args s) as (Hw & _ & p & Hb).
  split; [done|]. eexists. split; [exact Hb|].
  by apply paths_in_singleton.
Qed.

(** The file branch of the adder: it returns, registers no watcher, and
    the promises it makes mention the path of the file only. *)
Lemma adder_file self i s :
  isFile i = true ->
  exists s' extra,
    adder_body loader realpath readdir stat realname self (VInfo i) s = Returned s'
    /\ watchers s' = watchers s
    /\ batches s' = batches s ++ extra
    /\ paths_in (fun p => p = path i) extra.
Proof.
  intros Hfile. unfold adder_body. rewrite Hfile.
  destruct (require loader realpath (path i) s) as [r s1] eqn:Hreq.
  destruct (require_effect _ _ _ _ Hreq) as [Hw1 Hb1].
  assert (Hargs : forall x p,
            APath p ∈ [APath (path i); AExports x] -> p = path i).
  { intros x p [Hp | Hp]%elem_of_cons; [by injection Hp|].
    by apply list_elem_of_singleton in Hp. }
  assert (Hload : forall x s0,
            watchers s0 = watchers s ->
            (exists extra, batches s0 = batches s ++ extra
                           /\ paths_in (fun p => p = path i) extra) ->
            exists s' extra,
              Returned (notify (Named "load") [APath (path i); AExports x] s0)
              = Returned s'
              /\ watchers s' = watchers s
              /\ batches s' = batches s ++ extra
              /\ paths_in (fun p => p = path i) extra).
  { intros x s0 Hw0 (extra0 & Hb0 & Hp0).
    destruct (notify_paths (Named "load") [APath (path i); AExports x] s0
                (fun p => p = path i) (Hargs x))
      as (Hw & extra & Hb & Hp).
    eexists _, (extra0 ++ extra). split; [reflexivity|]. split_and!.
    - congruence.
    - by rewrite Hb, Hb0, app_assoc.
    - by apply paths_in_app. }
  assert (Hnone : exists extra, batches s1 = batches s ++ extra
                                /\ paths_in (fun p => p = path i) extra).
  { exists []. rewrite app_nil_r. split; [done | apply paths_in_nil]. }
  destruct r as [x|e].
  - destruct x as [| |id [| |[h|] onUnload]]; try (by apply Hload).
    + exists (emit [Reported null_read] s1), [].
      rewrite app_nil_r. split_and!; try done. apply paths_in_nil.
    + apply Hload.
      * destruct (notify_effect (Fn h) [] s1) as (Hw & _). congruence.
      * destruct (notify_paths (Fn h) [] s1 (fun p => p = path i))
          as (_ & extra & Hb & Hp).
        { intros p Hp. by apply elem_of_nil in Hp. }
        exists extra. split; [congruence | done].
  - exists (emit [Reported e] s1), [].
    rewrite app_nil_r. split_and!; try done. apply paths_in_nil.
Qed.

(** The file branch of the remover: it returns or throws, unregisters no
    watcher, and the promises it makes mention the path of the file
    only. *)
Lemma remover_file self f s :
  isFile f = true ->
  match remover_body self (VInfo f) s with
  | Returned s' | Thrown _ s' =>
      watchers s' = watchers s
      /\ exists extra, batches s' = batches s ++ extra
                       /\ paths_in (fun p => p = path f) extra
  | Diverged => False
  end.
Proof.
  intros Hfile. unfold remover_body. rewrite Hfile.
  destruct (cache s !! path f) as [x|].
  - set (s1 := set_cache (delete (path f) (cache s)) s).
    destruct (notify_paths (Named "unload") [APath (path f); AExports x] s1
                (fun p => p = path f))
      as (Hw & extra & Hb & Hp).
    { intros p [Hp | Hp]%elem_of_cons; [by injection Hp|].
      by apply list_elem_of_singleton in Hp. }
    set (s2 := notify (Named "unload") [APath (path f); AExports x] s1) in *.
    assert (Hs2 : watchers s2 = watchers s
                  /\ exists extra, batches s2 = batches s ++ extra
                                   /\ paths_in (fun p => p = path f) extra)
      by (split; [exact Hw | by exists extra]).
    destruct x as [| |id [| |onLoad [h|]]]; try exact Hs2.
    destruct (notify_paths (Fn h) [] s2 (fun p => p = path f))
      as (Hw' & extra' & Hb' & Hp').
    { intros p Hp0. by apply elem_of_nil in Hp0. }
    split; [by rewrite Hw', Hw|]. exists (extra ++ extra'). split.
    + rewrite Hb', Hb. by rewrite app_assoc.
    + by apply paths_in_app.
  - split; [done|]. exists []. rewrite app_nil_r.
    split; [done | apply paths_in_nil].
Qed.

Lemma directoryAdded_not_recursive {E} (cl : closure -> value -> E -> outcome E)
    i w (e : E) :
  directories w = None -> directoryAdded cl i (w, e) = Returned (w, e).
Proof.
  intros Hd. unfold directoryAdded, checkDirectory. rewrite Hd.
  by rewrite andb_false_r.
Qed.


(** The first loop of [watch] on the watcher the adder has just made for
    the directory entry [i]. *)
Lemma subdirectory_scan_loop n i s1 (bs : list batch) (l : list info) :
  (forall x, x ∈ l ->
     exists k, k ∈ readdir (path i)
               /\ x = fileInfo (path_join (path i) k) k
                        (stat (path_join (path i) k))) ->
  forall w e,
    wpath w = path i -> directories w = None -> added w = Some adder ->
    removed w = Some remover -> watchers e = watchers s1 ->
    (forall k f, files w !! k = Some f ->
       k ∈ readdir (path i)
       /\ f = fileInfo (path_join (path i) k) k (Some StFile)) ->
    (exists extra, batches e = bs ++ extra
       /\ paths_in (fun p => exists k, k ∈ readdir (path i)
                      /\ p = path_join (path i) k
                      /\ stat p = Some StFile) extra) ->
    exists w' e',
      for_of l
        (fun x => if isFile x then fileAdded (call (S n)) realname x
                  else skip) (w, e)
      = Returned (w', e')
      /\ wpath w' = path i /\ directories w' = None
      /\ watcher w' = watcher w
      /\ added w' = Some adder /\ removed w' = Some remover
      /\ watchers e' = watchers s1
      /\ (forall k f, files w' !! k = Some f ->
            k ∈ readdir (path i)
            /\ f = fileInfo (path_join (path i) k) k (Some StFile))
      /\ (exists extra, batches e' = bs ++ extra
            /\ paths_in (fun p => exists k, k ∈ readdir (path i)
                           /\ p = path_join (path i) k
                           /\ stat p = Some StFile) extra).
Proof.
  induction l as [|x l IH]; intros Hl w e Hp Hd Ha Hr Hw Hf Hb.
  - exists w, e. by split_and!.
  - rewrite for_of_cons.
    assert (Hl' : forall y, y ∈ l ->
              exists k, k ∈ readdir (path i)
                        /\ y = fileInfo (path_join (path i) k) k
                                 (stat (path_join (path i) k)))
      by (intros y Hy; apply Hl; by right).
    destruct (isFile x) eqn:Hfile; [|by apply IH].
    unfold fileAdded.
    destruct (checkFile realname w (path x) (name x)); simpl negb; cbv iota;
      [|by apply IH].
    unfold invoke. simpl added. rewrite Ha.
    change (call (S n) adder (VInfo x) e)
      with (adder_body loader realpath readdir stat realname (call n) (VInfo x) e).
    destruct (adder_file (call n) x e Hfile) as (e1 & extra1 & -> & Hw1 & Hb1 & Hp1).
    simpl lift. simpl bind.
    destruct (Hl x) as (k & Hk & Hx); [left|].
    assert (Hx' : x = fileInfo (path_join (path i) k) k (Some StFile)).
    { rewrite Hx in Hfile. apply fileInfo_isFile in Hfile. congruence. }
    assert (Hstat : stat (path_join (path i) k) = Some StFile).
    { rewrite Hx in Hfile. simpl in Hfile.
      destruct (stat (path_join (path i) k)) as [[]|]; done. }
    destruct (IH Hl' (set_files (<[name x := x]> (files w)) w) e1)
      as (w' & e' & Hrun & H1 & H2 & H3 & H4 & H5 & H6 & H7 & H8);
      try done.
    + congruence.
    + simpl. intros k' f [[<- <-] | [_ Hold]]%lookup_insert_Some.
      * rewrite Hx'. by split.
      * by apply Hf.
    + destruct Hb as (extra & Hbe & Hpe). exists (extra ++ extra1). split.
      * by rewrite Hb1, Hbe, app_assoc.
      * apply paths_in_app; [done|]. intros b p Hbin Hpin.
        rewrite (Hp1 b p Hbin Hpin). exists k. rewrite Hx'. by split_and!.
    + exists w', e'. by split_and!.
Qed.

Lemma subdirectory_dirs_loop
    (cl : closure -> value -> RunDir.t -> outcome RunDir.t)
    (l : list info) w (e : RunDir.t) :
  directories w = None ->
  for_of l
    (fun x => if isDirectory x then directoryAdded cl x else skip)
    (w, e)
  = Returned (w, e).
Proof.
  intros Hd. induction l as [|x l IH]; [done|].
  rewrite for_of_cons.
  destruct (isDirectory x); [|exact IH].
  by rewrite directoryAdded_not_recursive.
Qed.


(** C6.  (a) Handed a directory entry [i] for which no watcher is
    registered, the adder returns; it has built a watcher that is not
    recursive for the path of [i], registered it, and started it with the
    closures [adder] and [remover]; it has registered no other watcher,
    whatever directories the listing of [i] holds; the files the new
    watcher tracks are children of [i]; and every path mentioned by a
    promise made on the way is a child of [i] that is a file.  (b) On a
    watcher that is not recursive, a notification for a child that is now
    a directory leaves the watcher without directories and the child
    untracked, registers no watcher, and the only path a promise made on
    the way can mention is that of the child itself. *)
Theorem depth_is_capped_at_one :
  (forall n i s,
     isFile i = false -> isDirectory i = true ->
     truthy (get (watchers s) (path i)) = false ->
     exists s' w',
       call (S (S n)) adder (VInfo i) s = Returned s'
       /\ watchers s' = <[path i := w']> (watchers s)
       /\ wpath w' = path i /\ directories w' = None
       /\ watcher w' = Some (path i ++ "/.")%string
       /\ added w' = Some adder /\ removed w' = Some remover
       /\ (forall k f, files w' !! k = Some f ->
             k ∈ readdir (path i)
             /\ f = fileInfo (path_join (path i) k) k (Some StFile))
       /\ exists extra,
            batches s' = batches s ++ extra
            /\ paths_in (fun p => exists k, k ∈ readdir (path i)
                           /\ p = path_join (path i) k
                           /\ stat p = Some StFile) extra)
  /\ (forall n w s ev file,
        tracked_ok realname w -> directories w = None ->
        removed w = Some remover ->
        match listener (call (S n)) realname ev file (Some StDirectory) (w, s)
        with
        | Returned (w', s') | Thrown _ (w', s') =>
            directories w' = None /\ files w' !! file = None
            /\ watchers s' = watchers s
            /\ exists extra,
                 batches s' = batches s ++ extra
                 /\ paths_in (fun p => p = path_join (wpath w) file) extra
        | Diverged => False
        end).
Proof.
  split.
  - intros n i s Hfile Hdir Hnone.
    change (call (S (S n)) adder (VInfo i) s)
      with (adder_body loader realpath readdir stat realname (call (S n)) (VInfo i) s).
    unfold adder_body. rewrite Hfile, Hdir, Hnone. simpl andb. cbv iota.
    set (w0 := RunWatcher.new (path i) false).
    set (s1 := set_watchers (<[path i := w0]> (watchers s)) s).
    unfold with_watcher, watch. simpl watcher. cbv iota.
    set (h := (path i ++ sep ++ ".")%string).
    set (w2 := set_watcher (Some h) (set_callbacks adder remover w0)).
    set (e1 := emit [Opened h] s1).
    assert (Hscan : forall x, x ∈ scan w2 (readdir (path i)) stat ->
              exists k, k ∈ readdir (path i)
                        /\ x = fileInfo (path_join (path i) k) k
                                 (stat (path_join (path i) k))).
    { intros x Hx. unfold scan in Hx.
      apply list_elem_of_fmap in Hx as (k & -> & Hk).
      exists k. split; [by apply sort_elem_of|]. reflexivity. }
    destruct (subdirectory_scan_loop n i s1 (batches s)
                (scan w2 (readdir (path i)) stat) Hscan w2 e1)
      as (w' & e' & Hrun & H1 & H2 & H3 & H4 & H5 & H6 & H7 & H8);
      try done.
    { exists []. rewrite app_nil_r. split; [done | apply paths_in_nil]. }
    simpl wpath. fold h. fold w2. fold e1. rewrite Hrun. simpl bind.
    rewrite subdirectory_dirs_loop by done. simpl lift.
    eexists _, w'. split; [reflexivity|]. split_and!; try done.
    simpl. rewrite H6. unfold s1. simpl. apply insert_insert_eq.
  - intros n w s ev file Hok Hd Hr.
    unfold listener.
    set (i := fileInfo (path_join (wpath w) file) file (Some StDirectory)).
    assert (Hadd : forall w1 (e : RunDir.t),
              directories w1 = None ->
              (if isFile i then fileAdded (call (S n)) realname i
               else if isDirectory i then directoryAdded (call (S n)) i
               else skip) (w1, e) = Returned (w1, e)).
    { intros w1 e Hd1. change (isFile i) with false.
      change (isDirectory i) with true. cbv iota.
      by apply directoryAdded_not_recursive. }
    assert (Hnil : forall (P : string -> Prop) (bs : list batch),
              exists extra, bs = bs ++ extra /\ paths_in P extra).
    { intros P bs. exists []. rewrite app_nil_r.
      split; [done | apply paths_in_nil]. }
    destruct (files w !! file) as [f|] eqn:Hf.
    + destruct (files_ok _ _ Hok _ _ Hf) as [Hfi _].
      assert (Hname : name f = file) by by rewrite Hfi.
      assert (Hpath : path f = path_join (wpath w) file) by by rewrite Hfi.
      assert (Hfile : isFile f = true) by by rewrite Hfi.
      rewrite (get_Some _ _ _ Hf). simpl truthy. cbv iota. simpl to_value.
      unfold fileRemoved. simpl value_name. cbv iota beta.
      unfold invoke. simpl removed. rewrite Hr, Hname.
      change (call (S n) remover (VInfo f) s)
        with (remover_body (call n) (VInfo f) s).
      pose proof (remover_file (call n) f s Hfile) as Hrem.
      rewrite Hpath in Hrem.
      destruct (remover_body (call n) (VInfo f) s) as [s'|e s'|];
        [| |done]; destruct Hrem as (Hw & Hb).
      * rewrite lift_Returned, bind_Returned, Hadd by done.
        split_and!; try done. apply lookup_delete_eq.
      * rewrite lift_Thrown, bind_Thrown.
        split_and!; try done. apply lookup_delete_eq.
    + destruct (inherited file) eqn:Hinh.
      * rewrite (get_inherited _ _ Hf Hinh). simpl truthy. cbv iota.
        simpl to_value. unfold fileRemoved. simpl value_name. cbv iota beta.
        unfold invoke. simpl removed. rewrite Hr.
        change (call (S n) remover (VBuiltin file) s) with (Returned s).
        rewrite lift_Returned, bind_Returned, Hadd by done.
        split_and!; try done.
        apply lookup_delete_None. by right.
      * rewrite (get_None _ _ Hf Hinh). simpl truthy. cbv iota.
        rewrite Hd, bind_Returned, Hadd by done. by split_and!.
Qed.

End DepthCap.

Lemma depth_is_capped_at_one_witness :
  exists s' w',
    call_closure demo_loader demo_realpath demo_fs_readdir demo_fs_stat demo_realname 2
      adder (VInfo demo_dir) init
    = Returned s'
    /\ watchers s' = {[ "/srv/plugins"%string := w' ]}
    /\ directories w' = None
    /\ added w' = Some adder /\ removed w' = Some remover.
Proof.
  destruct (proj1 (depth_is_capped_at_one demo_loader demo_realpath demo_fs_readdir
                     demo_fs_stat demo_realname)
              0 demo_dir init eq_refl eq_refl eq_refl)
    as (s' & w' & Hrun & Hw & _ & Hd & _ & Ha & Hr & _).
  exists s', w'. split_and!; try done.
Defined.

(* ===================================================================== *)
(** ** What the methods of a watcher keep, in any world *)
(* ===================================================================== *)

Lemma outcome_holds_impl {S} (P R : S -> Prop) (o : outcome S) :
  (forall s, P s -> R s) -> outcome_holds P o -> outcome_holds R o.
Proof. intros H. destruct o; simpl; auto. Qed.

Lemma outcome_holds_Returned {S} (P : S -> Prop) (o : outcome S) s :
  o = Returned s -> outcome_holds P o -> P s.
Proof. by intros ->. Qed.

Lemma outcome_holds_Thrown {S} (P : S -> Prop) (o : outcome S) x s :
  o = Thrown x s -> outcome_holds P o -> P s.
Proof. by intros ->. Qed.

Lemma outcome_holds_bind {S} (P R : S -> Prop) (o : outcome S) k :
  outcome_holds P o ->
  (forall s, P s -> R s) ->
  (forall s, P s -> outcome_holds R (k s)) ->
  outcome_holds R (bind o k).
Proof. intros Ho Hthrow Hk. destruct o; simpl in *; auto. Qed.

Lemma outcome_holds_lift {S T} (P : S -> Prop) (R : T -> Prop) (f : S -> T)
    (o : outcome S) :
  outcome_holds P o -> (forall s, P s -> R (f s)) ->
  outcome_holds R (lift f o).
Proof. intros Ho Hf. destruct o; simpl in *; auto. Qed.

Lemma for_of_holds {A S} (I : S -> Prop) (body : A -> S -> outcome S)
    (l : list A) : forall s,
  I s ->
  (forall x s, x ∈ l -> I s -> outcome_holds I (body x s)) ->
  outcome_holds I (for_of l body s).
Proof.
  induction l as [|x l IH]; intros s Hs Hbody; [exact Hs|].
  rewrite for_of_cons.
  apply (outcome_holds_bind I I); [apply Hbody; [left | done] | done |].
  intros s1 Hs1. apply IH; [done|]. intros y s2 Hy. apply Hbody. by right.
Qed.

Lemma same_shape_refl {C} (w : RunWatcher.t C) : same_shape w w.
Proof. by split_and!. Qed.

Lemma same_shape_trans {C} (w1 w2 w3 : RunWatcher.t C) :
  same_shape w1 w2 -> same_shape w2 w3 -> same_shape w1 w3.
Proof.
  intros (H1 & H2 & H3 & H4 & H5) (G1 & G2 & G3 & G4 & G5).
  split_and!; try congruence. by rewrite G5.
Qed.

Lemma carries_builtin Q k : carries Q (VBuiltin k).
Proof. by intros i. Qed.

Lemma carries_undefined Q : carries Q VUndefined.
Proof. by intros i. Qed.

Section Frame.

Context {E C : Type}.
Context (call : C -> value -> E -> outcome E).
Context (fs_watch fs_close : string -> E -> E).
Context (realname : string).
Context (Q : string -> Prop) (P : E -> Prop).

Context (okA okR : C -> Prop).

Hypothesis HQ : forall p, p <> realname -> Q p.
Hypothesis Hadd :
  forall c v e, okA c -> P e -> carries Q v -> outcome_holds P (call c v e).
Hypothesis Hrem :
  forall c v e, okR c -> P e -> carries Q v -> outcome_holds P (call c v e).
Hypothesis Hopen : forall h e, P e -> P (fs_watch h e).
Hypothesis Hclose : forall h e, P e -> P (fs_close h e).

Implicit Types (w : RunWatcher.t C) (e : E) (i : info) (v : value).

Lemma kept_trans w1 w2 st :
  same_shape w1 w2 -> kept Q P w2 st -> kept Q P w1 st.
Proof.
  intros H12 (H2 & Ht & Hp). split_and!; [|done|done].
  by eapply same_shape_trans.
Qed.

Lemma wired_by_shape w1 w2 :
  same_shape w1 w2 -> wired_by okA okR w1 -> wired_by okA okR w2.
Proof.
  intros (_ & _ & Ha & Hr & _) [H1 H2]. split; intros c Hc.
  - apply H1. congruence.
  - apply H2. congruence.
Qed.

Lemma invoke_kept c v w e :
  (forall f, c = Some f -> okA f \/ okR f) ->
  tracks_only Q w -> P e -> carries Q v ->
  outcome_holds (kept Q P w) (invoke call c v (w, e)).
Proof.
  intros Hc Ht Hp Hv. unfold invoke. destruct c as [f|].
  - apply (outcome_holds_lift P).
    + destruct (Hc f eq_refl); [by apply Hadd | by apply Hrem].
    + intros e' He'. split_and!; [apply same_shape_refl | done | done].
  - simpl. split_and!; [apply same_shape_refl | done | done].
Qed.

Lemma fileAdded_kept i w e :
  wired_by okA okR w -> tracks_only Q w -> P e ->
  outcome_holds (kept Q P w) (fileAdded call realname i (w, e)).
Proof.
  intros Hwi Ht Hp. unfold fileAdded.
  destruct (checkFile realname w (path i) (name i)) eqn:Hchk; simpl negb;
    cbv iota.
  - set (w' := set_files (<[name i := i]> (files w)) w).
    assert (Hi : carries Q (VInfo i)).
    { intros i' [= <-] _. apply HQ. unfold checkFile in Hchk.
      apply andb_prop in Hchk as [Hchk _].
      apply andb_prop in Hchk as [_ Hne].
      apply negb_true_iff in Hne. intros Heq. rewrite Heq in Hne.
      by rewrite String.eqb_refl in Hne. }
    apply (outcome_holds_impl (kept Q P w')).
    + intros st. apply kept_trans. by split_and!.
    + apply invoke_kept; [| |done|done].
      * intros f Hf. left. by apply (proj1 Hwi).
      * split.
        -- simpl. intros k f [[_ <-] | [_ Hold]]%lookup_insert_Some; [done|].
           by apply (proj1 Ht k).
        -- exact (proj2 Ht).
  - simpl. split_and!; [apply same_shape_refl | done | done].
Qed.

Lemma fileRemoved_kept v w e :
  wired_by okA okR w -> tracks_only Q w -> P e -> carries Q v ->
  outcome_holds (kept Q P w) (fileRemoved call v (w, e)).
Proof.
  intros Hwi Ht Hp Hv. unfold fileRemoved. destruct (value_name v) as [n|].
  - set (w' := set_files (delete n (files w)) w).
    apply (outcome_holds_impl (kept Q P w')).
    + intros st. apply kept_trans. by split_and!.
    + apply invoke_kept; [| |done|done].
      * intros f Hf. right. by apply (proj2 Hwi).
      * split.
        -- simpl. intros k f [_ Hold]%lookup_delete_Some.
           by apply (proj1 Ht k).
        -- exact (proj2 Ht).
  - simpl. split_and!; [apply same_shape_refl | done | done].
Qed.

Lemma directoryAdded_kept i w e :
  wired_by okA okR w -> tracks_only Q w -> P e -> carries Q (VInfo i) ->
  outcome_holds (kept Q P w) (directoryAdded call i (w, e)).
Proof.
  intros Hwi Ht Hp Hi. unfold directoryAdded.
  destruct (checkDirectory w (path i) (name i)); simpl negb; cbv iota.
  - destruct (directories w) as [d|] eqn:Hd.
    + set (w' := set_directories (<[name i := i]> d) w).
      apply (outcome_holds_impl (kept Q P w')).
      * intros st. apply kept_trans. split_and!; try done.
        simpl. by rewrite Hd.
      * apply invoke_kept; [| |done|done].
        -- intros f Hf. left. by apply (proj1 Hwi).
        -- split; [exact (proj1 Ht)|].
           unfold tracked_dirs. simpl.
           intros k f [[_ <-] | [_ Hold]]%lookup_insert_Some; [done|].
           apply (proj2 Ht k). unfold tracked_dirs. by rewrite Hd.
    + simpl. split_and!; [apply same_shape_refl | done | done].
  - simpl. split_and!; [apply same_shape_refl | done | done].
Qed.

Lemma directoryRemoved_kept v w e :
  wired_by okA okR w -> tracks_only Q w -> P e -> carries Q v ->
  outcome_holds (kept Q P w) (directoryRemoved call v (w, e)).
Proof.
  intros Hwi Ht Hp Hv. unfold directoryRemoved.
  destruct (value_name v) as [n|];
    [|simpl; split_and!; [apply same_shape_refl | done | done]].
  destruct (directories w) as [d|] eqn:Hd;
    [|simpl; split_and!; [apply same_shape_refl | done | done]].
  set (w' := set_directories (delete n d) w).
  apply (outcome_holds_impl (kept Q P w')).
  - intros st. apply kept_trans. split_and!; try done. simpl. by rewrite Hd.
  - apply invoke_kept; [| |done|done].
    + intros f Hf. right. by apply (proj2 Hwi).
    + split; [exact (proj1 Ht)|].
      unfold tracked_dirs. simpl.
      intros k f [_ Hold]%lookup_delete_Some.
      apply (proj2 Ht k). unfold tracked_dirs. by rewrite Hd.
Qed.

Lemma tracked_file_carries w k :
  tracks_only Q w -> carries Q (to_value (get (files w) k)).
Proof.
  intros Ht. unfold get. destruct (files w !! k) as [f|] eqn:Hf.
  - by apply (proj1 Ht k).
  - destruct (inherited k); [apply carries_builtin | apply carries_undefined].
Qed.

Lemma tracked_dir_carries w d k :
  tracks_only Q w -> directories w = Some d ->
  carries Q (to_value (get d k)).
Proof.
  intros Ht Hd. unfold get. destruct (d !! k) as [f|] eqn:Hf.
  - apply (proj2 Ht k). unfold tracked_dirs. by rewrite Hd.
  - destruct (inherited k); [apply carries_builtin | apply carries_undefined].
Qed.

Lemma kept_refl w e : tracks_only Q w -> P e -> kept Q P w (w, e).
Proof. intros Ht Hp. split_and!; [apply same_shape_refl | done | done]. Qed.

(** A loop whose body keeps what the methods keep. *)
Lemma loop_kept {A} (f : A -> @proc E C) (l : list A) w0
    (s : RunWatcher.t C * E) :
  wired_by okA okR w0 -> kept Q P w0 s ->
  (forall x w1 e1, x ∈ l -> wired_by okA okR w1 -> tracks_only Q w1 ->
     P e1 -> outcome_holds (kept Q P w1) (f x (w1, e1))) ->
  outcome_holds (kept Q P w0) (for_of l f s).
Proof.
  intros Hwi Hs Hf. apply for_of_holds; [done|].
  intros x [w1 e1] Hx (Hs1 & Ht1 & Hp1). simpl in Hs1, Ht1, Hp1.
  apply (outcome_holds_impl (kept Q P w1));
    [intros st; by apply kept_trans|].
  apply Hf; [done | by apply (wired_by_shape w0) | done | done].
Qed.

(** One native notification. *)
Lemma listener_kept ev file stat w e :
  wired_by okA okR w -> tracks_only Q w -> P e ->
  outcome_holds (kept Q P w) (listener call realname ev file stat (w, e)).
Proof.
  intros Hwi Ht Hp. unfold listener.
  set (i := fileInfo (path_join (wpath w) file) file stat).
  apply (outcome_holds_bind (kept Q P w)); [|done|].
  - destruct (truthy (get (files w) file)).
    + apply fileRemoved_kept;
        [done | done | done | by apply tracked_file_carries].
    + destruct (directories w) as [d|] eqn:Hd; [|by apply kept_refl].
      destruct (truthy (get d file) && negb (isDirectory i));
        [|by apply kept_refl].
      apply directoryRemoved_kept;
        [done | done | done | by apply (tracked_dir_carries w d)].
  - intros [w1 e1] (Hs & Ht1 & Hp1). simpl in Hs, Ht1, Hp1.
    assert (Hwi1 : wired_by okA okR w1) by by apply (wired_by_shape w).
    apply (outcome_holds_impl (kept Q P w1));
      [intros st; by apply kept_trans|].
    destruct (isFile i) eqn:Hfile; [by apply fileAdded_kept|].
    destruct (isDirectory i); [|by apply kept_refl].
    apply directoryAdded_kept; [done | done | done |].
    intros i' [= <-] Hf. congruence.
Qed.

(** [watch] on a watcher that is not watching: the result is shaped like
    the watcher once the callbacks and the handle are assigned. *)
Lemma watch_kept add remove readdir stat w e :
  okA add -> okR remove ->
  watcher w = None -> tracks_only Q w -> P e ->
  outcome_holds
    (kept Q P (set_watcher (Some (wpath w ++ sep ++ "."))%string
                 (set_callbacks add remove w)))
    (watch call fs_watch realname add remove readdir stat (w, e)).
Proof.
  intros Hoa Hor Hw Ht Hp. unfold watch. rewrite Hw.
  set (w2 := set_watcher (Some (wpath w ++ sep ++ "."))%string
               (set_callbacks add remove w)).
  assert (Hwi : wired_by okA okR w2).
  { split; simpl; by intros c [= <-]. }
  apply (outcome_holds_bind (kept Q P w2)); [|done|].
  - apply loop_kept; [done | apply kept_refl; [done | by apply Hopen]|].
    intros x w1 e1 _ Hwi1 Ht1 Hp1.
    destruct (isFile x); [by apply fileAdded_kept | by apply kept_refl].
  - intros s Hs. apply loop_kept; [done | done|].
    intros x w1 e1 Hx Hwi1 Ht1 Hp1.
    destruct (isDirectory x) eqn:Hdir; [|by apply kept_refl].
    apply directoryAdded_kept; [done | done | done |].
    intros i' [= <-] Hf. unfold scan in Hx.
    apply list_elem_of_fmap in Hx as (k & -> & _).
    destruct (stat (path_join (wpath w2) k)) as [[]|]; done.
Qed.

(** [stop] on a watcher that is watching: the result is shaped like the
    watcher once the handle is dropped. *)
Lemma stop_kept h w e :
  wired_by okA okR w ->
  watcher w = Some h -> tracks_only Q w -> P e ->
  outcome_holds (kept Q P (set_watcher None w))
    (RunWatcher.stop call fs_close (w, e)).
Proof.
  intros Hwi Hw Ht Hp. unfold RunWatcher.stop. rewrite Hw.
  set (w1 := set_watcher None w).
  assert (Hwi1 : wired_by okA okR w1) by exact Hwi.
  assert (H1 : kept Q P w1 (w1, fs_close h e))
    by (apply kept_refl; [done | by apply Hclose]).
  apply (outcome_holds_bind (kept Q P w1)); [|done|].
  - destruct (directories w1) as [d|]; [|done].
    apply loop_kept; [done | done|]. intros dir w' e' _ Hwi' Ht' Hp'.
    apply directoryRemoved_kept; [done | done | done |].
    destruct (directories w') as [d'|] eqn:Hd';
      [by apply (tracked_dir_carries w' d') | apply carries_undefined].
  - intros [w2 e2] Hs. apply loop_kept; [done | done|].
    intros file w' e' _ Hwi' Ht' Hp'.
    apply fileRemoved_kept;
      [done | done | done | by apply tracked_file_carries].
Qed.

End Frame.

(* ===================================================================== *)
(** ** The native handle, whatever the callbacks do *)
(* ===================================================================== *)

Section AnyWorld.

Context {E C : Type}.
Context (call : C -> value -> E -> outcome E).
Context (fs_watch fs_close : string -> E -> E).
Context (realname : string).

Implicit Types (w : RunWatcher.t C) (e : E).

Lemma any_world_tracks w : tracks_only (fun _ => True) w.
Proof. split; by intros. Qed.

Lemma any_world_wired w : wired_by (fun _ : C => True) (fun _ => True) w.
Proof. split; by intros. Qed.

(** X1.  [watch] assigns the callbacks and opens the native handle before
    it scans, and nothing in the scan takes them back: however the call
    on a watcher that is not watching ends, by returning or because a
    callback threw in the middle of the scan, the watcher holds the handle
    of its directory and the two callbacks it was given, and any further
    [watch] throws "Already watching" and changes nothing. *)
Theorem watch_leaves_handle_open add remove readdir stat w e :
  watcher w = None ->
  outcome_holds
    (fun st =>
       watcher st.1 = Some (wpath w ++ "/.")%string
       /\ wpath st.1 = wpath w
       /\ added st.1 = Some add /\ removed st.1 = Some remove
       /\ forall add' remove' readdir' stat',
            watch call fs_watch realname add' remove' readdir' stat' st
            = Thrown (Error ("Already watching '" ++ wpath w ++ "'")%string) st)
    (watch call fs_watch realname add remove readdir stat (w, e)).
Proof.
  intros Hw.
  apply (outcome_holds_impl
           (kept (fun _ => True) (fun _ => True)
              (set_watcher (Some (wpath w ++ sep ++ "."))%string
                 (set_callbacks add remove w)))).
  - intros [w' e'] ((Hp & Hh & Ha & Hr & _) & _). simpl in *.
    split_and!; try done.
    intros add' remove' readdir' stat'. unfold watch. by rewrite Hh, Hp.
  - apply (watch_kept call fs_watch realname (fun _ => True)
             (fun _ => True) (fun _ => True) (fun _ => True));
      try done; try (by intros; destruct (call _ _ _));
      apply any_world_tracks.
Qed.

(** X2.  [stop] closes and drops the native handle before it removes
    anything: however the call on a watcher that is watching ends, by
    returning or because a callback threw in the middle of the teardown,
    the watcher holds no handle, its callbacks are the ones it had, and a
    further [stop] throws "Not watching" and changes nothing. *)
Theorem stop_releases_handle h w e :
  watcher w = Some h ->
  outcome_holds
    (fun st =>
       watcher st.1 = None /\ wpath st.1 = wpath w
       /\ added st.1 = added w /\ removed st.1 = removed w
       /\ RunWatcher.stop call fs_close st
          = Thrown (Error ("Not watching '" ++ wpath w ++ "'")%string) st)
    (RunWatcher.stop call fs_close (w, e)).
Proof.
  intros Hw.
  apply (outcome_holds_impl
           (kept (fun _ => True) (fun _ => True) (set_watcher None w))).
  - intros [w' e'] ((Hp & Hh & Ha & Hr & _) & _). simpl in *.
    split_and!; try done.
    unfold RunWatcher.stop. by rewrite Hh, Hp.
  - apply (stop_kept call fs_close (fun _ => True)
             (fun _ => True) (fun _ => True) (fun _ => True)) with h;
      try done; try (by intros; destruct (call _ _ _));
      try apply any_world_wired; apply any_world_tracks.
Qed.

End AnyWorld.

Lemma watch_leaves_handle_open_witness :
  exists w' tr',
    watch demo_failing_call rec_watch demo_realname onAdd onRemove
      demo_readdir demo_stat (RunWatcher.new "/srv" true, [])
    = Thrown (Error "callback failed") (w', tr')
    /\ watcher w' = Some "/srv/."%string
    /\ tr' = [NativeOpen "/srv/."; Call onAdd (VInfo demo_file)].
Proof.
  assert (Hrun : watch demo_failing_call rec_watch demo_realname onAdd
                   onRemove demo_readdir demo_stat
                   (RunWatcher.new "/srv" true, [])
                 = Thrown (Error "callback failed")
                     ({| wpath := "/srv";
                         files := {[ "a.js"%string := demo_file ]};
                         watcher := Some "/srv/."%string;
                         directories := Some ∅;
                         added := Some onAdd;
                         removed := Some onRemove |},
                      [NativeOpen "/srv/."; Call onAdd (VInfo demo_file)]))
    by (vm_compute; reflexivity).
  pose proof (watch_leaves_handle_open demo_failing_call rec_watch
                demo_realname onAdd onRemove demo_readdir demo_stat
                (RunWatcher.new "/srv" true) [] eq_refl) as H.
  apply (outcome_holds_Thrown _ _ _ _ Hrun) in H.
  eexists _, _. split; [exact Hrun|]. split; [exact (proj1 H) | reflexivity].
Defined.

Lemma stop_releases_handle_witness :
  exists w' tr',
    RunWatcher.stop demo_failing_call rec_close (demo_root, [])
    = Thrown (Error "callback failed") (w', tr')
    /\ watcher w' = None
    /\ tr' = [NativeClose "/srv/."; Call onRemove (VInfo demo_dir)].
Proof.
  assert (Hrun : RunWatcher.stop demo_failing_call rec_close (demo_root, [])
                 = Thrown (Error "callback failed")
                     ({| wpath := "/srv";
                         files := {[ "a.js"%string := demo_file ]};
                         watcher := None;
                         directories := Some ∅;
                         added := Some onAdd;
                         removed := Some onRemove |},
                      [NativeClose "/srv/."; Call onRemove (VInfo demo_dir)]))
    by (vm_compute; reflexivity).
  pose proof (stop_releases_handle demo_failing_call rec_close
                "/srv/."%string demo_root [] eq_refl) as H.
  apply (outcome_holds_Thrown _ _ _ _ Hrun) in H.
  eexists _, _. split; [exact Hrun|]. split; [exact (proj1 H) | reflexivity].
Defined.

(* ===================================================================== *)
(** ** What a watcher tracks, in every state it reaches *)
(* ===================================================================== *)

Lemma checkFile_admits {C} realname (w : RunWatcher.t C) n :
  checkFile realname w (path_join (wpath w) n) n = true ->
  file_static_ok realname w n = true.
Proof. unfold checkFile, file_static_ok. by intros [? _]%andb_true_iff. Qed.

Lemma checkDirectory_admits {C} (w : RunWatcher.t C) p n :
  checkDirectory w p n = true ->
  not_dot_first n = true /\ inherited n = false
  /\ exists d, directories w = Some d.
Proof.
  unfold checkDirectory. intros [Hdot Hd]%andb_true_iff.
  destruct (directories w) as [d|]; [|done].
  split; [done|]. split; [|by exists d].
  unfold get in Hd. destruct (d !! n); [done|]. by destruct (inherited n).
Qed.

Section Entries.

Context {E C : Type}.
Context (call : C -> value -> E -> outcome E).
Context (fs_watch fs_close : string -> E -> E).
Context (realname : string).

Implicit Types (w : RunWatcher.t C) (e : E) (i : info) (v : value).

(** What every method keeps: the entries are well formed and the watched
    path is the same. *)
Local Abbreviation keeps w0 :=
  (fun st : RunWatcher.t C * E =>
     entries_ok realname st.1 /\ wpath st.1 = wpath w0).

Lemma entries_ok_shape w w' :
  wpath w' = wpath w -> files w' = files w ->
  directories w' = directories w ->
  entries_ok realname w -> entries_ok realname w'.
Proof.
  unfold entries_ok, file_static_ok, tracked_dirs. intros Hp Hf Hd H.
  by rewrite Hp, Hf, Hd.
Qed.

Lemma entries_ok_delete_file w n :
  entries_ok realname w ->
  entries_ok realname (set_files (delete n (files w)) w).
Proof.
  intros [Hf Hd]. split; [|exact Hd].
  intros k i Hk. simpl in Hk. apply lookup_delete_Some in Hk as [_ Hk].
  exact (Hf k i Hk).
Qed.

Lemma entries_ok_delete_dir w d n :
  directories w = Some d -> entries_ok realname w ->
  entries_ok realname (set_directories (delete n d) w).
Proof.
  intros Hdir [Hf Hd]. split; [exact Hf|].
  intros k i Hk. unfold tracked_dirs in Hk. simpl in Hk.
  apply lookup_delete_Some in Hk as [_ Hk]. apply Hd.
  unfold tracked_dirs. by rewrite Hdir.
Qed.

Lemma entries_ok_insert_file w i :
  entries_ok realname w ->
  i = fileInfo (path_join (wpath w) (name i)) (name i) (Some StFile) ->
  file_static_ok realname w (name i) = true ->
  entries_ok realname (set_files (<[name i := i]> (files w)) w).
Proof.
  intros [Hf Hd] Hi Hst. split; [|exact Hd].
  intros k j Hk. simpl in Hk.
  apply lookup_insert_Some in Hk as [[<- <-] | [_ Hk]]; [by split|].
  exact (Hf k j Hk).
Qed.

Lemma entries_ok_insert_dir w d i :
  directories w = Some d -> entries_ok realname w ->
  i = fileInfo (path_join (wpath w) (name i)) (name i) (Some StDirectory) ->
  not_dot_first (name i) = true -> inherited (name i) = false ->
  entries_ok realname (set_directories (<[name i := i]> d) w).
Proof.
  intros Hdir [Hf Hd] Hi Hdot Hinh. split; [exact Hf|].
  intros k j Hk. unfold tracked_dirs in Hk. simpl in Hk.
  apply lookup_insert_Some in Hk as [[<- <-] | [_ Hk]]; [by split_and!|].
  apply Hd. unfold tracked_dirs. by rewrite Hdir.
Qed.

Lemma invoke_same c v w e :
  outcome_holds (fun st => st.1 = w) (invoke call c v (w, e)).
Proof.
  unfold invoke. destruct c as [f|]; [|done]. by destruct (call f v e).
Qed.

Lemma invoke_entries c v w0 w e :
  entries_ok realname w -> wpath w = wpath w0 ->
  outcome_holds (keeps w0) (invoke call c v (w, e)).
Proof.
  intros Hok Hp. apply (outcome_holds_impl (fun st => st.1 = w));
    [|apply invoke_same].
  by intros st ->.
Qed.

Lemma fileAdded_entries i w e :
  entries_ok realname w ->
  i = fileInfo (path_join (wpath w) (name i)) (name i) (Some StFile) ->
  outcome_holds (keeps w) (fileAdded call realname i (w, e)).
Proof.
  intros Hok Hi. unfold fileAdded.
  destruct (checkFile realname w (path i) (name i)) eqn:Hchk; simpl negb;
    cbv iota; [|by split].
  apply invoke_entries; [|done].
  apply entries_ok_insert_file; [done | done |].
  apply checkFile_admits. by rewrite Hi in Hchk at 1.
Qed.

Lemma directoryAdded_entries i w e :
  entries_ok realname w ->
  i = fileInfo (path_join (wpath w) (name i)) (name i) (Some StDirectory) ->
  outcome_holds (keeps w) (directoryAdded call i (w, e)).
Proof.
  intros Hok Hi. unfold directoryAdded.
  destruct (checkDirectory w (path i) (name i)) eqn:Hchk; simpl negb;
    cbv iota; [|by split].
  destruct (checkDirectory_admits _ _ _ Hchk) as (Hdot & Hinh & d & Hd).
  rewrite Hd. apply invoke_entries; [|done].
  by apply entries_ok_insert_dir.
Qed.

Lemma fileRemoved_entries v w e :
  entries_ok realname w ->
  outcome_holds (keeps w) (fileRemoved call v (w, e)).
Proof.
  intros Hok. unfold fileRemoved.
  destruct (value_name v) as [n|]; [|by split].
  apply invoke_entries; [|done]. by apply entries_ok_delete_file.
Qed.

Lemma directoryRemoved_entries v w e :
  entries_ok realname w ->
  outcome_holds (keeps w) (directoryRemoved call v (w, e)).
Proof.
  intros Hok. unfold directoryRemoved.
  destruct (value_name v) as [n|]; [|by split].
  destruct (directories w) as [d|] eqn:Hd; [|by split].
  apply invoke_entries; [|done]. by apply entries_ok_delete_dir.
Qed.

Lemma keeps_trans w0 w1 (o : outcome (RunWatcher.t C * E)) :
  wpath w1 = wpath w0 ->
  outcome_holds (keeps w1) o -> outcome_holds (keeps w0) o.
Proof.
  intros Hp. apply outcome_holds_impl. intros st [? ?]. split; congruence.
Qed.

Lemma listener_entries ev file stat w e :
  entries_ok realname w ->
  outcome_holds (keeps w) (listener call realname ev file stat (w, e)).
Proof.
  intros Hok. unfold listener. cbv zeta.
  apply (outcome_holds_bind (keeps w) (keeps w)); [|done|].
  - destruct (truthy (get (files w) file));
      [by apply fileRemoved_entries|].
    destruct (directories w) as [d|]; [|by split].
    destruct (truthy (get d file) && _); [|by split].
    by apply directoryRemoved_entries.
  - intros [w1 e1] [Hok1 Hp1]. simpl in Hok1, Hp1.
    set (i := fileInfo (path_join (wpath w) file) file stat).
    destruct (isFile i) eqn:Hfile; [|destruct (isDirectory i) eqn:Hdir].
    + apply (keeps_trans _ w1); [done|].
      apply fileAdded_entries; [done|].
      rewrite Hp1. change (name i) with file. by apply fileInfo_isFile.
    + apply (keeps_trans _ w1); [done|].
      apply directoryAdded_entries; [done|].
      rewrite Hp1. change (name i) with file. by apply fileInfo_isDirectory.
    + by split.
Qed.

Lemma scan_entry w readdir stat i :
  i ∈ scan w readdir stat ->
  i = fileInfo (path_join (wpath w) (name i)) (name i)
        (stat (path_join (wpath w) (name i))).
Proof.
  unfold scan. intros (n & -> & _)%list_elem_of_fmap. reflexivity.
Qed.

Lemma watch_entries a r readdir stat w e :
  entries_ok realname w ->
  outcome_holds (keeps w)
    (watch call fs_watch realname a r readdir stat (w, e)).
Proof.
  intros Hok. unfold watch. destruct (watcher w) as [h|]; [by split|].
  cbv zeta.
  set (w2 := set_watcher (Some (wpath w ++ sep ++ "."))%string
               (set_callbacks a r w)).
  assert (Hok2 : entries_ok realname w2) by by apply (entries_ok_shape w).
  set (infos := scan w2 readdir stat).
  assert (Hloop : forall (body : info -> RunWatcher.t C * E
                                 -> outcome (RunWatcher.t C * E)) st,
            keeps w st ->
            (forall i w1 e1, i ∈ infos -> keeps w (w1, e1) ->
               outcome_holds (keeps w) (body i (w1, e1))) ->
            outcome_holds (keeps w) (for_of infos body st)).
  { intros body st Hst Hbody. apply for_of_holds; [done|].
    intros i [w1 e1] Hi Hs. by apply Hbody. }
  apply (outcome_holds_bind (keeps w) (keeps w)); [|done|].
  - apply Hloop; [by split|].
    intros i w1 e1 Hi [Hok1 Hp1]. simpl in Hok1, Hp1.
    destruct (isFile i) eqn:Hfile; [|by split].
    apply (keeps_trans _ w1); [done|].
    apply fileAdded_entries; [done|].
    pose proof (scan_entry _ _ _ _ Hi) as Heq.
    change (wpath w2) with (wpath w) in Heq. rewrite Hp1.
    rewrite Heq in Hfile. apply fileInfo_isFile in Hfile.
    by rewrite <- Heq in Hfile.
  - intros st Hst. apply Hloop; [done|].
    intros i w1 e1 Hi [Hok1 Hp1]. simpl in Hok1, Hp1.
    destruct (isDirectory i) eqn:Hdir; [|by split].
    apply (keeps_trans _ w1); [done|].
    apply directoryAdded_entries; [done|].
    pose proof (scan_entry _ _ _ _ Hi) as Heq.
    change (wpath w2) with (wpath w) in Heq. rewrite Hp1.
    rewrite Heq in Hdir. apply fileInfo_isDirectory in Hdir.
    by rewrite <- Heq in Hdir.
Qed.

Lemma stop_entries w e :
  entries_ok realname w ->
  outcome_holds (keeps w) (RunWatcher.stop call fs_close (w, e)).
Proof.
  intros Hok. unfold RunWatcher.stop.
  destruct (watcher w) as [h|]; [|by split]. cbv zeta.
  set (w1 := set_watcher None w).
  assert (Hok1 : entries_ok realname w1) by by apply (entries_ok_shape w).
  apply (outcome_holds_bind (keeps w) (keeps w)); [|done|].
  - destruct (directories w1) as [d|]; [|by split].
    apply for_of_holds; [by split|].
    intros dir [w' e'] _ [Hok' Hp']. simpl in Hok', Hp'.
    apply (keeps_trans _ w'); [done|]. by apply directoryRemoved_entries.
  - intros [w2 e2] [Hok2 Hp2]. simpl in Hok2, Hp2.
    apply for_of_holds; [by split|].
    intros file [w' e'] _ [Hok' Hp']. simpl in Hok', Hp'.
    apply (keeps_trans _ w'); [done|]. by apply fileRemoved_entries.
Qed.

Lemma ends_with_holds (P : RunWatcher.t C * E -> Prop)
    (o : outcome (RunWatcher.t C * E)) w' :
  outcome_holds P o -> ends_with o w' -> exists e', P (w', e').
Proof.
  destruct o as [[w1 e1]|x [w1 e1]|]; simpl; [| |done];
    intros H <-; by exists e1.
Qed.

(** In every state a watcher reaches, in any world, the entries it
    tracks are well formed. *)
Lemma reaches_any_entries w :
  reaches_any call fs_watch fs_close realname w -> entries_ok realname w.
Proof.
  induction 1 as [target subdirs
                 | w a r readdir stat e w' _ IH Hend
                 | w ev file stat e w' _ IH Hend
                 | w e w' _ IH Hend].
  - split; intros k i Hk.
    + simpl in Hk. by rewrite lookup_empty in Hk.
    + unfold tracked_dirs in Hk.
      destruct subdirs; simpl in Hk; by rewrite lookup_empty in Hk.
  - destruct (ends_with_holds _ _ _
                (watch_entries a r readdir stat w e IH) Hend) as (? & ? & _).
    done.
  - destruct (ends_with_holds _ _ _
                (listener_entries ev file stat w e IH) Hend) as (? & ? & _).
    done.
  - destruct (ends_with_holds _ _ _ (stop_entries w e IH) Hend)
      as (? & ? & _).
    done.
Qed.

End Entries.

(* ===================================================================== *)
(** ** What a watcher tracks *)
(* ===================================================================== *)

(** The [name] of an inherited value has no recognised extension either. *)
Lemma builtin_name_not_script k :
  inherited k = true ->
  endsWith (builtin_name k) ".js" || endsWith (builtin_name k) ".json" = false.
Proof.
  unfold inherited. intros Hk%bool_decide_eq_true.
  unfold object_prototype_keys in Hk.
  repeat (apply elem_of_cons in Hk as [-> | Hk]; [reflexivity|]).
  by apply elem_of_nil in Hk.
Qed.

Section Reconcile.

Context (realname : string).

Implicit Types (w : RunWatcher.t cb) (tr : trace) (i : info).

Lemma untracked_builtin w k :
  tracked_ok realname w -> inherited k = true ->
  files w !! builtin_name k = None.
Proof.
  intros Hok Hk. destruct (files w !! builtin_name k) as [f|] eqn:Hf; [|done].
  destruct (files_ok _ _ Hok _ _ Hf) as [_ Hst].
  unfold file_static_ok in Hst.
  rewrite (builtin_name_not_script k Hk) in Hst.
  by rewrite andb_false_r in Hst.
Qed.

Lemma untracked_inherited w k :
  tracked_ok realname w -> inherited k = true -> files w !! k = None.
Proof.
  intros Hok Hk. destruct (files w !! k) as [f|] eqn:Hf; [|done].
  destruct (files_ok _ _ Hok _ _ Hf) as [_ Hst].
  apply file_static_not_inherited in Hst. congruence.
Qed.

(** The state the add of the listener leaves. *)
Lemma add_step_state i w tr :
  added w = Some onAdd ->
  exists w' tr',
    add_step realname i (w, tr) = Returned (w', tr')
    /\ files w'
       = (if isFile i && checkFile realname w (path i) (name i)
          then <[name i := i]> (files w) else files w)
    /\ tracked_dirs w'
       = (if negb (isFile i) && isDirectory i
             && checkDirectory w (path i) (name i)
          then <[name i := i]> (tracked_dirs w) else tracked_dirs w).
Proof.
  intros Ha. unfold add_step.
  destruct (isFile i); [|destruct (isDirectory i)]; simpl andb.
  - rewrite fileAdded_rec by done.
    destruct (checkFile realname w (path i) (name i));
      eexists _, _; (split; [reflexivity|]); by split.
  - rewrite directoryAdded_rec by done. unfold checkDirectory, tracked_dirs.
    destruct (directories w) as [d|] eqn:Hd.
    + destruct (not_dot_first (name i) && negb (truthy (get d (name i))));
        eexists _, _; (split; [reflexivity|]); split; try done.
      simpl. by rewrite Hd.
    + rewrite andb_false_r. eexists _, _. split; [reflexivity|].
      split; [done|]. by rewrite Hd.
  - eexists _, _. split; [reflexivity|]. by split.
Qed.

(** The state the removal of the listener leaves. *)
Lemma removal_state w file stat tr :
  tracked_ok realname w -> wired w ->
  let i := fileInfo (path_join (wpath w) file) file stat in
  exists w1 tr1,
    (if truthy (get (files w) file) then
       fileRemoved rec_call (to_value (get (files w) file)) (w, tr)
     else
       match directories w with
       | Some d =>
           if truthy (get d file) && negb (isDirectory i)
           then directoryRemoved rec_call (to_value (get d file)) (w, tr)
           else Returned (w, tr)
       | None => Returned (w, tr)
       end)
    = Returned (w1, tr1)
    /\ files w1 = delete file (files w)
    /\ directories w1
       = (fun d => if isDirectory i then d else delete file d)
           <$> directories w
    /\ wpath w1 = wpath w /\ added w1 = Some onAdd.
Proof.
  intros Hok [Ha Hr] i. clearbody i.
  assert (Hsame : forall d : gmap string info, d !! file = None ->
            Some d
            = (fun d => if isDirectory i then d else delete file d)
                <$> Some d).
  { intros d Hnone. simpl.
    destruct (isDirectory i); [done|]. by rewrite delete_id. }
  destruct (files w !! file) as [f|] eqn:Hf.
  - destruct (files_ok _ _ Hok _ _ Hf) as [Hfi _].
    assert (Hname : name f = file) by by rewrite Hfi.
    rewrite (get_Some _ _ _ Hf). simpl truthy. cbv iota. simpl to_value.
    rewrite fileRemoved_rec by done. rewrite Hname.
    eexists _, _. split; [reflexivity|]. split_and!; try done.
    simpl. destruct (directories w) as [d|] eqn:Hd; [|done].
    apply Hsame. eapply disjoint_ok; eauto.
  - destruct (inherited file) eqn:Hinh.
    + rewrite (get_inherited _ _ Hf Hinh). simpl truthy. cbv iota.
      unfold fileRemoved. simpl value_name. cbv iota beta.
      unfold invoke. simpl removed. rewrite Hr. unfold rec_call.
      rewrite lift_Returned.
      eexists _, _. split; [reflexivity|]. split_and!; try done.
      * simpl. rewrite !delete_id; [done | done |].
        by apply untracked_builtin.
      * simpl. destruct (directories w) as [d|] eqn:Hd; [|done].
        apply Hsame.
        destruct (d !! file) as [dd|] eqn:Hdd; [|done].
        destruct (dirs_ok _ _ Hok _ _ _ Hd Hdd) as (_ & _ & Hni). congruence.
    + rewrite (get_None _ _ Hf Hinh). simpl truthy. cbv iota.
      destruct (directories w) as [d|] eqn:Hd.
      * destruct (d !! file) as [dd|] eqn:Hdd.
        -- rewrite (get_Some _ _ _ Hdd). simpl truthy. simpl to_value.
           destruct (dirs_ok _ _ Hok _ _ _ Hd Hdd) as (Hdi & _ & _).
           assert (Hname : name dd = file) by by rewrite Hdi.
           destruct (isDirectory i) eqn:Hisd; simpl negb; simpl andb;
             cbv iota.
           ++ eexists _, _. split; [reflexivity|].
              split_and!; try done; try (by rewrite delete_id);
                by rewrite ?Hd, ?Hisd.
           ++ rewrite (directoryRemoved_rec _ _ d) by done. rewrite Hname.
              eexists _, _. split; [reflexivity|]. split_and!; try done.
              simpl. by rewrite delete_id.
        -- rewrite (get_None _ _ Hdd Hinh). simpl truthy. simpl andb.
           cbv iota. eexists _, _. split; [reflexivity|].
           split_and!; try done; [by rewrite delete_id|].
           rewrite Hd. by apply Hsame.
      * eexists _, _. split; [reflexivity|].
        split_and!; try done; try (by rewrite delete_id); by rewrite ?Hd.
Qed.

(** X3.  One native notification for [file] brings the watcher in line
    with what the fresh stat says of that entry and touches no other
    name: afterwards [file] is tracked as a file exactly when the entry
    is a file whose name passes the static part of [checkFile], as a
    directory exactly when the entry is a directory, the watcher is
    recursive and the name is neither hidden nor inherited from
    [Object.prototype], and in both cases with the fresh entry; the
    invariant of the maps is kept. *)
Theorem listener_reconciles_entry w ev file stat tr :
  tracked_ok realname w -> wired w ->
  let i := fileInfo (path_join (wpath w) file) file stat in
  exists w' tr',
    listener rec_call realname ev file stat (w, tr) = Returned (w', tr')
    /\ files w'
       = (if isFile i && file_static_ok realname w file
          then <[file := i]> (files w) else delete file (files w))
    /\ tracked_dirs w'
       = (if isDirectory i && recursive w && not_dot_first file
             && negb (inherited file)
          then <[file := i]> (tracked_dirs w)
          else delete file (tracked_dirs w))
    /\ tracked_ok realname w' /\ wired w' /\ watcher w' = watcher w.
Proof.
  intros Hok Hwired i. rewrite listener_unfold. fold i.
  destruct (removal_state w file stat tr Hok Hwired)
    as (w1 & tr1 & Hrm & Hf1 & Hd1 & Hp1 & Ha1).
  fold i in Hrm, Hd1.
  destruct (add_step_state i w1 tr1 Ha1) as (w' & tr' & Hadd & Hf' & Hd').
  assert (Hrun : listener rec_call realname ev file stat (w, tr)
                 = Returned (w', tr')).
  { rewrite listener_unfold. fold i. rewrite Hrm. exact Hadd. }
  destruct (listener_tracked_ok realname _ _ _ _ _ _ _ Hok Hwired Hrun)
    as (Hok' & Hwired' & _ & Hw').
  exists w', tr'. rewrite Hrm, bind_Returned.
  split; [exact Hadd|]. split_and!; try done.
  - (* the files *)
    rewrite Hf', Hf1. change (name i) with file.
    change (path i) with (path_join (wpath w) file). rewrite <- Hp1.
    rewrite checkFile_static. unfold get. rewrite Hf1, lookup_delete_eq.
    replace (file_static_ok realname w1 file)
      with (file_static_ok realname w file)
      by (unfold file_static_ok; by rewrite Hp1).
    destruct (file_static_ok realname w file) eqn:Hst.
    + rewrite (file_static_not_inherited _ _ _ Hst).
      cbn [truthy negb]. rewrite andb_true_r.
      destruct (isFile i); [|done]. apply insert_delete_eq.
    + rewrite andb_false_l, !andb_false_r. done.
  - (* the directories *)
    rewrite Hd'. change (name i) with file. unfold checkDirectory.
    unfold tracked_dirs, recursive. rewrite Hd1.
    assert (Hex : isDirectory i = true -> isFile i = false).
    { unfold i. destruct stat as [[]|]; done. }
    destruct (directories w) as [d|] eqn:Hd; cbn [fmap option_fmap option_map default].
    + destruct (isDirectory i) eqn:Hisd.
      * rewrite (Hex eq_refl). cbn [negb andb]. unfold get.
        destruct (d !! file) as [dd|] eqn:Hdd.
        -- cbn [truthy negb]. rewrite andb_false_r.
           destruct (dirs_ok _ _ Hok _ _ _ Hd Hdd) as (Hdi & Hdot & Hni).
           rewrite Hdot, Hni. cbn [negb andb]. rewrite insert_id; [done|].
           unfold id. rewrite Hdd. f_equal. rewrite Hdi. symmetry.
           by apply fileInfo_isDirectory.
        -- destruct (inherited file); cbn [truthy negb].
           ++ rewrite !andb_false_r. by rewrite delete_id.
           ++ rewrite !andb_true_r.
              destruct (not_dot_first file); [done|]. by rewrite delete_id.
      * by rewrite andb_false_r.
    + rewrite !andb_false_r. cbn [andb]. by rewrite delete_empty.
Qed.

(** X4.  What a watcher tracks is eligible, in every state it reaches.
    (a) Take any world of callbacks and any sequence of calls of
    [watch], of the listener and of [stop] on a watcher built by the
    constructor, each of them returning or throwing.  In the state
    reached, a tracked file sits under its own name, is the entry of a
    child of the watched directory that is a file, has a name that is
    not hidden and ends in [.js] or [.json], and is not the engine's own
    file; a tracked directory sits under its own name, is the entry of a
    child that is a directory and is not hidden; and only a recursive
    watcher tracks directories.  (b) As long as every call has returned,
    as in the recording world, no name is tracked on both sides and a
    watcher that holds no handle tracks nothing. *)
Theorem reachable_watcher_tracks_eligible :
  (forall (E C : Type) (call : C -> value -> E -> outcome E)
          (fs_watch fs_close : string -> E -> E) (w : RunWatcher.t C),
     reaches_any call fs_watch fs_close realname w ->
     (forall k i, files w !! k = Some i ->
        i = fileInfo (path_join (wpath w) k) k (Some StFile)
        /\ not_dot_first k = true
        /\ endsWith k ".js" || endsWith k ".json" = true
        /\ path i <> realname)
     /\ (forall k i, tracked_dirs w !! k = Some i ->
          i = fileInfo (path_join (wpath w) k) k (Some StDirectory)
          /\ not_dot_first k = true
          /\ recursive w = true))
  /\ (forall w : RunWatcher.t cb,
        reaches realname w ->
        (forall k, is_Some (files w !! k) -> tracked_dirs w !! k = None)
        /\ (watcher w = None -> files w = ∅ /\ tracked_dirs w = ∅)).
Proof.
  split.
  - intros E C call fs_watch fs_close w Hreach.
    destruct (reaches_any_entries call fs_watch fs_close realname w Hreach)
      as [Hf Hd].
    split.
    + intros k i Hi. destruct (Hf k i Hi) as [Hfi Hst].
      unfold file_static_ok in Hst.
      apply andb_true_iff in Hst as [Hst Hne].
      apply andb_true_iff in Hst as [Hdot Hext].
      split_and!; try done.
      rewrite Hfi. simpl. intros Heq. rewrite Heq in Hne.
      by rewrite String.eqb_refl in Hne.
    + intros k i Hi. destruct (Hd k i Hi) as (Hdi & Hdot & _).
      split_and!; try done.
      unfold tracked_dirs, recursive in *.
      destruct (directories w); [done|]. simpl in Hi.
      by rewrite lookup_empty in Hi.
  - intros w Hreach.
    destruct (reaches_tracked_ok realname w Hreach) as (Hok & Hidle & _).
    split.
    + intros k Hk. unfold tracked_dirs.
      destruct (directories w) as [d|] eqn:Hd; [|done]. simpl.
      eapply disjoint_ok; eauto.
    + intros Hnone. by destruct (Hidle Hnone) as (_ & ? & ?).
Qed.

End Reconcile.

Lemma demo_root_reached : reaches demo_realname demo_root.
Proof.
  eapply (reaches_watch demo_realname (RunWatcher.new "/srv" true)
            demo_readdir demo_stat []).
  - apply reaches_new.
  - exact demo_readdir_NoDup.
  - exact demo_root_scanned.
Qed.

Lemma listener_reconciles_entry_witness :
  exists w' tr',
    listener rec_call demo_realname "rename" "a.js" None (demo_root, [])
    = Returned (w', tr')
    /\ files w' = delete "a.js"%string (files demo_root)
    /\ tracked_dirs w' = delete "a.js"%string (tracked_dirs demo_root).
Proof.
  destruct (listener_reconciles_entry demo_realname demo_root "rename" "a.js"
              None [] demo_root_ok demo_root_wired)
    as (w' & tr' & Hrun & Hf & Hd & _).
  exists w', tr'. split; [exact Hrun|]. split; [exact Hf | exact Hd].
Defined.

Lemma demo_root_torn_reached :
  reaches_any demo_remove_fails rec_watch rec_close demo_realname
    demo_root_torn.
Proof.
  apply (reaches_any_stop demo_remove_fails rec_watch rec_close demo_realname
           demo_root []).
  - apply (reaches_any_watch demo_remove_fails rec_watch rec_close
             demo_realname (RunWatcher.new "/srv" true) onAdd onRemove
             demo_readdir demo_stat []).
    + apply reaches_any_new.
    + by vm_compute.
  - by vm_compute.
Qed.

Lemma reachable_watcher_tracks_eligible_witness :
  watcher demo_root_torn = None
  /\ files demo_root_torn !! "a.js"%string = Some demo_file
  /\ path demo_file <> demo_realname
  /\ endsWith "a.js" ".js" || endsWith "a.js" ".json" = true
  /\ tracked_dirs demo_root !! "a.js"%string = None.
Proof.
  destruct (proj1 (reachable_watcher_tracks_eligible demo_realname)
              _ _ demo_remove_fails rec_watch rec_close demo_root_torn
              demo_root_torn_reached) as (Hf & _).
  destruct (Hf "a.js"%string demo_file) as (_ & _ & Hext & Hne);
    [by vm_compute|].
  destruct (proj2 (reachable_watcher_tracks_eligible demo_realname)
              demo_root demo_root_reached) as (Hboth & _).
  split_and!; [reflexivity | by vm_compute | exact Hne | exact Hext |].
  apply Hboth. exists demo_file. by vm_compute.
Defined.

(* ===================================================================== *)
(** ** Registering targets: [add] and the constructor *)
(* ===================================================================== *)

Lemma truthy_get_false {A} (m : gmap string A) k :
  truthy (get m k) = false <-> m !! k = None /\ inherited k = false.
Proof.
  unfold get. destruct (m !! k); [by split; [|intros []]|].
  destruct (inherited k); by split; [|intros []].
Qed.

Section TargetsFacts.

Context (path_resolve : string -> string).
Context (lstat : string -> option Stats).

Implicit Types (s : RunDir.t) (p target : string).

Local Abbreviation add := (RunDir.add path_resolve lstat).

(** When [add] returns, and what it returns then. *)
Lemma add_Returned target s s' :
  add target s = Returned s' <->
  addable lstat (path_resolve target)
  /\ watchers s !! path_resolve target = None
  /\ s' = set_watchers
            (<[path_resolve target
               := RunWatcher.new (path_resolve target) true]> (watchers s))
            (set_targets (targets s ++ [path_resolve target]) s).
Proof.
  unfold RunDir.add, addable.
  destruct (lstat (path_resolve target)) as [[]|] eqn:Hl; simpl;
    try (split; [done | by intros [[? _] _]]).
  destruct (truthy (get (watchers s) (path_resolve target))) eqn:Hg.
  - split; [done|]. intros ([_ Hi] & Hn & _).
    assert (truthy (get (watchers s) (path_resolve target)) = false)
      by by apply truthy_get_false.
    congruence.
  - apply truthy_get_false in Hg as [Hn Hi]. split.
    + intros [= <-]. done.
    + by intros (_ & _ & ->).
Qed.

(** [add] throws without touching anything. *)
Lemma add_Thrown target s x s' :
  add target s = Thrown x s' -> s' = s.
Proof.
  unfold RunDir.add.
  destruct (lstat (path_resolve target)) as [st|]; [|by intros [= _ <-]].
  destruct (negb (stat_isDirectory st)); [by intros [= _ <-]|].
  destruct (truthy (get (watchers s) (path_resolve target)));
    [by intros [= _ <-] | done].
Qed.

Lemma add_constructed target s s' :
  constructed lstat s -> add target s = Returned s' ->
  constructed lstat s'
  /\ targets s' = targets s ++ [path_resolve target]
  /\ path_resolve target ∉ targets s.
Proof.
  intros [Hw Hnd Had Hrest] (Hok & Hnone & ->)%add_Returned.
  assert (Hnew : path_resolve target ∉ targets s).
  { intros Hin. rewrite Hw in Hnone. by rewrite bool_decide_eq_true_2 in Hnone. }
  split_and!; [|done|done]. split; simpl.
  - intros p. destruct (decide (p = path_resolve target)) as [-> | Hne].
    + rewrite lookup_insert_eq, bool_decide_eq_true_2; [done|].
      apply elem_of_app. right. by apply list_elem_of_singleton.
    + rewrite lookup_insert_ne by done. rewrite Hw.
      rewrite (bool_decide_ext (p ∈ targets s ++ [path_resolve target])
                 (p ∈ targets s)); [done|].
      rewrite elem_of_app, list_elem_of_singleton.
      split; [intros [H | H]; [done | by destruct Hne] | by left].
  - apply NoDup_app. split_and!; [done | | apply NoDup_singleton].
    intros p Hp ->%list_elem_of_singleton. done.
  - apply Forall_app. split; [done|]. by apply Forall_singleton.
  - done.
Qed.

Lemma add_loop_Returned ts : forall s s',
  constructed lstat s -> for_of ts add s = Returned s' ->
  constructed lstat s' /\ targets s' = targets s ++ (path_resolve <$> ts).
Proof.
  induction ts as [|t ts IH]; intros s s' Hc.
  - intros [= <-]. by rewrite app_nil_r.
  - rewrite for_of_cons.
    destruct (add t s) as [s1| |] eqn:Ht; [|done|done].
    rewrite bind_Returned. intros Hrest.
    destruct (add_constructed t s s1 Hc Ht) as (Hc1 & Ht1 & _).
    destruct (IH s1 s' Hc1 Hrest) as (Hc' & Ht').
    split; [done|]. rewrite Ht', Ht1, <- app_assoc. done.
Qed.

Lemma add_loop_returns ts : forall s,
  constructed lstat s ->
  NoDup (targets s ++ (path_resolve <$> ts)) ->
  Forall (addable lstat) (path_resolve <$> ts) ->
  exists s', for_of ts add s = Returned s'.
Proof.
  induction ts as [|t ts IH]; intros s Hc Hnd Hall; [by exists s|].
  rewrite fmap_cons in Hnd, Hall.
  apply Forall_cons in Hall as [Ht Hall].
  assert (Hnew : path_resolve t ∉ targets s).
  { apply NoDup_app in Hnd as (_ & Hdis & _). intros Hin.
    apply (Hdis _ Hin). by left. }
  assert (Hrun : add t s
                 = Returned
                     (set_watchers
                        (<[path_resolve t
                           := RunWatcher.new (path_resolve t) true]>
                           (watchers s))
                        (set_targets (targets s ++ [path_resolve t]) s))).
  { apply add_Returned. split_and!; [done | | done].
    rewrite (con_watchers _ _ Hc). by rewrite bool_decide_eq_false_2. }
  rewrite for_of_cons, Hrun, bind_Returned.
  destruct (add_constructed t s _ Hc Hrun) as (Hc1 & Ht1 & _).
  apply IH; [done | | done].
  rewrite Ht1, <- app_assoc. exact Hnd.
Qed.

Lemma init_constructed : constructed lstat init.
Proof.
  split; simpl.
  - intros p. by rewrite lookup_empty.
  - apply NoDup_nil_2.
  - apply Forall_nil_2.
  - done.
Qed.

(** X5.  [add] resolves its argument, and on a directory that is not
    registered yet it appends the resolved path to the targets, registers
    a fresh recursive watcher for it and touches nothing else; from then
    on, adding any spelling of the same directory throws "Already
    watching" and changes nothing. *)
Theorem add_registers_once target s :
  lstat (path_resolve target) = Some StDirectory ->
  truthy (get (watchers s) (path_resolve target)) = false ->
  exists s',
    add target s = Returned s'
    /\ targets s' = targets s ++ [path_resolve target]
    /\ watchers s'
       = <[path_resolve target := RunWatcher.new (path_resolve target) true]>
           (watchers s)
    /\ queue s' = queue s /\ handlers s' = handlers s
    /\ batches s' = batches s /\ cache s' = cache s /\ log s' = log s
    /\ forall target',
         path_resolve target' = path_resolve target ->
         add target' s'
         = Thrown (Error ("Already watching: " ++ path_resolve target)%string)
             s'.
Proof.
  intros Hl Hg. eexists. split.
  - unfold RunDir.add. rewrite Hl. simpl. rewrite Hg. reflexivity.
  - split_and!; try done.
    intros target' Heq. unfold RunDir.add. rewrite Heq, Hl. simpl.
    unfold get. by rewrite lookup_insert_eq.
Qed.

(** X6.  The constructor returns exactly when the resolved targets are
    pairwise distinct directories (none named like a key of
    [Object.prototype]); the engine it returns has these paths as its
    targets, in the order given, a fresh recursive watcher for each of
    them and for nothing else, and nothing queued, registered, cached or
    logged. *)
Theorem constructor_registers_targets a :
  ((exists s, RunDir.new path_resolve lstat a = Returned s)
   <-> NoDup (path_resolve <$> targets_of a)
       /\ Forall (addable lstat) (path_resolve <$> targets_of a))
  /\ forall s, RunDir.new path_resolve lstat a = Returned s ->
       targets s = path_resolve <$> targets_of a
       /\ constructed lstat s.
Proof.
  assert (Hret : forall s, RunDir.new path_resolve lstat a = Returned s ->
            targets s = path_resolve <$> targets_of a
            /\ constructed lstat s).
  { intros s Hrun.
    destruct (add_loop_Returned (targets_of a) init s init_constructed)
      as (Hc & Ht); [by destruct a|].
    by split. }
  split; [|exact Hret]. split.
  - intros [s Hrun]. destruct (Hret s Hrun) as (Ht & Hc).
    rewrite <- Ht. split; [apply Hc | apply Hc].
  - intros [Hnd Hall].
    destruct (add_loop_returns (targets_of a) init init_constructed Hnd Hall)
      as [s Hs].
    exists s. by destruct a.
Qed.

End TargetsFacts.

Lemma add_registers_once_witness :
  exists s',
    RunDir.add demo_resolve demo_lstat "srv" init = Returned s'
    /\ targets s' = ["/srv"%string]
    /\ RunDir.add demo_resolve demo_lstat "/srv" s'
       = Thrown (Error "Already watching: /srv") s'.
Proof.
  destruct (add_registers_once demo_resolve demo_lstat "srv" init
              eq_refl eq_refl)
    as (s' & Hrun & Ht & _ & _ & _ & _ & _ & _ & Hagain).
  exists s'. split; [exact Hrun|]. split; [exact Ht|].
  exact (Hagain "/srv"%string eq_refl).
Defined.

Lemma constructor_registers_targets_witness :
  exists s,
    RunDir.new demo_resolve demo_lstat (OneTarget "srv") = Returned s
    /\ targets s = ["/srv"%string]
    /\ watchers s !! "/srv"%string = Some (RunWatcher.new "/srv" true).
Proof.
  destruct (constructor_registers_targets demo_resolve demo_lstat
              (OneTarget "srv")) as [[_ Hex] Hret].
  destruct Hex as [s Hs].
  - split.
    + apply NoDup_singleton.
    + apply Forall_singleton. by split.
  - exists s. destruct (Hret s Hs) as (Ht & Hc).
    split; [exact Hs|]. split; [exact Ht|].
    rewrite (con_watchers _ _ Hc), Ht. reflexivity.
Defined.

(* ===================================================================== *)
(** ** Loading, unloading and reloading a module *)
(* ===================================================================== *)

Section NotifyAll.

Implicit Types (s : RunDir.t) (l : list notification).

Lemma notify_set_cache ev args c s :
  notify ev args (set_cache c s) = set_cache c (notify ev args s).
Proof.
  unfold notify. simpl.
  destruct (length (queue s ++ [length (batches s)]) =? 1)%nat; [|done].
  unfold resolve, phase_of. simpl.
  by destruct (b_phase <$> (batches s ++ _) !! length (batches s))
    as [[]|].
Qed.

Lemma notify_all_set_cache l c : forall s,
  notify_all l (set_cache c s) = set_cache c (notify_all l s).
Proof.
  induction l as [|n l IH]; intros s; [done|].
  unfold notify_all in *. simpl. by rewrite notify_set_cache, IH.
Qed.

Lemma notify_all_app l1 l2 s :
  notify_all (l1 ++ l2) s = notify_all l2 (notify_all l1 s).
Proof. unfold notify_all. by rewrite foldl_app. Qed.

Lemma notify_all_frame l : forall s,
  cache (notify_all l s) = cache s
  /\ watchers (notify_all l s) = watchers s
  /\ targets (notify_all l s) = targets s
  /\ handlers (notify_all l s) = handlers s
  /\ log (notify_all l s) = log s.
Proof.
  induction l as [|n l IH]; intros s; [done|].
  change (notify_all (n :: l) s) with (notify_all l (notify n.1 n.2 s)).
  destruct (IH (notify n.1 n.2 s)) as (-> & -> & -> & -> & ->).
  unfold notify. simpl.
  destruct (length (queue s ++ [length (batches s)]) =? 1)%nat; [|done].
  unfold resolve, phase_of. simpl.
  by destruct (b_phase <$> (batches s ++ _) !! length (batches s))
    as [[]|].
Qed.

Lemma set_cache_back c s : set_cache (cache s) (set_cache c s) = s.
Proof. by destruct s. Qed.

End NotifyAll.

Section Reload.

Context (loader : string -> loaded).
Context (realpath : string -> string).
Context (readdir : string -> list string).
Context (stat : string -> option Stats).
Context (realname : string).

Implicit Types (s : RunDir.t) (i : info) (w : RunWatcher.t closure).
Implicit Types (x : exports).

Local Abbreviation call := (call_closure loader realpath readdir stat realname).

(** The adder on a file whose module has hooks that can be read. *)
Lemma adder_announces self i s x s1 :
  isFile i = true -> require loader realpath (path i) s = (LoadOk x, s1) ->
  null_hooks x = false ->
  adder_body loader realpath readdir stat realname self (VInfo i) s
  = Returned (notify_all (announce_load (path i) x) s1).
Proof.
  intros Hfile Hreq Hnull. unfold adder_body. rewrite Hfile, Hreq.
  by destruct x as [| |id [| |[h|] u]].
Qed.

(** The remover on a file whose module is cached. *)
Lemma remover_announces self i s x :
  isFile i = true -> cache s !! path i = Some x -> inspectable x = true ->
  remover_body self (VInfo i) s
  = Returned (notify_all (announce_unload (path i) x)
                (set_cache (delete (path i) (cache s)) s)).
Proof.
  intros Hfile Hc Hx. unfold remover_body. rewrite Hfile, Hc.
  by destruct x as [| |id [| |l [h|]]].
Qed.


Lemma set_watchers_back s : set_watchers (watchers s) s = s.
Proof. by destruct s. Qed.

Lemma set_cache_twice c1 c2 s :
  set_cache c2 (set_cache c1 s) = set_cache c2 s.
Proof. done. Qed.

(** The listener of a watcher that tracks [file] as a file, up to the
    call of the remover. *)
Lemma deliver_tracked n p w h ev file st f s :
  watchers s !! p = Some w -> watcher w = Some h ->
  tracked_ok realname w -> removed w = Some remover ->
  files w !! file = Some f ->
  deliver loader realpath readdir stat realname (S n) p ev file st s
  = lift (fun '(w', s') => set_watchers (<[p := w']> (watchers s')) s')
      (bind
         (lift (fun e' => (set_files (delete file (files w)) w, e'))
            (remover_body (call n) (VInfo f) s))
         (let i := fileInfo (path_join (wpath w) file) file st in
          if isFile i then fileAdded (call (S n)) realname i
          else if isDirectory i then directoryAdded (call (S n)) i
          else skip)).
Proof.
  intros Hw Hh Hok Hr Hf. unfold deliver. rewrite Hw, Hh.
  unfold with_watcher, listener.
  destruct (files_ok _ _ Hok _ _ Hf) as [Hfi _].
  assert (Hname : name f = file) by by rewrite Hfi.
  rewrite (get_Some _ _ _ Hf). simpl truthy. cbv iota. simpl to_value.
  unfold fileRemoved. simpl value_name. cbv iota beta.
  unfold invoke. simpl removed. rewrite Hr, Hname. reflexivity.
Qed.

(** X8.  A file that changes is reloaded, unless it is reached through a
    symbolic link.  Take a watcher registered at [p] that is watching
    with the closures of [#run] and tracks [file], and a native
    notification for [file] while the entry is still a file.  (a) When
    the path of the entry is its own real path, its module is cached with
    exports [x] that the remover can inspect, and loading it now yields
    [x'] whose hooks can be read, the notification returns and leaves the
    watcher as it was; the cache holds [x'] for the path; and the engine
    has enqueued, in this order, [unload] with the old exports, the old
    [onUnload] hook if any, the new [onLoad] hook if any, and [load] with
    the new exports.  (b) When the real path of the entry is another
    path, under which its module is cached with exports [x] whose hooks
    can be read, and nothing is cached under the path of the entry, the
    notification returns and leaves watcher and cache as they were: no
    [unload] is enqueued, the file is not loaded again, and the [onLoad]
    hook and [load] are enqueued once more with the exports [x] loaded
    before the change. *)
Theorem modified_file_is_reloaded n p w h ev file f s :
  watchers s !! p = Some w -> watcher w = Some h ->
  tracked_ok realname w ->
  added w = Some adder -> removed w = Some remover ->
  files w !! file = Some f ->
  (forall x x',
     realpath (path f) = path f ->
     cache s !! path f = Some x -> inspectable x = true ->
     loader (path f) = LoadOk x' -> null_hooks x' = false ->
     deliver loader realpath readdir stat realname (S n) p ev file
       (Some StFile) s
     = Returned
         (notify_all
            (announce_unload (path f) x ++ announce_load (path f) x')
            (set_cache (<[path f := x']> (cache s)) s)))
  /\ (forall x,
        realpath (path f) <> path f ->
        cache s !! path f = None ->
        cache s !! realpath (path f) = Some x -> null_hooks x = false ->
        deliver loader realpath readdir stat realname (S n) p ev file
          (Some StFile) s
        = Returned (notify_all (announce_load (path f) x) s)).
Proof.
  intros Hw Hh Hok Ha Hr Hf.
  destruct (files_ok _ _ Hok _ _ Hf) as [Hfi Hst].
  assert (Hfile : isFile f = true) by by rewrite Hfi.
  set (w1 := set_files (delete file (files w)) w).
  assert (Hchk : checkFile realname w1 (path f) (name f) = true).
  { rewrite Hfi. simpl path. simpl name. unfold checkFile, get.
    simpl files. rewrite lookup_delete_eq.
    rewrite (file_static_not_inherited _ _ _ Hst).
    unfold file_static_ok in Hst. by rewrite Hst. }
  assert (Hw' : set_files (<[name f := f]> (files w1)) w1 = w).
  { unfold w1. simpl. rewrite Hfi at 1. simpl name.
    rewrite insert_delete_eq, insert_id by done. by destruct w. }
  split.
  - intros x x' Hreal Hc Hx Hl Hx'.
    rewrite (deliver_tracked n p w h ev file (Some StFile) f s) by done.
    rewrite (remover_announces _ f s x) by done.
    rewrite lift_Returned, bind_Returned.
    set (s2 := notify_all (announce_unload (path f) x)
                 (set_cache (delete (path f) (cache s)) s)).
    fold w1. cbv zeta. rewrite <- Hfi. rewrite Hfile.
    unfold fileAdded. rewrite Hchk. simpl negb. cbv iota.
    unfold invoke. simpl added. rewrite Ha.
    change (call (S n) adder (VInfo f) s2)
      with (adder_body loader realpath readdir stat realname (call n)
              (VInfo f) s2).
    assert (Hc2 : cache s2 = delete (path f) (cache s)).
    { unfold s2. by rewrite (proj1 (notify_all_frame _ _)). }
    rewrite (adder_announces _ f s2 x'
               (set_cache (<[path f := x']> (cache s2)) s2)); [|done| |done].
    2:{ unfold require. cbv zeta.
        by rewrite Hreal, Hc2, lookup_delete_eq, Hl. }
    rewrite !lift_Returned. f_equal.
    set (sF := notify_all (announce_load (path f) x')
                 (set_cache (<[path f := x']> (cache s2)) s2)).
    assert (HwF : watchers sF = watchers s).
    { unfold sF. rewrite (proj1 (proj2 (notify_all_frame _ _))). simpl.
      unfold s2. by rewrite (proj1 (proj2 (notify_all_frame _ _))). }
    rewrite Hw', HwF, (insert_id _ _ _ Hw), <- HwF, set_watchers_back.
    unfold sF. rewrite Hc2, insert_delete_eq. unfold s2.
    rewrite <- notify_all_set_cache, set_cache_twice.
    by rewrite notify_all_app.
  - intros x Hlink Hnone Hc Hx.
    rewrite (deliver_tracked n p w h ev file (Some StFile) f s) by done.
    assert (Hrem : remover_body (call n) (VInfo f) s = Returned s)
      by (unfold remover_body; by rewrite Hfile, Hnone).
    rewrite Hrem, lift_Returned, bind_Returned.
    fold w1. cbv zeta. rewrite <- Hfi. rewrite Hfile.
    unfold fileAdded. rewrite Hchk. simpl negb. cbv iota.
    unfold invoke. simpl added. rewrite Ha.
    change (call (S n) adder (VInfo f) s)
      with (adder_body loader realpath readdir stat realname (call n)
              (VInfo f) s).
    rewrite (adder_announces _ f s x s); [|done| |done].
    2:{ unfold require. cbv zeta. by rewrite Hc. }
    rewrite !lift_Returned. f_equal.
    set (sF := notify_all (announce_load (path f) x) s).
    assert (HwF : watchers sF = watchers s)
      by (unfold sF; by rewrite (proj1 (proj2 (notify_all_frame _ _)))).
    by rewrite Hw', HwF, (insert_id _ _ _ Hw), <- HwF, set_watchers_back.
Qed.

(** X9.  A module whose hooks cannot be read is dropped at its first
    change.  (a) When [exports.jsrundir] is [null], the adder caches the
    module and reports the [TypeError] of reading [onLoad]; no [load]
    notification is enqueued.  (b) When the watcher registered at [p]
    tracks [file] and its cached exports are [null] or [undefined], or
    have [jsrundir] set to [null], a native notification for [file]
    throws, whatever the entry is now: the module has left the cache,
    [unload] is enqueued with its exports, the watcher no longer tracks
    [file], and nothing is loaded in its place. *)
Theorem unreadable_hooks_drop_module :
  (forall n i s x,
     isFile i = true -> cache s !! realpath (path i) = None ->
     loader (realpath (path i)) = LoadOk x -> null_hooks x = true ->
     call (S n) adder (VInfo i) s
     = Returned (emit [Reported null_read]
                   (set_cache (<[realpath (path i) := x]> (cache s)) s)))
  /\ (forall n p w h ev file st f x s,
        watchers s !! p = Some w -> watcher w = Some h ->
        tracked_ok realname w -> removed w = Some remover ->
        files w !! file = Some f ->
        cache s !! path f = Some x -> inspectable x = false ->
        exists e,
          deliver loader realpath readdir stat realname (S n) p ev file st s
          = Thrown e
              (set_watchers
                 (<[p := set_files (delete file (files w)) w]> (watchers s))
                 (notify (Named "unload") [APath (path f); AExports x]
                    (set_cache (delete (path f) (cache s)) s)))).
Proof.
  split.
  - intros n i s x Hfile Hc Hl Hx.
    change (call (S n) adder (VInfo i) s)
      with (adder_body loader realpath readdir stat realname (call n) (VInfo i) s).
    unfold adder_body, require. cbv zeta. rewrite Hfile, Hc, Hl.
    by destruct x as [| |id [| |]].
  - intros n p w h ev file st f x s Hw Hh Hok Hr Hf Hc Hx.
    rewrite (deliver_tracked n p w h ev file st f s) by done.
    destruct (files_ok _ _ Hok _ _ Hf) as [Hfi _].
    assert (Hfile : isFile f = true) by by rewrite Hfi.
    unfold remover_body. rewrite Hfile, Hc.
    set (s2 := notify (Named "unload") [APath (path f); AExports x]
                 (set_cache (delete (path f) (cache s)) s)).
    assert (Hw2 : watchers s2 = watchers s)
      by (unfold s2; by rewrite (proj1 (notify_effect _ _ _))).
    destruct x as [| |id [| |l u]]; try done;
      rewrite lift_Thrown, bind_Thrown, lift_Thrown;
      eexists; by rewrite Hw2.
Qed.

End Reload.


Lemma demo_engine_root_ok : tracked_ok demo_realname demo_engine_root.
Proof.
  split.
  - intros k i H. simpl in H.
    apply lookup_singleton_Some in H as [<- <-]. by vm_compute.
  - intros d k i [= <-] H. by rewrite lookup_empty in H.
  - intros d k [= <-] _. apply lookup_empty.
Qed.

Lemma demo_engine_link_ok : tracked_ok demo_realname demo_engine_link.
Proof.
  split.
  - intros k i H. simpl in H.
    apply lookup_singleton_Some in H as [<- <-]. by vm_compute.
  - by intros d k i [=].
  - by intros d k [=].
Qed.

Lemma modified_file_is_reloaded_witness :
  deliver demo_loader demo_realpath demo_fs_readdir demo_fs_stat demo_realname
    1 "/srv" "change" "a.js" (Some StFile) demo_engine
  = Returned
      (notify (Named "load") [APath "/srv/a.js"; AExports demo_exports]
         (notify (Named "unload") [APath "/srv/a.js"; AExports demo_exports]
            (set_cache (<["/srv/a.js"%string := demo_exports]>
                          (cache demo_engine)) demo_engine)))
  /\ deliver demo_loader demo_realpath demo_fs_readdir demo_fs_stat
       demo_realname 1 "/srv/current" "change" "x.js" (Some StFile)
       demo_engine_linked
     = Returned
         (notify (Named "load") [APath "/srv/current/x.js"; AExports demo_exports]
            demo_engine_linked).
Proof.
  split.
  - exact (proj1 (modified_file_is_reloaded demo_loader demo_realpath
                    demo_fs_readdir demo_fs_stat demo_realname 0 "/srv"
                    demo_engine_root "/srv/." "change" "a.js" demo_file
                    demo_engine eq_refl eq_refl demo_engine_root_ok eq_refl
                    eq_refl eq_refl)
             demo_exports demo_exports eq_refl eq_refl eq_refl eq_refl
             eq_refl).
  - apply (proj2 (modified_file_is_reloaded demo_loader demo_realpath
                    demo_fs_readdir demo_fs_stat demo_realname 0
                    "/srv/current" demo_engine_link "/srv/current/." "change"
                    "x.js" demo_linked_file demo_engine_linked eq_refl eq_refl
                    demo_engine_link_ok eq_refl eq_refl eq_refl)
             demo_exports); [by vm_compute | reflexivity..].
Defined.

Lemma unreadable_hooks_drop_module_witness :
  exists e s',
    deliver demo_loader demo_realpath demo_fs_readdir demo_fs_stat demo_realname 1
      "/srv" "change" "a.js" (Some StFile) demo_engine_null
    = Thrown e s'
    /\ cache s' = ∅
    /\ (files <$> watchers s' !! "/srv"%string) = Some ∅.
Proof.
  destruct (proj2 (unreadable_hooks_drop_module demo_loader demo_realpath demo_fs_readdir
                     demo_fs_stat demo_realname)
              0 "/srv"%string demo_engine_root "/srv/."%string
              "change"%string "a.js"%string (Some StFile) demo_file
              demo_null_exports demo_engine_null
              eq_refl eq_refl demo_engine_root_ok eq_refl eq_refl eq_refl
              eq_refl)
    as [e He].
  eexists e, _. split; [exact He|]. split; by vm_compute.
Defined.

(* ===================================================================== *)
(** ** What the operations of the engine keep *)
(* ===================================================================== *)

Section SafeMethods.

Context {E C : Type}.
Context (call : C -> value -> E -> outcome E).
Context (fs_watch fs_close : string -> E -> E).
Context (realname : string).
Context (Q : string -> Prop) (P : E -> Prop).

Hypothesis HQ : forall p, p <> realname -> Q p.
Hypothesis Hcall :
  forall c v e, P e -> carries Q v -> outcome_holds P (call c v e).
Hypothesis Hopen : forall h e, P e -> P (fs_watch h e).
Hypothesis Hclose : forall h e, P e -> P (fs_close h e).

Implicit Types (w : RunWatcher.t C) (e : E).

Lemma all_wired w : wired_by (fun _ : C => True) (fun _ => True) w.
Proof. split; by intros. Qed.

Lemma kept_safe w0 st : kept Q P w0 st -> safe_state Q P st.
Proof. by intros (_ & ? & ?). Qed.

Lemma watch_safe add remove readdir stat w e :
  tracks_only Q w -> P e ->
  outcome_holds (safe_state Q P)
    (watch call fs_watch realname add remove readdir stat (w, e)).
Proof.
  intros Ht Hp. destruct (watcher w) as [h|] eqn:Hw.
  - unfold watch. rewrite Hw. by split.
  - eapply outcome_holds_impl; [apply kept_safe|].
    apply (watch_kept call fs_watch realname Q P (fun _ => True)
             (fun _ => True)); try done; intros; by apply Hcall.
Qed.

Lemma stop_safe w e :
  tracks_only Q w -> P e ->
  outcome_holds (safe_state Q P) (RunWatcher.stop call fs_close (w, e)).
Proof.
  intros Ht Hp. destruct (watcher w) as [h|] eqn:Hw.
  - eapply outcome_holds_impl; [apply kept_safe|].
    apply (stop_kept call fs_close Q P (fun _ => True) (fun _ => True))
      with h; try done; try apply all_wired; intros; by apply Hcall.
  - unfold RunWatcher.stop. rewrite Hw. by split.
Qed.

Lemma listener_safe ev file stat w e :
  tracks_only Q w -> P e ->
  outcome_holds (safe_state Q P) (listener call realname ev file stat (w, e)).
Proof.
  intros Ht Hp. eapply outcome_holds_impl; [apply kept_safe|].
  apply (listener_kept call realname Q P (fun _ => True) (fun _ => True));
    try done; try apply all_wired; intros; by apply Hcall.
Qed.

End SafeMethods.

Section EngineFrame.

Context (loader : string -> loaded).
Context (realpath : string -> string).
Context (readdir : string -> list string).
Context (stat : string -> option Stats).
Context (realname : string).
Context (Q : string -> Prop) (P0 : RunDir.t -> Prop).

Hypothesis HQ : forall p, p <> realname -> Q p.
Hypothesis Hwatchers : forall ws s, P0 s -> P0 (set_watchers ws s).
Hypothesis Hnotify_path :
  forall k p x s, P0 s -> Q p ->
    P0 (notify (Named k) [APath p; AExports x] s).
Hypothesis Hnotify_hook : forall h s, P0 s -> P0 (notify (Fn h) [] s).
Hypothesis Hload :
  forall p x s, P0 s -> Q p -> cache s !! realpath p = None ->
    P0 (set_cache (<[realpath p := x]> (cache s)) s).
Hypothesis Hevict :
  forall p s, P0 s -> Q p -> P0 (set_cache (delete p (cache s)) s).
Hypothesis Hemit :
  forall o s, P0 s -> is_life o = false -> P0 (emit [o] s).

Implicit Types (s : RunDir.t) (i : info) (w : RunWatcher.t closure).

Local Abbreviation call := (call_closure loader realpath readdir stat realname).
Local Abbreviation EP := (engine_kept Q P0).

Lemma engine_kept_same_watchers s s' :
  engine_tracks Q s -> watchers s' = watchers s -> P0 s' -> EP s'.
Proof. intros Ht Hw Hp. split; [done|]. intros p w. rewrite Hw. apply Ht. Qed.

Lemma engine_kept_notify_path k p x s :
  EP s -> Q p -> EP (notify (Named k) [APath p; AExports x] s).
Proof.
  intros [Hp Ht] Hq. apply (engine_kept_same_watchers s); [done| |by apply Hnotify_path].
  apply notify_effect.
Qed.

Lemma engine_kept_notify_hook h s : EP s -> EP (notify (Fn h) [] s).
Proof.
  intros [Hp Ht]. apply (engine_kept_same_watchers s); [done| |by apply Hnotify_hook].
  apply notify_effect.
Qed.

Lemma engine_kept_emit o s : EP s -> is_life o = false -> EP (emit [o] s).
Proof.
  intros [Hp Ht] Ho. apply (engine_kept_same_watchers s); [done|done|by apply Hemit].
Qed.

Lemma engine_kept_register p w s :
  EP s -> tracks_only Q w -> EP (set_watchers (<[p := w]> (watchers s)) s).
Proof.
  intros [Hp Ht] Hw. split; [by apply Hwatchers|].
  intros p' w'. simpl. intros [[_ <-] | [_ Hold]]%lookup_insert_Some; [done|].
  by apply (Ht p').
Qed.

Lemma engine_kept_unregister p s :
  EP s -> EP (set_watchers (delete p (watchers s)) s).
Proof.
  intros [Hp Ht]. split; [by apply Hwatchers|].
  intros p' w'. simpl. intros [_ Hold]%lookup_delete_Some. by apply (Ht p').
Qed.

Lemma engine_kept_require p s r s1 :
  EP s -> Q p -> require loader realpath p s = (r, s1) -> EP s1.
Proof.
  intros [Hp Ht] Hq. unfold require. cbv zeta.
  destruct (cache s !! realpath p) eqn:Hc; [by intros [= _ <-]|].
  destruct (loader (realpath p)); intros [= _ <-]; [|done].
  apply (engine_kept_same_watchers s); [done | done | by apply Hload].
Qed.

(** A method of a registered watcher, with the write back. *)
Lemma with_watcher_kept p w m s :
  outcome_holds (safe_state Q EP) (m (w, s)) ->
  outcome_holds EP (with_watcher p w m s).
Proof.
  intros Hm. unfold with_watcher.
  apply (outcome_holds_lift (safe_state Q EP)); [done|].
  intros [w' s'] [Hw' Hs']. by apply engine_kept_register.
Qed.

Lemma get_Own {A} (m : gmap string A) k a : get m k = Own a -> m !! k = Some a.
Proof.
  unfold get. destruct (m !! k); [by intros [= <-]|].
  by destruct (inherited k).
Qed.

Lemma tracks_only_new p b : tracks_only Q (RunWatcher.new (C := closure) p b).
Proof.
  split.
  - intros k f Hf. simpl in Hf. by rewrite lookup_empty in Hf.
  - intros k f. unfold tracked_dirs. simpl.
    destruct b; simpl; intros Hf; by rewrite lookup_empty in Hf.
Qed.

(** The closures keep [EP], at any depth. *)
Lemma call_closure_kept n : forall c v s,
  EP s -> carries Q v -> outcome_holds EP (call n c v s).
Proof.
  induction n as [|n IH]; intros c v s Hs Hv; [done|].
  assert (Hopen : forall h s0, EP s0 -> EP (emit [Opened h] s0))
    by (intros; by apply engine_kept_emit).
  assert (Hclose : forall h s0, EP s0 -> EP (emit [Closed h] s0))
    by (intros; by apply engine_kept_emit).
  destruct c.
  - change (call (S n) adder v s)
      with (adder_body loader realpath readdir stat realname (call n) v s).
    unfold adder_body. destruct v as [i| |]; [|done|done].
    destruct (isFile i) eqn:Hfile.
    + assert (Hq : Q (path i)) by by apply (Hv i).
      destruct (require loader realpath (path i) s) as [r s1] eqn:Hreq.
      assert (Hs1 : EP s1) by by eapply engine_kept_require.
      destruct r as [x|e]; [|by apply engine_kept_emit].
      destruct x as [| |id [| |[h|] u]]; simpl;
        try (by apply engine_kept_notify_path);
        [by apply engine_kept_emit|].
      apply engine_kept_notify_path; [|done].
      by apply engine_kept_notify_hook.
    + destruct (isDirectory i && negb (truthy (get (watchers s) (path i))));
        [|done].
      apply with_watcher_kept.
      apply (watch_safe (call n) (fun h => emit [Opened h]) realname Q EP);
        try done; try apply tracks_only_new.
      apply engine_kept_register; [done | apply tracks_only_new].
  - change (call (S n) remover v s) with (remover_body (call n) v s).
    unfold remover_body. destruct v as [i| |]; [|done|done].
    destruct (isFile i) eqn:Hfile.
    + assert (Hq : Q (path i)) by by apply (Hv i).
      destruct (cache s !! path i) as [x|] eqn:Hc; [|done].
      set (s1 := set_cache (delete (path i) (cache s)) s).
      assert (Hs1 : EP s1).
      { destruct Hs as [Hp Ht].
        apply (engine_kept_same_watchers s); [done | done | by apply Hevict]. }
      assert (Hs2 : EP (notify (Named "unload")
                          [APath (path i); AExports x] s1))
        by by apply engine_kept_notify_path.
      destruct x as [| |id [| |l [h|]]]; simpl; try done.
      by apply engine_kept_notify_hook.
    + destruct (isDirectory i); [|done].
      destruct (get (watchers s) (path i)) as [w| |] eqn:Hg; [|done|done].
      apply get_Own in Hg.
      assert (Hrun : outcome_holds EP
                (with_watcher (path i) w
                   (RunWatcher.stop (call n) (fun h => emit [Closed h])) s)).
      { apply with_watcher_kept.
        apply (stop_safe (call n) (fun h => emit [Closed h]) Q EP);
          try done.
        by apply (proj2 Hs (path i)). }
      destruct (with_watcher (path i) w
                  (RunWatcher.stop (call n) (fun h => emit [Closed h])) s)
        as [s1|e s1|]; [|done|done].
      simpl in Hrun |- *. destruct (directories w); [done|].
      by apply engine_kept_unregister.
Qed.

Lemma closures_safe n :
  forall c v s, EP s -> carries Q v -> outcome_holds EP (call n c v s).
Proof. apply call_closure_kept. Qed.

Lemma run_target_kept n target s :
  EP s -> outcome_holds EP (run_target loader realpath readdir stat realname n target s).
Proof.
  intros Hs. unfold run_target.
  destruct (get (watchers s) target) as [w| |] eqn:Hg; [|done|done].
  apply get_Own in Hg. destruct (directories w); [|done].
  apply with_watcher_kept.
  apply (watch_safe (call n) (fun h => emit [Opened h]) realname Q EP);
    try done; try apply closures_safe.
  - intros h s0 Hs0. by apply engine_kept_emit.
  - by apply (proj2 Hs target).
Qed.

Lemma stop_target_kept n target s :
  EP s ->
  outcome_holds EP (stop_target loader realpath readdir stat realname n target s).
Proof.
  intros Hs. unfold stop_target.
  destruct (get (watchers s) target) as [w| |] eqn:Hg; [|done|done].
  apply get_Own in Hg. destruct (directories w); [|done].
  apply with_watcher_kept.
  apply (stop_safe (call n) (fun h => emit [Closed h]) Q EP);
    try done; try apply closures_safe.
  - intros h s0 Hs0. by apply engine_kept_emit.
  - by apply (proj2 Hs target).
Qed.

Lemma deliver_kept n p ev file st s :
  EP s ->
  outcome_holds EP (deliver loader realpath readdir stat realname n p ev file st s).
Proof.
  intros Hs. unfold deliver.
  destruct (watchers s !! p) as [w|] eqn:Hw; [|done].
  destruct (watcher w); [|done].
  apply with_watcher_kept.
  apply (listener_safe (call n) realname Q EP);
    try done; try apply closures_safe.
  by apply (proj2 Hs p).
Qed.

Lemma run_kept n s :
  EP s -> outcome_holds EP (run loader realpath readdir stat realname n s).
Proof.
  intros Hs. unfold run. apply for_of_holds; [done|].
  intros t s0 _ Hs0. by apply run_target_kept.
Qed.

Lemma stop_engine_kept n s :
  EP (set_targets (reverse (targets s)) s) ->
  outcome_holds EP (RunDir.stop loader realpath readdir stat realname n s).
Proof.
  intros Hs. unfold RunDir.stop. apply for_of_holds; [done|].
  intros t s0 _ Hs0. by apply stop_target_kept.
Qed.

End EngineFrame.

(* ===================================================================== *)
(** ** The engine only enqueues, never touches the registry, and never
       loads itself *)
(* ===================================================================== *)

Lemma queue_inv_quiet m s (o : obs) :
  queue_inv m s -> is_life o = false -> queue_inv m (emit [o] s).
Proof.
  intros [H1 H2 H3 H4 H5 H6] Ho. split; try done.
  change (log (emit [o] s)) with (log s ++ [o]).
  change (phase_of (emit [o] s) m) with (phase_of s m).
  assert (Hq : lifecycle [o] = []).
  { unfold lifecycle. rewrite filter_cons_False; [done|].
    rewrite Ho. by intros ?. }
  rewrite lifecycle_app, H6, Hq. by rewrite app_nil_r.
Qed.

Lemma engine_tracks_anything s : engine_tracks (fun _ => True) s.
Proof. intros p w _. split; by intros. Qed.

Section Enqueued.

Implicit Types (s : RunDir.t).

Lemma notify_enqueues ev args s :
  exists p,
    batches (notify ev args s)
    = batches s ++ [{| b_event := ev; b_args := args; b_phase := p |}]
    /\ (p = Waiting \/ p = Ready)
    /\ queue (notify ev args s) = queue s ++ [length (batches s)]
    /\ log (notify ev args s) = log s.
Proof.
  unfold notify. simpl.
  destruct (length (queue s ++ [length (batches s)]) =? 1)%nat.
  - unfold resolve, phase_of. simpl.
    rewrite list_lookup_middle by done. simpl.
    exists Ready. split_and!; try done; [|by right].
    unfold put_phase. simpl.
    replace (length (batches s)) with (length (batches s) + 0) at 1 by lia.
    by rewrite alter_app_r.
  - exists Waiting. split_and!; try done. by left.
Qed.

Lemma enqueued_refl s : enqueued s s.
Proof.
  exists []. rewrite !app_nil_r. split_and!; try done.
Qed.

Lemma enqueued_ext s s0 s1 :
  batches s1 = batches s0 -> queue s1 = queue s0 ->
  lifecycle (log s1) = lifecycle (log s0) ->
  enqueued s s0 -> enqueued s s1.
Proof.
  intros Hb Hq Hl (new & H1 & H2 & H3 & H4). exists new.
  rewrite Hb, Hq, Hl. by split_and!.
Qed.

Lemma enqueued_notify s s0 ev args :
  enqueued s s0 -> enqueued s (notify ev args s0).
Proof.
  intros (new & H1 & H2 & H3 & H4).
  destruct (notify_enqueues ev args s0) as (p & Hb & Hp & Hq & Hl).
  exists (new ++ [{| b_event := ev; b_args := args; b_phase := p |}]).
  split_and!.
  - by rewrite Hb, H1, app_assoc.
  - apply Forall_app. split; [done|]. by apply Forall_singleton.
  - rewrite Hq, H3, H1, !length_app. simpl.
    rewrite seq_app, <- app_assoc. simpl. done.
  - by rewrite Hl.
Qed.

Lemma enqueued_quiet s s0 (o : obs) :
  is_life o = false -> enqueued s s0 -> enqueued s (emit [o] s0).
Proof.
  intros Ho. apply enqueued_ext; try done.
  change (log (emit [o] s0)) with (log s0 ++ [o]).
  rewrite lifecycle_app. unfold lifecycle at 2.
  rewrite filter_cons_False by (rewrite Ho; by intros ?).
  by rewrite app_nil_r.
Qed.

(** What the closures do to the engine keeps the invariant of the
    queue with the same number of batches released, and only
    enqueues. *)
Lemma only_enqueues_conditions (realpath : string -> string) m s :
  let P0 := fun s' => queue_inv m s' /\ enqueued s s' in
  (forall ws s0, P0 s0 -> P0 (set_watchers ws s0))
  /\ (forall k p x s0, P0 s0 -> True ->
        P0 (notify (Named k) [APath p; AExports x] s0))
  /\ (forall h s0, P0 s0 -> P0 (notify (Fn h) [] s0))
  /\ (forall p x s0, P0 s0 -> True -> cache s0 !! realpath p = None ->
        P0 (set_cache (<[realpath p := x]> (cache s0)) s0))
  /\ (forall p s0, P0 s0 -> True ->
        P0 (set_cache (delete p (cache s0)) s0))
  /\ (forall o s0, P0 s0 -> is_life o = false -> P0 (emit [o] s0)).
Proof.
  intros P0. unfold P0. split_and!.
  - intros ws s0 [Hi He]. split;
      [by apply (queue_inv_ext m s0) | by apply (enqueued_ext s s0)].
  - intros k p x s0 [Hi He] _. split;
      [by apply notify_inv | by apply enqueued_notify].
  - intros h s0 [Hi He]. split;
      [by apply notify_inv | by apply enqueued_notify].
  - intros p x s0 [Hi He] _ _. split;
      [by apply (queue_inv_ext m s0) | by apply (enqueued_ext s s0)].
  - intros p s0 [Hi He] _. split;
      [by apply (queue_inv_ext m s0) | by apply (enqueued_ext s s0)].
  - intros o s0 [Hi He] Ho. split;
      [by apply queue_inv_quiet | by apply enqueued_quiet].
Qed.

End Enqueued.

Section EngineFacts.

Context (loader : string -> loaded).
Context (realpath : string -> string).
Context (readdir : string -> list string).
Context (stat : string -> option Stats).
Context (realname : string).

Implicit Types (s : RunDir.t) (m n : nat).

Local Abbreviation run := (RunDir.run loader realpath readdir stat realname).
Local Abbreviation stop := (RunDir.stop loader realpath readdir stat realname).
Local Abbreviation deliver := (RunDir.deliver loader realpath readdir stat realname).

(** X10.  The synchronous operations of the engine only ever enqueue.
    If the queue satisfies its invariant with [m] batches released, then
    in whatever state [run], [stop] or a native notification ends,
    returning or throwing, it still does, with the same [m]; the
    promises made before are all there with the phase they had, so none
    of them has been begun, completed or released on the way; the log
    shows no batch begun or completed that it did not show before; and
    the new promises queue up behind the old ones in the order of their
    [#notify] calls, each waiting for its slot or, made on an empty
    queue, just resolved. *)
Theorem engine_only_enqueues n m s :
  queue_inv m s ->
  outcome_holds (fun s' => queue_inv m s' /\ enqueued s s') (run n s)
  /\ outcome_holds (fun s' => queue_inv m s' /\ enqueued s s') (stop n s)
  /\ forall p ev file st,
       outcome_holds (fun s' => queue_inv m s' /\ enqueued s s')
         (deliver n p ev file st s).
Proof.
  intros Hinv.
  set (P0 := fun s' : RunDir.t => queue_inv m s' /\ enqueued s s').
  destruct (only_enqueues_conditions realpath m s)
    as (H1 & H2 & H3 & H4 & H5 & H6).
  fold P0 in H1, H2, H3, H4, H5, H6.
  assert (Hdrop : forall o : outcome RunDir.t,
            outcome_holds (engine_kept (fun _ => True) P0) o ->
            outcome_holds P0 o).
  { intros o. apply outcome_holds_impl. by intros s0 [? _]. }
  assert (Hs : engine_kept (fun _ => True) P0 s).
  { split; [|apply engine_tracks_anything].
    split; [done | apply enqueued_refl]. }
  split_and!; [| |intros p ev file st]; apply Hdrop.
  - by apply run_kept.
  - apply stop_engine_kept; try done.
    split; [|apply engine_tracks_anything]. unfold P0.
    split; [by apply (queue_inv_ext m s)|].
    apply (enqueued_ext s s); try done. apply enqueued_refl.
  - by apply deliver_kept.
Qed.

(** X11.  Only [on] changes the registry of handlers and only [add] adds
    a target: in whatever state [run] or a native notification ends, the
    registry and the targets are the ones it started with, and in
    whatever state [stop] ends, returning or throwing, the registry is
    the same and the list of targets is reversed, so that a second
    [stop], or a [run] after a [stop], goes through the targets in the
    opposite order. *)
Theorem engine_keeps_registry_and_targets n s :
  outcome_holds
    (fun s' => handlers s' = handlers s /\ targets s' = targets s)
    (run n s)
  /\ outcome_holds
       (fun s' => handlers s' = handlers s
                  /\ targets s' = reverse (targets s))
       (stop n s)
  /\ forall p ev file st,
       outcome_holds
         (fun s' => handlers s' = handlers s /\ targets s' = targets s)
         (deliver n p ev file st s).
Proof.
  assert (Hdrop : forall (P0 : RunDir.t -> Prop) (o : outcome RunDir.t),
            outcome_holds (engine_kept (fun _ => True) P0) o ->
            outcome_holds P0 o).
  { intros P0 o. apply outcome_holds_impl. by intros s0 [? _]. }
  assert (Hnotify : forall ev args s0,
            handlers (notify ev args s0) = handlers s0
            /\ targets (notify ev args s0) = targets s0).
  { intros ev args s0.
    destruct (notify_all_frame [(ev, args)] s0) as (_ & _ & Ht & Hh & _).
    by split. }
  split_and!; [| |intros p ev file st]; apply Hdrop.
  - apply run_kept; try done;
      try (intros; destruct (Hnotify (Named k) [APath p; AExports x] s0);
           destruct H; split; congruence);
      try (intros; destruct (Hnotify (Fn h) [] s0);
           destruct H; split; congruence);
      try (split; [done | apply engine_tracks_anything]).
  - apply stop_engine_kept; try done;
      try (intros; destruct (Hnotify (Named k) [APath p; AExports x] s0);
           destruct H; split; congruence);
      try (intros; destruct (Hnotify (Fn h) [] s0);
           destruct H; split; congruence);
      try (split; [done | apply engine_tracks_anything]).
  - apply deliver_kept; try done;
      try (intros; destruct (Hnotify (Named k) [APath p0; AExports x] s0);
           destruct H; split; congruence);
      try (intros; destruct (Hnotify (Fn h) [] s0);
           destruct H; split; congruence);
      try (split; [done | apply engine_tracks_anything]).
Qed.

Lemma keeps_out_conditions s :
  is_Some (cache s !! realname)
  \/ (forall p, realpath p = realname -> p = realname) ->
  let P0 := fun s' =>
    paths_in (fun p => p <> realname) (batches s')
    /\ cache s' !! realname = cache s !! realname in
  (forall ws s0, P0 s0 -> P0 (set_watchers ws s0))
  /\ (forall k p x s0, P0 s0 -> p <> realname ->
        P0 (notify (Named k) [APath p; AExports x] s0))
  /\ (forall h s0, P0 s0 -> P0 (notify (Fn h) [] s0))
  /\ (forall p x s0, P0 s0 -> p <> realname ->
        cache s0 !! realpath p = None ->
        P0 (set_cache (<[realpath p := x]> (cache s0)) s0))
  /\ (forall p s0, P0 s0 -> p <> realname ->
        P0 (set_cache (delete p (cache s0)) s0))
  /\ (forall o s0, P0 s0 -> is_life o = false -> P0 (emit [o] s0)).
Proof.
  intros Hown P0. unfold P0. split_and!.
  - by intros ws s0 [? ?].
  - intros k p x s0 [Hb Hc] Hp.
    destruct (notify_effect (Named k) [APath p; AExports x] s0)
      as (_ & -> & ph & ->).
    split; [|done]. apply paths_in_app; [done|].
    apply paths_in_singleton. simpl.
    intros p' [Hp' | Hp']%elem_of_cons; [by injection Hp' as ->|].
    by apply list_elem_of_singleton in Hp'.
  - intros h s0 [Hb Hc].
    destruct (notify_effect (Fn h) [] s0) as (_ & -> & ph & ->).
    split; [|done]. apply paths_in_app; [done|].
    apply paths_in_singleton. simpl. intros p' Hp'.
    by apply elem_of_nil in Hp'.
  - intros p x s0 [Hb Hc] Hp Hnone. split; [done|]. simpl.
    rewrite lookup_insert_ne; [done|]. intros Heq.
    destruct Hown as [[y Hy] | Hown]; [|by apply Hp, Hown].
    rewrite Heq, Hc, Hy in Hnone. done.
  - intros p s0 [Hb Hc] Hp. split; [done|]. simpl.
    by rewrite lookup_delete_ne.
  - by intros o s0 [? ?] _.
Qed.

(** X12.  The engine never takes the path of its own file for a module.
    The filter compares paths, so this is about the path [__realname]
    itself, not about a link that resolves to it.  Let the module of
    [__realname] be in the module cache, as it is while the engine runs,
    or let no other path resolve to [__realname].  If no
    registered watcher tracks the file [__realname] and no notification
    made so far mentions it, then in whatever state [run], [stop] or a
    native notification ends, returning or throwing, this is still so,
    and the entry of [__realname] in the module cache is untouched:
    neither loaded nor evicted. *)
Theorem engine_never_loads_itself n s :
  is_Some (cache s !! realname)
  \/ (forall p, realpath p = realname -> p = realname) ->
  engine_tracks (fun p => p <> realname) s ->
  paths_in (fun p => p <> realname) (batches s) ->
  outcome_holds (keeps_out realname s) (run n s)
  /\ outcome_holds (keeps_out realname s) (stop n s)
  /\ forall p ev file st,
       outcome_holds (keeps_out realname s) (deliver n p ev file st s).
Proof.
  intros Hown Ht Hb.
  set (P0 := fun s' : RunDir.t =>
               paths_in (fun p => p <> realname) (batches s')
               /\ cache s' !! realname = cache s !! realname).
  destruct (keeps_out_conditions s Hown) as (H1 & H2 & H3 & H4 & H5 & H6).
  fold P0 in H1, H2, H3, H4, H5, H6.
  assert (Hdrop : forall o : outcome RunDir.t,
            outcome_holds (engine_kept (fun p => p <> realname) P0) o ->
            outcome_holds (keeps_out realname s) o).
  { intros o. apply outcome_holds_impl. by intros s0 [[? ?] ?]. }
  assert (Hs : engine_kept (fun p => p <> realname) P0 s)
    by (split; [by split | done]).
  split_and!; [| |intros p ev file st]; apply Hdrop.
  - by apply run_kept.
  - by apply stop_engine_kept.
  - by apply deliver_kept.
Qed.

End EngineFacts.

Lemma engine_only_enqueues_witness :
  exists s',
    RunDir.run demo_loader demo_realpath demo_fs_readdir demo_fs_stat
      demo_realname 2 demo_constructed
    = Returned s'
    /\ queue_inv 0 s'
    /\ enqueued demo_constructed s'
    /\ queue s' = [0; 1]
    /\ (b_phase <$> batches s') = [Ready; Waiting]
    /\ lifecycle (log s') = [].
Proof.
  destruct (RunDir.run demo_loader demo_realpath demo_fs_readdir demo_fs_stat
              demo_realname 2 demo_constructed) as [s'| |] eqn:Hrun;
    [|by vm_compute in Hrun..].
  exists s'. split; [reflexivity|].
  assert (Hs : queue_inv 0 s' /\ enqueued demo_constructed s').
  { apply (outcome_holds_Returned
             (fun s0 => queue_inv 0 s0 /\ enqueued demo_constructed s0)
             _ _ Hrun).
    apply (engine_only_enqueues demo_loader demo_realpath demo_fs_readdir
             demo_fs_stat demo_realname 2 0 demo_constructed).
    split; simpl; try done; intros; lia. }
  destruct Hs as [Hi He]. split; [exact Hi|]. split; [exact He|].
  vm_compute in Hrun. injection Hrun as <-. by split_and!.
Defined.

Lemma demo_realpath_own p : demo_realpath p = demo_realname -> p = demo_realname.
Proof. unfold demo_realpath. by destruct (String.eqb p _). Qed.

Lemma engine_never_loads_itself_witness :
  exists s',
    RunDir.run demo_loader demo_realpath self_readdir self_stat demo_realname 2
      self_constructed
    = Returned s'
    /\ keeps_out demo_realname self_constructed s'
    /\ cache s' !! "/opt/jsrundir/plugin.js"%string = Some demo_exports.
Proof.
  destruct (RunDir.run demo_loader demo_realpath self_readdir self_stat demo_realname
              2 self_constructed) as [s'| |] eqn:Hrun;
    [|by vm_compute in Hrun..].
  exists s'. split; [reflexivity|]. split.
  - apply (outcome_holds_Returned _ _ _ Hrun).
    apply (engine_never_loads_itself demo_loader demo_realpath self_readdir
             self_stat demo_realname 2 self_constructed).
    + right. exact demo_realpath_own.
    + intros p w Hw. simpl in Hw.
      apply lookup_singleton_Some in Hw as [_ <-].
      apply tracks_only_new.
    + intros b p Hb. by apply elem_of_nil in Hb.
  - vm_compute in Hrun. by injection Hrun as <-.
Defined.

(* ===================================================================== *)
(** ** Starting and stopping the targets *)
(* ===================================================================== *)

Lemma bind_returns {S} (o : outcome S) (k : S -> outcome S) s1 s2 :
  o = Returned s1 -> k s1 = Returned s2 -> bind o k = Returned s2.
Proof. intros -> H. exact H. Qed.

Section Returns.

Context {E C : Type}.
Context (call : C -> value -> E -> outcome E).
Context (fs_watch : string -> E -> E).
Context (realname : string).
Context (P : E -> Prop) (add : C).

Hypothesis Hadd :
  forall v e, P e -> exists e', call add v e = Returned e' /\ P e'.
Hypothesis Hopen : forall h e, P e -> P (fs_watch h e).

Implicit Types (w : RunWatcher.t C) (e : E) (i : info).

Lemma fileAdded_returns i w e :
  added w = Some add -> P e ->
  exists w' e',
    fileAdded call realname i (w, e) = Returned (w', e')
    /\ same_shape w w' /\ P e'.
Proof.
  intros Ha Hp. unfold fileAdded.
  destruct (checkFile realname w (path i) (name i)); simpl negb; cbv iota.
  - unfold invoke. simpl added. rewrite Ha.
    destruct (Hadd (VInfo i) e Hp) as (e' & -> & Hp').
    eexists _, e'. split; [reflexivity|]. by split_and!.
  - exists w, e. split; [done|]. split; [apply same_shape_refl | done].
Qed.

Lemma directoryAdded_returns i w e :
  added w = Some add -> P e ->
  exists w' e',
    directoryAdded call i (w, e) = Returned (w', e')
    /\ same_shape w w' /\ P e'.
Proof.
  intros Ha Hp. unfold directoryAdded.
  destruct (checkDirectory w (path i) (name i)) eqn:Hchk; simpl negb;
    cbv iota.
  - destruct (directories w) as [d|] eqn:Hd.
    + unfold invoke. simpl added. rewrite Ha.
      destruct (Hadd (VInfo i) e Hp) as (e' & -> & Hp').
      eexists _, e'. split; [reflexivity|]. split; [|done].
      split_and!; try done. simpl. by rewrite Hd.
    + unfold checkDirectory in Hchk. rewrite Hd in Hchk.
      by rewrite andb_false_r in Hchk.
  - exists w, e. split; [done|]. split; [apply same_shape_refl | done].
Qed.

Lemma scan_loop_returns (f : info -> @proc E C) (l : list info) w0 :
  (forall x w e, added w = Some add -> P e ->
     exists w' e', f x (w, e) = Returned (w', e')
                   /\ same_shape w w' /\ P e') ->
  forall w e,
    added w0 = Some add -> same_shape w0 w -> P e ->
    exists w' e',
      for_of l f (w, e) = Returned (w', e') /\ same_shape w0 w' /\ P e'.
Proof.
  intros Hf. induction l as [|x l IH]; intros w e Ha Hs Hp.
  - by exists w, e.
  - rewrite for_of_cons.
    destruct (Hf x w e) as (w1 & e1 & -> & Hs1 & Hp1);
      [destruct Hs as (_ & _ & -> & _); done | done |].
    rewrite bind_Returned. apply IH; [done | | done].
    by apply (same_shape_trans w0 w).
Qed.

(** [watch] returns when the [add] callback always does. *)
Lemma watch_returns remove readdir stat w e :
  watcher w = None -> P e ->
  exists w' e',
    watch call fs_watch realname add remove readdir stat (w, e)
    = Returned (w', e')
    /\ same_shape (set_watcher (Some (wpath w ++ sep ++ "."))%string
                     (set_callbacks add remove w)) w'
    /\ P e'.
Proof.
  intros Hw Hp. unfold watch. rewrite Hw. cbv zeta.
  set (w2 := set_watcher (Some (wpath w ++ sep ++ "."))%string
               (set_callbacks add remove w)).
  destruct (scan_loop_returns
              (fun i => if isFile i then fileAdded call realname i else skip)
              (scan w2 readdir stat) w2) with (w := w2) (e := fs_watch
                (wpath w ++ sep ++ ".")%string e)
    as (w3 & e3 & Hrun1 & Hs3 & Hp3);
    [|done|apply same_shape_refl|by apply Hopen|].
  { intros x w1 e1 Ha1 Hp1. destruct (isFile x);
      [by apply fileAdded_returns|].
    exists w1, e1. split; [done|]. split; [apply same_shape_refl | done]. }
  destruct (scan_loop_returns
              (fun i => if isDirectory i then directoryAdded call i else skip)
              (scan w2 readdir stat) w2) with (w := w3) (e := e3)
    as (w4 & e4 & Hrun2 & Hs4 & Hp4); [|done|done|done|].
  { intros x w1 e1 Ha1 Hp1. destruct (isDirectory x);
      [by apply directoryAdded_returns|].
    exists w1, e1. split; [done|]. split; [apply same_shape_refl | done]. }
  exists w4, e4. split; [|by split].
  exact (bind_returns _ _ _ _ Hrun1 Hrun2).
Qed.

End Returns.

Section Run.

Context (loader : string -> loaded).
Context (realpath : string -> string).
Context (readdir : string -> list string).
Context (stat : string -> option Stats).
Context (realname : string).

Implicit Types (s : RunDir.t) (i : info) (w : RunWatcher.t closure).

Local Abbreviation call := (call_closure loader realpath readdir stat realname).
Local Abbreviation run_target :=
  (RunDir.run_target loader realpath readdir stat realname).

Lemma keeps_registered_refl s : keeps_registered s s.
Proof. by intros p w. Qed.

Lemma keeps_registered_trans s1 s2 s3 :
  keeps_registered s1 s2 -> keeps_registered s2 s3 -> keeps_registered s1 s3.
Proof. intros H1 H2 p w Hp. by apply H2, H1. Qed.

(** The adder on a directory for which no watcher is registered. *)
Lemma adder_directory n i s :
  isFile i = false -> isDirectory i = true ->
  truthy (get (watchers s) (path i)) = false ->
  exists s' w',
    call (S (S n)) adder (VInfo i) s = Returned s'
    /\ watchers s' = <[path i := w']> (watchers s).
Proof.
  intros Hfile Hdir Hnone.
  change (call (S (S n)) adder (VInfo i) s)
    with (adder_body loader realpath readdir stat realname (call (S n)) (VInfo i) s).
  unfold adder_body. rewrite Hfile, Hdir, Hnone. simpl andb. cbv iota.
  set (w0 := RunWatcher.new (path i) false).
  set (s1 := set_watchers (<[path i := w0]> (watchers s)) s).
  unfold with_watcher, watch. simpl watcher. cbv iota.
  set (h := (path i ++ sep ++ ".")%string).
  set (w2 := set_watcher (Some h) (set_callbacks adder remover w0)).
  set (e1 := emit [Opened h] s1).
  assert (Hscan : forall x, x ∈ scan w2 (readdir (path i)) stat ->
            exists k, k ∈ readdir (path i)
                      /\ x = fileInfo (path_join (path i) k) k
                               (stat (path_join (path i) k))).
  { intros x Hx. unfold scan in Hx.
    apply list_elem_of_fmap in Hx as (k & -> & Hk).
    exists k. split; [by apply sort_elem_of|]. reflexivity. }
  destruct (subdirectory_scan_loop loader realpath readdir stat realname n i s1
              (batches s) (scan w2 (readdir (path i)) stat) Hscan w2 e1)
    as (w' & e' & Hrun & H1 & H2 & H3 & H4 & H5 & H6 & H7 & H8);
    try done.
  { exists []. rewrite app_nil_r. split; [done | apply paths_in_nil]. }
  simpl wpath. fold h. fold w2. fold e1. rewrite Hrun. simpl bind.
  rewrite subdirectory_dirs_loop by done. simpl lift.
  eexists _, w'. split; [reflexivity|].
  simpl. rewrite H6. unfold s1. simpl. apply insert_insert_eq.
Qed.

(** With two levels of fuel the adder returns, whatever it is handed,
    and changes no watcher that is registered. *)
Lemma adder_returns n v s :
  exists s', call (S (S n)) adder v s = Returned s' /\ keeps_registered s s'.
Proof.
  destruct v as [i| |];
    [|exists s; split; [done | apply keeps_registered_refl]..].
  destruct (isFile i) eqn:Hfile.
  - destruct (adder_file loader realpath readdir stat realname (call (S n)) i s Hfile)
      as (s' & extra & Hrun & Hw & _).
    exists s'. split; [exact Hrun|]. intros p w. by rewrite Hw.
  - destruct (isDirectory i) eqn:Hdir.
    + destruct (truthy (get (watchers s) (path i))) eqn:Hreg.
      * exists s. split; [|apply keeps_registered_refl].
        change (call (S (S n)) adder (VInfo i) s)
          with (adder_body loader realpath readdir stat realname (call (S n))
                  (VInfo i) s).
        unfold adder_body. by rewrite Hfile, Hdir, Hreg.
      * destruct (adder_directory n i s Hfile Hdir Hreg)
          as (s' & w' & Hrun & Hw).
        exists s'. split; [exact Hrun|]. intros p w Hp. rewrite Hw.
        apply truthy_get_false in Hreg as [Hnone _].
        rewrite lookup_insert_ne; [done|]. intros <-. congruence.
    + exists s. split; [|apply keeps_registered_refl].
      change (call (S (S n)) adder (VInfo i) s)
        with (adder_body loader realpath readdir stat realname (call (S n))
                (VInfo i) s).
      unfold adder_body. by rewrite Hfile, Hdir.
Qed.

(** [#run] on a target that can be started. *)
Lemma run_target_returns n t s :
  startable s t ->
  exists s',
    run_target (S (S n)) t s = Returned s'
    /\ started s' t
    /\ forall p w, p <> t -> watchers s !! p = Some w ->
                   watchers s' !! p = Some w.
Proof.
  intros (w & Hw & Hp & Hh & Hrec). unfold RunDir.run_target.
  rewrite (get_Some _ _ _ Hw). unfold recursive in Hrec.
  destruct (directories w) as [d|] eqn:Hd; [|done].
  destruct (watch_returns (call (S (S n))) (fun h => emit [Opened h])
              realname (keeps_registered s) adder) with
    (remove := remover) (readdir := readdir t) (stat := stat)
    (w := w) (e := s)
    as (w' & s1 & Hrun & Hs & Hk); try done.
  { intros v e He. destruct (adder_returns n v e) as (e' & Hrun & Hk).
    exists e'. split; [done|]. by apply (keeps_registered_trans s e). }
  { apply keeps_registered_refl. }
  unfold with_watcher. rewrite Hrun, lift_Returned.
  eexists. split; [reflexivity|].
  destruct Hs as (Hp' & Hh' & Ha' & Hr' & Hd'). simpl in *. split.
  - exists w'. simpl. rewrite lookup_insert_eq. split_and!; try done.
    + congruence.
    + rewrite Hh', Hp. reflexivity.
    + unfold recursive. destruct (directories w'); [done|].
      pose proof (proj1 Hd' eq_refl). congruence.
  - intros p w0 Hne Hp0. simpl. rewrite lookup_insert_ne by done.
    by apply Hk.
Qed.

Lemma run_loop n ts : forall s,
  NoDup ts -> (forall t, t ∈ ts -> startable s t) ->
  exists s',
    for_of ts (run_target (S (S n))) s = Returned s'
    /\ (forall t, t ∈ ts -> started s' t)
    /\ (forall p w, p ∉ ts -> watchers s !! p = Some w ->
                    watchers s' !! p = Some w).
Proof.
  induction ts as [|t ts IH]; intros s Hnd Hall.
  - exists s. split; [done|]. split; [|done].
    intros t Ht. by apply elem_of_nil in Ht.
  - apply NoDup_cons in Hnd as [Hnew Hnd].
    destruct (run_target_returns n t s) as (s1 & Hrun & Hst & Hkeep);
      [apply Hall; by left|].
    destruct (IH s1 Hnd) as (s' & Hrest & Hall' & Hkeep').
    { intros t' Ht'. destruct (Hall t') as (w & Hw & Hrestw); [by right|].
      exists w. split; [|done]. apply Hkeep; [|done]. by intros ->. }
    exists s'. rewrite for_of_cons, Hrun, bind_Returned.
    split; [exact Hrest|]. split.
    + intros t' [-> | Ht']%elem_of_cons; [|by apply Hall'].
      destruct Hst as (w & Hw & Hrestw). exists w. split; [|done].
      by apply Hkeep'.
    + intros p w [Hne Hnin]%not_elem_of_cons Hp.
      apply Hkeep'; [done|]. by apply Hkeep.
Qed.

(** [#run] and [#stop] on a target whose watcher is in the wrong state
    throw and change nothing. *)
Lemma run_target_started m t s :
  started s t ->
  run_target m t s = Thrown (Error ("Already watching '" ++ t ++ "'")%string) s.
Proof.
  intros (w & Hw & Hp & Hh & _ & _ & Hrec). unfold RunDir.run_target.
  rewrite (get_Some _ _ _ Hw). unfold recursive in Hrec.
  destruct (directories w); [|done].
  unfold with_watcher, watch. rewrite Hh, Hp, lift_Thrown.
  f_equal. rewrite (insert_id _ _ _ Hw). by destruct s.
Qed.

Lemma stop_target_startable m t s :
  startable s t ->
  stop_target loader realpath readdir stat realname m t s
  = Thrown (Error ("Not watching '" ++ t ++ "'")%string) s.
Proof.
  intros (w & Hw & Hp & Hh & Hrec). unfold stop_target.
  rewrite (get_Some _ _ _ Hw). unfold recursive in Hrec.
  destruct (directories w); [|done].
  unfold with_watcher, RunWatcher.stop. rewrite Hh, Hp, lift_Thrown.
  f_equal. rewrite (insert_id _ _ _ Hw). by destruct s.
Qed.

(** X13.  [run] starts every target.  On an engine whose targets are
    distinct and each have a recursive watcher that is not watching (as
    the constructor leaves them), [run] returns, given fuel for two
    nested calls: afterwards the watcher of every target holds the native
    handle of its directory and the closures of [#run], and the targets
    are unchanged.  A second [run], whatever its fuel, throws "Already
    watching" for the first target and changes nothing. *)
Theorem run_starts_every_target n s :
  NoDup (targets s) -> (forall t, t ∈ targets s -> startable s t) ->
  exists s',
    RunDir.run loader realpath readdir stat realname (S (S n)) s = Returned s'
    /\ targets s' = targets s
    /\ (forall t, t ∈ targets s -> started s' t)
    /\ forall m t ts, targets s = t :: ts ->
         RunDir.run loader realpath readdir stat realname m s'
         = Thrown (Error ("Already watching '" ++ t ++ "'")%string) s'.
Proof.
  intros Hnd Hall.
  destruct (run_loop n (targets s) s Hnd Hall) as (s' & Hrun & Hst & _).
  assert (Ht : targets s' = targets s).
  { apply (outcome_holds_Returned
             (engine_kept (fun _ => True) (fun s0 => targets s0 = targets s))
             _ _ Hrun).
    apply for_of_holds; [by split; [|apply engine_tracks_anything]|].
    intros t s0 _ Hs0.
    apply (run_target_kept loader realpath readdir stat realname (fun _ => True)
             (fun s0 => targets s0 = targets s)); try done.
    - intros k p x s1 H1 _. rewrite <- H1.
      by destruct (notify_all_frame [(Named k, [APath p; AExports x])] s1)
        as (_ & _ & ? & _).
    - intros h s1 H1. rewrite <- H1.
      by destruct (notify_all_frame [(Fn h, [])] s1) as (_ & _ & ? & _). }
  exists s'. split; [exact Hrun|]. split; [exact Ht|]. split; [exact Hst|].
  intros m t ts Hts. unfold RunDir.run. rewrite Ht, Hts, for_of_cons.
  rewrite run_target_started; [done|]. apply Hst. rewrite Hts. by left.
Qed.

(** X14.  [stop] before [run].  When the watcher of the last target is
    not watching, [stop] throws "Not watching" for that target at once:
    it has stopped no other target, and all it has done is to reverse the
    list of targets. *)
Theorem stop_before_run_throws m s ts t :
  targets s = ts ++ [t] -> startable s t ->
  RunDir.stop loader realpath readdir stat realname m s
  = Thrown (Error ("Not watching '" ++ t ++ "'")%string)
      (set_targets (t :: reverse ts) s).
Proof.
  intros Hts Hst. unfold RunDir.stop. rewrite Hts, reverse_snoc.
  simpl targets. rewrite for_of_cons.
  rewrite stop_target_startable; [done|].
  destruct Hst as (w & Hw & Hrest). by exists w.
Qed.

End Run.

Lemma demo_constructed_startable t :
  t ∈ targets demo_constructed -> startable demo_constructed t.
Proof.
  intros ->%list_elem_of_singleton.
  exists (RunWatcher.new "/srv" true). by split_and!.
Qed.

Lemma run_starts_every_target_witness :
  exists s',
    RunDir.run demo_loader demo_realpath demo_fs_readdir demo_fs_stat demo_realname 2
      demo_constructed = Returned s'
    /\ started s' "/srv"
    /\ RunDir.run demo_loader demo_realpath demo_fs_readdir demo_fs_stat demo_realname 2 s'
       = Thrown (Error "Already watching '/srv'") s'.
Proof.
  destruct (run_starts_every_target demo_loader demo_realpath demo_fs_readdir demo_fs_stat
              demo_realname 0 demo_constructed)
    as (s' & Hrun & _ & Hst & Hagain).
  - apply NoDup_singleton.
  - exact demo_constructed_startable.
  - exists s'. split; [exact Hrun|]. split.
    + apply Hst. by left.
    + exact (Hagain 2 "/srv"%string [] eq_refl).
Defined.

Lemma stop_before_run_throws_witness :
  RunDir.stop demo_loader demo_realpath demo_fs_readdir demo_fs_stat demo_realname 2
    demo_constructed
  = Thrown (Error "Not watching '/srv'")
      (set_targets ["/srv"%string] demo_constructed).
Proof.
  apply (stop_before_run_throws demo_loader demo_realpath demo_fs_readdir demo_fs_stat
           demo_realname 2 demo_constructed [] "/srv"%string eq_refl).
  apply demo_constructed_startable. by left.
Defined.

(* ===================================================================== *)
(** ** The command line *)
(* ===================================================================== *)

Section MainFacts.

Context (loader : string -> loaded).
Context (realpath : string -> string).
Context (readdir : string -> list string).
Context (stat : string -> option Stats).
Context (realname : string).
Context (path_resolve : string -> string).
Context (lstat : string -> option Stats).

Implicit Types (s : RunDir.t).

Local Abbreviation main :=
  (RunDir.main loader realpath readdir stat realname path_resolve lstat).

(** The loop of the constructor ends, in a state only [add] has made. *)
Lemma add_loop_ends ts : forall s,
  constructed lstat s ->
  match for_of ts (RunDir.add path_resolve lstat) s with
  | Returned s' | Thrown _ s' => constructed lstat s'
  | Diverged => False
  end.
Proof.
  induction ts as [|t ts IH]; intros s Hc; [done|].
  rewrite for_of_cons.
  destruct (RunDir.add path_resolve lstat t s) as [s1|e s1|] eqn:Ht.
  - rewrite bind_Returned. apply IH.
    by destruct (add_constructed path_resolve lstat t s s1 Hc Ht).
  - rewrite bind_Thrown. by rewrite (add_Thrown _ _ _ _ _ _ Ht).
  - unfold RunDir.add in Ht.
    destruct (lstat (path_resolve t)) as [st|]; [|done].
    destruct (negb (stat_isDirectory st)); [done|].
    by destruct (truthy (get (watchers s) (path_resolve t))).
Qed.

Lemma constructed_startable s t :
  constructed lstat s -> t ∈ targets s -> startable s t.
Proof.
  intros Hc Ht. exists (RunWatcher.new t true).
  rewrite (con_watchers _ _ Hc), bool_decide_eq_true_2 by done.
  by split_and!.
Qed.

(** X15.  The command line starts every target or none.  The targets
    are the arguments, or the directory of the script when there is no
    argument.  When their resolved paths are pairwise distinct
    directories, [main] returns, given fuel for two nested calls, with
    these paths as targets, each of them watched.  Otherwise the
    constructor throws before [run] is reached: no native handle has been
    opened, no module loaded and no notification enqueued. *)
Theorem main_starts_all_or_nothing n argv dirname :
  let ts := path_resolve <$> match argv with [] => [dirname] | _ => argv end in
  (NoDup ts -> Forall (addable lstat) ts ->
   exists s',
     main (S (S n)) argv dirname = Returned s'
     /\ targets s' = ts
     /\ forall t, t ∈ ts -> started s' t)
  /\ (~ (NoDup ts /\ Forall (addable lstat) ts) ->
      exists e s',
        main (S (S n)) argv dirname = Thrown e s'
        /\ log s' = [] /\ cache s' = ∅ /\ batches s' = []
        /\ forall p w, watchers s' !! p = Some w -> watcher w = None).
Proof.
  intros ts.
  set (a := match argv with [] => OneTarget dirname | _ :: _ => ManyTargets argv end).
  assert (Hts : ts = path_resolve <$> targets_of a) by (by destruct argv).
  destruct (constructor_registers_targets path_resolve lstat a)
    as [Hiff Hret].
  unfold RunDir.main. fold a. split.
  - intros Hnd Hall. rewrite Hts in Hnd, Hall.
    destruct (proj2 Hiff (conj Hnd Hall)) as [s Hs].
    destruct (Hret s Hs) as (Ht & Hc). rewrite Hs, bind_Returned.
    destruct (run_loop loader realpath readdir stat realname n (targets s) s)
      as (s' & Hrun & Hst & _).
    { apply Hc. }
    { intros t. by apply constructed_startable. }
    exists s'. split; [exact Hrun|]. rewrite Hts, <- Ht. split; [|exact Hst].
    apply (outcome_holds_Returned
             (engine_kept (fun _ => True) (fun s0 => targets s0 = targets s))
             _ _ Hrun).
    apply for_of_holds; [by split; [|apply engine_tracks_anything]|].
    intros t s0 _ Hs0.
    apply (run_target_kept loader realpath readdir stat realname (fun _ => True)
             (fun s0 => targets s0 = targets s)); try done.
    + intros k p x s1 H1 _. rewrite <- H1.
      by destruct (notify_all_frame [(Named k, [APath p; AExports x])] s1)
        as (_ & _ & ? & _).
    + intros h s1 H1. rewrite <- H1.
      by destruct (notify_all_frame [(Fn h, [])] s1) as (_ & _ & ? & _).
  - intros Hnot. rewrite Hts in Hnot.
    pose proof (add_loop_ends (targets_of a) init
                  (init_constructed lstat)) as Hends.
    assert (Hnew : RunDir.new path_resolve lstat a
                   = for_of (targets_of a) (RunDir.add path_resolve lstat) init)
      by (by destruct a).
    rewrite <- Hnew in Hends.
    destruct (RunDir.new path_resolve lstat a) as [s|e s|] eqn:Hs; [| |done].
    + destruct Hnot. apply Hiff. by exists s.
    + exists e, s. rewrite bind_Thrown. split; [done|].
      destruct (con_rest _ _ Hends) as (_ & Hb & Hc & Hl & _).
      split_and!; try done.
      intros p w Hw. rewrite (con_watchers _ _ Hends) in Hw.
      case_bool_decide; [|done]. by injection Hw as <-.
Qed.

End MainFacts.

Lemma main_starts_all_or_nothing_witness :
  (exists s',
     RunDir.main demo_loader demo_realpath demo_fs_readdir demo_fs_stat demo_realname
       demo_resolve demo_lstat 2 [] "/srv" = Returned s'
     /\ started s' "/srv")
  /\ (exists e s',
        RunDir.main demo_loader demo_realpath demo_fs_readdir demo_fs_stat demo_realname
          demo_resolve demo_lstat 2 ["srv"; "/srv"]%string "/srv"
        = Thrown e s'
        /\ log s' = []).
Proof.
  split.
  - destruct (proj1 (main_starts_all_or_nothing demo_loader demo_realpath demo_fs_readdir
                       demo_fs_stat demo_realname demo_resolve demo_lstat
                       0 [] "/srv"%string))
      as (s' & Hrun & _ & Hst).
    + apply NoDup_singleton.
    + apply Forall_singleton. by split.
    + exists s'. split; [exact Hrun|]. apply Hst. by left.
  - destruct (proj2 (main_starts_all_or_nothing demo_loader demo_realpath demo_fs_readdir
                       demo_fs_stat demo_realname demo_resolve demo_lstat
                       0 ["srv"; "/srv"]%string "/srv"%string))
      as (e & s' & Hrun & Hl & _).
    + intros [Hnd _]. apply NoDup_cons in Hnd as [Hnin _].
      apply Hnin. by left.
    + exists e, s'. by split.
Defined.

(* ===================================================================== *)
(** ** The queue: progress, and what stops it *)
(* ===================================================================== *)

Section QueueProgress.

Context (behave : nat -> nat -> handler -> reaction).

Implicit Types (s : RunDir.t) (id m : nat) (p : phase).

Lemma resolve_length id s : length (batches (resolve id s)) = length (batches s).
Proof.
  unfold resolve. destruct (phase_of s id) as [[]|]; try done.
  apply length_put_phase.
Qed.

Lemma microtask_keeps m s s' :
  queue_inv m s -> microtask behave s = Some s' ->
  (exists m', queue_inv m' s')
  /\ length (batches s') = length (batches s).
Proof.
  intros Hinv. unfold microtask.
  destruct (queue s) as [|id rest]; [done|].
  destruct (phase_of s id) as [[]|] eqn:Hph; try done; intros Hrun.
  - split; [exists m; by eapply start_inv|].
    unfold phase_of in Hph.
    destruct (batches s !! id) as [[ev args ph]|] eqn:Hb; [|done].
    simpl in Hph. injection Hph as ->.
    rewrite (start_resolved behave id s ev args Hb) in Hrun.
    destruct (resolved s ev) as [hs| |].
    + cbv zeta in Hrun.
      destruct (pending_of (reactions behave id 0 hs));
        injection Hrun as <-; apply length_put_phase.
    + injection Hrun as <-. apply length_put_phase.
    + injection Hrun as <-. apply length_put_phase.
  - split; [exists (S m); by eapply finish_inv|].
    unfold finish in Hrun. rewrite Hph in Hrun. injection Hrun as <-.
    assert (Hlen : forall q,
              length (batches (set_queue q (put_phase id Released s)))
              = length (batches s))
      by (intros; apply length_put_phase).
    match goal with
    | |- context [match ?q with [] => _ | _ :: _ => _ end] => destruct q
    end; rewrite ?resolve_length; apply Hlen.
Qed.

Lemma drain_keeps n : forall m s,
  queue_inv m s ->
  (exists m', queue_inv m' (drain behave n s))
  /\ length (batches (drain behave n s)) = length (batches s).
Proof.
  induction n as [|n IH]; intros m s Hinv; [by eauto|].
  simpl. destruct (microtask behave s) as [s1|] eqn:Hs1; [|by eauto].
  destruct (microtask_keeps m s s1 Hinv Hs1) as ([m1 Hinv1] & Hlen1).
  destruct (IH m1 s1 Hinv1) as (Hinv' & Hlen'). split; [done | congruence].
Qed.

(** X16.  Notifications are eventually served.  In a reachable state
    whose head batch has its slot resolved and in which no queued batch
    names an inherited event or has a handler that leaves a promise
    pending, the microtasks alone, two for each queued batch, empty the
    queue: every batch ever made has been released, and the log shows
    them all begun and completed, one after the other, in the order of
    their [#notify] calls. *)
Theorem queue_drains_when_handlers_settle acts s :
  run_actions behave acts init = Some s ->
  (forall id rest, queue s = id :: rest -> phase_of s id = Some Ready) ->
  (forall j, j ∈ queue s -> settles_at_once behave s j) ->
  let s' := drain behave (2 * length (queue s)) s in
  queue s' = []
  /\ length (batches s') = length (batches s)
  /\ lifecycle (log s') = served (length (batches s))
  /\ forall j, j < length (batches s) -> phase_of s' j = Some Released.
Proof.
  intros Hrun Hready Hall s'.
  destruct (reachable_inv behave _ _ Hrun) as [m Hinv].
  destruct (drain_serves behave (queue s) m s Hinv eq_refl Hready Hall)
    as (Hq & _).
  destruct (drain_keeps (2 * length (queue s)) m s Hinv)
    as ([m' Hinv'] & Hlen).
  fold s' in Hq, Hinv', Hlen.
  assert (Hm' : m' = length (batches s')).
  { pose proof (inv_bound _ _ Hinv') as Hle.
    pose proof (inv_queue _ _ Hinv') as Hseq. rewrite Hq in Hseq.
    destruct (length (batches s') - m') as [|d] eqn:Hd; [lia | done]. }
  split_and!; [done | done | |].
  - rewrite (inv_log _ _ Hinv'), Hm', <- Hlen.
    rewrite (phase_of_ge s' (length (batches s'))) by lia.
    simpl. by rewrite app_nil_r.
  - intros j Hj.
    destruct (batches s' !! j) as [b|] eqn:Hb.
    + assert (Hp : phase_of s' j = Some (b_phase b))
        by (unfold phase_of; by rewrite Hb).
      rewrite Hp. f_equal. eapply (inv_before _ _ Hinv'); [done | lia].
    + apply lookup_ge_None in Hb. lia.
Qed.

Lemma notify_phase_of ev args s id :
  id < length (batches s) ->
  phase_of (notify ev args s) id = phase_of s id.
Proof.
  intros Hlt. unfold notify. simpl.
  assert (Hold : phase_of
                   (set_queue (queue s ++ [length (batches s)])
                      (set_batches
                         (batches s
                          ++ [{| b_event := ev; b_args := args;
                                 b_phase := Waiting |}]) s)) id
                 = phase_of s id).
  { unfold phase_of. simpl. by rewrite lookup_app_l. }
  destruct (length (queue s ++ [length (batches s)]) =? 1)%nat; [|done].
  unfold resolve.
  destruct (phase_of _ (length (batches s))) as [[]|]; try done.
  rewrite phase_of_put_ne by lia. done.
Qed.

(** One step that is not the settlement of handler [k] of the head
    batch leaves it pending. *)
Lemma blocked_step a s s1 id ks k :
  queue_inv id s -> phase_of s id = Some (Running ks) -> k ∈ ks ->
  (forall r, a <> DoSettle id k r) ->
  step behave a s = Some s1 ->
  exists ks1, phase_of s1 id = Some (Running ks1) /\ k ∈ ks1
              /\ queue_inv id s1.
Proof.
  intros Hinv Hph Hk Hne Hstep.
  pose proof (phase_of_lt _ _ _ Hph) as Hlt.
  destruct a as [ev args|ev h|j|j k' r|j]; simpl in Hstep.
  - injection Hstep as <-. exists ks. split_and!; [|done|by apply notify_inv].
    by rewrite notify_phase_of.
  - exists ks. pose proof (on_inv id s ev h _ Hinv eq_refl) as Hon.
    unfold on in *.
    destruct (registry_get (handlers s) ev); injection Hstep as <-;
      by split_and!.
  - destruct (start_inv behave id s j s1 Hinv Hstep) as [-> _].
    apply start_ready in Hstep. congruence.
  - destruct (settle_inv id s j k' r s1 Hinv Hstep) as [-> Hinv1].
    assert (Hkk : k' <> k) by (intros ->; by apply (Hne r)).
    unfold settle in Hstep. rewrite Hph in Hstep.
    destruct (bool_decide (k' ∈ ks)); [|done].
    assert (Hin : k ∈ filter (fun x => x <> k') ks)
      by (apply list_elem_of_filter; split; [congruence | done]).
    destruct (filter (fun x => x <> k') ks) as [|k1 ks1] eqn:Hf;
      [by apply elem_of_nil in Hin|].
    injection Hstep as <-. exists (k1 :: ks1). split_and!; [|done|done].
    change (phase_of (put_phase id (Running (k1 :: ks1)) s) id
            = Some (Running (k1 :: ks1))).
    by apply phase_of_put_eq.
  - destruct (finish_inv id s j s1 Hinv Hstep) as [-> _].
    apply finish_settled in Hstep. congruence.
Qed.

(** X17.  A handler that never settles stops the queue.  If the promise
    of handler [k] of batch [id] is pending, then whatever happens next
    ([#notify] and [on] calls, callbacks of the promise chains,
    settlements of other handlers), as long as that promise does not
    settle, the batch stays at the head of the queue with [k] pending:
    it is not completed, and no later batch begins.  Nothing in the
    engine times out. *)
Theorem pending_handler_blocks_queue acts : forall s s' m id ks k,
  queue_inv m s -> phase_of s id = Some (Running ks) -> k ∈ ks ->
  (forall r, DoSettle id k r ∉ acts) ->
  run_actions behave acts s = Some s' ->
  exists ks',
    phase_of s' id = Some (Running ks') /\ k ∈ ks'
    /\ head (queue s') = Some id
    /\ lifecycle (log s') = served id ++ [Began id].
Proof.
  induction acts as [|a acts IH]; intros s s' m id ks k Hinv Hph Hk Hno Hrun.
  - injection Hrun as <-.
    assert (id = m) as -> by (by eapply inv_head_only).
    exists ks. split_and!; [done | done | |].
    + pose proof (phase_of_lt _ _ _ Hph) as Hlt.
      rewrite (inv_queue _ _ Hinv).
      destruct (length (batches s) - m) as [|d] eqn:Hd; [lia | done].
    + by rewrite (inv_log _ _ Hinv), Hph.
  - assert (id = m) as -> by (by eapply inv_head_only).
    simpl in Hrun.
    destruct (step behave a s) as [s1|] eqn:Hstep; [|done].
    destruct (blocked_step a s s1 m ks k Hinv Hph Hk) as (ks1 & Hph1 & Hk1 & Hinv1);
      [|done|].
    { intros r ->. apply (Hno r). by left. }
    apply (IH s1 s' m m ks1 k Hinv1 Hph1 Hk1); [|done].
    intros r Hr. apply (Hno r). by right.
Qed.

(** X18.  The handlers of a notification are read when its batch begins,
    not when it is enqueued.  When the queue is empty, [#notify] for a
    registered event resolves the slot at once, but the first callback
    runs later: a handler registered with [on] in between is invoked for
    this notification, after the handlers that were registered before
    it, with the arguments of the notification. *)
Theorem handlers_are_read_when_batch_begins k args h hs0 s :
  queue s = [] -> registry_get (handlers s) k = Own hs0 ->
  let id := length (batches s) in
  exists s1 s2 rest,
    on k h (notify (Named k) args s) = Returned s1
    /\ start behave id s1 = Some s2
    /\ log s2
       = log s ++ Began id :: ((fun h' => Invoked id h' args) <$> (hs0 ++ [h]))
               ++ rest.
Proof.
  intros Hq Hreg id.
  assert (Hn : notify (Named k) args s
               = put_phase id Ready
                   (set_queue [id]
                      (set_batches
                         (batches s
                          ++ [{| b_event := Named k; b_args := args;
                                 b_phase := Waiting |}]) s))).
  { unfold notify. simpl. rewrite Hq. simpl.
    unfold resolve, phase_of. simpl.
    by rewrite list_lookup_middle. }
  set (s0 := notify (Named k) args s) in *.
  assert (Hb0 : batches s0 !! id
                = Some {| b_event := Named k; b_args := args;
                          b_phase := Ready |}).
  { rewrite Hn. unfold put_phase. simpl.
    rewrite list_lookup_alter_eq, list_lookup_middle by done. done. }
  assert (Hh0 : handlers s0 = handlers s) by (by rewrite Hn).
  assert (Hl0 : log s0 = log s) by (by rewrite Hn).
  assert (Hon : exists r,
            on k h s0 = Returned (set_handlers r s0)
            /\ registry_get r k = Own (hs0 ++ [h])).
  { unfold on. rewrite Hh0, Hreg. eexists. split; [reflexivity|].
    unfold registry_get in *.
    destruct (String.eqb k "load") eqn:Hk1; simpl.
    - by injection Hreg as <-.
    - destruct (String.eqb k "unload") eqn:Hk2; simpl.
      + by injection Hreg as <-.
      + by destruct (inherited k). }
  destruct Hon as (r & Hon & Hr).
  set (s1 := set_handlers r s0).
  assert (Hstart := start_resolved behave id s1 (Named k) args Hb0).
  simpl resolved in Hstart. rewrite Hr in Hstart. cbv zeta in Hstart.
  exists s1.
  destruct (pending_of (reactions behave id 0 (hs0 ++ [h]))) eqn:Hp;
    eexists _, _; (split; [exact Hon|]); (split; [exact Hstart|]);
    simpl; rewrite Hl0, <- ?app_assoc; reflexivity.
Qed.

End QueueProgress.

Lemma queue_drains_when_handlers_settle_witness :
  exists s,
    run_actions demo_behave demo_settling_acts init = Some s
    /\ queue s = [0; 1; 2]
    /\ queue (drain demo_behave 6 s) = []
    /\ lifecycle (log (drain demo_behave 6 s)) = served 3.
Proof.
  destruct (run_actions demo_behave demo_settling_acts init) as [s|] eqn:Hrun;
    [|by vm_compute in Hrun].
  assert (Hs : run_actions demo_behave demo_settling_acts init = Some s)
    by exact Hrun.
  vm_compute in Hrun. injection Hrun as Hrun.
  exists s. split; [reflexivity|]. split; [by rewrite <- Hrun|].
  assert (Hq : queue s = [0; 1; 2]) by (by rewrite <- Hrun).
  destruct (queue_drains_when_handlers_settle demo_behave demo_settling_acts
              s Hs) as (H1 & H2 & H3 & _).
  - intros id rest Hid. rewrite Hq in Hid. injection Hid as <- _.
    by rewrite <- Hrun.
  - intros j Hj. rewrite Hq in Hj.
    repeat (apply elem_of_cons in Hj as [-> | Hj]);
      [| | |by apply elem_of_nil in Hj];
      rewrite <- Hrun; eexists _, _, _; (split; [reflexivity|]);
      by vm_compute.
  - rewrite Hq in H1, H3. change (2 * length [0; 1; 2]) with 6 in H1, H3.
    split; [exact H1|]. rewrite H3. by rewrite <- Hrun.
Defined.

Lemma pending_handler_blocks_queue_witness :
  exists s s',
    run_actions demo_behave demo_stuck_acts init = Some s
    /\ phase_of s 0 = Some (Running [1])
    /\ run_actions demo_behave demo_later_acts s = Some s'
    /\ head (queue s') = Some 0
    /\ lifecycle (log s') = [Began 0].
Proof.
  destruct (run_actions demo_behave demo_stuck_acts init) as [s|] eqn:Hrun;
    [|by vm_compute in Hrun].
  destruct (reachable_inv demo_behave _ _ Hrun) as [m Hinv].
  assert (Hph : phase_of s 0 = Some (Running [1])).
  { vm_compute in Hrun. injection Hrun as <-. reflexivity. }
  destruct (run_actions demo_behave demo_later_acts s) as [s'|] eqn:Hrun';
    [|vm_compute in Hrun; injection Hrun as <-; by vm_compute in Hrun'].
  destruct (pending_handler_blocks_queue demo_behave demo_later_acts
              s s' m 0 [1] 1 Hinv Hph)
    as (ks' & _ & _ & Hhead & Hlife); [by left | | done |].
  - intros r Hr. unfold demo_later_acts in Hr.
    repeat (apply elem_of_cons in Hr as [Hr | Hr]; [discriminate Hr|]).
    by apply elem_of_nil in Hr.
  - exists s, s'. by split_and!.
Defined.

Lemma handlers_are_read_when_batch_begins_witness :
  exists s1 s2 rest,
    on "load" 5 (notify (Named "load") [APath "/srv/a.js"] init) = Returned s1
    /\ start demo_behave 0 s1 = Some s2
    /\ log s2 = Began 0 :: Invoked 0 5 [APath "/srv/a.js"] :: rest.
Proof.
  destruct (handlers_are_read_when_batch_begins demo_behave "load"
              [APath "/srv/a.js"] 5 [] init eq_refl eq_refl)
    as (s1 & s2 & rest & Hon & Hstart & Hlog).
  exists s1, s2, rest. by split_and!.
Defined.

(* ===================================================================== *)
(** ** The watcher does the same in every world *)
(* ===================================================================== *)

Lemma for_of_app {A S} (body : A -> S -> outcome S) (l1 l2 : list A) : forall s,
  for_of (l1 ++ l2) body s = bind (for_of l1 body s) (for_of l2 body).
Proof.
  induction l1 as [|x l1 IH]; intros s; [done|].
  simpl app. rewrite !for_of_cons.
  destruct (body x s) as [s1|e s1|]; simpl; [apply IH | done | done].
Qed.

Section Simulation.

Context {E C : Type}.
Context (call : C -> value -> E -> outcome E).
Context (fs_watch fs_close : string -> E -> E).
Context (cl : cb -> C).
Context (realname : string).

Implicit Types (w : RunWatcher.t cb) (tr : trace) (e : E) (i : info).

Local Abbreviation conv := (in_world cl).
Local Abbreviation rep := (replay call fs_watch fs_close cl).
Local Abbreviation mir := (mirrors call fs_watch fs_close cl).
Local Abbreviation agr := (agrees call fs_watch fs_close cl).

Lemma replay_app tr1 tr2 e :
  rep (tr1 ++ tr2) e = bind (rep tr1 e) (rep tr2).
Proof. apply for_of_app. Qed.

Lemma mirrors_Returned w tr e :
  mir tr e (Returned (w, tr)) (Returned (conv w, e)).
Proof. exists []. by rewrite app_nil_r. Qed.

Lemma mirrors_Thrown x w tr e :
  mir tr e (Thrown x (w, tr)) (Thrown x (conv w, e)).
Proof. exists []. by rewrite app_nil_r. Qed.

Lemma agrees_prefix mk w' ext1 ext2 e e1 oB :
  rep ext1 e = Returned e1 -> agr mk w' ext2 e1 oB ->
  agr mk w' (ext1 ++ ext2) e oB.
Proof.
  intros H1 H2. unfold agrees in *. by rewrite replay_app, H1, bind_Returned.
Qed.

(** When a call of [ext1] throws, what follows does not matter. *)
Lemma agrees_Thrown mk w' ext1 ext2 e y e' wB :
  rep ext1 e = Thrown y e' ->
  agr mk w' (ext1 ++ ext2) e (Thrown y (wB, e')).
Proof.
  intros H1. unfold agrees. rewrite replay_app, H1, bind_Thrown. by exists wB.
Qed.

Lemma agrees_Diverged mk w' ext1 ext2 e :
  rep ext1 e = Diverged -> agr mk w' (ext1 ++ ext2) e Diverged.
Proof. intros H1. unfold agrees. by rewrite replay_app, H1. Qed.

(** The calls made so far returned: go on from there. *)
Lemma mirrors_prefix tr0 ext1 e e1 oA oB :
  rep ext1 e = Returned e1 -> mir (tr0 ++ ext1) e1 oA oB -> mir tr0 e oA oB.
Proof.
  intros H1. unfold mirrors.
  destruct oA as [[w' tr']|x [w' tr']|]; [| |done];
    intros (ext2 & -> & Hag); exists (ext1 ++ ext2);
    (split; [by rewrite app_assoc | by eapply agrees_prefix]).
Qed.

(** A call made so far threw, or ran out of fuel: the rest of the
    recording does not matter. *)
Lemma mirrors_after_Thrown tr0 ext1 e y e' wB e1 oA oB' :
  rep ext1 e = Thrown y e' -> mir (tr0 ++ ext1) e1 oA oB' ->
  mir tr0 e oA (Thrown y (wB, e')).
Proof.
  intros H1. unfold mirrors.
  destruct oA as [[w' tr']|x [w' tr']|]; [| |done];
    intros (ext2 & -> & _); exists (ext1 ++ ext2);
    (split; [by rewrite app_assoc | by apply agrees_Thrown]).
Qed.

Lemma mirrors_after_Diverged tr0 ext1 e e1 oA oB' :
  rep ext1 e = Diverged -> mir (tr0 ++ ext1) e1 oA oB' ->
  mir tr0 e oA Diverged.
Proof.
  intros H1. unfold mirrors.
  destruct oA as [[w' tr']|x [w' tr']|]; [| |done];
    intros (ext2 & -> & _); exists (ext1 ++ ext2);
    (split; [by rewrite app_assoc | by apply agrees_Diverged]).
Qed.

Lemma mirrors_bind tr0 e oA oB kA kB :
  mir tr0 e oA oB ->
  (forall w1 tr1 e1, mir tr1 e1 (kA (w1, tr1)) (kB (conv w1, e1))) ->
  mir tr0 e (bind oA kA) (bind oB kB).
Proof.
  intros Ho Hk. destruct oA as [[w1 tr1]|x [w1 tr1]|]; [| |done].
  - destruct Ho as (ext1 & -> & Hag). unfold agrees in Hag.
    rewrite bind_Returned.
    destruct (rep ext1 e) as [e1|y e1|] eqn:Hr.
    + subst oB. rewrite bind_Returned. by eapply mirrors_prefix.
    + destruct Hag as [wB ->]. rewrite bind_Thrown.
      eapply mirrors_after_Thrown; [exact Hr|].
      apply (Hk w1 (tr0 ++ ext1) e1).
    + subst oB. eapply mirrors_after_Diverged; [exact Hr|].
      apply (Hk w1 (tr0 ++ ext1) e).
  - destruct Ho as (ext1 & -> & Hag). unfold agrees in Hag.
    rewrite bind_Thrown. exists ext1. split; [done|]. unfold agrees.
    destruct (rep ext1 e) as [e1|y e1|].
    + by subst oB.
    + destruct Hag as [wB ->]. by exists wB.
    + by subst oB.
Qed.

Lemma mirrors_for_of {A} (bodyA : A -> RunWatcher.t cb * trace
                                   -> outcome (RunWatcher.t cb * trace))
    (bodyB : A -> RunWatcher.t C * E -> outcome (RunWatcher.t C * E))
    (l : list A) :
  (forall x w1 tr1 e1,
     mir tr1 e1 (bodyA x (w1, tr1)) (bodyB x (conv w1, e1))) ->
  forall w tr e,
    mir tr e (for_of l bodyA (w, tr)) (for_of l bodyB (conv w, e)).
Proof.
  intros Hbody. induction l as [|x l IH]; intros w tr e.
  - apply mirrors_Returned.
  - rewrite !for_of_cons. apply mirrors_bind; [apply Hbody | apply IH].
Qed.

Lemma mirrors_invoke c v w tr e :
  mir tr e (invoke rec_call c v (w, tr)) (invoke call (cl <$> c) v (conv w, e)).
Proof.
  destruct c as [f|]; [|apply mirrors_Thrown].
  simpl. exists [Call f v]. split; [done|]. unfold agrees, replay.
  rewrite for_of_cons. simpl perform.
  destruct (call (cl f) v e) as [e'|y e'|]; simpl; [done | | done].
  by eexists.
Qed.

Lemma mirrors_fileAdded i w tr e :
  mir tr e (fileAdded rec_call realname i (w, tr))
    (fileAdded call realname i (conv w, e)).
Proof.
  unfold fileAdded.
  change (checkFile realname (conv w) (path i) (name i))
    with (checkFile realname w (path i) (name i)).
  destruct (checkFile realname w (path i) (name i)); simpl negb; cbv iota.
  - exact (mirrors_invoke (added w) (VInfo i)
             (set_files (<[name i := i]> (files w)) w) tr e).
  - apply mirrors_Returned.
Qed.

Lemma mirrors_fileRemoved v w tr e :
  mir tr e (fileRemoved rec_call v (w, tr)) (fileRemoved call v (conv w, e)).
Proof.
  unfold fileRemoved. destruct (value_name v) as [n|].
  - exact (mirrors_invoke (removed w) v
             (set_files (delete n (files w)) w) tr e).
  - apply mirrors_Thrown.
Qed.

Lemma mirrors_directoryAdded i w tr e :
  mir tr e (directoryAdded rec_call i (w, tr))
    (directoryAdded call i (conv w, e)).
Proof.
  unfold directoryAdded.
  change (checkDirectory (conv w) (path i) (name i))
    with (checkDirectory w (path i) (name i)).
  destruct (checkDirectory w (path i) (name i)); simpl negb; cbv iota.
  - change (directories (conv w)) with (directories w).
    destruct (directories w) as [d|] eqn:Hd.
    + exact (mirrors_invoke (added w) (VInfo i)
               (set_directories (<[name i := i]> d) w) tr e).
    + apply mirrors_Thrown.
  - apply mirrors_Returned.
Qed.

Lemma mirrors_directoryRemoved v w tr e :
  mir tr e (directoryRemoved rec_call v (w, tr))
    (directoryRemoved call v (conv w, e)).
Proof.
  unfold directoryRemoved.
  change (directories (conv w)) with (directories w).
  destruct (value_name v) as [n|]; [|apply mirrors_Thrown].
  destruct (directories w) as [d|] eqn:Hd; [|apply mirrors_Thrown].
  exact (mirrors_invoke (removed w) v
           (set_directories (delete n d) w) tr e).
Qed.

(** The listener. *)
Lemma mirrors_listener ev file stat w tr e :
  mir tr e (listener rec_call realname ev file stat (w, tr))
    (listener call realname ev file stat (conv w, e)).
Proof.
  unfold listener.
  change (wpath (conv w)) with (wpath w).
  change (files (conv w)) with (files w).
  change (directories (conv w)) with (directories w).
  set (i := fileInfo (path_join (wpath w) file) file stat).
  apply mirrors_bind.
  - destruct (truthy (get (files w) file)); [apply mirrors_fileRemoved|].
    destruct (directories w) as [d|]; [|apply mirrors_Returned].
    destruct (truthy (get d file) && negb (isDirectory i));
      [apply mirrors_directoryRemoved | apply mirrors_Returned].
  - intros w1 tr1 e1. destruct (isFile i); [apply mirrors_fileAdded|].
    destruct (isDirectory i);
      [apply mirrors_directoryAdded | apply mirrors_Returned].
Qed.

(** [watch]. *)
Lemma mirrors_watch a r readdir stat w tr e :
  mir tr e (watch rec_call rec_watch realname a r readdir stat (w, tr))
    (watch call fs_watch realname (cl a) (cl r) readdir stat (conv w, e)).
Proof.
  unfold watch.
  change (watcher (conv w)) with (watcher w).
  change (wpath (conv w)) with (wpath w).
  destruct (watcher w) as [h|]; [apply mirrors_Thrown|]. cbv zeta.
  set (h := (wpath w ++ sep ++ ".")%string).
  set (w2 := set_watcher (Some h) (set_callbacks a r w)).
  change (set_watcher (Some h) (set_callbacks (cl a) (cl r) (conv w)))
    with (conv w2).
  change (scan (conv w2) readdir stat) with (scan w2 readdir stat).
  apply (mirrors_prefix tr [NativeOpen h] e (fs_watch h e)); [done|].
  apply mirrors_bind.
  - apply (mirrors_for_of
             (fun i => if isFile i then fileAdded rec_call realname i
                       else skip)
             (fun i => if isFile i then fileAdded call realname i
                       else skip)).
    intros x w1 tr1 e1.
    destruct (isFile x); [apply mirrors_fileAdded | apply mirrors_Returned].
  - intros w1 tr1 e1.
    apply (mirrors_for_of
             (fun i => if isDirectory i then directoryAdded rec_call i
                       else skip)
             (fun i => if isDirectory i then directoryAdded call i
                       else skip)).
    intros x w3 tr3 e3.
    destruct (isDirectory x);
      [apply mirrors_directoryAdded | apply mirrors_Returned].
Qed.

(** [stop]. *)
Lemma mirrors_stop w tr e :
  mir tr e (RunWatcher.stop rec_call rec_close (w, tr))
    (RunWatcher.stop call fs_close (conv w, e)).
Proof.
  unfold RunWatcher.stop.
  change (watcher (conv w)) with (watcher w).
  change (wpath (conv w)) with (wpath w).
  destruct (watcher w) as [h|]; [|apply mirrors_Thrown]. cbv zeta.
  set (w1 := set_watcher None w).
  change (set_watcher None (conv w)) with (conv w1).
  change (directories (conv w1)) with (directories w1).
  apply (mirrors_prefix tr [NativeClose h] e (fs_close h e)); [done|].
  apply mirrors_bind.
  - destruct (directories w1) as [d|]; [|apply mirrors_Returned].
    apply (mirrors_for_of
             (fun dir '(w', e') =>
                directoryRemoved rec_call
                  match directories w' with
                  | Some d' => to_value (get d' dir)
                  | None => VUndefined
                  end (w', e'))
             (fun dir '(w', e') =>
                directoryRemoved call
                  match directories w' with
                  | Some d' => to_value (get d' dir)
                  | None => VUndefined
                  end (w', e'))).
    intros dir w2 tr2 e2. apply mirrors_directoryRemoved.
  - intros w2 tr2 e2.
    change (files (conv w2)) with (files w2).
    apply (mirrors_for_of
             (fun file '(w', e') =>
                fileRemoved rec_call (to_value (get (files w') file)) (w', e'))
             (fun file '(w', e') =>
                fileRemoved call (to_value (get (files w') file)) (w', e'))).
    intros file w3 tr3 e3. apply mirrors_fileRemoved.
Qed.

Lemma agrees_when_Returned mk w' ext e e' oB :
  rep ext e = Returned e' -> agr mk w' ext e oB -> oB = mk (conv w', e').
Proof. unfold agrees. by intros ->. Qed.

Lemma agrees_when_Thrown mk w' ext e y e' oB :
  rep ext e = Thrown y e' -> agr mk w' ext e oB ->
  exists wB, oB = Thrown y (wB, e').
Proof. unfold agrees. by intros ->. Qed.

Lemma mirrors_when_Returned tr0 e oA oB w' ext :
  oA = Returned (w', tr0 ++ ext) -> mir tr0 e oA oB ->
  agr Returned w' ext e oB.
Proof.
  intros -> (ext' & Heq & Hag). apply app_inv_head in Heq. by subst ext'.
Qed.

(** X19.  What a watcher does is the same in every world.  Take any
    world of callbacks and native calls and run [watch], [stop] or the
    listener there, next to the same call in the recording world on the
    same watcher.  The recording world ends, by returning or by throwing
    on its own, with a log that extends the one it started with.  The
    other world makes the calls logged on the way, in that order; if
    they all return it ends in the same way with the same watcher, in
    the world these calls produce; if one of them throws, it throws the
    same exception in the world that call left, and the calls logged
    after it are not made. *)
Theorem watcher_is_world_independent w tr e :
  (forall a r readdir stat,
     mir tr e (watch rec_call rec_watch realname a r readdir stat (w, tr))
       (watch call fs_watch realname (cl a) (cl r) readdir stat (conv w, e)))
  /\ mir tr e (RunWatcher.stop rec_call rec_close (w, tr))
       (RunWatcher.stop call fs_close (conv w, e))
  /\ (forall ev file stat,
        mir tr e (listener rec_call realname ev file stat (w, tr))
          (listener call realname ev file stat (conv w, e))).
Proof.
  split_and!.
  - intros a r readdir stat. apply mirrors_watch.
  - apply mirrors_stop.
  - intros ev file stat. apply mirrors_listener.
Qed.

End Simulation.

Lemma watcher_is_world_independent_witness :
  exists wB,
    watch demo_failing_call rec_watch demo_realname onAdd onRemove
      demo_readdir demo_stat (RunWatcher.new "/srv" true, [])
    = Thrown (Error "callback failed")
        (wB, [NativeOpen "/srv/."; Call onAdd (VInfo demo_file)]).
Proof.
  pose proof (proj1 (watcher_is_world_independent demo_failing_call rec_watch
                       rec_close id demo_realname
                       (RunWatcher.new "/srv" true) [] [])
                onAdd onRemove demo_readdir demo_stat) as H.
  apply (mirrors_when_Returned demo_failing_call rec_watch rec_close id
           [] [] _ _ demo_root
           [NativeOpen "/srv/."; Call onAdd (VInfo demo_file);
            Call onAdd (VInfo demo_dir)] demo_root_scanned) in H.
  apply (agrees_when_Thrown demo_failing_call rec_watch rec_close id
           _ _ _ _ (Error "callback failed")
           [NativeOpen "/srv/."; Call onAdd (VInfo demo_file)]) in H;
    [exact H | by vm_compute].
Defined.

(* ===================================================================== *)
(** ** A subdirectory comes and goes *)
(* ===================================================================== *)

Lemma append_inj_r (d a b : string) : (d ++ a = d ++ b)%string -> a = b.
Proof.
  induction d as [|c d IH]; simpl; [done|]. intros [= H]. by apply IH.
Qed.

Lemma path_join_inj d a b : path_join d a = path_join d b -> a = b.
Proof. unfold path_join. intros H%append_inj_r. by apply append_inj_r in H. Qed.

Lemma flat_map_ext_elem {A B} (f g : A -> list B) (l : list A) :
  (forall x, x ∈ l -> f x = g x) -> flat_map f l = flat_map g l.
Proof.
  induction l as [|x l IH]; intros H; [done|]. simpl.
  rewrite (H x) by (by left). f_equal. apply IH. intros y Hy. apply H.
  by right.
Qed.

Section ModuleSteps.

Context (loader : string -> loaded).
Context (realpath : string -> string).

Implicit Types (s : RunDir.t) (c : gmap string exports) (p q : string).

Lemma events_notify_all l : forall s,
  events (notify_all l s) = events s ++ l.
Proof.
  induction l as [|n l IH]; intros s; [by rewrite app_nil_r|].
  change (notify_all (n :: l) s) with (notify_all l (notify n.1 n.2 s)).
  rewrite IH. destruct (notify_effect n.1 n.2 s) as (_ & _ & ph & Hb).
  unfold events at 1. rewrite Hb, fmap_app. simpl.
  destruct n as [ev args]. by rewrite <- app_assoc.
Qed.

Lemma notify_set_watchers ev args ws s :
  notify ev args (set_watchers ws s) = set_watchers ws (notify ev args s).
Proof.
  unfold notify. simpl.
  destruct (length (queue s ++ [length (batches s)]) =? 1)%nat; [|done].
  unfold resolve, phase_of. simpl.
  by destruct (b_phase <$> (batches s ++ _) !! length (batches s))
    as [[]|].
Qed.

Lemma notify_all_set_watchers l ws : forall s,
  notify_all l (set_watchers ws s) = set_watchers ws (notify_all l s).
Proof.
  induction l as [|n l IH]; intros s; [done|].
  unfold notify_all in *. simpl. by rewrite notify_set_watchers, IH.
Qed.

Lemma load_step_set_watchers p ws s :
  load_step loader realpath p (set_watchers ws s)
  = set_watchers ws (load_step loader realpath p s).
Proof.
  unfold load_step. simpl cache.
  destruct (module_at loader realpath (cache s) p) as [x|e]; [|done].
  destruct (null_hooks x); [done|]. cbv zeta.
  by rewrite <- notify_all_set_watchers.
Qed.

Lemma load_all_set_watchers ps ws : forall s,
  load_all loader realpath ps (set_watchers ws s)
  = set_watchers ws (load_all loader realpath ps s).
Proof.
  induction ps as [|p ps IH]; intros s; [done|].
  unfold load_all in *. simpl. by rewrite load_step_set_watchers, IH.
Qed.

Lemma load_step_frame p s :
  watchers (load_step loader realpath p s) = watchers s
  /\ cache (load_step loader realpath p s) = cache_step loader realpath (cache s) p
  /\ events (load_step loader realpath p s)
     = events s ++ announced loader realpath (cache s) p.
Proof.
  unfold load_step, announced.
  destruct (module_at loader realpath (cache s) p) as [x|e];
    [|by rewrite app_nil_r].
  destruct (null_hooks x); [by rewrite app_nil_r|]. cbv zeta.
  destruct (notify_all_frame (announce_load p x)
              (set_cache (cache_step loader realpath (cache s) p) s))
    as (-> & -> & _).
  by rewrite events_notify_all.
Qed.

Lemma cache_step_ne c p q :
  realpath p <> q -> cache_step loader realpath c p !! q = c !! q.
Proof.
  intros Hne. unfold cache_step.
  destruct (module_at loader realpath c p); [|done].
  by rewrite lookup_insert_ne.
Qed.

(** What [require] yields for a path does not depend on what has been
    required before. *)
Lemma module_at_step c p q :
  module_at loader realpath (cache_step loader realpath c p) q
  = module_at loader realpath c q.
Proof.
  unfold cache_step.
  destruct (module_at loader realpath c p) as [x|e] eqn:Hp; [|done].
  unfold module_at in *.
  destruct (decide (realpath p = realpath q)) as [Heq | Hne].
  - rewrite <- Heq, lookup_insert_eq. by rewrite <- Hp.
  - by rewrite lookup_insert_ne.
Qed.

Lemma announced_step c p q :
  announced loader realpath (cache_step loader realpath c p) q
  = announced loader realpath c q.
Proof. unfold announced. by rewrite module_at_step. Qed.

(** The entry of the real path [r] once the paths [ps] have been
    required: what was cached stays, and a module that loads is cached
    when one of the paths resolves to [r]. *)
Lemma load_all_at ps r : forall s,
  cache (load_all loader realpath ps s) !! r
  = match cache s !! r with
    | Some x => Some x
    | None =>
        if bool_decide (r ∈ realpath <$> ps) then
          match loader r with LoadOk x => Some x | LoadFails _ => None end
        else None
    end.
Proof.
  induction ps as [|p ps IH]; intros s.
  - change (load_all loader realpath [] s) with s.
    destruct (cache s !! r); [done|].
    rewrite bool_decide_eq_false_2; [done | apply not_elem_of_nil].
  - change (load_all loader realpath (p :: ps) s)
      with (load_all loader realpath ps (load_step loader realpath p s)).
    rewrite IH. destruct (load_step_frame p s) as (_ & -> & _).
    rewrite fmap_cons.
    destruct (decide (realpath p = r)) as [<- | Hne].
    + rewrite (bool_decide_eq_true_2 (realpath p ∈ realpath p :: _))
        by (by left).
      unfold cache_step, module_at.
      destruct (cache s !! realpath p) as [x|] eqn:Hc.
      * by rewrite lookup_insert_eq.
      * destruct (loader (realpath p)) as [x|e] eqn:Hl.
        -- by rewrite lookup_insert_eq.
        -- rewrite Hc. by destruct (bool_decide _).
    + rewrite cache_step_ne by done.
      destruct (cache s !! r); [done|].
      apply (f_equal (fun b : bool => if b then _ else _)).
      apply bool_decide_ext. rewrite elem_of_cons.
      split; [by right | by intros [? | ?]].
Qed.

Lemma load_all_frame ps : forall s,
  watchers (load_all loader realpath ps s) = watchers s
  /\ events (load_all loader realpath ps s)
     = events s ++ flat_map (announced loader realpath (cache s)) ps
  /\ (forall q, q ∉ realpath <$> ps ->
        cache (load_all loader realpath ps s) !! q = cache s !! q)
  /\ (forall q, q ∈ ps ->
        cache (load_all loader realpath ps s) !! realpath q
        = cache_step loader realpath (cache s) q !! realpath q).
Proof.
  intros s. split_and!.
  - revert s. induction ps as [|p ps IH]; intros s; [done|].
    change (load_all loader realpath (p :: ps) s)
      with (load_all loader realpath ps (load_step loader realpath p s)).
    rewrite IH. by destruct (load_step_frame p s) as (-> & _).
  - revert s. induction ps as [|p ps IH]; intros s;
      [by rewrite app_nil_r|].
    change (load_all loader realpath (p :: ps) s)
      with (load_all loader realpath ps (load_step loader realpath p s)).
    destruct (load_step_frame p s) as (_ & Hc & He).
    rewrite IH, He, <- app_assoc. f_equal. simpl. f_equal.
    apply flat_map_ext_elem. intros q _. rewrite Hc.
    apply announced_step.
  - intros q Hq. rewrite load_all_at.
    rewrite (bool_decide_eq_false_2 _ Hq). by destruct (cache s !! q).
  - intros q Hq. rewrite load_all_at.
    rewrite (bool_decide_eq_true_2 (realpath q ∈ realpath <$> ps))
      by (by apply list_elem_of_fmap_2).
    unfold cache_step, module_at.
    destruct (cache s !! realpath q) as [x|] eqn:Hc.
    + by rewrite lookup_insert_eq.
    + destruct (loader (realpath q)); [by rewrite lookup_insert_eq | done].
Qed.

Lemma unload_step_frame p s :
  watchers (unload_step p s) = watchers s
  /\ cache (unload_step p s) = delete p (cache s)
  /\ events (unload_step p s) = events s ++ retracted (cache s) p
  /\ log (unload_step p s) = log s.
Proof.
  unfold unload_step.
  destruct (notify_all_frame (retracted (cache s) p)
              (set_cache (delete p (cache s)) s))
    as (-> & -> & _ & _ & ->).
  by rewrite events_notify_all.
Qed.

Lemma unload_all_frame ps : forall s,
  NoDup ps ->
  watchers (unload_all ps s) = watchers s
  /\ events (unload_all ps s)
     = events s ++ flat_map (retracted (cache s)) ps
  /\ log (unload_all ps s) = log s
  /\ (forall q, q ∉ ps -> cache (unload_all ps s) !! q = cache s !! q)
  /\ (forall q, q ∈ ps -> cache (unload_all ps s) !! q = None).
Proof.
  induction ps as [|p ps IH]; intros s Hnd.
  - split_and!; try done; [by rewrite app_nil_r|].
    intros q Hq. by apply elem_of_nil in Hq.
  - apply NoDup_cons in Hnd as [Hp Hnd].
    change (unload_all (p :: ps) s) with (unload_all ps (unload_step p s)).
    destruct (unload_step_frame p s) as (Hw & Hc & He & Hl).
    destruct (IH (unload_step p s) Hnd) as (IH1 & IH2 & IH3 & IH4 & IH5).
    split_and!.
    + by rewrite IH1.
    + rewrite IH2, He, <- app_assoc. f_equal. simpl. f_equal.
      apply flat_map_ext_elem. intros q Hq. unfold retracted.
      rewrite Hc, lookup_delete_ne; [done|]. by intros ->.
    + by rewrite IH3.
    + intros q [Hne Hq]%not_elem_of_cons. rewrite IH4 by done.
      rewrite Hc. by rewrite lookup_delete_ne.
    + intros q [-> | Hq]%elem_of_cons; [|by apply IH5].
      rewrite IH4 by done. rewrite Hc. apply lookup_delete_eq.
Qed.

End ModuleSteps.

Section Subdirectory.

Context (loader : string -> loaded).
Context (realpath : string -> string).
Context (readdir : string -> list string).
Context (stat : string -> option Stats).
Context (realname : string).

Implicit Types (s : RunDir.t) (i f : info).

Local Abbreviation call := (call_closure loader realpath readdir stat realname).
Local Abbreviation rep n :=
  (replay (call n) (fun h => emit [Opened h]) (fun h => emit [Closed h])
     engine_closure).

(** The adder on a file, as a step. *)
Lemma adder_file_step self f s :
  isFile f = true ->
  adder_body loader realpath readdir stat realname self (VInfo f) s
  = Returned (load_step loader realpath (path f) s).
Proof.
  intros Hfile. unfold adder_body, require, load_step, cache_step, module_at.
  cbv zeta.
  rewrite Hfile. destruct (cache s !! realpath (path f)) as [x|] eqn:Hc.
  - assert (Hs : set_cache (<[realpath (path f) := x]> (cache s)) s = s).
    { rewrite insert_id by done. by destruct s. }
    rewrite Hs. by destruct x as [| |id [| |[h|] u]].
  - destruct (loader (realpath (path f))) as [x|e].
    + by destruct x as [| |id [| |[h|] u]].
    + f_equal; by destruct s.
Qed.

Lemma replay_adds n (fl : list info) : forall s,
  Forall (fun f => isFile f = true) fl ->
  rep (S n) (adds fl) s = Returned (load_all loader realpath (path <$> fl) s).
Proof.
  induction fl as [|f fl IH]; intros s Hall; [done|].
  apply Forall_cons in Hall as [Hf Hall].
  unfold replay in *.
  change (adds (f :: fl)) with (Call onAdd (VInfo f) :: adds fl).
  rewrite for_of_cons.
  change (perform (call (S n)) (fun h => emit [Opened h])
            (fun h => emit [Closed h]) engine_closure
            (Call onAdd (VInfo f)) s)
    with (adder_body loader realpath readdir stat realname (call n) (VInfo f) s).
  rewrite adder_file_step by done. rewrite bind_Returned.
  by apply IH.
Qed.

(** The adder on a directory for which no watcher is registered: the
    watcher it registers and the loads it makes. *)
Lemma adder_loads_directory n i s :
  isFile i = false -> isDirectory i = true ->
  truthy (get (watchers s) (path i)) = false ->
  NoDup (readdir (path i)) ->
  let w0 := RunWatcher.new (C := cb) (path i) false in
  let fl := filter (fun x => eligible_file realname w0 x)
              (scan w0 (readdir (path i)) stat) in
  let h := (path i ++ "/.")%string in
  let w' := {| wpath := path i; files := insert_all ∅ fl;
               watcher := Some h; directories := None;
               added := Some onAdd; removed := Some onRemove |} in
  StronglySorted String.le (name <$> fl)
  /\ NoDup (path <$> fl)
  /\ call (S (S n)) adder (VInfo i) s
     = Returned
         (set_watchers (<[path i := in_world engine_closure w']> (watchers s))
            (load_all loader realpath (path <$> fl) (emit [Opened h] s))).
Proof.
  intros Hfile Hdir Hnone Hnd w0 fl h w'.
  assert (Hsorted : StronglySorted String.le (name <$> fl))
    by apply fmap_filter_sorted, scan_sorted.
  assert (Hpaths : forall f, f ∈ fl ->
            isFile f = true /\ path f = path_join (path i) (name f)).
  { intros f [He Hf]%list_elem_of_filter.
    apply Is_true_true, andb_true_iff in He as [He _]. split; [done|].
    pose proof (scan_elem w0 _ _ _ Hf) as Hf'. by rewrite Hf' at 1. }
  assert (Hndp : NoDup (path <$> fl)).
  { assert (Hndn : NoDup (name <$> fl))
      by (apply fmap_filter_NoDup; by apply scan_NoDup).
    clear -Hndn Hpaths. induction fl as [|f fl IH]; [constructor|].
    rewrite fmap_cons in *. apply NoDup_cons in Hndn as [Hf Hndn].
    apply NoDup_cons. split.
    - intros (g & Hg1 & Hg2)%list_elem_of_fmap. apply Hf.
      apply list_elem_of_fmap. exists g. split; [|done].
      destruct (Hpaths f) as [_ Hpf]; [by left|].
      destruct (Hpaths g) as [_ Hpg]; [by right|].
      rewrite Hpf, Hpg in Hg1. by apply path_join_inj in Hg1.
    - apply IH; [|done]. intros g Hg. apply Hpaths. by right. }
  split; [done|]. split; [done|].
  - change (call (S (S n)) adder (VInfo i) s)
      with (adder_body loader realpath readdir stat realname (call (S n)) (VInfo i) s).
    unfold adder_body. rewrite Hfile, Hdir, Hnone. simpl andb. cbv iota.
    set (s1 := set_watchers
                 (<[path i := RunWatcher.new (path i) false]> (watchers s)) s).
    pose proof (mirrors_watch (call (S n)) (fun h => emit [Opened h])
                  (fun h => emit [Closed h]) engine_closure realname
                  onAdd onRemove (readdir (path i)) stat w0 [] s1) as Hm.
    pose proof (watch_rec realname w0 (readdir (path i)) stat []
                  eq_refl Hnd) as HA.
    cbv zeta in HA.
    rewrite (eligible_dir_not_recursive w0 _ eq_refl), app_nil_r in HA.
    apply (mirrors_when_Returned _ _ _ _ [] s1 _ _ w'
             (NativeOpen h :: adds fl) HA) in Hm.
    apply (agrees_when_Returned _ _ _ _ _ _ _ _
             (load_all loader realpath (path <$> fl) (emit [Opened h] s1))) in Hm.
    2:{ unfold replay. rewrite for_of_cons. simpl perform.
        rewrite bind_Returned. apply replay_adds.
        apply Forall_forall. intros f Hf. by apply Hpaths. }
    unfold with_watcher.
    etransitivity;
      [exact (f_equal
                (lift (fun '(w1, s') =>
                         set_watchers (<[path i := w1]> (watchers s')) s'))
                Hm)|].
    rewrite lift_Returned. f_equal.
    unfold s1.
    change (emit [Opened h] (set_watchers ?ws s))
      with (set_watchers ws (emit [Opened h] s)).
    rewrite load_all_set_watchers. simpl. by rewrite insert_insert_eq.
Qed.

(** X20.  The scripts of a subdirectory are loaded in the order of their
    names.  Handed a directory entry [i] for which no watcher is
    registered, the adder registers a watcher that holds the handle of
    [i] and tracks the eligible files of its listing, and it has required
    these files one after the other, by ascending name: the engine is in
    the state that this sequence of loads leaves, and the notifications
    enqueued on the way are those of the first file, then those of the
    second, and so on. *)
Theorem subdirectory_is_loaded_in_order n i s :
  isFile i = false -> isDirectory i = true ->
  truthy (get (watchers s) (path i)) = false ->
  NoDup (readdir (path i)) ->
  let w0 := RunWatcher.new (C := cb) (path i) false in
  let fl := filter (fun x => eligible_file realname w0 x)
              (scan w0 (readdir (path i)) stat) in
  let h := (path i ++ "/.")%string in
  let w' := {| wpath := path i; files := insert_all ∅ fl;
               watcher := Some h; directories := None;
               added := Some onAdd; removed := Some onRemove |} in
  StronglySorted String.le (name <$> fl)
  /\ NoDup (path <$> fl)
  /\ call (S (S n)) adder (VInfo i) s
     = Returned
         (set_watchers (<[path i := in_world engine_closure w']> (watchers s))
            (load_all loader realpath (path <$> fl) (emit [Opened h] s)))
  /\ events (load_all loader realpath (path <$> fl) (emit [Opened h] s))
     = events s ++ flat_map (announced loader realpath (cache s)) (path <$> fl).
Proof.
  intros Hfile Hdir Hnone Hnd w0 fl h w'.
  destruct (adder_loads_directory n i s Hfile Hdir Hnone Hnd)
    as (Hsorted & Hndp & Hrun).
  fold w0 fl h w' in Hsorted, Hndp, Hrun.
  split_and!; [done | done | exact Hrun |].
  destruct (load_all_frame loader realpath (path <$> fl) (emit [Opened h] s))
    as (_ & He & _).
  exact He.
Qed.

(** The remover on a file whose module, if cached, can be inspected. *)
Lemma remover_file_step self f s :
  isFile f = true ->
  (forall x, cache s !! path f = Some x -> inspectable x = true) ->
  remover_body self (VInfo f) s = Returned (unload_step (path f) s).
Proof.
  intros Hfile Hx. unfold remover_body, unload_step, retracted.
  rewrite Hfile. destruct (cache s !! path f) as [x|] eqn:Hc.
  - specialize (Hx x eq_refl). by destruct x as [| |id [| |l [h|]]].
  - rewrite delete_id by done. f_equal; by destruct s.
Qed.

Lemma replay_removes n (fl : list info) : forall s,
  Forall (fun f => isFile f = true) fl ->
  (forall f x, f ∈ fl -> cache s !! path f = Some x -> inspectable x = true) ->
  rep (S n) (removes fl) s = Returned (unload_all (path <$> fl) s).
Proof.
  induction fl as [|f fl IH]; intros s Hall Hread; [done|].
  apply Forall_cons in Hall as [Hf Hall].
  unfold replay in *.
  change (removes (f :: fl)) with (Call onRemove (VInfo f) :: removes fl).
  rewrite for_of_cons.
  change (perform (call (S n)) (fun h => emit [Opened h])
            (fun h => emit [Closed h]) engine_closure
            (Call onRemove (VInfo f)) s)
    with (remover_body (call n) (VInfo f) s).
  rewrite remover_file_step; [|done|intros x; apply Hread; by left].
  rewrite bind_Returned. apply IH; [done|].
  intros g x Hg. destruct (unload_step_frame (path f) s) as (_ & -> & _).
  intros [_ Hc]%lookup_delete_Some. apply (Hread g); [by right | done].
Qed.

Lemma set_watchers_over a b (s : RunDir.t) :
  set_watchers a (set_watchers b s) = set_watchers a s.
Proof. reflexivity. Qed.

(** Children of one directory with distinct names have distinct paths. *)
Lemma paths_NoDup (b : string) (l : list info) :
  (forall f, f ∈ l -> path f = path_join b (name f)) ->
  NoDup (name <$> l) -> NoDup (path <$> l).
Proof.
  induction l as [|f l IH]; intros Hp Hnd; [constructor|].
  rewrite fmap_cons in *. apply NoDup_cons in Hnd as [Hf Hnd].
  apply NoDup_cons. split.
  - intros (g & Hg1 & Hg2)%list_elem_of_fmap. apply Hf.
    apply list_elem_of_fmap. exists g. split; [|done].
    rewrite (Hp f), (Hp g) in Hg1 by (by constructor).
    by apply path_join_inj in Hg1.
  - apply IH; [|done]. intros g Hg. apply Hp. by right.
Qed.

(** The eligible files of a directory entry. *)
Lemma sub_files_elem d f :
  f ∈ sub_files readdir stat realname d ->
  isFile f = true /\ name f ∈ readdir (path d)
  /\ path f = path_join (path d) (name f).
Proof.
  intros [He Hf]%list_elem_of_filter.
  apply Is_true_true, andb_true_iff in He as [He _]. split; [done|].
  pose proof (scan_elem _ _ _ _ Hf) as Hf'. split; [|by rewrite Hf' at 1].
  apply sort_elem_of.
  rewrite <- (scan_names (RunWatcher.new (path d) false) _ stat).
  by apply list_elem_of_fmap_2.
Qed.

Lemma sub_files_names d :
  NoDup (readdir (path d)) ->
  NoDup (name <$> sub_files readdir stat realname d)
  /\ StronglySorted String.le (name <$> sub_files readdir stat realname d).
Proof.
  intros Hnd. split.
  - apply fmap_filter_NoDup. by apply scan_NoDup.
  - apply fmap_filter_sorted, scan_sorted.
Qed.

(** The remover on a directory whose watcher is the one the adder
    registered: the teardown, as a step. *)
Lemma remover_unloads_directory m d s :
  isFile d = false -> isDirectory d = true ->
  NoDup (readdir (path d)) ->
  watchers s !! path d
  = Some (in_world engine_closure (sub_watcher readdir stat realname d)) ->
  (forall f x, f ∈ sub_files readdir stat realname d ->
     cache s !! path f = Some x -> inspectable x = true) ->
  call (S (S m)) remover (VInfo d) s
  = Returned (dir_unload readdir stat realname d s).
Proof.
  intros Hfile Hdir Hnd Hreg Hread.
  set (fl := sub_files readdir stat realname d) in *.
  set (w' := sub_watcher readdir stat realname d) in *.
  set (h := (path d ++ "/.")%string).
  destruct (sub_files_names d Hnd) as [Hndn Hsorted]. fold fl in Hndn, Hsorted.
  (* the teardown of the watcher, in the recording world *)
  assert (Hok : tracked_ok realname w')
    by (apply (watch_idle_tracked_ok realname
                 (RunWatcher.new (path d) false) (readdir (path d)) stat h);
        [by repeat split | done]).
  pose proof (stop_rec realname w' h [] fl [] Hok eq_refl eq_refl) as HA.
  specialize (HA ltac:(unfold tracked_dirs, keys; simpl;
                       rewrite map_to_list_empty; constructor)).
  specialize (HA ltac:(unfold w', sub_watcher; simpl files; fold fl;
                       rewrite sort_keys_insert_all by done;
                       by apply entries_at_insert_all)).
  pose proof (mirrors_stop (call (S m)) (fun h => emit [Opened h])
                (fun h => emit [Closed h]) engine_closure w' [] s) as Hm.
  apply (mirrors_when_Returned _ _ _ _ [] s _ _ _
           (NativeClose h :: removes (reverse fl)) HA) in Hm.
  apply (agrees_when_Returned _ _ _ _ _ _ _ _
           (unload_all (path <$> reverse fl) (emit [Closed h] s))) in Hm.
  2:{ unfold replay. rewrite for_of_cons.
      change (perform _ _ _ _ (NativeClose h) s)
        with (Returned (emit [Closed h] s)).
      rewrite bind_Returned. apply replay_removes.
      - apply Forall_forall. intros f Hf. rewrite elem_of_reverse in Hf.
        by apply (sub_files_elem d).
      - intros f x Hf. rewrite elem_of_reverse in Hf. by apply Hread. }
  change (call (S (S m)) remover (VInfo d) s)
    with (remover_body (call (S m)) (VInfo d) s).
  unfold remover_body. rewrite Hfile, Hdir, (get_Some _ _ _ Hreg).
  unfold with_watcher.
  assert (Hstop : lift
            (fun '(w1, s') =>
               set_watchers (<[path d := w1]> (watchers s')) s')
            (RunWatcher.stop (call (S m)) (fun h => emit [Closed h])
               (in_world engine_closure w', s))
          = lift
              (fun '(w1, s') =>
                 set_watchers (<[path d := w1]> (watchers s')) s')
              (Returned (_, unload_all (path <$> reverse fl)
                              (emit [Closed h] s))))
    by exact (f_equal _ Hm).
  rewrite Hstop, lift_Returned. simpl directories. f_equal.
  unfold dir_unload. fold fl h. rewrite fmap_reverse.
  assert (Hndr : NoDup (reverse (path <$> fl))).
  { rewrite reverse_Permutation. apply (paths_NoDup (path d)); [|done].
    intros f Hf. by apply (sub_files_elem d). }
  destruct (unload_all_frame (reverse (path <$> fl)) (emit [Closed h] s) Hndr)
    as (Hw & _).
  rewrite set_watchers_over. simpl watchers.
  by rewrite delete_insert_eq, Hw.
Qed.


End Subdirectory.

Lemma demo_plugins_NoDup : NoDup (demo_fs_readdir (path demo_dir)).
Proof. apply (bool_decide_unpack _). by vm_compute. Qed.

Lemma subdirectory_is_loaded_in_order_witness :
  exists s1,
    call_closure demo_loader demo_realpath demo_fs_readdir demo_fs_stat demo_realname 2
      adder (VInfo demo_dir) init = Returned s1
    /\ events s1
       = [(Named "load", [APath "/srv/plugins/x.js"; AExports demo_exports])]
    /\ log s1 = [Opened "/srv/plugins/."; Reported demo_syntax_error].
Proof.
  destruct (subdirectory_is_loaded_in_order demo_loader demo_realpath demo_fs_readdir
              demo_fs_stat demo_realname 0 demo_dir init
              eq_refl eq_refl eq_refl demo_plugins_NoDup)
    as (_ & _ & Hrun & Hev).
  eexists. split; [exact Hrun|]. split.
  - etransitivity; [exact Hev|]. by vm_compute.
  - by vm_compute.
Defined.

Lemma demo_plugins_real k :
  k ∈ demo_fs_readdir (path demo_dir) ->
  demo_realpath (path_join (path demo_dir) k) = path_join (path demo_dir) k.
Proof.
  change (demo_fs_readdir (path demo_dir))
    with ["x.js"; "deep"; "bad.js"]%string.
  intros Hk.
  repeat (apply elem_of_cons in Hk as [-> | Hk]; [reflexivity|]).
  by apply elem_of_nil in Hk.
Qed.


(* ===================================================================== *)
(** ** Stopping a target undoes running it *)
(* ===================================================================== *)

Lemma elem_of_flat_map {A B} (f : A -> list B) (l : list A) (y : B) :
  y ∈ flat_map f l <-> exists x, x ∈ l /\ y ∈ f x.
Proof.
  induction l as [|a l IH]; simpl.
  - split; [by intros ?%elem_of_nil | by intros (x & ?%elem_of_nil & _)].
  - rewrite elem_of_app, IH. split.
    + intros [Hy | (x & Hx & Hy)]; [exists a | exists x]; split; try done;
        by constructor.
    + intros (x & [-> | Hx]%elem_of_cons & Hy); [by left|]. right. by exists x.
Qed.

Section ModuleInvariants.

Context (loader : string -> loaded).
Context (realpath : string -> string).

Implicit Types (s : RunDir.t) (p q : string) (U : string -> Prop).

Lemma load_all_watchers ps s :
  watchers (load_all loader realpath ps s) = watchers s.
Proof. by destruct (load_all_frame loader realpath ps s) as (-> & _). Qed.

Lemma load_all_other ps q s :
  q ∉ realpath <$> ps ->
  cache (load_all loader realpath ps s) !! q = cache s !! q.
Proof.
  intros Hq.
  destruct (load_all_frame loader realpath ps s) as (_ & _ & H & _).
  by apply H.
Qed.

Lemma unload_all_watchers ps : forall s,
  watchers (unload_all ps s) = watchers s.
Proof.
  induction ps as [|p ps IH]; intros s; [done|].
  change (unload_all (p :: ps) s) with (unload_all ps (unload_step p s)).
  rewrite IH. by destruct (unload_step_frame p s) as (-> & _).
Qed.

Lemma unload_all_other ps q : forall s,
  q ∉ ps -> cache (unload_all ps s) !! q = cache s !! q.
Proof.
  induction ps as [|p ps IH]; intros s Hq; [done|].
  apply not_elem_of_cons in Hq as [Hne Hq].
  change (unload_all (p :: ps) s) with (unload_all ps (unload_step p s)).
  rewrite IH by done.
  destruct (unload_step_frame p s) as (_ & -> & _).
  by apply lookup_delete_ne.
Qed.

(** What has been evicted stays evicted while modules are only
    evicted. *)
Lemma unload_all_stays ps q : forall s,
  cache s !! q = None -> cache (unload_all ps s) !! q = None.
Proof.
  induction ps as [|p ps IH]; intros s Hq; [done|].
  change (unload_all (p :: ps) s) with (unload_all ps (unload_step p s)).
  apply IH. destruct (unload_step_frame p s) as (_ & -> & _).
  apply lookup_delete_None. by right.
Qed.

Lemma unload_all_gone ps q : forall s,
  q ∈ ps -> cache (unload_all ps s) !! q = None.
Proof.
  induction ps as [|p ps IH]; intros s Hq; [by apply elem_of_nil in Hq|].
  change (unload_all (p :: ps) s) with (unload_all ps (unload_step p s)).
  apply elem_of_cons in Hq as [-> | Hq]; [|by apply IH].
  apply unload_all_stays.
  destruct (unload_step_frame p s) as (_ & -> & _). apply lookup_delete_eq.
Qed.

Lemma unload_all_inspectable U ps : forall s,
  inspectable_on U (cache s) -> inspectable_on U (cache (unload_all ps s)).
Proof.
  induction ps as [|p ps IH]; intros s H; [done|].
  change (unload_all (p :: ps) s) with (unload_all ps (unload_step p s)).
  apply IH. destruct (unload_step_frame p s) as (_ & -> & _).
  intros q x HU [_ Hq]%lookup_delete_Some. by apply (H q).
Qed.

(** A cached module stays cached while modules are only loaded. *)
Lemma load_all_cached ps q x s :
  cache s !! q = Some x ->
  cache (load_all loader realpath ps s) !! q = Some x.
Proof. intros Hq. by rewrite load_all_at, Hq. Qed.

(** A module that loads is cached once a path that resolves to its file
    has been required. *)
Lemma load_all_known ps q x s :
  loader q = LoadOk x -> q ∈ realpath <$> ps ->
  cache s !! q = None \/ cache s !! q = Some x ->
  cache (load_all loader realpath ps s) !! q = Some x.
Proof.
  intros Hl Hq Hc. rewrite load_all_at.
  destruct Hc as [-> | ->]; [|done].
  by rewrite (bool_decide_eq_true_2 _ Hq), Hl.
Qed.

Hypothesis Hloader : forall p x, loader p = LoadOk x -> inspectable x = true.

Lemma load_step_inspectable U p s :
  inspectable_on U (cache s) ->
  inspectable_on U (cache (load_step loader realpath p s)).
Proof.
  intros H q x HU.
  destruct (load_step_frame loader realpath p s) as (_ & -> & _).
  unfold cache_step, module_at.
  destruct (cache s !! realpath p) as [x0|] eqn:Hc;
    [|destruct (loader (realpath p)) as [x0|e] eqn:Hl].
  - rewrite insert_id by done. by apply H.
  - intros [[<- <-] | [_ Hq]]%lookup_insert_Some;
      [by apply (Hloader (realpath p))|].
    by apply (H q).
  - by apply H.
Qed.

Lemma load_all_inspectable U ps : forall s,
  inspectable_on U (cache s) ->
  inspectable_on U (cache (load_all loader realpath ps s)).
Proof.
  induction ps as [|p ps IH]; intros s H; [done|].
  change (load_all loader realpath (p :: ps) s)
    with (load_all loader realpath ps (load_step loader realpath p s)).
  by apply IH, load_step_inspectable.
Qed.

End ModuleInvariants.

Section Restart.

Context (loader : string -> loaded).
Context (realpath : string -> string).
Context (readdir : string -> list string).
Context (stat : string -> option Stats).
Context (realname : string).

Implicit Types (s : RunDir.t) (d f : info) (t p q : string).
Implicit Types (U : string -> Prop).

Local Abbreviation call := (call_closure loader realpath readdir stat realname).
Local Abbreviation rep n :=
  (replay (call n) (fun h => emit [Opened h]) (fun h => emit [Closed h])
     engine_closure).
Local Abbreviation conv := (in_world engine_closure).
Local Abbreviation sfiles := (sub_files readdir stat realname).
Local Abbreviation spaths := (sub_paths readdir stat realname).
Local Abbreviation swatcher := (sub_watcher readdir stat realname).
Local Abbreviation dload := (dir_load loader realpath readdir stat realname).
Local Abbreviation dunload := (dir_unload readdir stat realname).
Local Abbreviation dsload := (dirs_load loader realpath readdir stat realname).
Local Abbreviation dsunload := (dirs_unload readdir stat realname).
Local Abbreviation rfiles := (root_files readdir stat realname).
Local Abbreviation rdirs := (root_dirs readdir stat).

(** *** One directory *)

Lemma dir_load_other d s q :
  q ∉ realpath <$> spaths d -> cache (dload d s) !! q = cache s !! q.
Proof.
  intros Hq.
  change (cache (load_all loader realpath (spaths d)
                   (emit [Opened (path d ++ "/.")%string] s)) !! q
          = cache s !! q).
  by rewrite load_all_other.
Qed.

Lemma dir_unload_other d s q :
  q ∉ spaths d -> cache (dunload d s) !! q = cache s !! q.
Proof.
  intros Hq.
  change (cache (unload_all (reverse (spaths d))
                   (emit [Closed (path d ++ "/.")%string] s)) !! q
          = cache s !! q).
  rewrite unload_all_other; [done|]. by rewrite elem_of_reverse.
Qed.

Lemma dir_unload_stays d s q :
  cache s !! q = None -> cache (dunload d s) !! q = None.
Proof.
  intros Hq.
  change (cache (unload_all (reverse (spaths d))
                   (emit [Closed (path d ++ "/.")%string] s)) !! q = None).
  by apply unload_all_stays.
Qed.

Lemma dir_unload_gone d s q :
  q ∈ spaths d -> cache (dunload d s) !! q = None.
Proof.
  intros Hq.
  change (cache (unload_all (reverse (spaths d))
                   (emit [Closed (path d ++ "/.")%string] s)) !! q = None).
  apply unload_all_gone. by rewrite elem_of_reverse.
Qed.

Lemma dir_unload_inspectable U d s :
  inspectable_on U (cache s) -> inspectable_on U (cache (dunload d s)).
Proof.
  intros H.
  change (inspectable_on U
            (cache (unload_all (reverse (spaths d))
                      (emit [Closed (path d ++ "/.")%string] s)))).
  by apply unload_all_inspectable.
Qed.

(** *** The directories of a target, one after the other *)

Lemma dirs_load_cons d dl s : dsload (d :: dl) s = dsload dl (dload d s).
Proof. reflexivity. Qed.

Lemma dirs_unload_cons d dl s :
  dsunload (d :: dl) s = dsunload dl (dunload d s).
Proof. reflexivity. Qed.

Lemma dirs_load_unregistered dl p : forall s,
  p ∉ path <$> dl -> watchers (dsload dl s) !! p = watchers s !! p.
Proof.
  induction dl as [|d dl IH]; intros s Hp; [done|].
  rewrite fmap_cons in Hp. apply not_elem_of_cons in Hp as [Hne Hp].
  rewrite dirs_load_cons, IH by done.
  change (<[path d := conv (swatcher d)]> (watchers s) !! p = watchers s !! p).
  by rewrite lookup_insert_ne.
Qed.

Lemma dirs_load_registered dl d : forall s,
  NoDup (path <$> dl) -> d ∈ dl ->
  watchers (dsload dl s) !! path d = Some (conv (swatcher d)).
Proof.
  induction dl as [|a dl IH]; intros s Hnd Hd; [by apply elem_of_nil in Hd|].
  rewrite fmap_cons in Hnd. apply NoDup_cons in Hnd as [Ha Hnd].
  rewrite dirs_load_cons.
  apply elem_of_cons in Hd as [-> | Hd]; [|by apply IH].
  rewrite dirs_load_unregistered by done.
  change (<[path a := conv (swatcher a)]> (watchers s) !! path a
          = Some (conv (swatcher a))).
  apply lookup_insert_eq.
Qed.

Lemma dirs_load_other dl q : forall s,
  (forall d, d ∈ dl -> q ∉ realpath <$> spaths d) ->
  cache (dsload dl s) !! q = cache s !! q.
Proof.
  induction dl as [|d dl IH]; intros s Hq; [done|].
  rewrite dirs_load_cons, IH by (intros d' Hd'; apply Hq; by right).
  apply dir_load_other, Hq. by left.
Qed.

Lemma dirs_unload_unregistered dl p : forall s,
  p ∉ path <$> dl -> watchers (dsunload dl s) !! p = watchers s !! p.
Proof.
  induction dl as [|d dl IH]; intros s Hp; [done|].
  rewrite fmap_cons in Hp. apply not_elem_of_cons in Hp as [Hne Hp].
  rewrite dirs_unload_cons, IH by done.
  change (delete (path d) (watchers s) !! p = watchers s !! p).
  by rewrite lookup_delete_ne.
Qed.

Lemma dirs_unload_released dl p : forall s,
  p ∈ path <$> dl \/ watchers s !! p = None ->
  watchers (dsunload dl s) !! p = None.
Proof.
  induction dl as [|d dl IH]; intros s Hp.
  - destruct Hp as [Hp | Hp]; [by apply elem_of_nil in Hp | done].
  - rewrite dirs_unload_cons. apply IH.
    change (watchers (dunload d s)) with (delete (path d) (watchers s)).
    rewrite fmap_cons in Hp.
    destruct Hp as [[-> | Hp]%elem_of_cons | Hp].
    + right. apply lookup_delete_eq.
    + by left.
    + right. apply lookup_delete_None. by right.
Qed.

Lemma dirs_unload_other dl q : forall s,
  (forall d, d ∈ dl -> q ∉ spaths d) ->
  cache (dsunload dl s) !! q = cache s !! q.
Proof.
  induction dl as [|d dl IH]; intros s Hq; [done|].
  rewrite dirs_unload_cons, IH by (intros d' Hd'; apply Hq; by right).
  apply dir_unload_other, Hq. by left.
Qed.

Lemma dirs_unload_gone dl q : forall s,
  (exists d, d ∈ dl /\ q ∈ spaths d) \/ cache s !! q = None ->
  cache (dsunload dl s) !! q = None.
Proof.
  induction dl as [|d dl IH]; intros s Hq.
  - destruct Hq as [(d & Hd & _) | Hq]; [by apply elem_of_nil in Hd | done].
  - rewrite dirs_unload_cons. apply IH.
    destruct Hq as [(d' & [-> | Hd']%elem_of_cons & Hq) | Hq].
    + right. by apply dir_unload_gone.
    + left. by exists d'.
    + right. by apply dir_unload_stays.
Qed.

Lemma dirs_unload_inspectable U dl : forall s,
  inspectable_on U (cache s) -> inspectable_on U (cache (dsunload dl s)).
Proof.
  induction dl as [|d dl IH]; intros s H; [done|].
  rewrite dirs_unload_cons. by apply IH, dir_unload_inspectable.
Qed.

Section Loads.

Hypothesis Hloader :
  forall p x, loader p = LoadOk x -> inspectable x = true.

Lemma dir_load_inspectable U d s :
  inspectable_on U (cache s) -> inspectable_on U (cache (dload d s)).
Proof.
  intros H.
  change (inspectable_on U
            (cache (load_all loader realpath (spaths d)
                      (emit [Opened (path d ++ "/.")%string] s)))).
  by apply load_all_inspectable.
Qed.

Lemma dirs_load_inspectable U dl : forall s,
  inspectable_on U (cache s) -> inspectable_on U (cache (dsload dl s)).
Proof.
  induction dl as [|d dl IH]; intros s H; [done|].
  rewrite dirs_load_cons. by apply IH, dir_load_inspectable.
Qed.

End Loads.

Lemma dirs_load_cached dl q x : forall s,
  cache s !! q = Some x -> cache (dsload dl s) !! q = Some x.
Proof.
  induction dl as [|d dl IH]; intros s Hq; [done|].
  rewrite dirs_load_cons. apply IH.
  change (cache (load_all loader realpath (spaths d)
                   (emit [Opened (path d ++ "/.")%string] s)) !! q = Some x).
  by apply load_all_cached.
Qed.

Lemma dirs_load_known dl q x : forall s,
  loader q = LoadOk x ->
  (exists d, d ∈ dl /\ q ∈ realpath <$> spaths d) ->
  cache s !! q = None \/ cache s !! q = Some x ->
  cache (dsload dl s) !! q = Some x.
Proof.
  induction dl as [|a dl IH]; intros s Hl (d & Hd & Hq) Hc;
    [by apply elem_of_nil in Hd|].
  rewrite dirs_load_cons.
  destruct (decide (q ∈ realpath <$> spaths a)) as [Hqa | Hqa].
  - apply dirs_load_cached.
    change (cache (load_all loader realpath (spaths a)
                     (emit [Opened (path a ++ "/.")%string] s)) !! q
            = Some x).
    by apply load_all_known.
  - apply elem_of_cons in Hd as [-> | Hd]; [done|].
    apply IH; [done | by exists d |]. by rewrite dir_load_other.
Qed.

(** *** The closures on the directories of a target *)

Lemma adder_directory_step n d s :
  isFile d = false -> isDirectory d = true ->
  truthy (get (watchers s) (path d)) = false ->
  NoDup (readdir (path d)) ->
  call (S (S n)) adder (VInfo d) s = Returned (dload d s).
Proof.
  intros Hfile Hdir Hnone Hnd.
  destruct (adder_loads_directory loader realpath readdir stat realname n d s
              Hfile Hdir Hnone Hnd) as (_ & _ & Hrun).
  exact Hrun.
Qed.

Lemma replay_dir_adds n dl : forall s,
  (forall d, d ∈ dl ->
     isFile d = false /\ isDirectory d = true
     /\ NoDup (readdir (path d))
     /\ truthy (get (watchers s) (path d)) = false) ->
  NoDup (path <$> dl) ->
  rep (S (S n)) (adds dl) s = Returned (dsload dl s).
Proof.
  induction dl as [|d dl IH]; intros s H Hnd; [done|].
  rewrite fmap_cons in Hnd. apply NoDup_cons in Hnd as [Hd Hnd].
  destruct (H d) as (Hfile & Hdir & Hrd & Hnone); [by left|].
  unfold replay in *.
  change (adds (d :: dl)) with (Call onAdd (VInfo d) :: adds dl).
  rewrite for_of_cons.
  change (perform (call (S (S n))) (fun h => emit [Opened h])
            (fun h => emit [Closed h]) engine_closure
            (Call onAdd (VInfo d)) s)
    with (call (S (S n)) adder (VInfo d) s).
  rewrite adder_directory_step by done. rewrite bind_Returned.
  rewrite dirs_load_cons. apply IH; [|done].
  intros d' Hd'. destruct (H d') as (? & ? & ? & Hnone'); [by right|].
  split_and!; try done.
  apply truthy_get_false in Hnone' as [Hu Hi]. apply truthy_get_false.
  split; [|done].
  change (<[path d := conv (swatcher d)]> (watchers s) !! path d' = None).
  rewrite lookup_insert_ne; [done|].
  intros Heq. apply Hd. rewrite Heq. by apply list_elem_of_fmap_2.
Qed.

Lemma replay_dir_removes m U dl : forall s,
  (forall d, d ∈ dl ->
     isFile d = false /\ isDirectory d = true
     /\ NoDup (readdir (path d))
     /\ watchers s !! path d = Some (conv (swatcher d))
     /\ forall q, q ∈ spaths d -> U q) ->
  NoDup (path <$> dl) ->
  inspectable_on U (cache s) ->
  rep (S (S m)) (removes dl) s = Returned (dsunload dl s).
Proof.
  induction dl as [|d dl IH]; intros s H Hnd Hins; [done|].
  rewrite fmap_cons in Hnd. apply NoDup_cons in Hnd as [Hd Hnd].
  destruct (H d) as (Hfile & Hdir & Hrd & Hreg & HU); [by left|].
  unfold replay in *.
  change (removes (d :: dl)) with (Call onRemove (VInfo d) :: removes dl).
  rewrite for_of_cons.
  change (perform (call (S (S m))) (fun h => emit [Opened h])
            (fun h => emit [Closed h]) engine_closure
            (Call onRemove (VInfo d)) s)
    with (call (S (S m)) remover (VInfo d) s).
  rewrite (remover_unloads_directory loader realpath readdir stat realname m d s)
    by (try done; intros f x Hf; apply Hins, HU; by apply list_elem_of_fmap_2).
  rewrite bind_Returned, dirs_unload_cons.
  apply IH; [|done|by apply dir_unload_inspectable].
  intros d' Hd'. destruct (H d') as (? & ? & ? & Hreg' & ?); [by right|].
  split_and!; try done.
  change (delete (path d) (watchers s) !! path d' = Some (conv (swatcher d'))).
  rewrite lookup_delete_ne; [done|].
  intros Heq. apply Hd. rewrite Heq. by apply list_elem_of_fmap_2.
Qed.

(** *** What a target holds *)

Lemma root_files_elem t f :
  f ∈ rfiles t -> isFile f = true /\ path f = path_join t (name f).
Proof.
  intros [He Hf]%list_elem_of_filter.
  apply Is_true_true, andb_true_iff in He as [He _]. split; [done|].
  pose proof (scan_elem _ _ _ _ Hf) as Hf'. by rewrite Hf' at 1.
Qed.

Lemma root_dirs_elem t d :
  d ∈ rdirs t ->
  isFile d = false /\ isDirectory d = true
  /\ path d = path_join t (name d).
Proof.
  intros [He Hd]%list_elem_of_filter.
  apply Is_true_true, andb_true_iff in He as [He _].
  pose proof (scan_elem _ _ _ _ Hd) as Hd'. simpl wpath in Hd'.
  split_and!; [|done|by rewrite Hd' at 1].
  rewrite Hd' in He |- *. simpl in *.
  by destruct (stat (path_join t (name d))) as [[]|].
Qed.

Lemma root_files_names t :
  NoDup (readdir t) ->
  NoDup (name <$> rfiles t) /\ StronglySorted String.le (name <$> rfiles t).
Proof.
  intros Hnd. split.
  - apply fmap_filter_NoDup. by apply scan_NoDup.
  - apply fmap_filter_sorted, scan_sorted.
Qed.

Lemma root_dirs_names t :
  NoDup (readdir t) ->
  NoDup (name <$> rdirs t) /\ StronglySorted String.le (name <$> rdirs t).
Proof.
  intros Hnd. split.
  - apply fmap_filter_NoDup. by apply scan_NoDup.
  - apply fmap_filter_sorted, scan_sorted.
Qed.

Lemma root_dirs_paths t : NoDup (readdir t) -> NoDup (path <$> rdirs t).
Proof.
  intros Hnd. apply (paths_NoDup t); [|by apply root_dirs_names].
  intros d Hd. by apply root_dirs_elem.
Qed.

(** *** [#run] and [#stop] on a target, as steps *)

Lemma run_target_loads n t s :
  watchers s !! t = Some (RunWatcher.new t true) ->
  NoDup (readdir t) ->
  (forall d, d ∈ rdirs t ->
     NoDup (readdir (path d))
     /\ truthy (get (watchers s) (path d)) = false) ->
  run_target loader realpath readdir stat realname (S (S n)) t s
  = Returned (target_load loader realpath readdir stat realname t s).
Proof.
  intros Hreg Hnd Hdirs.
  set (w0 := RunWatcher.new (C := cb) t true).
  set (h := (t ++ "/.")%string).
  unfold run_target. rewrite (get_Some _ _ _ Hreg). simpl directories.
  assert (HA : watch rec_call rec_watch realname onAdd onRemove (readdir t)
                 stat (w0, [])
               = Returned
                   (root_watching readdir stat realname t,
                    [] ++ NativeOpen h :: adds (rfiles t) ++ adds (rdirs t)))
    by exact (watch_rec realname w0 (readdir t) stat [] eq_refl Hnd).
  pose proof (mirrors_watch (call (S (S n))) (fun h => emit [Opened h])
                (fun h => emit [Closed h]) engine_closure realname
                onAdd onRemove (readdir t) stat w0 [] s) as Hm.
  apply (mirrors_when_Returned _ _ _ _ [] s _ _ _
           (NativeOpen h :: adds (rfiles t) ++ adds (rdirs t)) HA) in Hm.
  apply (agrees_when_Returned _ _ _ _ _ _ _ _
           (dsload (rdirs t)
              (load_all loader realpath (path <$> rfiles t) (emit [Opened h] s))))
    in Hm.
  2:{ etransitivity;
        [apply (replay_app _ _ _ _ [NativeOpen h]
                  (adds (rfiles t) ++ adds (rdirs t)))|].
      change (rep (S (S n)) [NativeOpen h] s)
        with (Returned (emit [Opened h] s)).
      rewrite bind_Returned, replay_app.
      rewrite (replay_adds loader realpath readdir stat realname (S n))
        by (apply Forall_forall; intros f Hf; by apply (root_files_elem t)).
      rewrite bind_Returned. apply replay_dir_adds.
      - intros d Hd. destruct (root_dirs_elem t d Hd) as (? & ? & _).
        destruct (Hdirs d Hd) as [? Hnone]. split_and!; try done.
        by rewrite load_all_watchers.
      - by apply root_dirs_paths. }
  unfold with_watcher.
  etransitivity;
    [exact (f_equal
              (lift (fun '(w1, s') =>
                       set_watchers (<[t := w1]> (watchers s')) s'))
              Hm)|].
  by rewrite lift_Returned.
Qed.

Lemma stop_target_unloads m U t s :
  watchers s !! t = Some (conv (root_watching readdir stat realname t)) ->
  NoDup (readdir t) ->
  (forall d, d ∈ rdirs t ->
     NoDup (readdir (path d))
     /\ watchers s !! path d = Some (conv (swatcher d))
     /\ forall q, q ∈ spaths d -> U q) ->
  (forall f, f ∈ rfiles t -> U (path f)) ->
  inspectable_on U (cache s) ->
  stop_target loader realpath readdir stat realname (S (S m)) t s
  = Returned (target_unload readdir stat realname t s).
Proof.
  intros Hreg Hnd Hdirs Hfiles Hins.
  set (w0 := RunWatcher.new (C := cb) t true).
  set (h := (t ++ "/.")%string).
  set (w1 := root_watching readdir stat realname t) in *.
  destruct (root_files_names t Hnd) as [Hnf Hsf].
  destruct (root_dirs_names t Hnd) as [Hndd Hsd].
  unfold stop_target. rewrite (get_Some _ _ _ Hreg). simpl directories.
  assert (Hok : tracked_ok realname w1)
    by (apply (watch_idle_tracked_ok realname w0 (readdir t) stat h);
        [by repeat split | done]).
  assert (HA : RunWatcher.stop rec_call rec_close (w1, [])
               = Returned
                   (root_stopped t,
                    [] ++ NativeClose h :: removes (reverse (rdirs t))
                       ++ removes (reverse (rfiles t)))).
  { apply (stop_rec realname w1 h (rdirs t) (rfiles t) [] Hok eq_refl eq_refl).
    - change (tracked_dirs w1) with (insert_all ∅ (rdirs t)).
      rewrite sort_keys_insert_all by done. by apply entries_at_insert_all.
    - change (files w1) with (insert_all ∅ (rfiles t)).
      rewrite sort_keys_insert_all by done. by apply entries_at_insert_all. }
  pose proof (mirrors_stop (call (S (S m))) (fun h => emit [Opened h])
                (fun h => emit [Closed h]) engine_closure w1 [] s) as Hm.
  apply (mirrors_when_Returned _ _ _ _ [] s _ _ _
           (NativeClose h :: removes (reverse (rdirs t))
              ++ removes (reverse (rfiles t))) HA) in Hm.
  apply (agrees_when_Returned _ _ _ _ _ _ _ _
           (unload_all (reverse (path <$> rfiles t))
              (dsunload (reverse (rdirs t)) (emit [Closed h] s)))) in Hm.
  2:{ etransitivity;
        [apply (replay_app _ _ _ _ [NativeClose h]
                  (removes (reverse (rdirs t))
                     ++ removes (reverse (rfiles t))))|].
      change (rep (S (S m)) [NativeClose h] s)
        with (Returned (emit [Closed h] s)).
      rewrite bind_Returned, replay_app.
      rewrite (replay_dir_removes m U).
      - rewrite bind_Returned, <- fmap_reverse.
        apply (replay_removes loader realpath readdir stat realname (S m)).
        + apply Forall_forall. intros f Hf. rewrite elem_of_reverse in Hf.
          by apply (root_files_elem t).
        + intros f x Hf. rewrite elem_of_reverse in Hf.
          apply (dirs_unload_inspectable U (reverse (rdirs t))
                   (emit [Closed h] s) Hins (path f) x).
          by apply Hfiles.
      - intros d Hd. rewrite elem_of_reverse in Hd.
        destruct (root_dirs_elem t d Hd) as (? & ? & _).
        destruct (Hdirs d Hd) as (? & ? & ?). by split_and!.
      - rewrite fmap_reverse, reverse_Permutation. by apply root_dirs_paths.
      - done. }
  unfold with_watcher.
  etransitivity;
    [exact (f_equal
              (lift (fun '(w2, s') =>
                       set_watchers (<[t := w2]> (watchers s')) s'))
              Hm)|].
  by rewrite lift_Returned.
Qed.

Lemma fmap_fixed (l : list string) :
  (forall q, q ∈ l -> realpath q = q) -> realpath <$> l = l.
Proof.
  induction l as [|q l IH]; intros H; [done|].
  rewrite fmap_cons, (H q) by (by left). f_equal. apply IH.
  intros q' Hq'. apply H. by right.
Qed.


End Restart.

Lemma demo_srv_NoDup : NoDup (demo_fs_readdir "/srv").
Proof. apply (bool_decide_unpack _). by vm_compute. Qed.

Lemma demo_loader_inspectable p x :
  demo_loader p = LoadOk x -> inspectable x = true.
Proof.
  unfold demo_loader. destruct (String.eqb _ _); [done|]. by intros [= <-].
Qed.

Lemma demo_root_dirs :
  root_dirs demo_fs_readdir demo_fs_stat "/srv" = [demo_dir].
Proof. by vm_compute. Qed.

Lemma demo_loaded_real q :
  q ∈ loaded_paths demo_fs_readdir demo_fs_stat demo_realname "/srv" ->
  demo_realpath q = q.
Proof.
  assert (Hl : loaded_paths demo_fs_readdir demo_fs_stat demo_realname "/srv"
               = ["/srv/a.js"; "/srv/plugins/bad.js"; "/srv/plugins/x.js"]%string)
    by (by vm_compute).
  rewrite Hl. intros Hq.
  repeat (apply elem_of_cons in Hq as [-> | Hq]; [reflexivity|]).
  by apply elem_of_nil in Hq.
Qed.

